(* ===== verification/_CoqProject ===== *)
-Q . S2P
Prelude.v
Float64.v
SqlAst.v
NaiveDate.v
DateInterval.v
BooleanAnalyzer.v
MacroCall.v
LogicalPlan.v
PlanBuilder.v
PlanMeaning.v
PlanColumns.v
StageSqlGen.v
SqlRoundTrip.v
Discovery.v
Transform.v
Admission.v
LdpTypes.v
TopoOrder.v
Policy.v
Requirements.v
ExchangeSelect.v
Metadata.v
Annotate.v
Enforce.v
OrderByColumns.v
Cut.v
CutShape.v
CutCorrect.v
CutPlan.v
CutSql.v
BuiltPlans.v
ProtoConvert.v
ResultStore.v
Pipeline.v
Arrow.v
DuckDb.v
EpochEngine.v
HashPartition.v
ExchangeRuntime.v
StageExec.v
StageSql.v
Distributed.v
Coordinator.v
CoordinatorRun.v
LocalRun.v
Pipelined.v
PipelinedInv.v
PipelinedLive.v
PipelinedPlan.v
QueryRun.v
QueryEngine.v
FlightTicket.v
FlightService.v
ControlPlane.v
Dispatcher.v
Session.v
ConnPool.v
Decimal.v
Loader.v
JdbcShutdown.v
Cli.v
Metrics.v
Performance.v
Adaptive.v
StorageMetadata.v
DuckPool.v
