(* ===== verification/Prelude.v ===== *)
(** * Verification of the Leibrix worker

    The worker answers SQL over tables whose time epochs are spread over a
    cluster.

    - The control plane (src/worker-cp) assigns epochs to workers.  The
      dispatcher loads an epoch through the storage engine, registers its
      dataset with the SQL layer and creates the dataset's scan macro.
    - The engine thread (src/worker-storage/src/engine) owns the DuckDB
      connection: it creates the tables of epochs, buffers and flushes their
      batches, and keeps the catalog of committed epochs.
    - The SQL layer (src/worker-storage/src/sql) admits a query, discovers its
      tables, finds the date interval of every registered table in the WHERE
      clause and replaces the table by a call of its scan macro.  It also builds
      logical plans and prints the SQL of stages.
    - The distributed planner (src/worker-storage/src/ldp/planner) annotates
      the logical plan with the distribution of its data, inserts exchanges
      where an operator needs another distribution, and cuts the plan into
      stages at the exchanges; the plan then travels as a protobuf message.
    - The executor (src/worker-storage/src/ldp/executor) runs the stages: the
      coordinator groups them into levels, resolves the inputs of a stage
      through the exchanges, submits it to its workers, again after a transient
      error, and keeps what they produced under tickets, in a cache with a time
      to live.

    ** Files

    Each file models the source it names; a definition has the name of the
    function it translates, and a [struct] is a [Record] with its fields (with a
    prefix where Rocq needs distinct names).

    - [Prelude]: machine integers, [Result] and panics, strings and vectors,
      the tactics [bool_hyps] and [inv_bind] and the hint database [worker].
    - [Float64]: IEEE 754 doubles for the planner's estimates.
    - [SqlAst]: the sqlparser syntax tree the worker inspects; [NaiveDate]:
      chrono's dates as a class of operations with a class of laws, and the
      Gregorian calendar as an instance.
    - [DateInterval] (sql/interval.rs), [BooleanAnalyzer]
      (sql/boolean_analyzer.rs), [MacroCall] and [Transform]
      (sql/transformer.rs, sql/types.rs), [Discovery] (sql/discovery.rs,
      sql/parser.rs), [Admission] (sql/admission.rs).
    - [LogicalPlan] (sql/logical_plan.rs), [PlanBuilder]
      (sql/plan_builder.rs) with [PlanMeaning], the meaning of queries and
      plans, and [PlanColumns], the keys and referenced columns; [StageSqlGen]
      (sql/stage_sql_gen.rs) with [SqlRoundTrip].
    - [LdpTypes] (ldp/types.rs) with the topological order, whose correctness
      is in [TopoOrder].
    - [Policy], [Requirements], [ExchangeSelect], [Metadata], [Annotate] (the
      files of ldp/planner of the same names; [Metadata] also has
      storage_metadata.rs); [Enforce] has the specification of the annotated
      plan and the theorems on it.
    - [OrderByColumns] and [Cut] (ldp/planner/cut.rs); [CutShape] has the trees
      that can be cut, [CutCorrect] the invariant of the recursion, [CutPlan]
      the contract of the finished plan, [CutSql] the SQL of its stages,
      [BuiltPlans] which built plans can be cut.
    - [ProtoConvert] (ldp/proto_convert.rs), [ResultStore]
      (ldp/executor/result_store.rs), [Pipeline] (ldp/planner/pipeline.rs,
      inspect.rs), which composes parsing, plan building, annotation and
      cutting.
    - [Arrow]: record batches as a class with laws and a table as its instance;
      the default hasher as a class, with SipHash-1-3 as its instance.
    - [DuckDb] (engine/duckdb/helper.rs, arrow_utils.rs): the database as a
      class of operations with a class of laws, an in-memory instance, column
      types, statements and the registration of batches; [EpochEngine]
      (engine/duckdb/memory_duckdb_runtime.rs, storage_engine_impl.rs): the
      engine thread as a fold over its commands.
    - [HashPartition] (ldp/executor/exchange.rs: columns, hashing, splitting;
      ldp/executor/skew.rs), [ExchangeRuntime] (ldp/executor/exchange.rs: the
      local runtime; tickets of stage.rs), [StageExec] (ldp/executor/stage.rs,
      monitor.rs), [Distributed] (ldp/executor/exchange.rs: the runtime between
      workers; flight.rs: the ticket cache; coordinator.rs: resolution of
      inputs), [Coordinator] (ldp/executor/coordinator.rs: levels and retries).
    - [ControlPlane] (worker-cp: types.rs, proto_convert.rs and the conversions
      of runtime_dispatcher.rs), [Dispatcher] (worker-cp:
      runtime_dispatcher.rs): commands and load tasks as a step relation between
      the awaits, against the interface [StorageEngine].
    - [StageSql] (ldp/executor/stage.rs: running the SQL of a stage; the same
      in worker-flight/src/service.rs), [QueryEngine] (engine/query_engine.rs,
      engine/duckdb/query_engine_impl.rs), [FlightTicket]
      (worker-flight/src/ticket.rs), [FlightService]
      (worker-flight/src/service.rs): requests, blocking jobs, cancellation and
      eviction as a step relation, against the interface [QueryEngine].
    - [CoordinatorRun] (ldp/executor/coordinator.rs: execute_local,
      execute_distributed, status and cancellation; ldp/executor/mod.rs:
      LdpExecutor): the futures of a level as a step relation over an interface
      [Backend] with a local and a Flight instance; [LocalRun] is what a local
      run leaves behind.
    - [Pipelined] (ldp/executor/coordinator.rs: execute_pipelined,
      ldp/executor/stage.rs: submit_stage_streaming): wiring, and the tasks of
      all stages with their bounded channels as a step relation; [PipelinedInv]
      is its invariant, [PipelinedLive] progress and the bound on its steps,
      [PipelinedPlan] the wiring of the plans of the cut.
    - [QueryRun] (ldp/executor/coordinator.rs: execute_query and what it calls):
      the phases of a query composed.
    - [Session] (worker-cp/src/session.rs, config.rs, error.rs, dispatch.rs):
      registration and the send and receive tasks of the control plane session
      as a step relation, over an interface [TaskDispatcher] of which the
      runtime dispatcher is an instance.
    - [ConnPool] (ldp/executor/flight.rs): the client of a worker and the pool
      of connections, calls interleaving at their awaits; the answers of the
      network are arguments of the steps.
    - [Loader] (loader/mod.rs, types.rs and loader/starrocks): adapters,
      clients, the rows of a query and the batches built of them, and a load as
      what is sent to the engine; [Decimal] (jdbc_client.rs) reads decimals,
      [JdbcShutdown] (jdbc_client.rs) closes a client among its queries.
    - [Cli] (worker-cli, worker-flight/src/server.rs and config.rs): arguments,
      configurations, the start of the process and its loop.
    - [Metrics], [Performance], [Adaptive] (ldp/executor/metrics.rs,
      performance.rs, adaptive.rs): measurements and their registries, the
      advice made of them, and adaptive splits.
    - [StorageMetadata] (ldp/planner/storage_metadata.rs): placements refreshed
      from the storage engine, over the cluster metadata of [Metadata].
    - [DuckPool] (engine/duckdb/pool.rs, mod.rs): settings and the pool of
      DuckDB connections behind its semaphore.

    ** What the theorems show

    - Date pruning is safe: [intersect] and [union] are set intersection and
      hull on literals, the extracted interval contains every row the WHERE
      clause accepts, and the macro call keeps every such row dated inside the
      wide-scan window.  Placeholders, self-joins and dates outside the window
      are shown to break this.
    - The rewriting replaces every registered table the discovery finds, which
      are exactly those of the query; admission accepts exactly the queries
      with a predicate on the time column of every table it looks at.
    - Plan building keeps the meaning of well scoped queries for every meaning
      of the operators; flat queries come back as their own text; referenced
      columns and join keys are exactly those the query uses.  Shadowing
      expressions, nested aggregates, DISTINCT and nested set operations are
      shown to be planned or printed wrongly.
    - Annotation enforces: every operator input has the required distribution;
      exchanges are inserted only where needed and within the limits of the
      policy; the only errors are justified rejections, and without limits there
      are none.  The exceptions (a broadcast that is skipped, worker sets that
      are not compared, the safety factor applied twice) are theorems too.
    - Cutting is total on the annotator's plans and yields a tree of stages
      whose inputs, outputs, workers, SQL and partition maps agree with the
      exchanges; the executor's order exists and runs every stage once.  From
      text to stages: a well scoped query is planned.  An ORDER BY over UNION
      ALL is shown to lose an input.
    - The wire format round-trips, with the exact condition and the exact
      errors.  The result cache refines a log of its operations, also beside its
      cleanup task, up to one race.
    - Epochs are loaded exactly: in every interleaving with other commands a
      load is answered once, and on success the table holds the rows of its
      stream, for every flush threshold.  Duplicate loads and failed streams
      are shown to mix rows.  Column types are read back as written and the
      tables of exchange inputs hold exactly their batches.
    - The dispatcher runs at most the allowed number of loads, never leaks a
      permit, and with a well-behaved control plane agrees with the storage on
      what is loaded; lost evictions, a drain that does not wait and a forgotten
      epoch are shown by runs.  Assignments are rejected exactly for missing
      fields.
    - Exchanges deliver: a gather is complete or fails; a hash exchange over
      batches without skew gives every row to exactly one worker and rows with
      equal keys to the same one, locally and between workers; what a stage
      stores is what its tickets serve.  A skewed batch is shown to lose all but
      one row per partition, a partitioned stage to lose its remote tickets, a
      broadcast between workers to read one source only, and a partitioned stage
      without rows to lose its schema.
    - Scheduling: the levels of a plan hold every stage once, after its sources,
      and exist for every cut plan; retries are bounded and stop at the first
      error that is not transient.
    - Serving: the SQL of a stage sees exactly its inputs in addition to the
      database and leaves other tables as they are; a query stream without an
      error, a slow reader or a timeout is complete; a reader of the Flight
      service gets, for its own tenant, the answer to the SQL of the stage it
      names, after any interleaving.  The ticket a submission answers with is
      shown to be refused, a running stage not to be reached by a cancellation,
      and a slow reader to get a part that looks like the whole.
    - Execution of a plan: the futures of a level end; a local run that answers
      solves the equations of the plan, in every interleaving; the streaming
      pipeline computes what the stages compute one after the other, never
      deadlocks and ends; a query's answer is that of its plan.  Streaming is
      shown to fail on every plan that scans a table.
    - The session: what the worker reports arrives once and in order, commands
      are dispatched in order, the status follows the tasks and both end after
      a disconnection; a command sent as the first message is lost.
    - Sources: a load from a JDBC source stores exactly the rows of the source,
      through the engine's commands; a query that fails midway is shown to be
      committed as if the source had ended there.  Decimals are read exactly.
      A shutdown that reports no aborted query leaves no task behind, except for
      queries between their check and their count.
    - Connections: a call of the pool uses a connection of its own worker that
      is new, young or healthy, and calls end unless a removal has blocked every
      thread; the cap holds for calls that do not overlap.  The semaphore of the
      DuckDB pool loses no permit.
    - The process: it starts or reports an error but does not panic, and it ends
      with an error when the session is disconnected.
    - Around the executor: the registries answer with the last measurement of
      just the query and stage asked for, the totals of a query are those of its
      stages, an analysis finds exactly what its thresholds say, an adaptive
      split keeps every row, and a refresh of the placements plans with what the
      engine holds.

    ** Choices

    - Overflow: the workspace does not enable overflow checks in release
      builds, so [u64] arithmetic wraps; ids are [u32] and the theorems on
      cutting assume that the stages fit.
    - Recursion over rewritten trees is bounded by a counter: cutting gets the
      height of the tree, which every call decreases; the topological order gets
      the number of stages and edges, one of which every iteration consumes;
      plan building gets a bound on the expansion of common table expressions,
      which exists for well scoped queries.  The theorems show that the bounds
      suffice.  [Panic] and [OutOfFuel] are outcomes apart, so a theorem that a
      function returns excludes both.  The level loop gets one more than the
      number of stages, retries the number of submissions allowed.
    - Hash map iteration order is an argument where the code depends on it; in
      the executor the path of a call tells the maps of different calls apart.
    - Asynchronous code is a step relation or a fold over a sequence of steps
      cut at the awaits; what an await can answer is an argument of the step.
    - Arguments: the text of SQL expressions and the SQL parser, prost's byte
      encoding, Arrow batches and IPC, DuckDB, Flight, the clock, Unicode case
      and the decimal form of floats.  Classes state what the code relies on,
      and each has an instance.

    ** Not modelled

    The transport of the Flight server, the protobuf code that prost
    generates and its bytes, log lines and the text the plan inspector prints;
    the conversions between dates and milliseconds in storage_metadata.rs, which
    no code calls; the clusters and data generators of the integration tests
    (ldp/testing).  The network, DuckDB, sqlparser, Arrow, the database drivers,
    the pool crates and clap are interfaces or arguments.  Nothing is proved
    about time other than what the clocks of the models say, nor about
    memory. *)

From stdpp Require Export base gmap strings list fin_maps sorting.
From Stdlib Require Export ZArith Lia.

#[global] Set Default Goal Selector "!".

(** ** Machine integers

    Rust's [u32], [u64] are values of [Z] in range; the release profile of the
    workspace (Cargo.toml) does not turn overflow checks on, so [+] and [*]
    wrap. *)
Definition u32_modulus : Z := 2 ^ 32.
Definition u64_modulus : Z := 2 ^ 64.
Definition u64_max : Z := u64_modulus - 1.

Definition wrap32 (z : Z) : Z := z mod u32_modulus.
Definition wrap64 (z : Z) : Z := z mod u64_modulus.

Definition u64_add (a b : Z) : Z := wrap64 (a + b).
Definition u64_mul (a b : Z) : Z := wrap64 (a * b).

Definition in_u64 (z : Z) : Prop := (0 <= z < u64_modulus)%Z.
Definition in_u32 (z : Z) : Prop := (0 <= z < u32_modulus)%Z.

Lemma wrap64_in (z : Z) : in_u64 (wrap64 z).
Proof. apply Z.mod_pos_bound. reflexivity. Qed.

Lemma wrap64_small (z : Z) : in_u64 z -> wrap64 z = z.
Proof. apply Z.mod_small. Qed.

Lemma wrap32_small (z : Z) : in_u32 z -> wrap32 z = z.
Proof. apply Z.mod_small. Qed.

(** ** Results and panics

    [result] is Rust's [Result]; [outcome] is the result of code that may
    panic (an index out of range, an [unwrap] of [None]).  [OutOfFuel] is the
    model's own third case for recursion that is bounded by a counter: a
    theorem that a function returns says [Ret], so it excludes both. *)
Inductive result (A E : Type) : Type :=
| Ok (a : A)
| Err (e : E).
Arguments Ok {A E} a.
Arguments Err {A E} e.

Inductive outcome (A : Type) : Type :=
| Ret (a : A)
| Panic
| OutOfFuel.
Arguments Ret {A} a.
Arguments Panic {A}.
Arguments OutOfFuel {A}.

Definition result_bind {A B E} (m : result A E) (k : A -> result B E) : result B E :=
  match m with Ok a => k a | Err e => Err e end.

Definition outcome_bind {A B} (m : outcome A) (k : A -> outcome B) : outcome B :=
  match m with Ret a => k a | Panic => Panic | OutOfFuel => OutOfFuel end.

Definition of_option {A} (o : option A) : outcome A :=
  match o with Some a => Ret a | None => Panic end.

Declare Scope worker_scope.
Delimit Scope worker_scope with worker.
Notation "'let?' x ':=' m 'in' k" := (result_bind m (fun x => k))
  (at level 10, x pattern, m at level 100, k at level 200) : worker_scope.
Notation "'let!' x ':=' m 'in' k" := (outcome_bind m (fun x => k))
  (at level 10, x pattern, m at level 100, k at level 200) : worker_scope.
#[global] Open Scope worker_scope.

(** A computation that may fail with an error, panic or run out of fuel. *)
Definition run_bind {A B E} (m : outcome (result A E)) (k : A -> outcome (result B E)) : outcome (result B E) :=
  match m with
  | Ret (Ok a) => k a
  | Ret (Err e) => Ret (Err e)
  | Panic => Panic
  | OutOfFuel => OutOfFuel
  end.
Notation "'let^' x ':=' m 'in' k" := (run_bind m (fun x => k))
  (at level 10, x pattern, m at level 100, k at level 200) : worker_scope.

(** [for x in l { acc = f(acc, x)?; }]. *)
Definition fold_result {A B E} (f : A -> B -> result A E) : list B -> A -> result A E :=
  fix go l a := match l with [] => Ok a | b :: l => let? a' := f a b in go l a' end.

(** [for x in l { f(x)?; }]. *)
Definition for_each {A E} (f : A -> result unit E) : list A -> result unit E :=
  fix go l := match l with [] => Ok tt | a :: l => let? _ := f a in go l end.

(** [iter().map(f).collect::<Result<Vec<_>, _>>()]: the first error wins. *)
Fixpoint collect_results {A B E} (f : A -> result B E) (l : list A) : result (list B) E :=
  match l with
  | [] => Ok []
  | a :: l => let? b := f a in let? bs := collect_results f l in Ok (b :: bs)
  end.

Lemma collect_results_map {A B C E} (f : B -> result C E) (g : A -> B) (h : A -> C) (l : list A) :
  (forall a, f (g a) = Ok (h a)) -> collect_results f (map g l) = Ok (map h l).
Proof. intros H. induction l as [|a l IH]; simpl; [done|]. by rewrite H, IH. Qed.

Lemma collect_results_Forall2 {A B E} (f : A -> result B E) (l : list A) (bs : list B) :
  collect_results f l = Ok bs -> Forall2 (fun a b => f a = Ok b) l bs.
Proof.
  revert bs. induction l as [|a l IH]; intros bs; simpl; [by intros [= <-]|].
  destruct (f a) eqn:Hf; [|done]. simpl. destruct (collect_results f l); [|done].
  intros [= <-]. constructor; auto.
Qed.

Lemma for_each_Ok {A E} (f : A -> result unit E) (l : list A) :
  for_each f l = Ok tt <-> forall a, a ∈ l -> f a = Ok tt.
Proof.
  induction l as [|a l IH]; simpl; [split; [by intros _ a ?%not_elem_of_nil|done]|].
  destruct (f a) as [[]|e] eqn:Ef; simpl.
  - rewrite IH. split; [intros Hl b [->|Hb]%elem_of_cons; auto|]. intros Hl b Hb. apply Hl. by right.
  - split; [done|]. intros Hl. rewrite (Hl a ltac:(left)) in Ef. done.
Qed.

Lemma for_each_Err {A E} (f : A -> result unit E) (l : list A) (e : E) :
  for_each f l = Err e -> exists a, a ∈ l /\ f a = Err e.
Proof.
  induction l as [|a l IH]; simpl; [done|]. destruct (f a) as [[]|e'] eqn:Ef; simpl.
  - intros (b & Hb & Hf)%IH. exists b. split; [by right|done].
  - intros [= ->]. exists a. split; [left|done].
Qed.

(** ** Strings

    A Rust [String] is its bytes; [cmp] on it is the bytewise lexicographic
    order, which is [String.compare]. *)
Definition ascii_lower (c : Ascii.ascii) : Ascii.ascii :=
  let n := Ascii.nat_of_ascii c in
  if (65 <=? n)%nat && (n <=? 90)%nat then Ascii.ascii_of_nat (n + 32) else c.

(** Lower case of the ASCII letters, what [str::to_lowercase] does on ASCII
    text. *)
Fixpoint ascii_lowercase (s : string) : string :=
  match s with EmptyString => EmptyString | String c s => String (ascii_lower c) (ascii_lowercase s) end.

(** [str::eq_ignore_ascii_case]. *)
Fixpoint eq_ignore_ascii_case (s t : string) : bool :=
  match s, t with
  | EmptyString, EmptyString => true
  | String a s, String b t =>
      bool_decide (ascii_lower a = ascii_lower b) && eq_ignore_ascii_case s t
  | _, _ => false
  end.

(** [str::strip_prefix]. *)
Fixpoint strip_prefix (p s : string) : option string :=
  match p, s with
  | EmptyString, _ => Some s
  | String a p, String b s => if decide (a = b) then strip_prefix p s else None
  | String _ _, EmptyString => None
  end.

Lemma eq_ignore_ascii_case_refl (s : string) : eq_ignore_ascii_case s s = true.
Proof. induction s as [|a s IH]; simpl; [done|]. by rewrite bool_decide_eq_true_2. Qed.

Lemma eq_ignore_ascii_case_sym (s t : string) :
  eq_ignore_ascii_case s t = eq_ignore_ascii_case t s.
Proof.
  revert t; induction s as [|a s IH]; intros [|b t]; simpl; try done.
  rewrite IH. f_equal. apply bool_decide_ext. done.
Qed.

Lemma eq_ignore_ascii_case_trans (s t u : string) :
  eq_ignore_ascii_case s t = true -> eq_ignore_ascii_case t u = true ->
  eq_ignore_ascii_case s u = true.
Proof.
  revert t u; induction s as [|a s IH]; intros [|b t] [|c u]; simpl; try done.
  rewrite !andb_true_iff, !bool_decide_eq_true. intros [-> ?] [-> ?]. eauto.
Qed.

Lemma strip_prefix_append (p s : string) : strip_prefix p (p +:+ s) = Some s.
Proof. induction p as [|a p IH]; simpl; [done|]. by rewrite decide_True. Qed.

Lemma string_app_assoc (s t u : string) : (s +:+ t) +:+ u = s +:+ t +:+ u.
Proof.
  induction s as [|a s IH]; [done|]. change ((String a s +:+ t) +:+ u) with (String a ((s +:+ t) +:+ u)).
  rewrite IH. done.
Qed.

Lemma string_app_nil_r (s : string) : s +:+ "" = s.
Proof. induction s as [|a s IH]; [done|]. change (String a s +:+ "") with (String a (s +:+ "")). by rewrite IH. Qed.

(** [str::contains] with a string pattern. *)
Fixpoint str_contains (s needle : string) : bool :=
  match strip_prefix needle s with
  | Some _ => true
  | None => match s with EmptyString => false | String _ s' => str_contains s' needle end
  end.

(** [s.rsplit('.').next()]: the last dot-separated component. *)
Fixpoint after_last_dot (s : string) : string :=
  match s with
  | EmptyString => EmptyString
  | String c s' =>
      if str_contains s' "." then after_last_dot s'
      else if decide (Ascii.nat_of_ascii c = 46) then s' else s
  end.

Example after_last_dot_qualified : after_last_dot "db.o.total" = "total" /\ after_last_dot "total" = "total".
Proof. split; reflexivity. Qed.

(** ** Vectors *)

(** [Vec::dedup]: consecutive equal elements are collapsed. *)
Fixpoint vec_dedup {A} `{EqDecision A} (l : list A) : list A :=
  match l with
  | [] => []
  | a :: l' =>
      match l' with
      | b :: _ => if decide (a = b) then vec_dedup l' else a :: vec_dedup l'
      | [] => [a]
      end
  end.

Lemma elem_of_vec_dedup {A} `{EqDecision A} (x : A) (l : list A) :
  x ∈ vec_dedup l <-> x ∈ l.
Proof.
  induction l as [|a [|b l] IH]; [done|done|].
  change (vec_dedup (a :: b :: l)) with
    (if decide (a = b) then vec_dedup (b :: l) else a :: vec_dedup (b :: l)).
  case_decide; subst; rewrite ?elem_of_cons, IH, ?elem_of_cons; tauto.
Qed.

Lemma vec_dedup_StronglySorted {A} `{EqDecision A} (R : relation A) `{!AntiSymm (=) R} (l : list A) :
  StronglySorted R l -> StronglySorted R (vec_dedup l) /\ NoDup (vec_dedup l).
Proof.
  induction l as [|a [|b l] IH]; intros Hs; [split; constructor| |].
  { split; simpl; [repeat constructor|apply NoDup_singleton]. }
  apply StronglySorted_inv in Hs as [Hs Ha]. destruct (IH Hs) as [H1 H2].
  change (vec_dedup (a :: b :: l)) with
    (if decide (a = b) then vec_dedup (b :: l) else a :: vec_dedup (b :: l)).
  case_decide as Hab; [done|].
  assert (Hin : forall x, x ∈ vec_dedup (b :: l) -> R a x).
  { intros x Hx. rewrite elem_of_vec_dedup in Hx. by apply (proj1 (Forall_forall (R a) (b :: l)) Ha). }
  split; constructor; try done.
  - by apply Forall_forall.
  - intros Hx. rewrite elem_of_vec_dedup in Hx. apply StronglySorted_inv in Hs as [_ Hb].
    apply Hab. apply (anti_symm R); [apply Hin, elem_of_vec_dedup; left|].
    apply elem_of_cons in Hx as [->|Hx]; [apply Hin, elem_of_vec_dedup; left|].
    by apply (proj1 (Forall_forall (R b) l) Hb).
Qed.

(** Elements are told apart by a key without duplicates. *)
Lemma NoDup_map_inj {A B} (f : A -> B) (l : list A) (x y : A) :
  NoDup (map f l) -> x ∈ l -> y ∈ l -> f x = f y -> x = y.
Proof.
  induction l as [|a l IH]; simpl; [by intros _ ?%not_elem_of_nil|].
  intros [Hni Hnd]%NoDup_cons Hx Hy Heq. apply elem_of_cons in Hx as [->|Hx], Hy as [->|Hy]; auto.
  - destruct Hni. rewrite Heq. by apply list_elem_of_fmap_2.
  - destruct Hni. rewrite <- Heq. by apply list_elem_of_fmap_2.
Qed.

(** One element's share of a concatenation. *)
Lemma length_flat_map_elem {A B} (f : A -> list B) (l : list A) (a : A) :
  a ∈ l -> length (f a) <= length (flat_map f l).
Proof. induction 1; simpl; rewrite length_app; lia. Qed.

(** [workers.sort(); workers.dedup()] on a vector of strings. *)
Definition sort_dedup (l : list string) : list string :=
  vec_dedup (merge_sort String.le l).

Lemma elem_of_sort_dedup (x : string) (l : list string) : x ∈ sort_dedup l <-> x ∈ l.
Proof. unfold sort_dedup. by rewrite elem_of_vec_dedup, merge_sort_Permutation. Qed.

Lemma sort_dedup_NoDup (l : list string) : NoDup (sort_dedup l).
Proof. apply (vec_dedup_StronglySorted String.le), (StronglySorted_merge_sort String.le). Qed.

Lemma sort_dedup_sorted (l : list string) : StronglySorted String.le (sort_dedup l).
Proof. apply (vec_dedup_StronglySorted String.le), (StronglySorted_merge_sort String.le). Qed.

Lemma sort_dedup_nil (l : list string) : sort_dedup l = [] <-> l = [].
Proof.
  split; [|by intros ->]. intros H. destruct l as [|a l]; [done|].
  assert (Ha : a ∈ sort_dedup (a :: l)) by (apply elem_of_sort_dedup; left).
  rewrite H in Ha. by apply not_elem_of_nil in Ha.
Qed.

(** [Vec::sort_by_key] with a [u64] key: a stable sort. *)
Fixpoint insert_by_key {A} (key : A -> Z) (x : A) (l : list A) : list A :=
  match l with
  | [] => [x]
  | y :: l' => if (key x <=? key y)%Z then x :: l else y :: insert_by_key key x l'
  end.

Definition sort_by_key {A} (key : A -> Z) (l : list A) : list A := foldr (insert_by_key key) [] l.

Lemma insert_by_key_perm {A} (key : A -> Z) x l : insert_by_key key x l ≡ₚ x :: l.
Proof.
  induction l as [|y l IH]; simpl; [done|]. destruct (key x <=? key y)%Z; [done|].
  rewrite IH. apply Permutation_swap.
Qed.

Lemma sort_by_key_perm {A} (key : A -> Z) l : sort_by_key key l ≡ₚ l.
Proof. induction l as [|x l IH]; simpl; [done|]. by rewrite insert_by_key_perm, IH. Qed.

Definition key_le {A} (key : A -> Z) (x y : A) : Prop := (key x <= key y)%Z.

Lemma sort_by_key_sorted {A} (key : A -> Z) l : StronglySorted (key_le key) (sort_by_key key l).
Proof.
  induction l as [|x l IH]; simpl; [constructor|].
  induction IH as [|y l' Hs IHs Hy]; simpl; [repeat constructor|].
  destruct (Z.leb_spec (key x) (key y)); constructor.
  - by constructor.
  - constructor; [done|]. eapply Forall_impl; [done|]. unfold key_le. lia.
  - done.
  - rewrite insert_by_key_perm. constructor; [unfold key_le; lia|done].
Qed.

(** [str::parse::<u64>]: an optional [+], then decimal digits, in range. *)
Fixpoint digits_value (acc : Z) (s : string) : option Z :=
  match s with
  | EmptyString => Some acc
  | String c s =>
      let n := (Z.of_nat (Ascii.nat_of_ascii c) - 48)%Z in
      if ((0 <=? n) && (n <=? 9))%Z then
        let acc' := (acc * 10 + n)%Z in
        if (acc' <? u64_modulus)%Z then digits_value acc' s else None
      else None
  end.

Definition parse_u64 (s : string) : option Z :=
  match s with
  | EmptyString => None
  | String c s' =>
      if decide (Ascii.nat_of_ascii c = 43)
      then match s' with EmptyString => None | _ => digits_value 0 s' end
      else digits_value 0 s
  end.

Lemma digits_value_in (acc v : Z) (s : string) :
  in_u64 acc -> digits_value acc s = Some v -> in_u64 v.
Proof.
  revert acc; induction s as [|c s IH]; intros acc Ha; simpl; [by intros [= <-]|].
  repeat case_match; try done. apply IH. unfold in_u64 in *.
  match goal with H : (_ && _) = true |- _ => apply andb_true_iff in H as [?%Z.leb_le ?%Z.leb_le] end.
  match goal with H : (_ <? _)%Z = true |- _ => apply Z.ltb_lt in H end. lia.
Qed.

(** ** Automation *)

(** Split conjunctions of booleans in the context and the goal. *)
Ltac bool_hyps :=
  repeat match goal with
  | H : _ && _ = true |- _ => apply andb_true_iff in H as [? ?]
  | H : _ || _ = false |- _ => apply orb_false_iff in H as [? ?]
  | H : negb _ = true |- _ => apply negb_true_iff in H
  | H : negb _ = false |- _ => apply negb_false_iff in H
  | H : bool_decide _ = true |- _ => apply bool_decide_eq_true in H
  | H : bool_decide _ = false |- _ => apply bool_decide_eq_false in H
  | H : (_ <=? _)%Z = true |- _ => apply Z.leb_le in H
  | H : (_ <=? _)%Z = false |- _ => apply Z.leb_gt in H
  | H : (_ <? _)%Z = true |- _ => apply Z.ltb_lt in H
  | H : (_ <? _)%Z = false |- _ => apply Z.ltb_ge in H
  | H : (_ =? _)%Z = true |- _ => apply Z.eqb_eq in H
  | H : (_ =? _)%Z = false |- _ => apply Z.eqb_neq in H
  end.

(** Invert a bind in the error or panic monad. *)
Ltac inv_bind H :=
  match type of H with
  | result_bind ?m _ = Ok _ =>
      let E := fresh "E" in destruct m eqn:E; simpl in H; [|discriminate H]
  | outcome_bind ?m _ = Ret _ =>
      let E := fresh "E" in destruct m eqn:E; simpl in H; [|discriminate H|discriminate H]
  end.

Create HintDb worker.
#[export] Hint Resolve eq_ignore_ascii_case_refl strip_prefix_append sort_dedup_NoDup
  sort_dedup_sorted wrap64_in : worker.
