(* ===== verification/Float64.v ===== *)
(** * IEEE 754 double precision, as the planner's estimates use it

    Rust's [f64] operations are the standard ones in round-to-nearest-even;
    the Standard Library's [SpecFloat] is their executable definition.  The
    casts are Rust's [as]: [u64 as f64] rounds to nearest, [f64 as u64]
    truncates towards zero and saturates (NaN goes to 0). *)

From Stdlib Require Import SpecFloat.
From S2P Require Import Prelude.

#[local] Open Scope Z_scope.

Abbreviation f64 := spec_float.
Definition f64_prec : Z := 53.
Definition f64_emax : Z := 1024.

Definition f64_of_u64 (z : Z) : f64 := binary_normalize f64_prec f64_emax z 0 false.
Definition f64_mul (x y : f64) : f64 := SFmul f64_prec f64_emax x y.
Definition f64_sqrt (x : f64) : f64 := SFsqrt f64_prec f64_emax x.
Definition f64_div (x y : f64) : f64 := SFdiv f64_prec f64_emax x y.
Definition f64_add (x y : f64) : f64 := SFadd f64_prec f64_emax x y.
Definition f64_sub (x y : f64) : f64 := SFsub f64_prec f64_emax x y.

Definition f64_to_u64 (x : f64) : Z :=
  match x with
  | S754_zero _ | S754_nan => 0
  | S754_infinity s => if s then 0 else u64_max
  | S754_finite true _ _ => 0
  | S754_finite false m e => Z.min u64_max (Z.shiftl (Zpos m) e)
  end.

(** [(v as f64 * x) as u64]. *)
Definition f64_scale (v : Z) (x : f64) : Z := f64_to_u64 (f64_mul (f64_of_u64 v) x).

(** The constants of the source: 0.1, 0.5, 1.0, 1.1, 2.0 and 3.0. *)
Definition f64_0_1 : f64 := S754_finite false 7205759403792794 (-56).
Definition f64_0_5 : f64 := S754_finite false 4503599627370496 (-53).
Definition f64_1_0 : f64 := S754_finite false 4503599627370496 (-52).
Definition f64_1_1 : f64 := S754_finite false 4953959590107546 (-52).
Definition f64_2_0 : f64 := S754_finite false 4503599627370496 (-51).
Definition f64_3_0 : f64 := S754_finite false 6755399441055744 (-51).

Lemma f64_to_u64_in (x : f64) : in_u64 (f64_to_u64 x).
Proof.
  unfold in_u64, f64_to_u64, u64_max, u64_modulus.
  destruct x as [s|s| |[] m e]; try (split; [lia|]; reflexivity).
  - destruct s; split; try reflexivity; lia.
  - assert (0 <= Z.shiftl (Zpos m) e) by (apply Z.shiftl_nonneg; lia).
    change (2 ^ 64) with 18446744073709551616. lia.
Qed.

Lemma f64_scale_in (v : Z) (x : f64) : in_u64 (f64_scale v x).
Proof. apply f64_to_u64_in. Qed.

#[export] Hint Resolve f64_to_u64_in f64_scale_in : worker.
