(* ===== verification/SqlAst.v ===== *)
(** * The SQL syntax the worker inspects

    The types of the sqlparser crate, reduced to what the worker's code looks
    at: a constructor that some modelled function matches on is a constructor
    here with the fields those functions read; every other node of the crate's
    syntax is kept as an opaque node carrying its text, and the fields no
    function reads are kept together as the text [rest].  Nothing in the
    development depends on how an opaque node is chosen.

    Expressions, queries, set expressions, selects and table factors are
    mutually recursive, through lists, options and the small node types; the
    induction principle [ast_ind] carries the hypothesis through all of them. *)

From S2P Require Import Prelude.

#[local] Set Warnings "-register-all".

Record Ident := mkIdent { value : string; quote_style : option Ascii.ascii }.

(** [Ident::new]. *)
Definition Ident_new (s : string) : Ident := {| value := s; quote_style := None |}.

Inductive BinaryOperator :=
| OpAnd | OpOr | OpGtEq | OpGt | OpLt | OpLtEq | OpEq
| OpOther (text : string).

Inductive Value :=
| SingleQuotedString (s : string)
| Placeholder (p : string)
| ValueOther (text : string).

Inductive DataType := DataType_Date | DataType_Other (text : string).

(** [ObjectName]: its parts are identifiers, or functions of the dialect. *)
Inductive ObjectNamePart :=
| NameIdentifier (ident : Ident)
| NameOther (text : string).

Abbreviation ObjectName := (list ObjectNamePart).

(** The node types below are parametrised by the syntax they contain. *)
Inductive FunctionArg (E : Type) :=
| UnnamedExpr (e : E)
| NamedExpr (name : Ident) (e : E) (operator : string)
| ExprNamedExpr (name : E) (e : E) (operator : string)
| ArgOther (text : string).
Arguments UnnamedExpr {E} e.
Arguments NamedExpr {E} name e operator.
Arguments ExprNamedExpr {E} name e operator.
Arguments ArgOther {E} text.

Inductive FunctionArguments (E : Type) :=
| ArgsList (args : list (FunctionArg E)) (clauses : string)
| ArgsOther (text : string).
Arguments ArgsList {E} args clauses.
Arguments ArgsOther {E} text.

(** [WindowType]: an inline specification or the name of a window. *)
Inductive WindowType (E : Type) :=
| WindowSpec (partition_by : list E) (rest : string)
| NamedWindow (name : Ident).
Arguments WindowSpec {E} partition_by rest.
Arguments NamedWindow {E} name.

Inductive SelectItemOf (E : Type) :=
| SelUnnamedExpr (e : E)
| SelExprWithAlias (e : E) (alias : Ident)
| SelWildcard
| SelOther (text : string).
Arguments SelUnnamedExpr {E} e.
Arguments SelExprWithAlias {E} e alias.
Arguments SelWildcard {E}.
Arguments SelOther {E} text.

Record OrderByExprOf (E : Type) := mkOrderByExpr { ob_expr : E; ob_options : string }.
Arguments mkOrderByExpr {E} ob_expr ob_options.
Arguments ob_expr {E} o.
Arguments ob_options {E} o.

Inductive OrderByKind (E : Type) :=
| OrderByExpressions (exprs : list (OrderByExprOf E))
| OrderByAll (options : string).
Arguments OrderByExpressions {E} exprs.
Arguments OrderByAll {E} options.

Inductive GroupByExprOf (E : Type) :=
| GroupByAll (modifiers : string)
| GroupByExpressions (exprs : list E) (modifiers : string).
Arguments GroupByAll {E} modifiers.
Arguments GroupByExpressions {E} exprs modifiers.

Inductive LimitClause (E : Type) :=
| LimitOffset (limit : option E) (offset : option E) (limit_by : string)
| OffsetCommaLimit (offset limit : E).
Arguments LimitOffset {E} limit offset limit_by.
Arguments OffsetCommaLimit {E} offset limit.

Record Fetch (E : Type) := mkFetch { with_ties : bool; percent : bool; quantity : option E }.
Arguments mkFetch {E} with_ties percent quantity.
Arguments quantity {E} f.

Inductive JoinConstraint (E : Type) :=
| JCOn (e : E)
| JCUsing (columns : list ObjectName)
| JCNatural
| JCNone.
Arguments JCOn {E} e.
Arguments JCUsing {E} columns.
Arguments JCNatural {E}.
Arguments JCNone {E}.

Inductive JoinOperatorOf (E : Type) :=
| JOJoin (c : JoinConstraint E) | JOInner (c : JoinConstraint E)
| JOLeft (c : JoinConstraint E) | JOLeftOuter (c : JoinConstraint E)
| JORight (c : JoinConstraint E) | JORightOuter (c : JoinConstraint E)
| JOFullOuter (c : JoinConstraint E) | JOCrossJoin (c : JoinConstraint E)
| JOSemi (c : JoinConstraint E) | JOLeftSemi (c : JoinConstraint E)
| JORightSemi (c : JoinConstraint E) | JOAnti (c : JoinConstraint E)
| JOLeftAnti (c : JoinConstraint E) | JORightAnti (c : JoinConstraint E)
| JOStraightJoin (c : JoinConstraint E)
| JOCrossApply | JOOuterApply
| JOAsOf (match_condition : E) (c : JoinConstraint E).
Arguments JOJoin {E} c.
Arguments JOInner {E} c.
Arguments JOLeft {E} c.
Arguments JOLeftOuter {E} c.
Arguments JORight {E} c.
Arguments JORightOuter {E} c.
Arguments JOFullOuter {E} c.
Arguments JOCrossJoin {E} c.
Arguments JOSemi {E} c.
Arguments JOLeftSemi {E} c.
Arguments JORightSemi {E} c.
Arguments JOAnti {E} c.
Arguments JOLeftAnti {E} c.
Arguments JORightAnti {E} c.
Arguments JOStraightJoin {E} c.
Arguments JOCrossApply {E}.
Arguments JOOuterApply {E}.
Arguments JOAsOf {E} match_condition c.

Record TableAlias := { ta_name : Ident; ta_columns : list string; ta_explicit : bool }.

Record JoinOf (T E : Type) := mkJoin { join_relation : T; join_operator : JoinOperatorOf E }.
Arguments mkJoin {T E} join_relation join_operator.
Arguments join_relation {T E} j.
Arguments join_operator {T E} j.

Record CteOf (Q : Type) := mkCte { cte_alias : TableAlias; cte_query : Q; cte_rest : string }.
Arguments mkCte {Q} cte_alias cte_query cte_rest.
Arguments cte_alias {Q} c.
Arguments cte_query {Q} c.
Arguments cte_rest {Q} c.

Record WithOf (Q : Type) := mkWith { recursive : bool; cte_tables : list (CteOf Q) }.
Arguments mkWith {Q} recursive cte_tables.
Arguments recursive {Q} w.
Arguments cte_tables {Q} w.

Inductive SetOperator := SetUnion | SetExcept | SetIntersect | SetMinus.

Inductive SetQuantifier :=
| SQAll | SQDistinct | SQByName | SQAllByName | SQDistinctByName | SQNone.

Inductive Expr :=
| Identifier (ident : Ident)
| CompoundIdentifier (parts : list Ident)
| BinaryOp (left : Expr) (op : BinaryOperator) (right : Expr)
| UnaryOp (op : string) (expr : Expr)
| Nested (inner : Expr)
| Between (expr : Expr) (negated : bool) (low high : Expr)
| EValue (val : Value)
| TypedString (data_type : DataType) (val : Value)
| Cast (expr : Expr) (data_type : DataType)
| Case (operand : option Expr) (conditions : list (Expr * Expr)) (else_result : option Expr)
| Function (name : ObjectName) (args : FunctionArguments Expr) (over : option (WindowType Expr))
           (rest : string)
| InList (expr : Expr) (items : list Expr) (negated : bool)
| InSubquery (expr : Expr) (subquery : Query) (negated : bool)
| Subquery (query : Query)
| EExists (subquery : Query) (negated : bool)
| Like (negated : bool) (expr pattern : Expr) (rest : string)
| ILike (negated : bool) (expr pattern : Expr) (rest : string)
| SimilarTo (negated : bool) (expr pattern : Expr) (rest : string)
| EExtract (field : string) (syntax_from : bool) (expr : Expr)
| ESubstring (expr : Expr) (substring_from substring_for : option Expr) (special shorthand : bool)
| ETrim (expr : Expr) (trim_where : string) (trim_what : option Expr) (trim_characters : option (list Expr))
| IsNull (inner : Expr)
| IsNotNull (inner : Expr)
| IsTrue (inner : Expr)
| IsFalse (inner : Expr)
| IsNotTrue (inner : Expr)
| IsNotFalse (inner : Expr)
| IsUnknown (inner : Expr)
| IsNotUnknown (inner : Expr)
| IsDistinctFrom (left right : Expr)
| IsNotDistinctFrom (left right : Expr)
| ETuple (exprs : list Expr)
| ExprOther (text : string)

with Query :=
| mkQuery (with_ : option (WithOf Query)) (body : SetExpr) (order_by : option (OrderByKind Expr))
          (limit_clause : option (LimitClause Expr)) (fetch : option (Fetch Expr)) (rest : string)

with SetExpr :=
| SESelect (select : Select)
| SEQuery (query : Query)
| SESetOperation (op : SetOperator) (set_quantifier : SetQuantifier) (left right : SetExpr)
| SEValues (text : string)
| SEInsert (text : string)
| SEUpdate (text : string)
| SEOther (text : string)

with Select :=
| mkSelect (distinct : option string) (projection : list (SelectItemOf Expr))
           (from : list TableWithJoins) (selection : option Expr) (group_by : GroupByExprOf Expr)
           (having : option Expr) (rest : string)

with TableWithJoins :=
| mkTableWithJoins (relation : TableFactor) (joins : list (JoinOf TableFactor Expr))

with TableFactor :=
| TFTable (name : ObjectName) (alias : option TableAlias) (rest : string)
| TFDerived (lateral : bool) (subquery : Query) (alias : option TableAlias)
| TFFunction (lateral : bool) (name : ObjectName) (args : list (FunctionArg Expr))
             (alias : option TableAlias)
| TFNestedJoin (table_with_joins : TableWithJoins) (alias : option TableAlias)
| TFOther (text : string).

Abbreviation SelectItem := (SelectItemOf Expr).
Abbreviation OrderByExpr := (OrderByExprOf Expr).
Abbreviation GroupByExpr := (GroupByExprOf Expr).
Abbreviation JoinOperator := (JoinOperatorOf Expr).
Abbreviation Cte := (CteOf Query).
Abbreviation With := (WithOf Query).
Abbreviation Join_ := (JoinOf TableFactor Expr).

Inductive Statement :=
| StQuery (query : Query)
| StInsert (text : string)
| StUpdate (text : string)
| StDelete (text : string)
| StCreateTable (text : string)
| StDrop (text : string)
| StOther (text : string).

(** ** Direct subterms *)

Definition arg_exprs {E} (a : FunctionArg E) : list E :=
  match a with
  | UnnamedExpr e | NamedExpr _ e _ => [e]
  | ExprNamedExpr n e _ => [n; e]
  | ArgOther _ => []
  end.

Definition arguments_exprs {E} (a : FunctionArguments E) : list E :=
  match a with ArgsList args _ => flat_map arg_exprs args | ArgsOther _ => [] end.

Definition over_exprs {E} (o : option (WindowType E)) : list E :=
  match o with Some (WindowSpec partition_by _) => partition_by | _ => [] end.

Definition item_exprs {E} (i : SelectItemOf E) : list E :=
  match i with SelUnnamedExpr e | SelExprWithAlias e _ => [e] | _ => [] end.

Definition group_by_exprs {E} (g : GroupByExprOf E) : list E :=
  match g with GroupByExpressions exprs _ => exprs | GroupByAll _ => [] end.

Definition order_by_exprs {E} (o : option (OrderByKind E)) : list E :=
  match o with Some (OrderByExpressions exprs) => map ob_expr exprs | _ => [] end.

Definition limit_exprs {E} (l : option (LimitClause E)) : list E :=
  match l with
  | Some (LimitOffset limit offset _) => option_list limit ++ option_list offset
  | Some (OffsetCommaLimit offset limit) => [offset; limit]
  | None => []
  end.

Definition fetch_exprs {E} (f : option (Fetch E)) : list E :=
  match f with Some f => option_list (quantity f) | None => [] end.

Definition constraint_exprs {E} (c : JoinConstraint E) : list E :=
  match c with JCOn e => [e] | _ => [] end.

Definition join_exprs {E} (j : JoinOperatorOf E) : list E :=
  match j with
  | JOJoin c | JOInner c | JOLeft c | JOLeftOuter c | JORight c | JORightOuter c | JOFullOuter c
  | JOCrossJoin c | JOSemi c | JOLeftSemi c | JORightSemi c | JOAnti c | JOLeftAnti c | JORightAnti c
  | JOStraightJoin c => constraint_exprs c
  | JOCrossApply | JOOuterApply => []
  | JOAsOf m c => m :: constraint_exprs c
  end.

Definition expr_children (e : Expr) : list Expr :=
  match e with
  | Identifier _ | CompoundIdentifier _ | EValue _ | TypedString _ _ | Subquery _ | EExists _ _
  | ExprOther _ => []
  | UnaryOp _ e | Nested e | Cast e _ | InSubquery e _ _ | EExtract _ _ e
  | IsNull e | IsNotNull e | IsTrue e | IsFalse e | IsNotTrue e | IsNotFalse e
  | IsUnknown e | IsNotUnknown e => [e]
  | BinaryOp l _ r | Like _ l r _ | ILike _ l r _ | SimilarTo _ l r _
  | IsDistinctFrom l r | IsNotDistinctFrom l r => [l; r]
  | Between e _ low high => [e; low; high]
  | Case operand conditions else_result =>
      option_list operand ++ flat_map (fun c => [fst c; snd c]) conditions ++ option_list else_result
  | Function _ args over _ => arguments_exprs args ++ over_exprs over
  | InList e items _ => e :: items
  | ESubstring e a b _ _ => e :: option_list a ++ option_list b
  | ETrim e _ w cs => e :: option_list w ++ default [] cs
  | ETuple es => es
  end.

Definition expr_queries (e : Expr) : list Query :=
  match e with InSubquery _ q _ | Subquery q | EExists q _ => [q] | _ => [] end.

Definition query_with (q : Query) : option With := match q with mkQuery w _ _ _ _ _ => w end.
Definition query_body (q : Query) : SetExpr := match q with mkQuery _ b _ _ _ _ => b end.
Definition query_order_by (q : Query) : option (OrderByKind Expr) :=
  match q with mkQuery _ _ o _ _ _ => o end.
Definition query_limit_clause (q : Query) : option (LimitClause Expr) :=
  match q with mkQuery _ _ _ l _ _ => l end.
Definition query_fetch (q : Query) : option (Fetch Expr) := match q with mkQuery _ _ _ _ f _ => f end.

(** [query.with.as_ref().map(|w| w.cte_tables)]. *)
Definition with_tables {Q} (w : option (WithOf Q)) : list (CteOf Q) :=
  match w with Some w => cte_tables w | None => [] end.

Definition query_ctes (q : Query) : list Query := map cte_query (with_tables (query_with q)).

Definition query_exprs (q : Query) : list Expr :=
  order_by_exprs (query_order_by q) ++ limit_exprs (query_limit_clause q) ++ fetch_exprs (query_fetch q).

Definition sel_projection (s : Select) : list SelectItem := match s with mkSelect _ p _ _ _ _ _ => p end.
Definition sel_from (s : Select) : list TableWithJoins := match s with mkSelect _ _ f _ _ _ _ => f end.
Definition sel_selection (s : Select) : option Expr := match s with mkSelect _ _ _ w _ _ _ => w end.
Definition sel_group_by (s : Select) : GroupByExpr := match s with mkSelect _ _ _ _ g _ _ => g end.
Definition sel_having (s : Select) : option Expr := match s with mkSelect _ _ _ _ _ h _ => h end.

Definition select_exprs (s : Select) : list Expr :=
  flat_map item_exprs (sel_projection s) ++ option_list (sel_selection s)
  ++ group_by_exprs (sel_group_by s) ++ option_list (sel_having s).

Definition twj_relation (t : TableWithJoins) : TableFactor := match t with mkTableWithJoins r _ => r end.
Definition twj_joins (t : TableWithJoins) : list Join_ := match t with mkTableWithJoins _ js => js end.

Definition twj_factors (t : TableWithJoins) : list TableFactor :=
  twj_relation t :: map join_relation (twj_joins t).
Definition twj_exprs (t : TableWithJoins) : list Expr :=
  flat_map (fun j => join_exprs (join_operator j)) (twj_joins t).

(** ** Sizes and the induction principle *)

Definition list_size {A} (f : A -> nat) : list A -> nat :=
  fix go l := match l with [] => 0 | a :: l => f a + go l end.
Definition option_size {A} (f : A -> nat) (o : option A) : nat :=
  match o with Some a => f a | None => 0 end.
Definition arg_size {E} (f : E -> nat) (a : FunctionArg E) : nat :=
  match a with
  | UnnamedExpr e | NamedExpr _ e _ => f e | ExprNamedExpr n e _ => f n + f e | ArgOther _ => 0
  end.
Definition constraint_size {E} (f : E -> nat) (c : JoinConstraint E) : nat :=
  match c with JCOn e => f e | _ => 0 end.
Definition join_size {E} (f : E -> nat) (j : JoinOperatorOf E) : nat :=
  match j with
  | JOJoin c | JOInner c | JOLeft c | JOLeftOuter c | JORight c | JORightOuter c | JOFullOuter c
  | JOCrossJoin c | JOSemi c | JOLeftSemi c | JORightSemi c | JOAnti c | JOLeftAnti c | JORightAnti c
  | JOStraightJoin c => constraint_size f c
  | JOCrossApply | JOOuterApply => 0
  | JOAsOf m c => f m + constraint_size f c
  end.

Fixpoint expr_size (e : Expr) : nat :=
  S match e with
    | Identifier _ | CompoundIdentifier _ | EValue _ | TypedString _ _ | ExprOther _ => 0
    | Subquery q | EExists q _ => query_size q
    | InSubquery e q _ => expr_size e + query_size q
    | UnaryOp _ e | Nested e | Cast e _ | EExtract _ _ e
    | IsNull e | IsNotNull e | IsTrue e | IsFalse e | IsNotTrue e | IsNotFalse e
    | IsUnknown e | IsNotUnknown e => expr_size e
    | BinaryOp l _ r | Like _ l r _ | ILike _ l r _ | SimilarTo _ l r _
    | IsDistinctFrom l r | IsNotDistinctFrom l r => expr_size l + expr_size r
    | Between e _ low high => expr_size e + expr_size low + expr_size high
    | Case operand conditions else_result =>
        option_size expr_size operand
        + list_size (fun c => match c with (a, b) => expr_size a + expr_size b end) conditions
        + option_size expr_size else_result
    | Function _ args over _ =>
        match args with ArgsList args _ => list_size (arg_size expr_size) args | ArgsOther _ => 0 end
        + match over with Some (WindowSpec p _) => list_size expr_size p | _ => 0 end
    | InList e items _ => expr_size e + list_size expr_size items
    | ESubstring e a b _ _ => expr_size e + option_size expr_size a + option_size expr_size b
    | ETrim e _ w cs => expr_size e + option_size expr_size w + option_size (list_size expr_size) cs
    | ETuple es => list_size expr_size es
    end
with query_size (q : Query) : nat :=
  match q with
  | mkQuery w body order_by limit fetch _ =>
      S (match w with
         | Some (mkWith _ ctes) => list_size (fun c => match c with mkCte _ q _ => query_size q end) ctes
         | None => 0
         end
         + set_expr_size body
         + match order_by with
           | Some (OrderByExpressions es) =>
               list_size (fun o => match o with mkOrderByExpr e _ => expr_size e end) es
           | _ => 0
           end
         + match limit with
           | Some (LimitOffset l o _) => option_size expr_size l + option_size expr_size o
           | Some (OffsetCommaLimit o l) => expr_size o + expr_size l
           | None => 0
           end
         + match fetch with Some (mkFetch _ _ n) => option_size expr_size n | None => 0 end)
  end
with set_expr_size (s : SetExpr) : nat :=
  S match s with
    | SESelect s => select_size s
    | SEQuery q => query_size q
    | SESetOperation _ _ l r => set_expr_size l + set_expr_size r
    | _ => 0
    end
with select_size (s : Select) : nat :=
  match s with
  | mkSelect _ projection from selection group_by having _ =>
      S (list_size (fun i => match i with
                             | SelUnnamedExpr e | SelExprWithAlias e _ => expr_size e
                             | _ => 0
                             end) projection
         + list_size twj_size from + option_size expr_size selection
         + match group_by with GroupByExpressions es _ => list_size expr_size es | GroupByAll _ => 0 end
         + option_size expr_size having)
  end
with twj_size (t : TableWithJoins) : nat :=
  match t with
  | mkTableWithJoins r joins =>
      S (factor_size r
         + list_size (fun j => match j with mkJoin r op => factor_size r + join_size expr_size op end) joins)
  end
with factor_size (f : TableFactor) : nat :=
  S match f with
    | TFTable _ _ _ | TFOther _ => 0
    | TFDerived _ q _ => query_size q
    | TFFunction _ _ args _ => list_size (arg_size expr_size) args
    | TFNestedJoin t _ => twj_size t
    end.

Lemma list_size_elem {A} (f : A -> nat) (l : list A) (a : A) : a ∈ l -> f a <= list_size f l.
Proof. induction 1; simpl; lia. Qed.

Lemma list_size_flat_map {A B} (f : A -> list B) (g : B -> nat) (h : A -> nat) (l : list A) (b : B) :
  (forall a, b ∈ f a -> g b <= h a) -> b ∈ flat_map f l -> g b <= list_size h l.
Proof.
  intros Hf [a [Ha Hb]]%list_elem_of_In%in_flat_map.
  etrans; [by apply Hf, list_elem_of_In|]. apply list_size_elem. by apply list_elem_of_In.
Qed.

Lemma option_size_elem {A} (f : A -> nat) (o : option A) (a : A) :
  a ∈ option_list o -> f a <= option_size f o.
Proof. destruct o; simpl; [by intros ->%list_elem_of_singleton|by intros ?%not_elem_of_nil]. Qed.

Lemma arg_size_elem {E} (f : E -> nat) (a : FunctionArg E) (e : E) : e ∈ arg_exprs a -> f e <= arg_size f a.
Proof. destruct a; simpl; rewrite ?elem_of_cons, ?elem_of_nil; intuition subst; lia. Qed.

Lemma join_size_elem {E} (f : E -> nat) (j : JoinOperatorOf E) (e : E) :
  e ∈ join_exprs j -> f e <= join_size f j.
Proof.
  assert (Hc : forall c : JoinConstraint E, e ∈ constraint_exprs c -> f e <= constraint_size f c).
  { intros []; simpl; rewrite ?elem_of_cons, ?elem_of_nil; intuition subst; lia. }
  destruct j; simpl; rewrite ?elem_of_cons, ?elem_of_nil; intros H;
    try (by apply Hc); [done..|].
  destruct H as [->|H%Hc]; lia.
Qed.

(** Members of the list of subterms, read back as the containers they are in. *)
Ltac split_members :=
  repeat match goal with
  | H : _ ∈ [] |- _ => by apply not_elem_of_nil in H
  | H : _ ∈ _ :: _ |- _ => apply elem_of_cons in H as [->|H]
  | H : _ ∈ _ ++ _ |- _ => apply elem_of_app in H as [H|H]
  | H : _ ∈ option_list _ |- _ => apply (option_size_elem expr_size) in H
  | H : _ ∈ flat_map arg_exprs _ |- _ =>
      apply (list_size_flat_map _ expr_size (arg_size expr_size)) in H; [|intros a; apply arg_size_elem]
  | H : _ ∈ ?l |- context [list_size expr_size ?l] => apply (list_size_elem expr_size) in H
  end.

Lemma expr_children_size (e e' : Expr) : e' ∈ expr_children e -> expr_size e' < expr_size e.
Proof.
  destruct e; simpl; intros H; split_members; try lia.
  - apply (list_size_flat_map _ expr_size
      (fun c => match c with (a, b) => expr_size a + expr_size b end)) in H; [lia|].
    intros [a b] Hab; simpl in *; split_members; lia.
  - destruct args; simpl in *; split_members; lia.
  - destruct over as [[]|]; simpl in *; split_members; lia.
  - destruct trim_characters; simpl in *; split_members; lia.
Qed.

Lemma expr_queries_size (e : Expr) (q : Query) : q ∈ expr_queries e -> query_size q < expr_size e.
Proof. destruct e; simpl; intros H; split_members; lia. Qed.

Lemma query_ctes_size (q c : Query) : c ∈ query_ctes q -> query_size c < query_size q.
Proof.
  destruct q as [[[r ctes]|] body o l f rest]; unfold query_ctes; simpl; intros H; [|by split_members].
  apply list_elem_of_In, in_map_iff in H as ([a q rest'] & <- & Hin%list_elem_of_In).
  apply (list_size_elem (fun c : Cte => match c with mkCte _ q _ => query_size q end)) in Hin.
  simpl in *. lia.
Qed.

Lemma query_body_size (q : Query) : set_expr_size (query_body q) < query_size q.
Proof. destruct q; simpl. lia. Qed.

Lemma query_exprs_size (q : Query) (e : Expr) : e ∈ query_exprs q -> expr_size e < query_size q.
Proof.
  destruct q as [w body o l f rest]; unfold query_exprs; simpl; intros H; split_members.
  - destruct o as [[es|]|]; simpl in *; split_members.
    apply list_elem_of_In, in_map_iff in H as ([e' opts] & <- & Hin%list_elem_of_In).
    apply (list_size_elem (fun o => match o with mkOrderByExpr e _ => expr_size e end)) in Hin.
    simpl in *. lia.
  - destruct l as [[]|]; simpl in *; split_members; lia.
  - destruct f as [[]|]; simpl in *; split_members; lia.
Qed.

Lemma select_from_size (s : Select) (t : TableWithJoins) : t ∈ sel_from s -> twj_size t < select_size s.
Proof. destruct s; simpl. intros H%(list_size_elem twj_size). lia. Qed.

Lemma select_exprs_size (s : Select) (e : Expr) : e ∈ select_exprs s -> expr_size e < select_size s.
Proof.
  destruct s as [d p from w g h rest]; unfold select_exprs; simpl; intros H; split_members; try lia.
  - apply (list_size_flat_map _ expr_size
      (fun i => match i with SelUnnamedExpr e | SelExprWithAlias e _ => expr_size e | _ => 0 end)) in H; [lia|].
    intros [] Hi; simpl in *; split_members; lia.
  - destruct g; simpl in *; split_members; lia.
Qed.

Lemma twj_factors_size (t : TableWithJoins) (f : TableFactor) :
  f ∈ twj_factors t -> factor_size f < twj_size t.
Proof.
  destruct t as [r joins]; unfold twj_factors; simpl; intros H; split_members; [lia|].
  apply list_elem_of_In, in_map_iff in H as ([r' op] & <- & Hin%list_elem_of_In).
  apply (list_size_elem (fun j : Join_ => match j with mkJoin r op => factor_size r + join_size expr_size op end)) in Hin.
  simpl in *. lia.
Qed.

Lemma twj_exprs_size (t : TableWithJoins) (e : Expr) : e ∈ twj_exprs t -> expr_size e < twj_size t.
Proof.
  destruct t as [r joins]; unfold twj_exprs; simpl; intros H.
  apply (list_size_flat_map _ expr_size
    (fun j : Join_ => match j with mkJoin r op => factor_size r + join_size expr_size op end)) in H; [lia|].
  intros [r' op] Hj%(join_size_elem expr_size); simpl in *. lia.
Qed.

Definition factor_queries (f : TableFactor) : list Query :=
  match f with TFDerived _ q _ => [q] | _ => [] end.
Definition factor_twjs (f : TableFactor) : list TableWithJoins :=
  match f with TFNestedJoin t _ => [t] | _ => [] end.
Definition factor_exprs (f : TableFactor) : list Expr :=
  match f with TFFunction _ _ args _ => flat_map arg_exprs args | _ => [] end.

Definition set_expr_leaf (s : SetExpr) : bool :=
  match s with SESelect _ | SEQuery _ | SESetOperation _ _ _ _ => false | _ => true end.

Section ast_ind.
Context (PE : Expr -> Prop) (PQ : Query -> Prop) (PS : SetExpr -> Prop) (PL : Select -> Prop)
        (PT : TableWithJoins -> Prop) (PF : TableFactor -> Prop).
Hypothesis HE : forall e, (forall e', e' ∈ expr_children e -> PE e') ->
  (forall q, q ∈ expr_queries e -> PQ q) -> PE e.
Hypothesis HQ : forall q, (forall c, c ∈ query_ctes q -> PQ c) -> PS (query_body q) ->
  (forall e, e ∈ query_exprs q -> PE e) -> PQ q.
Hypothesis HSselect : forall s, PL s -> PS (SESelect s).
Hypothesis HSquery : forall q, PQ q -> PS (SEQuery q).
Hypothesis HSset : forall op sq l r, PS l -> PS r -> PS (SESetOperation op sq l r).
Hypothesis HSleaf : forall s, set_expr_leaf s = true -> PS s.
Hypothesis HL : forall s, (forall t, t ∈ sel_from s -> PT t) ->
  (forall e, e ∈ select_exprs s -> PE e) -> PL s.
Hypothesis HT : forall t, (forall f, f ∈ twj_factors t -> PF f) ->
  (forall e, e ∈ twj_exprs t -> PE e) -> PT t.
Hypothesis HF : forall f, (forall q, q ∈ factor_queries f -> PQ q) ->
  (forall t, t ∈ factor_twjs f -> PT t) -> (forall e, e ∈ factor_exprs f -> PE e) -> PF f.

Lemma ast_ind_bounded (n : nat) :
  (forall e, expr_size e < n -> PE e) /\ (forall q, query_size q < n -> PQ q) /\
  (forall s, set_expr_size s < n -> PS s) /\ (forall s, select_size s < n -> PL s) /\
  (forall t, twj_size t < n -> PT t) /\ (forall f, factor_size f < n -> PF f).
Proof.
  induction n as [|n (IE & IQ & IS & IL & IT & IF)]; [repeat split; intros; lia|].
  repeat split; intros x Hx.
  - apply HE; intros y Hy; [apply IE|apply IQ].
    + apply expr_children_size in Hy. lia.
    + apply expr_queries_size in Hy. lia.
  - apply HQ; [intros y Hy; apply IQ|apply IS|intros y Hy; apply IE].
    + apply query_ctes_size in Hy. lia.
    + pose proof (query_body_size x). lia.
    + apply query_exprs_size in Hy. lia.
  - destruct x; try (apply HSleaf; reflexivity); simpl in Hx.
    + apply HSselect, IL. lia.
    + apply HSquery, IQ. lia.
    + apply HSset; apply IS; lia.
  - apply HL; intros y Hy; [apply IT|apply IE].
    + apply select_from_size in Hy. lia.
    + apply select_exprs_size in Hy. lia.
  - apply HT; intros y Hy; [apply IF|apply IE].
    + apply twj_factors_size in Hy. lia.
    + apply twj_exprs_size in Hy. lia.
  - apply HF; intros y Hy; destruct x; simpl in *; split_members;
      first [apply IQ; lia | apply IT; lia | apply IE; lia].
Qed.

Lemma ast_ind :
  (forall e, PE e) /\ (forall q, PQ q) /\ (forall s, PS s) /\ (forall s, PL s) /\
  (forall t, PT t) /\ (forall f, PF f).
Proof.
  repeat split; intros x;
    [apply (ast_ind_bounded (S (expr_size x)))|apply (ast_ind_bounded (S (query_size x)))
    |apply (ast_ind_bounded (S (set_expr_size x)))|apply (ast_ind_bounded (S (select_size x)))
    |apply (ast_ind_bounded (S (twj_size x)))|apply (ast_ind_bounded (S (factor_size x)))]; lia.
Qed.
End ast_ind.

(** Induction on expressions alone. *)
Lemma Expr_children_ind (P : Expr -> Prop) :
  (forall e, (forall e', e' ∈ expr_children e -> P e') -> P e) -> forall e, P e.
Proof.
  intros H. apply (ast_ind P (fun _ => True) (fun _ => True) (fun _ => True) (fun _ => True) (fun _ => True)); auto.
Qed.

(** Does [p] hold of the expression or of one below it, outside subqueries? *)
Fixpoint expr_any_below (fuel : nat) (p : Expr -> bool) (e : Expr) : bool :=
  match fuel with
  | 0 => false
  | S fuel => p e || existsb (expr_any_below fuel p) (expr_children e)
  end.
Definition expr_any (p : Expr -> bool) (e : Expr) : bool := expr_any_below (expr_size e) p e.

Lemma expr_any_below_enough (p : Expr -> bool) (n m : nat) (e : Expr) :
  expr_size e <= n -> expr_size e <= m -> expr_any_below n p e = expr_any_below m p e.
Proof.
  revert m e. induction n as [|n IH]; intros [|m] e Hn Hm;
    [done|destruct e; simpl in *; lia|destruct e; simpl in *; lia|].
  simpl. f_equal. apply eq_true_iff_eq. rewrite !existsb_exists.
  split; intros (e' & Hin & He'); exists e'; (split; [done|]);
    apply list_elem_of_In, expr_children_size in Hin; [rewrite <- (IH m)|rewrite (IH m)]; (done || lia).
Qed.

Lemma expr_any_unfold (p : Expr -> bool) (e : Expr) :
  expr_any p e = p e || existsb (expr_any p) (expr_children e).
Proof.
  unfold expr_any at 1. destruct (expr_size e) as [|n] eqn:En; [destruct e; discriminate|]. simpl. f_equal.
  apply eq_true_iff_eq. rewrite !existsb_exists.
  split; intros (e' & Hin & He'); exists e'; (split; [done|]);
    apply list_elem_of_In, expr_children_size in Hin; unfold expr_any in *;
    [rewrite (expr_any_below_enough p _ n)|rewrite (expr_any_below_enough p n (expr_size e'))]; (done || lia).
Qed.

(** ** Text

    The crate's [Display]: what [format!("{}", x)] prints for each node. *)
Class SqlDisplay := {
  display_expr : Expr -> string;
  display_item : SelectItem -> string;
  display_table_factor : TableFactor -> string;
  display_order_by : OrderByExpr -> string;
  display_group_by : GroupByExpr -> string;
  display_set_operator : SetOperator -> string;
  display_set_quantifier : SetQuantifier -> string;
  display_table_alias : TableAlias -> string;
  display_cte : Cte -> string;
  display_object_name : ObjectName -> string;
  display_name_part : ObjectNamePart -> string;
}.

(** [std::mem::discriminant] of a node, as [{:?}] prints it. *)
Class SqlDebug := {
  set_expr_discriminant : SetExpr -> string;
  statement_discriminant : Statement -> string;
}.

(** ** Shared helpers (sql/mod.rs) *)

Definition extract_join_constraint {E} (op : JoinOperatorOf E) : option (JoinConstraint E) :=
  match op with
  | JOJoin c | JOInner c | JOLeft c | JOLeftOuter c | JORight c | JORightOuter c | JOFullOuter c
  | JOCrossJoin c | JOSemi c | JOLeftSemi c | JORightSemi c | JOAnti c | JOLeftAnti c | JORightAnti c
  | JOStraightJoin c => Some c
  | JOAsOf _ c => Some c
  | JOCrossApply | JOOuterApply => None
  end.

Definition extract_join_on_expr {E} (op : JoinOperatorOf E) : option E :=
  match extract_join_constraint op with Some (JCOn e) => Some e | _ => None end.

(** [if let Some(e) = extract_join_on_expr(op) { k(e) } else { d }]. *)
Definition on_join {E A} (k : E -> A) (d : A) (op : JoinOperatorOf E) : A :=
  match op with
  | JOJoin c | JOInner c | JOLeft c | JOLeftOuter c | JORight c | JORightOuter c | JOFullOuter c
  | JOCrossJoin c | JOSemi c | JOLeftSemi c | JORightSemi c | JOAnti c | JOLeftAnti c | JORightAnti c
  | JOStraightJoin c | JOAsOf _ c => match c with JCOn e => k e | _ => d end
  | JOCrossApply | JOOuterApply => d
  end.

Lemma on_join_expr {E A} (k : E -> A) (d : A) (op : JoinOperatorOf E) :
  on_join k d op = from_option k d (extract_join_on_expr op).
Proof. destruct op as [c|c|c|c|c|c|c|c|c|c|c|c|c|c|c| | |m c]; try destruct c; reflexivity. Qed.

(** [extract_join_constraint_mut] and [extract_join_on_expr_mut], as the
    update they are used for: the ON expression replaced by [f] of it. *)
Definition map_constraint_on {E} (f : E -> E) (c : JoinConstraint E) : JoinConstraint E :=
  match c with JCOn e => JCOn (f e) | c => c end.

Definition map_join_on {E} (f : E -> E) (op : JoinOperatorOf E) : JoinOperatorOf E :=
  match op with
  | JOJoin c => JOJoin (map_constraint_on f c)
  | JOInner c => JOInner (map_constraint_on f c)
  | JOLeft c => JOLeft (map_constraint_on f c)
  | JOLeftOuter c => JOLeftOuter (map_constraint_on f c)
  | JORight c => JORight (map_constraint_on f c)
  | JORightOuter c => JORightOuter (map_constraint_on f c)
  | JOFullOuter c => JOFullOuter (map_constraint_on f c)
  | JOCrossJoin c => JOCrossJoin (map_constraint_on f c)
  | JOSemi c => JOSemi (map_constraint_on f c)
  | JOLeftSemi c => JOLeftSemi (map_constraint_on f c)
  | JORightSemi c => JORightSemi (map_constraint_on f c)
  | JOAnti c => JOAnti (map_constraint_on f c)
  | JOLeftAnti c => JOLeftAnti (map_constraint_on f c)
  | JORightAnti c => JORightAnti (map_constraint_on f c)
  | JOStraightJoin c => JOStraightJoin (map_constraint_on f c)
  | JOAsOf m c => JOAsOf m (map_constraint_on f c)
  | JOCrossApply => JOCrossApply
  | JOOuterApply => JOOuterApply
  end.

Lemma map_join_on_expr {E} (f : E -> E) (op : JoinOperatorOf E) :
  extract_join_on_expr (map_join_on f op) = f <$> extract_join_on_expr op.
Proof. destruct op as [c|c|c|c|c|c|c|c|c|c|c|c|c|c|c| | |m c]; try destruct c; reflexivity. Qed.

(** ** Concrete syntax for examples

    A printer that shows identifiers only, and short forms of the syntax. *)
Definition demo_display : SqlDisplay := {|
  display_expr e := match e with Identifier i => value i | _ => "?" end;
  display_item i := match i with SelUnnamedExpr (Identifier i) => value i | _ => "?" end;
  display_table_factor f := match f with TFTable _ (Some a) _ => value (ta_name a) | _ => "?" end;
  display_order_by o := match ob_expr o with Identifier i => value i | _ => "?" end;
  display_group_by _ := "?";
  display_set_operator _ := "UNION";
  display_set_quantifier _ := "ALL";
  display_table_alias a := value (ta_name a);
  display_cte c := value (ta_name (cte_alias c));
  display_object_name _ := "?";
  display_name_part p := match p with NameIdentifier i => value i | NameOther s => s end;
|}.

Definition demo_debug : SqlDebug := {|
  set_expr_discriminant _ := "Discriminant(0)";
  statement_discriminant _ := "Discriminant(0)";
|}.

Definition name_of (s : string) : ObjectName := [NameIdentifier (Ident_new s)].
Definition table (s : string) : TableFactor := TFTable (name_of s) None "".
Definition alias_as (s : string) : TableAlias := {| ta_name := Ident_new s; ta_columns := []; ta_explicit := true |}.
Definition select_from (items : list SelectItem) (from : list TableWithJoins) (selection : option Expr) : Select :=
  mkSelect None items from selection (GroupByExpressions [] "") None "".
Definition query_of (w : option With) (s : Select) : Query := mkQuery w (SESelect s) None None None "".
Definition select_all_from (f : TableFactor) : Query :=
  query_of None (select_from [SelWildcard] [mkTableWithJoins f []] None).
Definition cte (s : string) (q : Query) : Cte := mkCte (alias_as s) q "".
Definition call (f : string) (args : list Expr) (over : option (WindowType Expr)) : Expr :=
  Function (name_of f) (ArgsList (map UnnamedExpr args) "") over "".
