(* ===== verification/NaiveDate.v ===== *)
(** * Calendar dates

    The worker takes its dates from the chrono crate.  [NaiveDateOps] is the
    part of that interface the SQL layer calls, with the format ["%Y-%m-%d"];
    [NaiveDateLaws] is the documented behaviour it relies on.  The module
    [Civil] is one implementation, the proleptic Gregorian calendar of the
    years 0 to 9999, with its laws proved. *)

From Stdlib Require Import Ascii.
From S2P Require Import Prelude.

#[local] Open Scope Z_scope.

Class NaiveDateOps := {
  NaiveDate : Type;
  (** [date_key] is strictly monotone for chrono's order on dates: comparing
      two dates is comparing their keys. *)
  date_key : NaiveDate -> Z;
  (** [NaiveDate::parse_from_str(s, "%Y-%m-%d").ok()]. *)
  parse_date : string -> option NaiveDate;
  (** [d.format("%Y-%m-%d").to_string()]. *)
  format_date : NaiveDate -> string;
  (** [d.succ_opt()]. *)
  succ_opt : NaiveDate -> option NaiveDate;
}.

(** Comparison of dates, as chrono's [Ord]. *)
Definition date_le `{NaiveDateOps} (a b : NaiveDate) : bool := date_key a <=? date_key b.

Class NaiveDateLaws `{NaiveDateOps} := {
  (** A formatted date parses back. *)
  parse_format : forall d, parse_date (format_date d) = Some d;
  (** [succ_opt] is the next date: nothing lies between. *)
  succ_next : forall d d', succ_opt d = Some d' ->
    forall e, date_key e < date_key d' <-> date_key e <= date_key d;
  (** It fails only at the last date. *)
  succ_last : forall d, succ_opt d = None -> forall e, date_key e <= date_key d;
  (** The two dates written in the source are dates, in order. *)
  wide_dates : exists lo hi, parse_date "1970-01-01" = Some lo /\
    parse_date "9999-12-31" = Some hi /\ date_key lo < date_key hi;
}.

Section laws.
Context `{NaiveDateLaws}.

Lemma succ_gt d d' : succ_opt d = Some d' -> date_key d < date_key d'.
Proof. intros Hs. apply (succ_next d d' Hs). lia. Qed.

Lemma succ_le_iff d d' e : succ_opt d = Some d' -> date_key d' <= date_key e <-> date_key d < date_key e.
Proof. intros Hs. pose proof (succ_next d d' Hs e). lia. Qed.
End laws.

(** ** The Gregorian calendar *)
Module Civil.
Definition is_leap (y : Z) : bool :=
  (y mod 4 =? 0) && (negb (y mod 100 =? 0) || (y mod 400 =? 0)).

Definition days_in_month (y m : Z) : Z :=
  if m =? 2 then if is_leap y then 29 else 28
  else if (m =? 4) || (m =? 6) || (m =? 9) || (m =? 11) then 30 else 31.

Definition valid (ymd : Z * Z * Z) : bool :=
  let '(y, m, d) := ymd in
  (0 <=? y) && (y <=? 9999) && (1 <=? m) && (m <=? 12) && (1 <=? d) && (d <=? days_in_month y m).

Record date := mkDate { date_ymd : Z * Z * Z; date_valid : valid date_ymd = true }.

Definition of_ymd (ymd : Z * Z * Z) : option date :=
  match decide (valid ymd = true) with
  | left Hv => Some (mkDate ymd Hv)
  | right _ => None
  end.

Definition key (d : date) : Z := let '(y, m, d) := date_ymd d in y * 512 + m * 32 + d.

Definition next (d : date) : option date :=
  let '(y, m, d) := date_ymd d in
  if d <? days_in_month y m then of_ymd (y, m, d + 1)
  else if m <? 12 then of_ymd (y, m + 1, 1)
  else of_ymd (y + 1, 1, 1).

Definition digit (n : Z) : Ascii.ascii := Ascii.ascii_of_N (Z.to_N (48 + n)).
Definition undigit (c : Ascii.ascii) : option Z :=
  let n := Z.of_N (Ascii.N_of_ascii c) - 48 in
  if (0 <=? n) && (n <=? 9) then Some n else None.

Definition fmt2 (n : Z) (s : string) : string := String (digit (n / 10)) (String (digit (n mod 10)) s).
Definition parse2 (s : string) : option (Z * string) :=
  match s with
  | String a (String b s) =>
      match undigit a, undigit b with
      | Some x, Some y => Some (x * 10 + y, s)
      | _, _ => None
      end
  | _ => None
  end.
Definition skip_dash (s : string) : option string :=
  match s with String c s => if decide (c = "-"%char) then Some s else None | EmptyString => None end.

Definition format (d : date) : string :=
  let '(y, m, d) := date_ymd d in
  fmt2 (y / 100) (fmt2 (y mod 100) (String "-" (fmt2 m (String "-" (fmt2 d ""))))).

Definition parse (s : string) : option date :=
  '(c, s) ← parse2 s; '(y, s) ← parse2 s; s ← skip_dash s;
  '(m, s) ← parse2 s; s ← skip_dash s; '(d, s) ← parse2 s;
  if decide (s = "") then of_ymd (c * 100 + y, m, d) else None.

#[export] Instance ops : NaiveDateOps :=
  {| NaiveDate := date; date_key := key; parse_date := parse; format_date := format; succ_opt := next |}.

Lemma of_ymd_some ymd d : of_ymd ymd = Some d -> date_ymd d = ymd.
Proof. unfold of_ymd. case_decide; naive_solver. Qed.

Lemma of_ymd_proj (d : date) : of_ymd (date_ymd d) = Some d.
Proof.
  unfold of_ymd. destruct d as [ymd Hv]; simpl. case_decide as Hd; [|done].
  do 2 f_equal. apply (proof_irrel Hd Hv).
Qed.

Lemma valid_bounds y m d : valid (y, m, d) = true ->
  0 <= y <= 9999 /\ 1 <= m <= 12 /\ 1 <= d <= days_in_month y m.
Proof. simpl. intros. bool_hyps. lia. Qed.

Lemma days_in_month_bounds y m : 28 <= days_in_month y m <= 31.
Proof. unfold days_in_month. repeat case_match; lia. Qed.

Lemma undigit_digit n : 0 <= n <= 9 -> undigit (digit n) = Some n.
Proof.
  intros Hn. unfold undigit, digit. rewrite Ascii.N_ascii_embedding by lia.
  rewrite Z2N.id by lia. replace (48 + n - 48) with n by lia.
  destruct (Z.leb_spec 0 n), (Z.leb_spec n 9); simpl; done || lia.
Qed.

Lemma parse2_fmt2 n s : 0 <= n <= 99 -> parse2 (fmt2 n s) = Some (n, s).
Proof.
  intros Hn. pose proof (Z.div_mod n 10). pose proof (Z.mod_pos_bound n 10).
  assert (0 <= n / 10 <= 9) by (split; [apply Z.div_pos|apply Z.lt_succ_r, Z.div_lt_upper_bound]; lia).
  simpl. rewrite !undigit_digit by lia. do 2 f_equal. lia.
Qed.

Lemma parse_format_civil (dt : date) : parse (format dt) = Some dt.
Proof.
  rewrite <- (of_ymd_proj dt). destruct dt as [[[y m] d] Hv]. pose proof (valid_bounds _ _ _ Hv) as (Hy & Hm & Hd).
  pose proof (days_in_month_bounds y m). pose proof (Z.mod_pos_bound y 100).
  assert (0 <= y / 100 <= 99) by (split; [apply Z.div_pos|apply Z.lt_succ_r, Z.div_lt_upper_bound]; lia).
  unfold parse, format; cbn [date_ymd]. rewrite !parse2_fmt2 by lia. cbn [mbind option_bind].
  rewrite parse2_fmt2 by lia. cbn [mbind option_bind skip_dash]. rewrite decide_True by done.
  cbn [mbind option_bind]. rewrite parse2_fmt2 by lia. cbn [mbind option_bind skip_dash].
  rewrite decide_True by done. cbn [mbind option_bind]. rewrite parse2_fmt2 by lia.
  cbn [mbind option_bind]. rewrite decide_True by done.
  replace (y / 100 * 100 + y mod 100) with y by (pose proof (Z.div_mod y 100); lia).
  done.
Qed.

Lemma next_cases (d d' : date) y m dd : date_ymd d = (y, m, dd) -> next d = Some d' ->
  date_ymd d' = (y, m, dd + 1) \/
  (dd = days_in_month y m /\ date_ymd d' = (y, m + 1, 1)) \/
  (dd = days_in_month y m /\ m = 12 /\ date_ymd d' = (y + 1, 1, 1)).
Proof.
  intros Hd. destruct d as [[[? ?] ?] Hv]; simpl in Hd; simplify_eq.
  pose proof (valid_bounds _ _ _ Hv). unfold next; simpl.
  destruct (Z.ltb_spec dd (days_in_month y m)); [|destruct (Z.ltb_spec m 12)];
    intros ?%of_ymd_some; [left; done|right; left|right; right]; repeat split; try done; lia.
Qed.

#[export] Instance laws : NaiveDateLaws.
Proof.
  split; simpl.
  - apply parse_format_civil.
  - intros d d' Hs [[[ye me] de] He]. destruct d as [[[y m] dd] Hd].
    destruct d' as [[[y' m'] dd'] Hd'].
    eapply (next_cases _ _ y m dd) in Hs as Hc; [|done]; simpl in Hc.
    pose proof (valid_bounds _ _ _ He) as (Hye & Hme & Hde). pose proof (valid_bounds _ _ _ Hd).
    pose proof (valid_bounds _ _ _ Hd').
    pose proof (days_in_month_bounds y m). pose proof (days_in_month_bounds ye me).
    unfold key; simpl. split; intros Hlt.
    + destruct Hc as [?|[[? ?]|[? [? ?]]]]; simplify_eq; try lia;
        apply Z.nlt_ge; intros Hgt; assert (ye = y) as -> by lia.
      * assert (me = m) as -> by lia. lia.
      * assert (me = 12) as -> by lia. lia.
    + destruct Hc as [?|[[? ?]|[? [? ?]]]]; simplify_eq; lia.
  - intros [[[y m] dd] Hd] Hs [[[ye me] de] He]. pose proof (valid_bounds _ _ _ Hd).
    pose proof (valid_bounds _ _ _ He). pose proof (days_in_month_bounds ye me).
    pose proof (days_in_month_bounds y m).
    pose proof (days_in_month_bounds y (m + 1)). pose proof (days_in_month_bounds (y + 1) 1).
    revert Hs. unfold next, of_ymd, key; simpl.
    destruct (Z.ltb_spec dd (days_in_month y m)); [|destruct (Z.ltb_spec m 12)];
      case_decide as Hn; try done; intros _.
    + exfalso; apply Hn; unfold valid. rewrite !andb_true_iff, !Z.leb_le. lia.
    + exfalso; apply Hn; unfold valid. rewrite !andb_true_iff, !Z.leb_le. lia.
    + destruct (decide (y = 9999)) as [->|]; [|exfalso; apply Hn; unfold valid; rewrite !andb_true_iff, !Z.leb_le; lia].
      assert (dd = 31) by (assert (m = 12) as -> by lia; change (days_in_month 9999 12) with 31 in *; lia).
      lia.
  - eexists _, _. split; [reflexivity|]. split; [reflexivity|]. reflexivity.
Qed.
End Civil.
