(* ===== verification/DateInterval.v ===== *)
(** * The interval algebra of date predicates (sql/interval.rs)

    [DateBound] and [Interval] with every operation of the source, over the
    calendar interface of [NaiveDate].  An interval denotes a set of dates once
    the placeholders are given values: [member].  The theorems relate the
    operations to the set operations they stand for. *)

From S2P Require Import Prelude NaiveDate.

#[local] Open Scope Z_scope.

(** ** Data *)

Inductive DateBound :=
| Literal (s : string)
| DateParameter (p : string).

#[export] Instance DateBound_eq_dec : EqDecision DateBound.
Proof. solve_decision. Defined.

Record Interval := mkInterval { start : option DateBound; end_ : option DateBound }.

#[export] Instance Interval_eq_dec : EqDecision Interval.
Proof. solve_decision. Defined.

Definition to_sql (b : DateBound) : string :=
  match b with
  | Literal s => "DATE '" +:+ s +:+ "'"
  | DateParameter p => p
  end.

Definition WIDE_SCAN_START : string := "1970-01-01".
Definition WIDE_SCAN_END : string := "9999-12-31".

(** ** Operations *)
Section operations.
Context `{NaiveDateOps}.

(** [Ord::cmp] of [DateBound]. *)
Definition bound_cmp (a b : DateBound) : comparison :=
  match a, b with
  | Literal a, Literal b =>
      match parse_date a, parse_date b with
      | Some da, Some db => date_key da ?= date_key db
      | _, _ => String.compare a b
      end
  | Literal _, DateParameter _ => Lt
  | DateParameter _, Literal _ => Gt
  | DateParameter a, DateParameter b => String.compare a b
  end.

(** [std::cmp::max] returns the second argument when the two compare equal,
    [std::cmp::min] the first. *)
Definition bound_max (a b : DateBound) : DateBound :=
  match bound_cmp a b with Gt => a | _ => b end.
Definition bound_min (a b : DateBound) : DateBound :=
  match bound_cmp a b with Gt => b | _ => a end.

Definition empty : Interval :=
  {| start := Some (Literal "9999-12-31"); end_ := Some (Literal "1970-01-01") |}.

Definition universe : Interval := {| start := None; end_ := None |}.

Definition point (date : DateBound) : Interval :=
  let next_date :=
    match date with
    | Literal s =>
        match d ← parse_date s; d' ← succ_opt d; Some (Literal (format_date d')) with
        | Some b => b
        | None => date
        end
    | DateParameter _ => date
    end in
  {| start := Some date; end_ := Some next_date |}.

Definition from_bounds (s e : option DateBound) : Interval := {| start := s; end_ := e |}.

Definition is_empty (i : Interval) : bool :=
  match start i, end_ i with
  | Some (Literal s), Some (Literal e) =>
      match parse_date s, parse_date e with
      | Some ds, Some de => date_key de <=? date_key ds
      | _, _ => false
      end
  | _, _ => false
  end.

Definition is_universe (i : Interval) : bool :=
  match start i, end_ i with None, None => true | _, _ => false end.

Definition intersect (i j : Interval) : Interval :=
  if is_empty i || is_empty j then empty
  else
    {| start := match start i, start j with
                | None, s | s, None => s
                | Some s1, Some s2 => Some (bound_max s1 s2)
                end;
       end_ := match end_ i, end_ j with
               | None, e | e, None => e
               | Some e1, Some e2 => Some (bound_min e1 e2)
               end |}.

Definition union (i j : Interval) : Interval :=
  if is_empty i then j
  else if is_empty j then i
  else if is_universe i || is_universe j then universe
  else
    {| start := match start i, start j with
                | None, _ | _, None => None
                | Some s1, Some s2 => Some (bound_min s1 s2)
                end;
       end_ := match end_ i, end_ j with
               | None, _ | _, None => None
               | Some e1, Some e2 => Some (bound_max e1 e2)
               end |}.

Definition to_macro_params (i : Interval) : string * string :=
  (match start i with
   | Some (Literal s) => s
   | Some (DateParameter _) => "1970-01-01"
   | None => "1970-01-01"
   end,
   match end_ i with
   | Some (Literal e) => e
   | Some (DateParameter _) => "9999-12-31"
   | None => "9999-12-31"
   end).
End operations.

(** ** Meaning *)
Section semantics.
Context `{NaiveDateOps}.

(** The value of a bound when placeholder [p] is bound to [env p]. *)
Definition denote (env : string -> NaiveDate) (b : DateBound) : option NaiveDate :=
  match b with
  | Literal s => parse_date s
  | DateParameter p => Some (env p)
  end.

Definition above (env : string -> NaiveDate) (d : NaiveDate) (o : option DateBound) : Prop :=
  match o with
  | None => True
  | Some b => exists x, denote env b = Some x /\ date_key x <= date_key d
  end.

Definition below (env : string -> NaiveDate) (d : NaiveDate) (o : option DateBound) : Prop :=
  match o with
  | None => True
  | Some b => exists x, denote env b = Some x /\ date_key d < date_key x
  end.

(** [d] lies in the half-open interval. *)
Definition member (env : string -> NaiveDate) (d : NaiveDate) (i : Interval) : Prop :=
  above env d (start i) /\ below env d (end_ i).

(** A bound that is a date literal the calendar accepts. *)
Definition literal_bound (b : DateBound) : bool :=
  match b with
  | Literal s => match parse_date s with Some _ => true | None => false end
  | DateParameter _ => false
  end.

Definition literal_opt (o : option DateBound) : bool :=
  match o with None => true | Some b => literal_bound b end.

Definition literal_interval (i : Interval) : bool := literal_opt (start i) && literal_opt (end_ i).
End semantics.

Section facts.
Context `{NaiveDateLaws}.
Implicit Types (env : string -> NaiveDate) (d : NaiveDate) (i j k : Interval).

Lemma literal_bound_inv b : literal_bound b = true ->
  exists s x, b = Literal s /\ parse_date s = Some x.
Proof. destruct b as [s|p]; simpl; [|done]. destruct (parse_date s) eqn:E; eauto; done. Qed.

Lemma literal_bound_denote env b : literal_bound b = true -> exists x, denote env b = Some x.
Proof. intros (s & x & -> & Hx)%literal_bound_inv. eauto. Qed.

(** On literals the order of bounds is the order of their dates. *)
Lemma bound_cmp_literal env b c x y :
  literal_bound b = true -> literal_bound c = true ->
  denote env b = Some x -> denote env c = Some y -> bound_cmp b c = (date_key x ?= date_key y).
Proof.
  intros (s & x' & -> & Hx)%literal_bound_inv (t & y' & -> & Hy)%literal_bound_inv; simpl.
  intros. simplify_eq. by rewrite Hx, Hy.
Qed.

Lemma bound_max_or b c : bound_max b c = b \/ bound_max b c = c.
Proof. unfold bound_max. destruct (bound_cmp b c); auto. Qed.
Lemma bound_min_or b c : bound_min b c = b \/ bound_min b c = c.
Proof. unfold bound_min. destruct (bound_cmp b c); auto. Qed.

Lemma bound_max_literal b c : literal_bound b = true -> literal_bound c = true ->
  literal_bound (bound_max b c) = true.
Proof. destruct (bound_max_or b c) as [-> | ->]; auto. Qed.
Lemma bound_min_literal b c : literal_bound b = true -> literal_bound c = true ->
  literal_bound (bound_min b c) = true.
Proof. destruct (bound_min_or b c) as [-> | ->]; auto. Qed.

Lemma denote_max env b c x y :
  literal_bound b = true -> literal_bound c = true ->
  denote env b = Some x -> denote env c = Some y ->
  exists z, denote env (bound_max b c) = Some z /\ date_key z = Z.max (date_key x) (date_key y).
Proof.
  intros Hb Hc Hx Hy. unfold bound_max. rewrite (bound_cmp_literal env b c x y) by done.
  destruct (Z.compare_spec (date_key x) (date_key y)); eauto with lia.
Qed.

Lemma denote_min env b c x y :
  literal_bound b = true -> literal_bound c = true ->
  denote env b = Some x -> denote env c = Some y ->
  exists z, denote env (bound_min b c) = Some z /\ date_key z = Z.min (date_key x) (date_key y).
Proof.
  intros Hb Hc Hx Hy. unfold bound_min. rewrite (bound_cmp_literal env b c x y) by done.
  destruct (Z.compare_spec (date_key x) (date_key y)); eauto with lia.
Qed.

(** A provably empty interval has no member, whatever the placeholders. *)
Lemma is_empty_sound env d i : is_empty i = true -> ~ member env d i.
Proof.
  unfold is_empty, member. destruct (start i) as [[s|]|], (end_ i) as [[e|]|]; try done.
  destruct (parse_date s) eqn:Es, (parse_date e) eqn:Ee; try done.
  simpl. intros. destruct 1 as [(x & ? & ?) (y & ? & ?)]. simplify_eq. bool_hyps. lia.
Qed.

Lemma empty_not_member env d : ~ member env d empty.
Proof.
  intros [(x & Hx & Hle) (y & Hy & Hlt)]; simpl in *.
  destruct wide_dates as (lo & hi & Hlo & Hhi & ?). simplify_eq. lia.
Qed.

Lemma empty_literal : literal_interval empty = true.
Proof.
  destruct wide_dates as (lo & hi & Hlo & Hhi & ?). unfold literal_interval; simpl.
  by rewrite Hlo, Hhi.
Qed.

Lemma intersect_literal i j :
  literal_interval i = true -> literal_interval j = true -> literal_interval (intersect i j) = true.
Proof.
  intros Hi Hj. unfold intersect. destruct (is_empty i || is_empty j); [apply empty_literal|].
  unfold literal_interval in *. bool_hyps. simpl.
  destruct i as [[]  []], j as [[] []]; simpl in *; rewrite ?andb_true_iff;
    auto using bound_max_literal, bound_min_literal.
Qed.

Lemma union_literal i j :
  literal_interval i = true -> literal_interval j = true -> literal_interval (union i j) = true.
Proof.
  intros Hi Hj. unfold union.
  destruct (is_empty i), (is_empty j), (is_universe i || is_universe j); try done.
  unfold literal_interval in *. bool_hyps. simpl.
  destruct i as [[]  []], j as [[] []]; simpl in *; rewrite ?andb_true_iff;
    auto using bound_max_literal, bound_min_literal.
Qed.

Lemma above_max env d s t : literal_bound s = true -> literal_bound t = true ->
  above env d (Some (bound_max s t)) <-> above env d (Some s) /\ above env d (Some t).
Proof.
  intros Hs Ht. destruct (literal_bound_denote env s Hs) as [x Hx].
  destruct (literal_bound_denote env t Ht) as [y Hy].
  destruct (denote_max env s t x y) as (z & Hz & Hk); try done. simpl.
  rewrite Hx, Hy, Hz. split; [intros (? & ? & ?)|intros [(? & ? & ?) (? & ? & ?)]];
    simplify_eq; [split|]; eexists; (split; [done|lia]).
Qed.

Lemma below_min env d s t : literal_bound s = true -> literal_bound t = true ->
  below env d (Some (bound_min s t)) <-> below env d (Some s) /\ below env d (Some t).
Proof.
  intros Hs Ht. destruct (literal_bound_denote env s Hs) as [x Hx].
  destruct (literal_bound_denote env t Ht) as [y Hy].
  destruct (denote_min env s t x y) as (z & Hz & Hk); try done. simpl.
  rewrite Hx, Hy, Hz. split; [intros (? & ? & ?)|intros [(? & ? & ?) (? & ? & ?)]];
    simplify_eq; [split|]; eexists; (split; [done|lia]).
Qed.

Lemma above_min env d s t : literal_bound s = true -> literal_bound t = true ->
  above env d (Some (bound_min s t)) <-> above env d (Some s) \/ above env d (Some t).
Proof.
  intros Hs Ht. destruct (literal_bound_denote env s Hs) as [x Hx].
  destruct (literal_bound_denote env t Ht) as [y Hy].
  destruct (denote_min env s t x y) as (z & Hz & Hk); try done. simpl.
  rewrite Hx, Hy, Hz. split.
  - intros (? & ? & ?); simplify_eq. destruct (Z.le_gt_cases (date_key x) (date_key d)); [left; eauto|].
    right. exists y. split; [done|lia].
  - intros [(? & ? & ?)|(? & ? & ?)]; simplify_eq; eexists; (split; [done|lia]).
Qed.

Lemma below_max env d s t : literal_bound s = true -> literal_bound t = true ->
  below env d (Some (bound_max s t)) <-> below env d (Some s) \/ below env d (Some t).
Proof.
  intros Hs Ht. destruct (literal_bound_denote env s Hs) as [x Hx].
  destruct (literal_bound_denote env t Ht) as [y Hy].
  destruct (denote_max env s t x y) as (z & Hz & Hk); try done. simpl.
  rewrite Hx, Hy, Hz. split.
  - intros (? & ? & ?); simplify_eq. destruct (Z.lt_ge_cases (date_key d) (date_key x)); [left; eauto|].
    right. exists y. split; [done|lia].
  - intros [(? & ? & ?)|(? & ? & ?)]; simplify_eq; eexists; (split; [done|lia]).
Qed.
End facts.

(** ** Correctness of the algebra *)
Section correctness.
Context `{NaiveDateLaws}.
Implicit Types (env : string -> NaiveDate) (d : NaiveDate) (i j k : Interval).

(** Intersection never loses a date, placeholders included: each bound of
    the result is a bound of one of the operands. *)
Lemma intersect_complete env d i j : member env d i -> member env d j -> member env d (intersect i j).
Proof.
  intros Hi Hj. unfold intersect.
  destruct (is_empty i) eqn:Ei; [by apply (is_empty_sound env d) in Ei|].
  destruct (is_empty j) eqn:Ej; [by apply (is_empty_sound env d) in Ej|].
  destruct Hi as [Ha Hb], Hj as [Ha' Hb']. split; simpl.
  - destruct (start i) as [s|], (start j) as [t|]; try done. by destruct (bound_max_or s t) as [-> | ->].
  - destruct (end_ i) as [s|], (end_ j) as [t|]; try done. by destruct (bound_min_or s t) as [-> | ->].
Qed.

(** ... and on literals it gains none. *)
Lemma intersect_tight env d i j : literal_interval i = true -> literal_interval j = true ->
  member env d (intersect i j) -> member env d i /\ member env d j.
Proof.
  unfold literal_interval, intersect. intros Hi Hj. bool_hyps.
  destruct (is_empty i || is_empty j); [by intros ?%empty_not_member|].
  intros [Ha Hb]; simpl in *. unfold member.
  assert (above env d (start i) /\ above env d (start j)) as [? ?].
  { destruct (start i), (start j); simpl in *; try done. by apply above_max. }
  assert (below env d (end_ i) /\ below env d (end_ j)) as [? ?].
  { destruct (end_ i), (end_ j); simpl in *; try done. by apply below_min. }
  done.
Qed.

Lemma universe_member env d i : is_universe i = true -> member env d i.
Proof. unfold is_universe, member. by destruct (start i), (end_ i). Qed.

Lemma union_complete_l env d i j : literal_interval i = true -> literal_interval j = true ->
  member env d i -> member env d (union i j).
Proof.
  unfold literal_interval, union. intros Hi Hj Hm. bool_hyps.
  destruct (is_empty i) eqn:Ei; [by apply (is_empty_sound env d) in Ei|].
  destruct (is_empty j); [done|].
  destruct (is_universe i || is_universe j); [by apply universe_member|].
  destruct Hm as [Ha Hb]. split; simpl.
  - destruct (start i), (start j); simpl in *; try done. apply above_min; auto.
  - destruct (end_ i), (end_ j); simpl in *; try done. apply below_max; auto.
Qed.

Lemma union_complete_r env d i j : literal_interval i = true -> literal_interval j = true ->
  member env d j -> member env d (union i j).
Proof.
  unfold literal_interval, union. intros Hi Hj Hm. bool_hyps.
  destruct (is_empty i) eqn:Ei; [done|].
  destruct (is_empty j) eqn:Ej; [by apply (is_empty_sound env d) in Ej|].
  destruct (is_universe i || is_universe j); [by apply universe_member|].
  destruct Hm as [Ha Hb]. split; simpl.
  - destruct (start i), (start j); simpl in *; try done. apply above_min; auto.
  - destruct (end_ i), (end_ j); simpl in *; try done. apply below_max; auto.
Qed.

(** A member of the union is between members-or-bounds of the operands. *)
Lemma union_bounds env d i j : literal_interval i = true -> literal_interval j = true ->
  member env d (union i j) ->
  (above env d (start i) \/ above env d (start j)) /\ (below env d (end_ i) \/ below env d (end_ j)).
Proof.
  unfold literal_interval, union. intros Hi Hj. bool_hyps.
  destruct (is_empty i); [intros [? ?]; auto|]. destruct (is_empty j); [intros [? ?]; auto|].
  destruct (is_universe i || is_universe j) eqn:Eu.
  { intros _. unfold is_universe in Eu. apply orb_true_iff in Eu as [Eu|Eu].
    - destruct (start i), (end_ i); try done. simpl; auto.
    - destruct (start j), (end_ j); try done. simpl; auto. }
  intros [Ha Hb]; simpl in *. split.
  - destruct (start i), (start j); simpl in *; auto. by apply above_min.
  - destruct (end_ i), (end_ j); simpl in *; auto. by apply below_max.
Qed.

(** Two members of an interval bracket only members. *)
Lemma above_mono env d e o : above env d o -> date_key d <= date_key e -> above env e o.
Proof. destruct o; [|done]. intros (x & ? & ?) ?. exists x. split; [done|lia]. Qed.
Lemma below_mono env d e o : below env d o -> date_key e <= date_key d -> below env e o.
Proof. destruct o; [|done]. intros (x & ? & ?) ?. exists x. split; [done|lia]. Qed.

Lemma above_or_lt env x d o : literal_opt o = true -> above env x o -> above env d o \/ date_key d < date_key x.
Proof.
  destruct o as [b|]; [|by left]. intros Hl (y & Hy & Hle).
  destruct (Z.le_gt_cases (date_key y) (date_key d)); [left; exists y; auto|right; lia].
Qed.
Lemma below_or_gt env x d o : literal_opt o = true -> below env x o -> below env d o \/ date_key x < date_key d.
Proof.
  destruct o as [b|]; [|by left]. intros Hl (y & Hy & Hle).
  destruct (Z.lt_ge_cases (date_key d) (date_key y)); [left; exists y; auto|right; lia].
Qed.

(** A date of an operand's side of the hull that is not above [k]'s start
    contradicts that [k] contains the operand. *)
Lemma hull_above env d x i k : literal_interval i = true ->
  member env x i -> (forall e, member env e i -> member env e k) ->
  above env d (start i) -> above env d (start k).
Proof.
  unfold literal_interval. intros Hi Hx Hik Ha. bool_hyps. destruct Hx as [Hxa Hxb].
  destruct (below_or_gt env x d (end_ i)) as [Hb|Hgt]; [done..| |].
  - by destruct (Hik d (conj Ha Hb)).
  - destruct (Hik x (conj Hxa Hxb)) as [Hk _]. eapply above_mono; [done|lia].
Qed.
Lemma hull_below env d x i k : literal_interval i = true ->
  member env x i -> (forall e, member env e i -> member env e k) ->
  below env d (end_ i) -> below env d (end_ k).
Proof.
  unfold literal_interval. intros Hi Hx Hik Hb. bool_hyps. destruct Hx as [Hxa Hxb].
  destruct (above_or_lt env x d (start i)) as [Ha|Hlt]; [done..| |].
  - by destruct (Hik d (conj Ha Hb)).
  - destruct (Hik x (conj Hxa Hxb)) as [_ Hk]. eapply below_mono; [done|lia].
Qed.

(** on date literals [intersect] is exactly set intersection. *)
Theorem intersect_exact env d i j :
  literal_interval i = true -> literal_interval j = true ->
  member env d (intersect i j) <-> member env d i /\ member env d j.
Proof.
  intros Hi Hj. split; [by apply intersect_tight|]. intros [? ?]. by apply intersect_complete.
Qed.

(** on date literals [union] is the least interval that contains both
    operands: it loses no date of either, and any interval [k] with that
    property contains it. *)
Theorem union_hull env d i j :
  literal_interval i = true -> literal_interval j = true ->
  (member env d i \/ member env d j -> member env d (union i j)) /\
  (forall x y k, member env x i -> member env y j ->
     (forall e, member env e i \/ member env e j -> member env e k) ->
     member env d (union i j) -> member env d k).
Proof.
  intros Hi Hj. split.
  - intros [?|?]; [by apply union_complete_l|by apply union_complete_r].
  - intros x y k Hx Hy Hk [[Ha|Ha] [Hb|Hb]]%union_bounds; try done; split;
      eauto using hull_above, hull_below.
Qed.
End correctness.

#[local] Existing Instance Civil.ops.
#[local] Existing Instance Civil.laws.

(** The date written [s], for the examples. *)
Definition civil_env (s : string) (_ : string) : Civil.date :=
  default (Civil.mkDate (0, 1, 1) eq_refl) (Civil.parse s).

Definition civil (s : string) : Civil.date := civil_env s "".

(** Witness of [intersect_exact] on January of 2025 and a later window. *)
Lemma intersect_exact_witness :
  member (civil_env "2025-01-01") (civil "2025-01-20")
    (intersect (from_bounds (Some (Literal "2025-01-01")) (Some (Literal "2025-02-01")))
               (from_bounds (Some (Literal "2025-01-15")) (Some (Literal "2025-03-01")))).
Proof.
  apply intersect_exact; [reflexivity|reflexivity|].
  split; split; eexists; (split; [reflexivity|vm_compute; congruence || reflexivity]).
Defined.

(** Witness of [union_hull]: two disjoint months, a date between them. *)
Lemma union_hull_witness :
  member (civil_env "2025-01-01") (civil "2025-01-20")
    (union (from_bounds (Some (Literal "2025-01-01")) (Some (Literal "2025-01-31")))
           (from_bounds (Some (Literal "2025-06-01")) (Some (Literal "2025-06-30")))).
Proof.
  apply union_hull; [reflexivity|reflexivity|].
  left; split; eexists; (split; [reflexivity|vm_compute; congruence || reflexivity]).
Defined.

(** with a placeholder [union] is not conservative.  [dt >= ?p] or
    [dt >= '2025-01-01'] becomes the literal alone, because a literal sorts
    below every placeholder: for [?p] = 2020-01-01 the date 2020-06-01, which
    the predicate accepts, is outside the union. *)
Theorem union_parameter_loses_dates :
  exists (env : string -> Civil.date) (d : Civil.date) (i j : Interval),
    member env d i /\ ~ member env d (union i j).
Proof.
  exists (civil_env "2020-01-01"), (civil "2020-06-01"),
    (from_bounds (Some (DateParameter "?p")) None), (from_bounds (Some (Literal "2025-01-01")) None).
  split; [split; [|done]; eexists; (split; [reflexivity|vm_compute; congruence])|].
  intros [(x & Hx & Hle) _]. vm_compute in Hx. injection Hx as <-. by vm_compute in Hle.
Qed.
