(* ===== verification/BooleanAnalyzer.v ===== *)
(** * Date ranges of a WHERE clause (sql/boolean_analyzer.rs, sql/types.rs)

    The analyzer turns the WHERE expression of a query into one interval per
    dataset, which the transformer passes to the dataset's scan macro; the
    macro filters rows by it.  The query is answered correctly only if every
    row the WHERE clause accepts has its date in the interval: that is
    [analyze_sound]. *)

From S2P Require Import Prelude NaiveDate SqlAst DateInterval.

#[local] Open Scope Z_scope.

(** ** Data (sql/types.rs) *)

Record ScopeId := mkScopeId { scope_index : Z }.

Inductive ScopeKind := MainQuery | ScopeCte (name : string) | ScopeSubquery.

Record TableReference := {
  tr_dataset_id : string;
  tr_alias : option string;
  tr_scope : ScopeId;
}.

Definition effective_name (t : TableReference) : string :=
  match tr_alias t with Some a => a | None => tr_dataset_id t end.

(** ** The analyzer *)
Section analyzer.
Context `{NaiveDateOps}.

Definition is_valid_date (s : string) : bool :=
  match parse_date s with Some _ => true | None => false end.

Definition add_one_day (bound : DateBound) : DateBound :=
  match bound with
  | Literal s =>
      match d ← parse_date s; d' ← succ_opt d; Some (Literal (format_date d')) with
      | Some b => b
      | None => bound
      end
  | DateParameter _ => bound
  end.

Definition is_time_column_ref (expr : Expr) (table_name time_col : string) : bool :=
  match expr with
  | Identifier ident => eq_ignore_ascii_case (value ident) time_col
  | CompoundIdentifier parts =>
      match reverse parts with
      | col_name :: qualifier :: _ =>
          eq_ignore_ascii_case (value col_name) time_col
          && eq_ignore_ascii_case (value qualifier) table_name
      | [p] => eq_ignore_ascii_case (value p) time_col
      | [] => false
      end
  | _ => false
  end.

Fixpoint extract_date_bound (expr : Expr) : option DateBound :=
  match expr with
  | EValue (SingleQuotedString s) => if is_valid_date s then Some (Literal s) else None
  | EValue (Placeholder p) => Some (DateParameter p)
  | EValue (ValueOther _) => None
  | TypedString DataType_Date (SingleQuotedString s) =>
      if is_valid_date s then Some (Literal s) else None
  | TypedString _ _ => None
  | Cast inner DataType_Date => extract_date_bound inner
  | Cast _ _ => None
  | _ => None
  end.

(** The interval of [time_col op bound]; [None] when the operator is not a
    comparison the analyzer knows. *)
Definition column_left (op : BinaryOperator) (right : Expr) : option Interval :=
  match op with
  | OpGtEq => b ← extract_date_bound right; Some (from_bounds (Some b) None)
  | OpGt => b ← extract_date_bound right; Some (from_bounds (Some (add_one_day b)) None)
  | OpLt => b ← extract_date_bound right; Some (from_bounds None (Some b))
  | OpLtEq => b ← extract_date_bound right; Some (from_bounds None (Some (add_one_day b)))
  | OpEq => b ← extract_date_bound right; Some (point b)
  | _ => None
  end.

(** The interval of [bound op time_col]. *)
Definition column_right (op : BinaryOperator) (left : Expr) : option Interval :=
  match op with
  | OpLtEq => b ← extract_date_bound left; Some (from_bounds (Some b) None)
  | OpLt => b ← extract_date_bound left; Some (from_bounds (Some (add_one_day b)) None)
  | OpGt => b ← extract_date_bound left; Some (from_bounds None (Some b))
  | OpGtEq => b ← extract_date_bound left; Some (from_bounds None (Some (add_one_day b)))
  | OpEq => b ← extract_date_bound left; Some (point b)
  | _ => None
  end.

Definition comparison_interval (table_name time_col : string)
    (lhs : Expr) (op : BinaryOperator) (rhs : Expr) : Interval :=
  if is_time_column_ref lhs table_name time_col then default universe (column_left op rhs)
  else if is_time_column_ref rhs table_name time_col then default universe (column_right op lhs)
  else universe.

Fixpoint analyze_for_table (expr : Expr) (table_name time_col : string) : Interval :=
  match expr with
  | BinaryOp lhs OpAnd rhs =>
      intersect (analyze_for_table lhs table_name time_col)
                (analyze_for_table rhs table_name time_col)
  | BinaryOp lhs OpOr rhs =>
      union (analyze_for_table lhs table_name time_col)
            (analyze_for_table rhs table_name time_col)
  | Between col_expr false low high =>
      if is_time_column_ref col_expr table_name time_col then
        match extract_date_bound low, extract_date_bound high with
        | Some s, Some e => from_bounds (Some s) (Some (add_one_day e))
        | _, _ => universe
        end
      else universe
  | BinaryOp lhs op rhs => comparison_interval table_name time_col lhs op rhs
  | Nested inner => analyze_for_table inner table_name time_col
  | _ => universe
  end.

(** [time_columns] maps a dataset to its time column; the result map is
    filled in the order of [tables]. *)
Definition extract_step (time_columns : gmap string string) (expr : Expr)
    (intervals : gmap string Interval) (table : TableReference) : gmap string Interval :=
  match time_columns !! tr_dataset_id table with
  | None => intervals
  | Some time_col =>
      <[tr_dataset_id table := analyze_for_table expr (effective_name table) time_col]> intervals
  end.

Definition extract_intervals (time_columns : gmap string string) (expr : Expr)
    (tables : list TableReference) : gmap string Interval :=
  foldl (extract_step time_columns expr) ∅ tables.
End analyzer.

(** ** Meaning of a WHERE clause on one row

    SQL's truth of expressions belongs to DuckDB.  [row_truth] is what the
    analyzer relies on: [sat e] says that [e] is TRUE on the row, [val e] is
    the date [e] evaluates to, [dt] the row's time column. *)
Section truth.
Context `{NaiveDateOps}.

Record row_truth (env : string -> NaiveDate) (table_name time_col : string) (dt : NaiveDate)
    (sat : Expr -> Prop) (val : Expr -> option NaiveDate) : Prop := {
  sat_and l r : sat (BinaryOp l OpAnd r) -> sat l /\ sat r;
  sat_or l r : sat (BinaryOp l OpOr r) -> sat l \/ sat r;
  sat_nested e : sat (Nested e) -> sat e;
  val_column e : is_time_column_ref e table_name time_col = true -> val e = Some dt;
  val_bound e b : extract_date_bound e = Some b -> val e = denote env b;
  sat_ge l r x y : sat (BinaryOp l OpGtEq r) -> val l = Some x -> val r = Some y -> date_key y <= date_key x;
  sat_gt l r x y : sat (BinaryOp l OpGt r) -> val l = Some x -> val r = Some y -> date_key y < date_key x;
  sat_lt l r x y : sat (BinaryOp l OpLt r) -> val l = Some x -> val r = Some y -> date_key x < date_key y;
  sat_le l r x y : sat (BinaryOp l OpLtEq r) -> val l = Some x -> val r = Some y -> date_key x <= date_key y;
  sat_eq l r x y : sat (BinaryOp l OpEq r) -> val l = Some x -> val r = Some y -> date_key x = date_key y;
  sat_between e lo hi x y z : sat (Between e false lo hi) ->
    val e = Some x -> val lo = Some y -> val hi = Some z ->
    date_key y <= date_key x <= date_key z;
}.

(** No placeholder where the analyzer looks for a date. *)
Fixpoint no_placeholder (e : Expr) : bool :=
  match e with
  | BinaryOp l _ r => no_placeholder l && no_placeholder r
  | Nested e => no_placeholder e
  | Between _ _ lo hi => no_placeholder lo && no_placeholder hi
  | Cast e _ => no_placeholder e
  | EValue (Placeholder _) => false
  | _ => true
  end.
End truth.

Section soundness.
Context `{NaiveDateLaws}.

Lemma extract_literal e b : no_placeholder e = true -> extract_date_bound e = Some b ->
  literal_bound b = true.
Proof.
  revert b; induction e as [| | | | | |v|t v|e IH t| | | | | | | | | | | | | | | | | | | | | | | |]; simpl; intros b He Hb; try done.
  - destruct v as [s| |]; try done. unfold is_valid_date in Hb.
    destruct (parse_date s) eqn:Es; simplify_eq. simpl. by rewrite Es.
  - destruct t, v as [s| |]; try done. unfold is_valid_date in Hb.
    destruct (parse_date s) eqn:Es; simplify_eq. simpl. by rewrite Es.
  - destruct t; eauto. done.
Qed.

(** [add_one_day] on a literal: its date is the successor, or unchanged at
    the calendar's end. *)
Lemma add_one_day_spec env b x : literal_bound b = true -> denote env b = Some x ->
  literal_bound (add_one_day b) = true /\
  exists y, denote env (add_one_day b) = Some y /\ (succ_opt x = Some y \/ (succ_opt x = None /\ y = x)).
Proof.
  intros (s & x' & -> & Hs)%literal_bound_inv; simpl. intros Hx.
  rewrite Hs in Hx. injection Hx as ->. rewrite Hs; simpl.
  destruct (succ_opt x) as [y|] eqn:Ey; simpl.
  - rewrite parse_format. split; [done|]. exists y; auto.
  - rewrite Hs. split; [done|]. exists x; auto.
Qed.

Lemma add_one_day_literal b : literal_bound b = true -> literal_bound (add_one_day b) = true.
Proof.
  intros (s & x & -> & Hs)%literal_bound_inv. simpl. rewrite Hs; simpl.
  destruct (succ_opt x); simpl; [by rewrite parse_format|by rewrite Hs].
Qed.

Lemma point_eq b : point b = {| start := Some b; end_ := Some (add_one_day b) |}.
Proof. by destruct b. Qed.

(** The three shapes of one-sided bound, for a row date that has a
    successor. *)
Lemma above_next env d b x : literal_bound b = true -> denote env b = Some x ->
  date_key x < date_key d -> above env d (Some (add_one_day b)).
Proof.
  intros Hb Hx Hlt. destruct (add_one_day_spec env b x Hb Hx) as [_ (y & Hy & Hs)];
    exists y; (split; [done|]). destruct Hs as [Hs|[_ ->]].
  - by apply (succ_le_iff x y d Hs).
  - lia.
Qed.

Lemma below_next env d b x : literal_bound b = true -> denote env b = Some x ->
  is_Some (succ_opt d) -> date_key d <= date_key x -> below env d (Some (add_one_day b)).
Proof.
  intros Hb Hx [d' Hd'] Hle. destruct (add_one_day_spec env b x Hb Hx) as [_ (y & Hy & Hs)];
    exists y; (split; [done|]). destruct Hs as [Hs|[Hs ->]].
  - by apply (succ_next x y Hs).
  - pose proof (succ_gt d d' Hd'). pose proof (succ_last x Hs d'). lia.
Qed.

Lemma comparison_literal t c l op r : no_placeholder l = true -> no_placeholder r = true ->
  literal_interval (comparison_interval t c l op r) = true.
Proof.
  intros Hl Hr. unfold comparison_interval, column_left, column_right.
  assert (Hlit : forall e b, no_placeholder e = true -> extract_date_bound e = Some b ->
    literal_bound b = true /\ literal_bound (add_one_day b) = true).
  { intros e b He Hb. pose proof (extract_literal e b He Hb). auto using add_one_day_literal. }
  destruct (is_time_column_ref l t c).
  - destruct op; simpl; try done; destruct (extract_date_bound r) as [b|] eqn:Eb; simpl; try done;
      destruct (Hlit r b Hr Eb); unfold literal_interval; rewrite ?point_eq; simpl;
      by rewrite ?andb_true_iff.
  - destruct (is_time_column_ref r t c); [|done].
    destruct op; simpl; try done; destruct (extract_date_bound l) as [b|] eqn:Eb; simpl; try done;
      destruct (Hlit l b Hl Eb); unfold literal_interval; rewrite ?point_eq; simpl;
      by rewrite ?andb_true_iff.
Qed.

Lemma comparison_sound env t c dt sat val l op r :
  row_truth env t c dt sat val -> is_Some (succ_opt dt) ->
  no_placeholder l = true -> no_placeholder r = true ->
  sat (BinaryOp l op r) -> member env dt (comparison_interval t c l op r).
Proof.
  intros Ht Hd Hl Hr Hsat. unfold comparison_interval.
  destruct (is_time_column_ref l t c) eqn:El; [|destruct (is_time_column_ref r t c) eqn:Er; [|done]].
  - pose proof (val_column _ _ _ _ _ _ Ht l El) as Hv.
    unfold column_left. destruct op; simpl; try done;
      (destruct (extract_date_bound r) as [b|] eqn:Eb; simpl; [|done]);
      pose proof (extract_literal r b Hr Eb) as Hlb;
      destruct (literal_bound_denote env b Hlb) as [x Hx];
      pose proof (val_bound _ _ _ _ _ _ Ht r b Eb) as Hvr; rewrite Hx in Hvr; rewrite ?point_eq.
    + split; [|done]. exists x. split; [done|]. eapply sat_ge; eauto.
    + split; [|done]. eapply above_next; eauto. eapply sat_gt; eauto.
    + split; [done|]. exists x. split; [done|]. eapply sat_lt; eauto.
    + split; [done|]. eapply below_next; eauto. eapply sat_le; eauto.
    + pose proof (sat_eq _ _ _ _ _ _ Ht l r dt x Hsat Hv Hvr) as He.
      split; simpl; [exists x; split; [done|lia]|]. eapply below_next; eauto. lia.
  - pose proof (val_column _ _ _ _ _ _ Ht r Er) as Hv.
    unfold column_right. destruct op; simpl; try done;
      (destruct (extract_date_bound l) as [b|] eqn:Eb; simpl; [|done]);
      pose proof (extract_literal l b Hl Eb) as Hlb;
      destruct (literal_bound_denote env b Hlb) as [x Hx];
      pose proof (val_bound _ _ _ _ _ _ Ht l b Eb) as Hvl; rewrite Hx in Hvl; rewrite ?point_eq.
    + split; [done|]. eapply below_next; eauto. eapply sat_ge; eauto.
    + split; [done|]. exists x. split; [done|]. eapply sat_gt; eauto.
    + split; [|done]. eapply above_next; eauto. eapply sat_lt; eauto.
    + split; [|done]. exists x. split; [done|]. eapply sat_le; eauto.
    + pose proof (sat_eq _ _ _ _ _ _ Ht l r x dt Hsat Hvl Hv) as He.
      split; simpl; [exists x; split; [done|lia]|]. eapply below_next; eauto. lia.
Qed.
End soundness.

Section conservative.
Context `{NaiveDateLaws}.

Lemma analyze_literal e t c : no_placeholder e = true ->
  literal_interval (analyze_for_table e t c) = true.
Proof.
  induction e as [| |l IHl op r IHr| |e IH|e _ neg lo _ hi _| | | | | | | | | | | | | | | | | | | | | | | | | | |]; simpl; intros He; try done.
  - bool_hyps. destruct op; auto using intersect_literal, union_literal, comparison_literal.
  - auto.
  - destruct neg; [done|]. destruct (is_time_column_ref e t c); [|done]. bool_hyps.
    destruct (extract_date_bound lo) as [b|] eqn:Eb, (extract_date_bound hi) as [b'|] eqn:Eb'; try done.
    apply extract_literal in Eb, Eb'; try done. unfold literal_interval; simpl.
    rewrite Eb; simpl. auto using add_one_day_literal.
Qed.

Lemma analyze_contains env t c dt sat val e :
  row_truth env t c dt sat val -> is_Some (succ_opt dt) -> no_placeholder e = true ->
  sat e -> member env dt (analyze_for_table e t c).
Proof.
  intros Ht Hd.
  induction e as [| |l IHl op r IHr| |e IH|e _ neg lo _ hi _| | | | | | | | | | | | | | | | | | | | | | | | | | |]; simpl; intros He Hs; try done.
  - bool_hyps. destruct op.
    1: { apply (sat_and _ _ _ _ _ _ Ht) in Hs as [? ?]. apply intersect_complete; auto. }
    1: { apply (sat_or _ _ _ _ _ _ Ht) in Hs as [?|?];
           [apply union_complete_l|apply union_complete_r]; auto using analyze_literal. }
    all: eauto using comparison_sound.
  - apply IH; [done|]. eapply sat_nested; eauto.
  - destruct neg; [done|]. destruct (is_time_column_ref e t c) eqn:Ee; [|done]. bool_hyps.
    destruct (extract_date_bound lo) as [b|] eqn:Eb; [|done].
    destruct (extract_date_bound hi) as [b'|] eqn:Eb'; [|done].
    pose proof (extract_literal lo b ltac:(done) Eb) as Hb.
    pose proof (extract_literal hi b' ltac:(done) Eb') as Hb'.
    destruct (literal_bound_denote env b Hb) as [x Hx], (literal_bound_denote env b' Hb') as [y Hy].
    destruct (sat_between _ _ _ _ _ _ Ht e lo hi dt x y Hs) as [? ?].
    { by eapply val_column. }
    { rewrite <- Hx. by eapply val_bound. }
    { rewrite <- Hy. by eapply val_bound. }
    split; [exists x; auto|]. eapply below_next; eauto.
Qed.

(** C6: the analyzer is conservative.  For a WHERE clause without
    placeholders, every row on which the clause is TRUE has its date in the
    interval computed for the row's table. *)
Theorem analyze_sound env t c dt sat val e :
  row_truth env t c dt sat val -> is_Some (succ_opt dt) -> no_placeholder e = true ->
  sat e -> member env dt (analyze_for_table e t c).
Proof. apply analyze_contains. Qed.
End conservative.

(** ** A concrete row semantics

    An evaluator of the fragment the analyzer reads; expressions it does not
    read are taken to be true.  It meets [row_truth], so the theorem above is
    about something. *)
Section evaluator.
Context `{NaiveDateOps} (env : string -> NaiveDate) (table_name time_col : string) (dt : NaiveDate).

Definition eval_date (e : Expr) : option NaiveDate :=
  if is_time_column_ref e table_name time_col then Some dt
  else b ← extract_date_bound e; denote env b.

Definition eval_cmp (test : Z -> Z -> bool) (l r : Expr) : bool :=
  match eval_date l, eval_date r with
  | Some x, Some y => test (date_key x) (date_key y)
  | _, _ => true
  end.

Fixpoint eval_row (e : Expr) : bool :=
  match e with
  | BinaryOp l OpAnd r => eval_row l && eval_row r
  | BinaryOp l OpOr r => eval_row l || eval_row r
  | BinaryOp l OpGtEq r => eval_cmp (fun x y => y <=? x) l r
  | BinaryOp l OpGt r => eval_cmp (fun x y => y <? x) l r
  | BinaryOp l OpLt r => eval_cmp Z.ltb l r
  | BinaryOp l OpLtEq r => eval_cmp Z.leb l r
  | BinaryOp l OpEq r => eval_cmp Z.eqb l r
  | Between e false lo hi => eval_cmp (fun x y => y <=? x) e lo && eval_cmp Z.leb e hi
  | Nested e => eval_row e
  | _ => true
  end.

Lemma eval_row_truth : row_truth env table_name time_col dt (fun e => eval_row e = true) eval_date.
Proof.
  assert (Hc : forall test l r x y, eval_cmp test l r = true -> eval_date l = Some x ->
    eval_date r = Some y -> test (date_key x) (date_key y) = true).
  { intros test l r x y. unfold eval_cmp. intros Ht Hx Hy. by rewrite Hx, Hy in Ht. }
  split; simpl; try (intros; eapply Hc in H0; [|done..]; by bool_hyps).
  - intros. by bool_hyps.
  - intros. by apply orb_true_iff.
  - done.
  - unfold eval_date. by intros e ->.
  - unfold eval_date. intros e b Hb.
    destruct (is_time_column_ref e table_name time_col) eqn:Ee; [|by rewrite Hb].
    destruct e; simpl in *; done.
  - intros. bool_hyps. eapply Hc in H0, H4; [|done..]. by bool_hyps.
Qed.
End evaluator.

#[local] Existing Instance Civil.ops.
#[local] Existing Instance Civil.laws.

Definition column (s : string) : Expr := Identifier (Ident_new s).
Definition date_string (s : string) : Expr := EValue (SingleQuotedString s).

(** [dt >= '2025-01-01' AND (dt <= '2025-01-31' OR dt = '2025-06-01')]. *)
Definition sample_where : Expr :=
  BinaryOp (BinaryOp (column "dt") OpGtEq (date_string "2025-01-01")) OpAnd
    (Nested (BinaryOp (BinaryOp (column "dt") OpLtEq (date_string "2025-01-31")) OpOr
                      (BinaryOp (column "dt") OpEq (date_string "2025-06-01")))).

Example sample_interval :
  analyze_for_table sample_where "sales" "dt" =
  from_bounds (Some (Literal "2025-01-01")) (Some (Literal "2025-06-02")).
Proof. reflexivity. Qed.

Lemma analyze_sound_witness :
  member (civil_env "2025-01-01") (civil "2025-01-31") (analyze_for_table sample_where "sales" "dt").
Proof.
  apply (analyze_sound (H:=Civil.ops) (H0:=Civil.laws) (civil_env "2025-01-01") "sales" "dt" (civil "2025-01-31")
    (fun e => @eval_row Civil.ops (civil_env "2025-01-01") "sales" "dt" (civil "2025-01-31") e = true)
    (@eval_date Civil.ops (civil_env "2025-01-01") "sales" "dt" (civil "2025-01-31"))).
  - apply eval_row_truth.
  - vm_compute. eauto.
  - reflexivity.
  - reflexivity.
Defined.

(** an inclusive comparison with a placeholder loses the boundary day.
    [dt <= ?p] is turned into the half-open interval that ends at [?p] itself,
    because a day cannot be added to a placeholder; the row of day [?p], which
    the clause accepts, is outside the interval. *)
Theorem placeholder_drops_boundary :
  exists (env : string -> Civil.date) (dt : Civil.date) (e : Expr),
    eval_row env "sales" "dt" dt e = true /\ is_Some (succ_opt dt) /\
    ~ member env dt (analyze_for_table e "sales" "dt").
Proof.
  exists (civil_env "2025-01-31"), (civil "2025-01-31"),
    (BinaryOp (column "dt") OpLtEq (EValue (Placeholder "?p"))).
  split; [reflexivity|]. split; [vm_compute; eauto|].
  intros [_ (x & Hx & Hlt)]. vm_compute in Hx. injection Hx as <-. by vm_compute in Hlt.
Qed.

(** the map of intervals is keyed by dataset, so in a self-join the last
    alias overwrites the others.  A row that alias [a] accepts is outside the
    only interval kept for the dataset. *)
Theorem self_join_overwrites :
  exists (tables : list TableReference) (e : Expr) (dt : Civil.date) (i : Interval),
    eval_row (civil_env "2025-01-01") "a" "dt" dt e = true /\
    tables = [Build_TableReference "sales" (Some "a") (mkScopeId 0);
              Build_TableReference "sales" (Some "b") (mkScopeId 0)] /\
    extract_intervals {["sales" := "dt"]} e tables !! "sales" = Some i /\
    ~ member (civil_env "2025-01-01") dt i.
Proof.
  exists [Build_TableReference "sales" (Some "a") (mkScopeId 0);
          Build_TableReference "sales" (Some "b") (mkScopeId 0)],
    (BinaryOp (BinaryOp (CompoundIdentifier [Ident_new "a"; Ident_new "dt"]) OpGtEq (date_string "2025-01-01"))
       OpAnd
       (BinaryOp (CompoundIdentifier [Ident_new "b"; Ident_new "dt"]) OpLt (date_string "2024-01-01"))),
    (civil "2025-03-01"), (from_bounds None (Some (Literal "2024-01-01"))).
  split; [reflexivity|]. split; [reflexivity|]. split; [reflexivity|].
  intros [_ (x & Hx & Hlt)]. vm_compute in Hx. injection Hx as <-. by vm_compute in Hlt.
Qed.
