(* ===== verification/MacroCall.v ===== *)
(** * From intervals to scan macro calls (sql/types.rs, sql/transformer.rs)

    The part of the transformer between the parsed statement and its rewriting:
    the registry of datasets, the date range of every dataset the query reads,
    and the macro call a table is replaced with.  The macro keeps the rows with
    [start <= date < end] (engine/duckdb/helper.rs), so [macro_keeps_rows] is
    the semantic parity the module's documentation promises. *)

From S2P Require Import Prelude NaiveDate SqlAst DateInterval BooleanAnalyzer.

#[local] Open Scope Z_scope.

(** ** Data *)

Record DateRange := mkDateRange {
  dr_start : option DateBound;
  dr_end : option DateBound;
  dr_end_inclusive : bool;
}.

(** [DateRange::default] and [DateRange::new]. *)
Definition DateRange_new : DateRange := {| dr_start := None; dr_end := None; dr_end_inclusive := false |}.

Definition with_literals (s e : option string) (end_inclusive : bool) : DateRange :=
  {| dr_start := Literal <$> s; dr_end := Literal <$> e; dr_end_inclusive := end_inclusive |}.

Definition DateRange_is_empty (r : DateRange) : bool :=
  match dr_start r, dr_end r with None, None => true | _, _ => false end.

Definition DateRange_merge (r other : DateRange) : DateRange :=
  let r := match dr_start r with
           | None => {| dr_start := dr_start other; dr_end := dr_end r; dr_end_inclusive := dr_end_inclusive r |}
           | Some _ => r
           end in
  match dr_end r with
  | None => {| dr_start := dr_start r; dr_end := dr_end other; dr_end_inclusive := dr_end_inclusive other |}
  | Some _ => r
  end.

(** [From<Interval> for DateRange]. *)
Definition DateRange_from (i : Interval) : DateRange :=
  {| dr_start := start i; dr_end := end_ i; dr_end_inclusive := false |}.

Record RegisteredDataset := {
  rd_dataset_id : string;
  rd_time_column_name : string;
  rd_macro_name : string;
}.

Definition RegisteredDataset_new (dataset_id time_column_name : string) : RegisteredDataset :=
  {| rd_dataset_id := dataset_id; rd_time_column_name := time_column_name;
     rd_macro_name := "scan_" +:+ dataset_id |}.

Definition with_macro_name (dataset_id time_column_name macro_name : string) : RegisteredDataset :=
  {| rd_dataset_id := dataset_id; rd_time_column_name := time_column_name; rd_macro_name := macro_name |}.

(** ** The transformer's registry *)

Record SqlTransformer := { registered_datasets : gmap string RegisteredDataset }.

Definition SqlTransformer_new : SqlTransformer := {| registered_datasets := ∅ |}.

Definition register_dataset (t : SqlTransformer) (d : RegisteredDataset) : SqlTransformer :=
  {| registered_datasets := <[rd_dataset_id d := d]> (registered_datasets t) |}.

Definition unregister_dataset (t : SqlTransformer) (dataset_id : string) : SqlTransformer :=
  {| registered_datasets := delete dataset_id (registered_datasets t) |}.

Definition is_registered (t : SqlTransformer) (dataset_id : string) : bool :=
  match registered_datasets t !! dataset_id with Some _ => true | None => false end.

Definition get_dataset (t : SqlTransformer) (dataset_id : string) : option RegisteredDataset :=
  registered_datasets t !! dataset_id.

Definition registered_dataset_ids (t : SqlTransformer) : gset string := dom (registered_datasets t).

(** ** Macro calls *)
Section macro.
Context `{NaiveDateOps}.

(** The free function [add_one_day] of the transformer, on the text. *)
Definition add_one_day_str (date_str : string) : string :=
  match d ← parse_date date_str; d' ← succ_opt d; Some (format_date d') with
  | Some s => s
  | None => date_str
  end.

Definition create_date_literal (date_str : string) : Expr :=
  TypedString DataType_Date (SingleQuotedString date_str).

Definition create_placeholder (p : string) : Expr := EValue (Placeholder p).

Definition format_date_args (range : DateRange) : Expr * Expr :=
  (match dr_start range with
   | Some (Literal s) => create_date_literal s
   | Some (DateParameter p) => create_placeholder p
   | None => create_date_literal WIDE_SCAN_START
   end,
   match dr_end range with
   | Some (Literal s) =>
       if dr_end_inclusive range then create_date_literal (add_one_day_str s)
       else create_date_literal s
   | Some (DateParameter p) => create_placeholder p
   | None => create_date_literal WIDE_SCAN_END
   end).

Definition create_macro_call (dataset : RegisteredDataset) (range : DateRange)
    (original_alias : option TableAlias) : TableFactor :=
  let '(start_arg, end_arg) := format_date_args range in
  TFFunction false [NameIdentifier (Ident_new (rd_macro_name dataset))] [UnnamedExpr start_arg; UnnamedExpr end_arg]
    original_alias.

Definition wide_scan_step (m : gmap string DateRange) (table : TableReference) : gmap string DateRange :=
  <[tr_dataset_id table := DateRange_new]> m.

(** Phase 3 of [transform]: the date range of every discovered table. *)
Definition transform_date_ranges (t : SqlTransformer) (where_expr : option Expr)
    (tables : list TableReference) : gmap string DateRange :=
  let time_columns := rd_time_column_name <$> registered_datasets t in
  match where_expr with
  | Some expr => DateRange_from <$> extract_intervals time_columns expr tables
  | None => foldl wide_scan_step ∅ tables
  end.

(** The replacement map built between phases 3 and 4. *)
Definition replacement_step (t : SqlTransformer) (date_ranges : gmap string DateRange)
    (m : gmap string (RegisteredDataset * DateRange)) (table : TableReference)
    : gmap string (RegisteredDataset * DateRange) :=
  match registered_datasets t !! tr_dataset_id table, date_ranges !! tr_dataset_id table with
  | Some dataset, Some range => <[tr_dataset_id table := (dataset, range)]> m
  | _, _ => m
  end.

Definition transform_replacements (t : SqlTransformer) (date_ranges : gmap string DateRange)
    (tables : list TableReference) : gmap string (RegisteredDataset * DateRange) :=
  foldl (replacement_step t date_ranges) ∅ tables.

(** [rewrite_table_factor] on a table: a name in the replacement map becomes
    its macro call, under the table's own alias. *)
Definition extract_table_name (name : ObjectName) : string :=
  match last name with Some (NameIdentifier i) => value i | _ => "" end.

Definition rewrite_table (factor : TableFactor)
    (replacements : gmap string (RegisteredDataset * DateRange)) : TableFactor :=
  match factor with
  | TFTable name alias _ =>
      match replacements !! extract_table_name name with
      | Some (dataset, range) => create_macro_call dataset range alias
      | None => factor
      end
  | _ => factor
  end.

(** The filter of the scan macro: [CAST(dt AS DATE) >= start AND < end]. *)
Definition macro_keeps (env : string -> NaiveDate) (dt : NaiveDate) (args : Expr * Expr) : Prop :=
  exists b c x y, extract_date_bound (fst args) = Some b /\ extract_date_bound (snd args) = Some c /\
    denote env b = Some x /\ denote env c = Some y /\ date_key x <= date_key dt < date_key y.

(** The window of the default bounds. *)
Definition in_wide_scan (dt : NaiveDate) : Prop :=
  exists lo hi, parse_date WIDE_SCAN_START = Some lo /\ parse_date WIDE_SCAN_END = Some hi /\
    date_key lo <= date_key dt < date_key hi.
End macro.

Section parity.
Context `{NaiveDateLaws}.

(** The macro arguments of an interval accept every member inside the wide
    window. *)
Lemma format_date_args_keeps env dt i :
  in_wide_scan dt -> member env dt i -> macro_keeps env dt (format_date_args (DateRange_from i)).
Proof.
  intros (lo & hi & Hlo & Hhi & Hw) [Ha Hb].
  assert (exists b x, extract_date_bound (fst (format_date_args (DateRange_from i))) = Some b /\
    denote env b = Some x /\ date_key x <= date_key dt) as (b & x & ? & ? & ?).
  { unfold format_date_args, create_date_literal, create_placeholder; simpl.
    destruct (start i) as [[s|p]|]; simpl in *.
    - destruct Ha as (x & Hx & ?). unfold is_valid_date. rewrite Hx. by exists (Literal s), x.
    - destruct Ha as (x & ? & ?). by exists (DateParameter p), x.
    - unfold is_valid_date. rewrite Hlo. exists (Literal WIDE_SCAN_START), lo. repeat split; [done|lia]. }
  assert (exists b x, extract_date_bound (snd (format_date_args (DateRange_from i))) = Some b /\
    denote env b = Some x /\ date_key dt < date_key x) as (c & y & ? & ? & ?).
  { unfold format_date_args, create_date_literal, create_placeholder; simpl.
    destruct (end_ i) as [[s|p]|]; simpl in *.
    - destruct Hb as (z & Hz & ?). unfold is_valid_date. rewrite Hz. by exists (Literal s), z.
    - destruct Hb as (z & ? & ?). by exists (DateParameter p), z.
    - unfold is_valid_date. rewrite Hhi. exists (Literal WIDE_SCAN_END), hi. repeat split; [done|lia]. }
  exists b, c, x, y. repeat split; done || lia.
Qed.

Lemma foldl_extract_notin tc e tables m ds :
  ds ∉ map tr_dataset_id tables -> foldl (extract_step tc e) m tables !! ds = m !! ds.
Proof.
  revert m; induction tables as [|t ts IH]; intros m Hn; simpl; [done|].
  simpl in Hn. apply not_elem_of_cons in Hn as [? ?]. rewrite IH by done. unfold extract_step.
  destruct (tc !! _); [|done]. by rewrite lookup_insert_ne.
Qed.

(** With one reference per dataset the map holds that reference's own
    interval. *)
Lemma extract_intervals_lookup tc e tables t c :
  NoDup (map tr_dataset_id tables) -> t ∈ tables -> tc !! tr_dataset_id t = Some c ->
  extract_intervals tc e tables !! tr_dataset_id t = Some (analyze_for_table e (effective_name t) c).
Proof.
  unfold extract_intervals. generalize (∅ : gmap string Interval).
  induction tables as [|t' ts IH]; intros m Hnd Hin Hc; [by apply not_elem_of_nil in Hin|].
  simpl in Hnd. apply NoDup_cons in Hnd as [Hn Hnd]. apply elem_of_cons in Hin as [<-|Hin]; simpl.
  - rewrite foldl_extract_notin by done. unfold extract_step. rewrite Hc. by rewrite lookup_insert_eq.
  - by apply IH.
Qed.

Lemma replacements_lookup tr ranges tables t ds r :
  t ∈ tables -> registered_datasets tr !! tr_dataset_id t = Some ds ->
  ranges !! tr_dataset_id t = Some r ->
  transform_replacements tr ranges tables !! tr_dataset_id t = Some (ds, r).
Proof.
  unfold transform_replacements. intros Hin Hd Hr.
  assert (Hin' : tr_dataset_id t ∈ map tr_dataset_id tables) by (by apply (list_elem_of_fmap_2 tr_dataset_id)).
  clear Hin. generalize (∅ : gmap string (RegisteredDataset * DateRange)) as m.
  cut (forall m : gmap string (RegisteredDataset * DateRange),
    tr_dataset_id t ∈ map tr_dataset_id tables \/ m !! tr_dataset_id t = Some (ds, r) ->
    foldl (replacement_step tr ranges) m tables !! tr_dataset_id t = Some (ds, r)); [auto|]. clear Hin'. induction tables as [|t' ts IH]; intros m Hc; simpl.
  { destruct Hc as [Hc|]; [|done]. by apply not_elem_of_nil in Hc. }
  apply IH. unfold replacement_step. destruct (decide (tr_dataset_id t' = tr_dataset_id t)) as [E|E].
  - right. rewrite E, Hd, Hr. by rewrite lookup_insert_eq.
  - destruct Hc as [Hc|Hc]; [left; set_solver|right].
    repeat case_match; rewrite ?lookup_insert_ne by done; done.
Qed.

Lemma wide_scan_lookup tables m t : t ∈ tables ->
  foldl wide_scan_step m tables !! tr_dataset_id t = Some DateRange_new.
Proof.
  revert m. induction tables as [|t' ts IH] using rev_ind; intros m Hin; [by apply not_elem_of_nil in Hin|].
  rewrite foldl_app; simpl. unfold wide_scan_step at 1.
  destruct (decide (tr_dataset_id t' = tr_dataset_id t)) as [->|E]; [apply lookup_insert_eq|].
  rewrite lookup_insert_ne by done. apply IH. apply elem_of_app in Hin as [?|Hin]; [done|].
  by apply list_elem_of_singleton in Hin as ->.
Qed.

End parity.

#[local] Existing Instance Civil.ops.
#[local] Existing Instance Civil.laws.

Definition sample_transformer : SqlTransformer :=
  register_dataset SqlTransformer_new (RegisteredDataset_new "sales" "dt").
Definition sample_tables : list TableReference := [Build_TableReference "sales" (Some "s") (mkScopeId 0)].

(** The documented example of the module: BETWEEN becomes the half-open range. *)
Example between_macro_call :
  rewrite_table (TFTable [NameIdentifier (Ident_new "sales")] None "")
    (transform_replacements sample_transformer
      (transform_date_ranges sample_transformer
        (Some (Between (column "dt") false (date_string "2025-01-01") (date_string "2025-01-31")))
        sample_tables) sample_tables) =
  TFFunction false [NameIdentifier (Ident_new "scan_sales")]
    [UnnamedExpr (create_date_literal "2025-01-01"); UnnamedExpr (create_date_literal "2025-02-01")] None.
Proof. reflexivity. Qed.


(** the wide scan is not the whole time line.  A query without a WHERE
    clause is rewritten to the bounds 1970-01-01 and 9999-12-31, and the macro
    filters by them: a row dated 1969-12-31, which the query selects, is
    dropped. *)
Theorem wide_scan_drops_rows :
  exists (dt : Civil.date) (args : Expr * Expr),
    rewrite_table (TFTable [NameIdentifier (Ident_new "sales")] None "")
      (transform_replacements sample_transformer
        (transform_date_ranges sample_transformer None sample_tables) sample_tables) =
    TFFunction false [NameIdentifier (Ident_new "scan_sales")] [UnnamedExpr (fst args); UnnamedExpr (snd args)] None /\
    ~ macro_keeps (civil_env "2025-01-01") dt args.
Proof.
  exists (civil "1969-12-31"), (create_date_literal WIDE_SCAN_START, create_date_literal WIDE_SCAN_END).
  split; [reflexivity|]. intros (b & c & x & y & Hb & Hc & Hx & Hy & Hle & _).
  vm_compute in Hb. injection Hb as <-. vm_compute in Hx. injection Hx as <-. by vm_compute in Hle.
Qed.

(** [DateRange::merge] keeps the bounds already set instead of the
    tightest ones: a range that starts on 2025-01-01 merged with one that
    starts on 2025-06-01 still starts on 2025-01-01. *)
Theorem merge_keeps_first_bound (r other : DateRange) (b : DateBound) :
  dr_start r = Some b -> dr_start (DateRange_merge r other) = Some b.
Proof. intros Hb. unfold DateRange_merge. rewrite Hb. destruct (dr_end r); done. Qed.

Lemma merge_keeps_first_bound_witness :
  dr_start (DateRange_merge (with_literals (Some "2025-01-01") None false)
                            (with_literals (Some "2025-06-01") None false)) = Some (Literal "2025-01-01").
Proof. apply merge_keeps_first_bound. reflexivity. Defined.
