(* ===== verification/LogicalPlan.v ===== *)
(** * Logical plans and column references (sql/logical_plan.rs) *)

From S2P Require Import Prelude SqlAst.

(** ** Column references *)

Record ColumnRef := mkColumnRef { cr_table : option string; cr_column : string }.

#[export] Instance ColumnRef_eq_dec : EqDecision ColumnRef.
Proof. solve_decision. Defined.

Definition unqualified (column : string) : ColumnRef := {| cr_table := None; cr_column := column |}.

Definition qualified (table column : string) : ColumnRef :=
  {| cr_table := Some table; cr_column := column |}.

Definition stripped (c : ColumnRef) : ColumnRef := {| cr_table := None; cr_column := cr_column c |}.

Definition matches (c other : ColumnRef) : bool :=
  let col_eq := eq_ignore_ascii_case (cr_column c) (cr_column other) in
  match cr_table c, cr_table other with
  | Some a, Some b => eq_ignore_ascii_case a b && col_eq
  | _, _ => col_eq
  end.

Definition ColumnRef_display (c : ColumnRef) : string :=
  match cr_table c with
  | Some t => t +:+ "." +:+ cr_column c
  | None => cr_column c
  end.

(** [xs.len() == ys.len() && xs.iter().zip(ys).all(matches)]: the comparison of
    key lists that the planner writes in three places. *)
Fixpoint all_match (xs ys : list ColumnRef) : bool :=
  match xs, ys with
  | [], [] => true
  | x :: xs, y :: ys => matches x y && all_match xs ys
  | _, _ => false
  end.

Lemma matches_refl c : matches c c = true.
Proof. unfold matches. destruct (cr_table c); by rewrite ?eq_ignore_ascii_case_refl. Qed.

Lemma matches_sym c d : matches c d = matches d c.
Proof.
  unfold matches. rewrite (eq_ignore_ascii_case_sym (cr_column c)).
  destruct (cr_table c) as [a|], (cr_table d) as [b|]; try done.
  by rewrite (eq_ignore_ascii_case_sym a b).
Qed.

Lemma all_match_refl xs : all_match xs xs = true.
Proof. induction xs; simpl; [done|]. by rewrite matches_refl. Qed.

Lemma all_match_sym xs ys : all_match xs ys = all_match ys xs.
Proof. revert ys; induction xs as [|x xs IH]; intros [|y ys]; simpl; try done. by rewrite matches_sym, IH. Qed.

Lemma all_match_zip xs ys :
  all_match xs ys = (length xs =? length ys)%nat && forallb (fun p => matches (fst p) (snd p)) (zip xs ys).
Proof.
  revert ys; induction xs as [|x xs IH]; intros [|y ys]; simpl; try done. rewrite IH.
  destruct (matches x y), (length xs =? length ys)%nat; done.
Qed.

#[export] Hint Resolve matches_refl all_match_refl : worker.

(** ** Plans *)

Inductive LogicalPlan :=
| Scan (table_name : string) (alias : option TableAlias) (table_factor : TableFactor)
| Filter (input : LogicalPlan) (predicate : Expr)
| Project (input : LogicalPlan) (items : list SelectItem)
| Aggregate (input : LogicalPlan) (group_by : GroupByExpr) (aggr_exprs : list SelectItem)
            (having : option Expr) (group_keys : list ColumnRef)
| Sort (input : LogicalPlan) (order_by : list OrderByExpr)
| Limit (input : LogicalPlan) (limit offset : option Expr)
| Join (lhs rhs : LogicalPlan) (join_op : JoinOperator) (left_keys right_keys : list ColumnRef)
| SetOp (lhs rhs : LogicalPlan) (op : SetOperator) (set_quantifier : SetQuantifier)
| Window (input : LogicalPlan) (window_exprs : list SelectItem) (partition_keys : list ColumnRef)
| SubqueryScan (input : LogicalPlan) (alias : TableAlias)
| ExchangeRead (exchange_id : Z) (alias : string).

Definition children (p : LogicalPlan) : list LogicalPlan :=
  match p with
  | Scan _ _ _ | ExchangeRead _ _ => []
  | Filter i _ | Project i _ | Aggregate i _ _ _ _ | Sort i _ | Limit i _ _
  | Window i _ _ | SubqueryScan i _ => [i]
  | Join l r _ _ _ | SetOp l r _ _ => [l; r]
  end.

Definition node_name (p : LogicalPlan) : string :=
  match p with
  | Scan _ _ _ => "Scan"
  | Filter _ _ => "Filter"
  | Project _ _ => "Project"
  | Aggregate _ _ _ _ _ => "Aggregate"
  | Sort _ _ => "Sort"
  | Limit _ _ _ => "Limit"
  | Join _ _ _ _ _ => "Join"
  | SetOp _ _ _ _ => "SetOp"
  | Window _ _ _ => "Window"
  | SubqueryScan _ _ => "SubqueryScan"
  | ExchangeRead _ _ => "ExchangeRead"
  end.

Definition is_leaf (p : LogicalPlan) : bool :=
  match p with Scan _ _ _ | ExchangeRead _ _ => true | _ => false end.

(** The number of inputs of a node, which the planner's code assumes of the
    list of children it carries beside the node. *)
Definition arity (p : LogicalPlan) : nat := length (children p).

(** ** Context *)

Record PlanContext := { cte_definitions : list Cte }.

Definition PlanContext_default : PlanContext := {| cte_definitions := [] |}.

Definition with_ctes (ctes : list Cte) : PlanContext := {| cte_definitions := ctes |}.

Definition PlanContext_is_empty (c : PlanContext) : bool :=
  match cte_definitions c with [] => true | _ => false end.

Lemma is_leaf_children p : is_leaf p = true <-> children p = [].
Proof. destruct p; simpl; done. Qed.

(** Structural induction in the form the planner recurses: over the list of
    inputs. *)
Lemma LogicalPlan_children_ind (P : LogicalPlan -> Prop) :
  (forall p, Forall P (children p) -> P p) -> forall p, P p.
Proof. intros H p. induction p; apply H; simpl; auto. Qed.
