(* ===== verification/PlanBuilder.v ===== *)
(** * From a query to a logical plan (sql/plan_builder.rs)

    The builder walks the syntax tree of a SELECT and returns a tree of
    relational operators.  A table that names a common table expression is
    replaced by the plan of that expression, built with the map of
    expressions visible where the name is used; this is the only recursion
    that does not follow the syntax, and the only one that needs fuel. *)

From S2P Require Import Prelude SqlAst LogicalPlan.

(** ** Errors and results *)

Inductive PlanBuildError :=
| UnsupportedStatement (s : string)
| UnsupportedFeature (s : string)
| Internal (s : string).

Definition PlanBuildError_display (e : PlanBuildError) : string :=
  match e with
  | UnsupportedStatement s => "unsupported statement: " +:+ s
  | UnsupportedFeature s => "unsupported SQL feature: " +:+ s
  | Internal s => "internal plan build error: " +:+ s
  end.

Record BuildResult := mkBuildResult { br_plan : LogicalPlan; br_context : PlanContext }.

Abbreviation built A := (outcome (result A PlanBuildError)).

(** ** Columns and keys *)

Definition expr_to_column_ref (expr : Expr) : option ColumnRef :=
  match expr with
  | Identifier ident => Some (unqualified (value ident))
  | CompoundIdentifier parts =>
      match reverse parts with
      | c :: t :: _ => Some (qualified (value t) (value c))
      | _ => None
      end
  | _ => None
  end.

Definition is_from_tables (col : ColumnRef) (tables : gset string) : bool :=
  match cr_table col with
  | Some t => existsb (fun name => eq_ignore_ascii_case name t) (elements tables)
  | None => false
  end.

(** The pairs the loop of [extract_equi_keys_recursive] pushes, in order. *)
Fixpoint extract_equi_keys_recursive (expr : Expr) (left_tables right_tables : gset string)
    : list (ColumnRef * ColumnRef) :=
  match expr with
  | BinaryOp l OpEq r =>
      match expr_to_column_ref l, expr_to_column_ref r with
      | Some l_ref, Some r_ref =>
          let l_on_left := is_from_tables l_ref left_tables in
          let r_on_right := is_from_tables r_ref right_tables in
          let l_on_right := is_from_tables l_ref right_tables in
          let r_on_left := is_from_tables r_ref left_tables in
          if l_on_left && r_on_right then [(l_ref, r_ref)]
          else if l_on_right && r_on_left then [(r_ref, l_ref)]
          else []
      | _, _ => []
      end
  | BinaryOp l OpAnd r =>
      extract_equi_keys_recursive l left_tables right_tables
      ++ extract_equi_keys_recursive r left_tables right_tables
  | Nested inner => extract_equi_keys_recursive inner left_tables right_tables
  | _ => []
  end.

Definition extract_equi_keys (expr : Expr) (left_tables right_tables : gset string)
    : list ColumnRef * list ColumnRef :=
  let pairs := extract_equi_keys_recursive expr left_tables right_tables in
  (map fst pairs, map snd pairs).

Definition extract_group_keys (group_by : GroupByExpr) : list ColumnRef :=
  match group_by with
  | GroupByAll _ => []
  | GroupByExpressions exprs _ => omap expr_to_column_ref exprs
  end.

(** ** Windows and aggregates *)

Definition intersect_column_refs (a b : list ColumnRef) : list ColumnRef :=
  List.filter (fun col_a => existsb (fun col_b => matches col_a col_b) b) a.

(** The specifications the visitor is called on, in order; each is its
    PARTITION BY list. *)
Fixpoint for_each_window_spec (expr : Expr) : list (list Expr) :=
  match expr with
  | Function _ args over _ =>
      match over with Some (WindowSpec partition_by _) => [partition_by] | _ => [] end
      ++ match args with
         | ArgsList args _ =>
             flat_map (fun arg => match arg with
                                  | UnnamedExpr e | NamedExpr _ e _ => for_each_window_spec e
                                  | _ => []
                                  end) args
         | ArgsOther _ => []
         end
  | BinaryOp l _ r => for_each_window_spec l ++ for_each_window_spec r
  | UnaryOp _ inner | Nested inner => for_each_window_spec inner
  | Case operand conditions else_result =>
      match operand with Some e => for_each_window_spec e | None => [] end
      ++ flat_map (fun c => match c with (condition, res) =>
           for_each_window_spec condition ++ for_each_window_spec res end) conditions
      ++ match else_result with Some e => for_each_window_spec e | None => [] end
  | _ => []
  end.

Definition window_keys_step (common_keys : option (list ColumnRef)) (partition_by : list Expr)
    : option (list ColumnRef) :=
  let keys := omap expr_to_column_ref partition_by in
  Some match common_keys with None => keys | Some prev => intersect_column_refs prev keys end.

Definition item_window_specs (item : SelectItem) : list (list Expr) :=
  match item with
  | SelUnnamedExpr e | SelExprWithAlias e _ => for_each_window_spec e
  | _ => []
  end.

Definition extract_window_partition_keys (items : list SelectItem) : list ColumnRef :=
  default [] (foldl window_keys_step None (flat_map item_window_specs items)).

Fixpoint expr_has_window (expr : Expr) : bool :=
  match expr with
  | Function _ _ over _ => match over with Some _ => true | None => false end
  | BinaryOp l _ r => expr_has_window l || expr_has_window r
  | UnaryOp _ e => expr_has_window e
  | Nested inner => expr_has_window inner
  | Case operand conditions else_result =>
      match operand with Some e => expr_has_window e | None => false end
      || existsb (fun c => match c with (a, b) => expr_has_window a || expr_has_window b end) conditions
      || match else_result with Some e => expr_has_window e | None => false end
  | _ => false
  end.

Definition select_item_has_window (item : SelectItem) : bool :=
  match item with
  | SelUnnamedExpr e | SelExprWithAlias e _ => expr_has_window e
  | _ => false
  end.

Definition AGGREGATE_FUNCTIONS : list string :=
  ["sum"; "count"; "avg"; "min"; "max"; "count_star"; "group_concat"; "string_agg"; "array_agg";
   "bool_and"; "bool_or"; "bit_and"; "bit_or"; "bit_xor"; "stddev"; "stddev_pop"; "stddev_samp";
   "variance"; "var_pop"; "var_samp"; "covar_pop"; "covar_samp"; "corr"; "percentile_cont";
   "percentile_disc"; "median"; "mode"; "approx_count_distinct"; "approx_quantile"; "first"; "last";
   "any_value"; "list"; "histogram"; "argmin"; "argmax"; "arg_min"; "arg_max"; "arbitrary";
   "kurtosis"; "skewness"; "entropy"; "mad"; "quantile"; "reservoir_quantile"; "regr_avgx";
   "regr_avgy"; "regr_count"; "regr_intercept"; "regr_r2"; "regr_slope"; "regr_sxx"; "regr_sxy";
   "regr_syy"].

(** ** Table names of a plan *)

Fixpoint collect_table_names (p : LogicalPlan) : gset string :=
  match p with
  | Scan table_name alias _ =>
      {[ table_name ]} ∪ match alias with Some a => {[ value (ta_name a) ]} | None => ∅ end
  | SubqueryScan _ alias => {[ value (ta_name alias) ]}
  | ExchangeRead _ alias => {[ alias ]}
  | Filter i _ | Project i _ | Aggregate i _ _ _ _ | Sort i _ | Limit i _ _ | Window i _ _ =>
      collect_table_names i
  | Join l r _ _ _ | SetOp l r _ _ => collect_table_names l ∪ collect_table_names r
  end.

(** ** Queries *)

(** [extract_limit_offset]: FETCH counts as LIMIT when there is no LIMIT. *)
Definition extract_limit_offset (q : Query) : option Expr * option Expr :=
  let '(limit, offset) :=
    match query_limit_clause q with
    | Some (LimitOffset l o _) => (l, o)
    | Some (OffsetCommaLimit o l) => (Some l, Some o)
    | None => (None, None)
    end in
  (match limit with
   | None => match query_fetch q with Some fetch => quantity fetch | None => None end
   | Some _ => limit
   end, offset).

Fixpoint query_has_from (q : Query) : bool :=
  match q with
  | mkQuery _ body _ _ _ _ =>
      match body with
      | SESelect select => match sel_from select with [] => false | _ => true end
      | SEQuery inner => query_has_from inner
      | SESetOperation _ _ l r => set_expr_has_from l || set_expr_has_from r
      | _ => false
      end
  end
with set_expr_has_from (s : SetExpr) : bool :=
  match s with
  | SESelect select => match sel_from select with [] => false | _ => true end
  | SEQuery inner => query_has_from inner
  | _ => false
  end.

(** [for x in l { acc = f(acc, x)?; }]. *)
Definition fold_run {A B E} (f : A -> B -> outcome (result A E)) : list B -> A -> outcome (result A E) :=
  fix go l a := match l with [] => Ret (Ok a) | b :: l => let^ a' := f a b in go l a' end.

Definition has_group_by (g : GroupByExpr) : bool :=
  match g with GroupByExpressions exprs _ => match exprs with [] => false | _ => true end | GroupByAll _ => true end.

Section builder.
Context `{SqlDisplay} `{SqlDebug} (to_lowercase : string -> string).

Definition object_name_to_string (name : ObjectName) : string :=
  match last name with
  | Some (NameIdentifier ident) => value ident
  | Some other => display_name_part other
  | None => ""
  end.

Definition is_aggregate_function_name (name : ObjectName) : bool :=
  existsb (fun agg => eq_ignore_ascii_case agg (object_name_to_string name)) AGGREGATE_FUNCTIONS.

Fixpoint expr_has_aggregate (expr : Expr) : bool :=
  match expr with
  | Function name _ over _ =>
      match over with Some _ => false | None => is_aggregate_function_name name end
  | BinaryOp l _ r => expr_has_aggregate l || expr_has_aggregate r
  | UnaryOp _ e => expr_has_aggregate e
  | Nested inner => expr_has_aggregate inner
  | Case operand conditions else_result =>
      match operand with Some e => expr_has_aggregate e | None => false end
      || existsb (fun c => match c with (a, b) => expr_has_aggregate a || expr_has_aggregate b end) conditions
      || match else_result with Some e => expr_has_aggregate e | None => false end
  | _ => false
  end.

Definition select_item_has_aggregate (item : SelectItem) : bool :=
  match item with
  | SelUnnamedExpr e | SelExprWithAlias e _ => expr_has_aggregate e
  | _ => false
  end.

Definition extract_join_keys_from_operator (join_op : JoinOperator) (left_tables right_tables : gset string)
    : list ColumnRef * list ColumnRef :=
  match extract_join_constraint join_op with
  | Some (JCOn expr) => extract_equi_keys expr left_tables right_tables
  | Some (JCUsing columns) =>
      let keys := map (fun c => unqualified (object_name_to_string c)) columns in (keys, keys)
  | _ => ([], [])
  end.

(** The join of one element of [twj.joins] onto the plan built so far. *)
Definition join_plan (p right : LogicalPlan) (op : JoinOperator) : LogicalPlan :=
  let '(left_keys, right_keys) :=
    extract_join_keys_from_operator op (collect_table_names p) (collect_table_names right) in
  Join p right op left_keys right_keys.

(** The clauses of a SELECT above its FROM. *)
Definition select_plan (s : Select) (p : LogicalPlan) : LogicalPlan :=
  let p := match sel_selection s with Some predicate => Filter p predicate | None => p end in
  if has_group_by (sel_group_by s) || existsb select_item_has_aggregate (sel_projection s) then
    Aggregate p (sel_group_by s) (sel_projection s) (sel_having s) (extract_group_keys (sel_group_by s))
  else if existsb select_item_has_window (sel_projection s) then
    Window p (sel_projection s) (extract_window_partition_keys (sel_projection s))
  else Project p (sel_projection s).

(** ORDER BY, then LIMIT and OFFSET, above the body of a query. *)
Definition order_plan (q : Query) (p : LogicalPlan) : LogicalPlan :=
  match query_order_by q with
  | Some (OrderByExpressions ((_ :: _) as exprs)) => Sort p exprs
  | Some (OrderByAll _) => Sort p []
  | _ => p
  end.

Definition limit_plan (q : Query) (p : LogicalPlan) : LogicalPlan :=
  match extract_limit_offset q with
  | (None, None) => p
  | (limit, offset) => Limit p limit offset
  end.

(** The map of visible expressions, by lower-cased name; a later definition
    of a name replaces an earlier one. *)
Definition insert_cte (m : gmap string Query) (cte : Cte) : gmap string Query :=
  <[to_lowercase (value (ta_name (cte_alias cte))) := cte_query cte]> m.

Section step.
(** The recursive call on the query of a common table expression. *)
Context (resolve : Query -> gmap string Query -> built BuildResult).

Fixpoint build_query_step (q : Query) (outer_ctes : gmap string Query) {struct q} : built BuildResult :=
  match q with
  | mkQuery with_ body _ _ _ _ =>
      let cte_defs := with_tables with_ in
      let cte_map := foldl insert_cte outer_ctes cte_defs in
      let^ p := build_set_expr body cte_map in
      Ret (Ok {| br_plan := limit_plan q (order_plan q p); br_context := with_ctes cte_defs |})
  end
with build_set_expr (s : SetExpr) (cte_map : gmap string Query) {struct s} : built LogicalPlan :=
  match s with
  | SESelect select => build_select select cte_map
  | SEQuery query => let^ res := build_query_step query cte_map in Ret (Ok (br_plan res))
  | SESetOperation op set_quantifier l r =>
      let^ left_plan := build_set_expr l cte_map in
      let^ right_plan := build_set_expr r cte_map in
      Ret (Ok (SetOp left_plan right_plan op set_quantifier))
  | SEValues _ => Ret (Err (UnsupportedFeature "VALUES clause"))
  | other => Ret (Err (UnsupportedFeature ("SetExpr variant: " +:+ set_expr_discriminant other)))
  end
with build_select (s : Select) (cte_map : gmap string Query) {struct s} : built LogicalPlan :=
  match s with
  | mkSelect _ _ from _ _ _ _ =>
      let^ p :=
        match from with
        | [] => Ret (Err (UnsupportedFeature "SELECT without FROM"))
        | t :: ts =>
            let^ p := build_table_with_joins t cte_map in
            fold_run (fun p twj =>
              let^ rhs := build_table_with_joins twj cte_map in
              Ret (Ok (Join p rhs (JOCrossJoin JCNone) [] []))) ts p
        end in
      Ret (Ok (select_plan s p))
  end
with build_table_with_joins (t : TableWithJoins) (cte_map : gmap string Query) {struct t} : built LogicalPlan :=
  match t with
  | mkTableWithJoins relation joins =>
      let^ p := build_table_factor relation cte_map in
      fold_run (fun p join =>
        match join with
        | mkJoin relation op =>
            let^ rhs := build_table_factor relation cte_map in
            Ret (Ok (join_plan p rhs op))
        end) joins p
  end
with build_table_factor (tf : TableFactor) (cte_map : gmap string Query) {struct tf} : built LogicalPlan :=
  match tf with
  | TFTable name alias _ =>
      let table_name := object_name_to_string name in
      let scan := Ret (Ok (Scan table_name alias tf)) in
      match cte_map !! to_lowercase table_name with
      | Some cte_query =>
          if query_has_from cte_query then
            let^ res := resolve cte_query cte_map in
            Ret (Ok (SubqueryScan (br_plan res)
              (default {| ta_name := Ident_new table_name; ta_columns := []; ta_explicit := true |} alias)))
          else scan
      | None => scan
      end
  | TFDerived _ subquery alias =>
      let^ res := build_query_step subquery cte_map in
      match alias with
      | Some alias => Ret (Ok (SubqueryScan (br_plan res) alias))
      | None => Ret (Err (UnsupportedFeature "derived table without alias"))
      end
  | TFNestedJoin table_with_joins alias =>
      let^ p := build_table_with_joins table_with_joins cte_map in
      Ret (Ok match alias with Some a => SubqueryScan p a | None => p end)
  | TFFunction _ name _ alias => Ret (Ok (Scan (object_name_to_string name) alias tf))
  | TFOther _ => Ret (Ok (Scan (display_table_factor tf) None tf))
  end.
End step.

(** [build_from_query_with_ctes]; [fuel] bounds the nesting of expansions of
    common table expressions. *)
Fixpoint build_from_query_with_ctes (fuel : nat) (q : Query) (outer_ctes : gmap string Query)
    : built BuildResult :=
  build_query_step
    (match fuel with
     | 0 => fun _ _ => OutOfFuel
     | S fuel => build_from_query_with_ctes fuel
     end) q outer_ctes.

Definition build_from_query (fuel : nat) (q : Query) : built BuildResult :=
  build_from_query_with_ctes fuel q ∅.

Definition statement_name (stmt : Statement) : string :=
  match stmt with
  | StQuery _ => "SELECT"
  | StInsert _ => "INSERT"
  | StUpdate _ => "UPDATE"
  | StDelete _ => "DELETE"
  | StCreateTable _ => "CREATE TABLE"
  | StDrop _ => "DROP"
  | StOther _ => "UNKNOWN"
  end.

Definition build_logical_plan (fuel : nat) (stmt : Statement) : built BuildResult :=
  match stmt with
  | StQuery query => build_from_query fuel query
  | other => Ret (Err (UnsupportedStatement (statement_name other)))
  end.
End builder.
