(* ===== verification/PlanMeaning.v ===== *)
(** * What a built plan means (sql/plan_builder.rs)

    A reference semantics of queries, against which the builder is judged.
    The relational operators are abstract ([Algebra]); the evaluator of
    queries gives a common table expression its value where it is defined, so
    that a name means what SQL's lexical scoping says.  The builder instead
    expands the definition where the name is used.  [build_preserves_meaning]
    says when the two agree: every supported query whose names are not
    captured is built, with a fuel of the number of its definitions, into a
    plan with the value of the query. *)

From S2P Require Import Prelude SqlAst LogicalPlan PlanBuilder.

(** ** Operators *)

Class Algebra (R : Type) := {
  sem_scan : string -> option TableAlias -> TableFactor -> R;
  sem_filter : R -> Expr -> R;
  sem_project : R -> list SelectItem -> R;
  sem_aggregate : R -> GroupByExpr -> list SelectItem -> option Expr -> R;
  sem_window : R -> list SelectItem -> R;
  sem_distinct : R -> string -> R;
  sem_sort : R -> list OrderByExpr -> R;
  sem_limit : R -> option Expr -> option Expr -> R;
  sem_join : R -> R -> JoinOperator -> R;
  sem_set_op : R -> R -> SetOperator -> SetQuantifier -> R;
  sem_subquery : R -> TableAlias -> R;
  sem_exchange : Z -> string -> R;
}.

(** The value of a plan: the keys it carries for the planner do not matter. *)
Fixpoint eval_plan {R} `{Algebra R} (p : LogicalPlan) : R :=
  match p with
  | Scan t a f => sem_scan t a f
  | Filter i e => sem_filter (eval_plan i) e
  | Project i items => sem_project (eval_plan i) items
  | Aggregate i g items having _ => sem_aggregate (eval_plan i) g items having
  | Sort i order_by => sem_sort (eval_plan i) order_by
  | Limit i l o => sem_limit (eval_plan i) l o
  | Join l r op _ _ => sem_join (eval_plan l) (eval_plan r) op
  | SetOp l r op sq => sem_set_op (eval_plan l) (eval_plan r) op sq
  | Window i items _ => sem_window (eval_plan i) items
  | SubqueryScan i a => sem_subquery (eval_plan i) a
  | ExchangeRead x a => sem_exchange x a
  end.

(** What a name is bound to: a common table expression without FROM stays in
    the WITH clause of the generated SQL, any other has its value, if it is a
    supported query. *)
Inductive binding (R : Type) := Opaque | Bound (v : option R).
Arguments Opaque {R}.
Arguments Bound {R} v.

Section reference.
Context `{SqlDisplay} `{SqlDebug} (to_lowercase : string -> string) {R : Type} `{Algebra R}.

(** Aggregates and windows anywhere in an expression. *)
Definition is_aggregate_call (e : Expr) : bool :=
  match e with Function name _ None _ => is_aggregate_function_name name | _ => false end.
Definition is_window_call (e : Expr) : bool :=
  match e with Function _ _ (Some _) _ => true | _ => false end.
Definition item_any (p : Expr -> bool) (i : SelectItem) : bool := existsb (expr_any p) (item_exprs i).

Definition is_grouped (s : Select) : bool :=
  has_group_by (sel_group_by s) || existsb (item_any is_aggregate_call) (sel_projection s)
  || match sel_having s with Some _ => true | None => false end.
Definition is_windowed (s : Select) : bool := existsb (item_any is_window_call) (sel_projection s).

Definition sel_distinct (s : Select) : option string := match s with mkSelect d _ _ _ _ _ _ => d end.

Definition eval_clauses (s : Select) (v : R) : R :=
  let v := match sel_selection s with Some e => sem_filter v e | None => v end in
  let v := if is_grouped s then sem_aggregate v (sel_group_by s) (sel_projection s) (sel_having s)
           else if is_windowed s then sem_window v (sel_projection s)
           else sem_project v (sel_projection s) in
  match sel_distinct s with Some d => sem_distinct v d | None => v end.

Definition eval_order (q : Query) (v : R) : R :=
  let v := match query_order_by q with
           | Some (OrderByExpressions []) | None => v
           | Some (OrderByExpressions exprs) => sem_sort v exprs
           | Some (OrderByAll _) => sem_sort v []
           end in
  match extract_limit_offset q with (None, None) => v | (l, o) => sem_limit v l o end.

Definition cte_name (a : TableAlias) : string := to_lowercase (value (ta_name a)).

Fixpoint eval_query (ρ : gmap string (binding R)) (q : Query) {struct q} : option R :=
  match q with
  | mkQuery w body _ _ _ _ =>
      let ρ := match w with
               | Some (mkWith _ ctes) =>
                   foldl (fun ρ cte => match cte with
                          | mkCte a cq _ =>
                              <[cte_name a := if query_has_from cq then Bound (eval_query ρ cq) else Opaque]> ρ
                          end) ρ ctes
               | None => ρ
               end in
      v ← eval_set_expr ρ body; Some (eval_order q v)
  end
with eval_set_expr (ρ : gmap string (binding R)) (s : SetExpr) {struct s} : option R :=
  match s with
  | SESelect s => eval_select ρ s
  | SEQuery q => eval_query ρ q
  | SESetOperation op sq l r =>
      a ← eval_set_expr ρ l; b ← eval_set_expr ρ r; Some (sem_set_op a b op sq)
  | _ => None
  end
with eval_select (ρ : gmap string (binding R)) (s : Select) {struct s} : option R :=
  match s with
  | mkSelect _ _ from _ _ _ _ =>
      v ← match from with
          | [] => None
          | t :: ts =>
              v ← eval_joins ρ t;
              foldl (fun v t => v ← v; w ← eval_joins ρ t; Some (sem_join v w (JOCrossJoin JCNone))) (Some v) ts
          end;
      Some (eval_clauses s v)
  end
with eval_joins (ρ : gmap string (binding R)) (t : TableWithJoins) {struct t} : option R :=
  match t with
  | mkTableWithJoins relation joins =>
      v ← eval_factor ρ relation;
      foldl (fun v j => match j with
                        | mkJoin r op => v ← v; w ← eval_factor ρ r; Some (sem_join v w op)
                        end) (Some v) joins
  end
with eval_factor (ρ : gmap string (binding R)) (f : TableFactor) {struct f} : option R :=
  match f with
  | TFTable name alias _ =>
      let t := object_name_to_string name in
      match ρ !! to_lowercase t with
      | Some (Bound v) =>
          v ← v; Some (sem_subquery v
            (default {| ta_name := Ident_new t; ta_columns := []; ta_explicit := true |} alias))
      | _ => Some (sem_scan t alias f)
      end
  | TFDerived _ q alias => v ← eval_query ρ q; a ← alias; Some (sem_subquery v a)
  | TFNestedJoin t alias =>
      v ← eval_joins ρ t; Some match alias with Some a => sem_subquery v a | None => v end
  | TFFunction _ name _ alias => Some (sem_scan (object_name_to_string name) alias f)
  | TFOther _ => Some (sem_scan (display_table_factor f) None f)
  end.

(** ** The queries the builder handles *)

(** The clauses of a SELECT that the plan can express: no DISTINCT, and the
    builder's shallow tests see the aggregates and windows that are there. *)
Definition supported_clauses (s : Select) : bool :=
  match sel_distinct s with None => true | Some _ => false end
  && Bool.eqb (is_grouped s)
       (has_group_by (sel_group_by s) || existsb select_item_has_aggregate (sel_projection s))
  && (is_grouped s || Bool.eqb (is_windowed s) (existsb select_item_has_window (sel_projection s))).

(** The names defined in a query, also inside its definitions and derived
    tables. *)
Fixpoint cte_names (q : Query) : list string :=
  match q with
  | mkQuery w body _ _ _ _ =>
      match w with
      | Some (mkWith _ ctes) =>
          flat_map (fun c => match c with mkCte a cq _ => cte_name a :: cte_names cq end) ctes
      | None => []
      end ++ set_cte_names body
  end
with set_cte_names (s : SetExpr) : list string :=
  match s with
  | SESelect s => select_cte_names s
  | SEQuery q => cte_names q
  | SESetOperation _ _ l r => set_cte_names l ++ set_cte_names r
  | _ => []
  end
with select_cte_names (s : Select) : list string :=
  match s with mkSelect _ _ from _ _ _ _ => flat_map twj_cte_names from end
with twj_cte_names (t : TableWithJoins) : list string :=
  match t with
  | mkTableWithJoins r joins =>
      factor_cte_names r ++ flat_map (fun j => match j with mkJoin r _ => factor_cte_names r end) joins
  end
with factor_cte_names (f : TableFactor) : list string :=
  match f with
  | TFDerived _ q _ => cte_names q
  | TFNestedJoin t _ => twj_cte_names t
  | _ => []
  end.

(** Names are not captured: among the names [all] that are defined anywhere,
    a table only uses one that is visible, and a definition does not redefine
    a visible one. *)
Section clean.
Context (all : gset string).

Fixpoint clean_query (visible : gset string) (q : Query) {struct q} : bool :=
  match q with
  | mkQuery w body _ _ _ _ =>
      match w with
      | Some (mkWith _ ctes) =>
          (fix go visible ctes :=
             match ctes with
             | [] => clean_set_expr visible body
             | mkCte a cq _ :: ctes =>
                 bool_decide (cte_name a ∈ all) && bool_decide (cte_name a ∉ visible)
                 && clean_query visible cq && go (visible ∪ {[ cte_name a ]}) ctes
             end) visible ctes
      | None => clean_set_expr visible body
      end
  end
with clean_set_expr (visible : gset string) (s : SetExpr) {struct s} : bool :=
  match s with
  | SESelect s => clean_select visible s
  | SEQuery q => clean_query visible q
  | SESetOperation _ _ l r => clean_set_expr visible l && clean_set_expr visible r
  | _ => true
  end
with clean_select (visible : gset string) (s : Select) {struct s} : bool :=
  match s with
  | mkSelect _ _ from _ _ _ _ => supported_clauses s && forallb (clean_twj visible) from
  end
with clean_twj (visible : gset string) (t : TableWithJoins) {struct t} : bool :=
  match t with
  | mkTableWithJoins r joins =>
      clean_factor visible r && forallb (fun j => match j with mkJoin r _ => clean_factor visible r end) joins
  end
with clean_factor (visible : gset string) (f : TableFactor) {struct f} : bool :=
  match f with
  | TFTable name _ _ =>
      let t := to_lowercase (object_name_to_string name) in
      bool_decide (t ∈ visible) || bool_decide (t ∉ all)
  | TFDerived _ q _ => clean_query visible q
  | TFNestedJoin t _ => clean_twj visible t
  | _ => true
  end.
End clean.

Definition well_scoped (q : Query) : bool := clean_query (list_to_set (cte_names q)) ∅ q.
End reference.

(** ** Correctness *)

Section correct.
Context `{SqlDisplay} `{SqlDebug} (to_lowercase : string -> string) {R : Type} `{Algebra R}.
Context (all : gset string).

Abbreviation scope := (list (string * Query)).
Abbreviation lower_cte := (cte_name to_lowercase).
Abbreviation eval := (eval_query to_lowercase (R:=R)).
Abbreviation clean := (clean_query to_lowercase all).

(** The definitions visible at a point, innermost first, with the values they
    have under lexical scoping. *)
Definition bind_value (ρ : gmap string (binding R)) (cq : Query) : binding R :=
  if query_has_from cq then Bound (eval ρ cq) else Opaque.
Fixpoint env_of (sc : scope) : gmap string (binding R) :=
  match sc with [] => ∅ | (x, cq) :: sc => <[x := bind_value (env_of sc) cq]> (env_of sc) end.
Fixpoint names (sc : scope) : gset string :=
  match sc with [] => ∅ | (x, _) :: sc => names sc ∪ {[ x ]} end.
Fixpoint weight (sc : scope) : nat :=
  match sc with [] => 0 | (_, cq) :: sc => weight sc + S (length (cte_names to_lowercase cq)) end.
Fixpoint scope_ok (sc : scope) : Prop :=
  match sc with
  | [] => True
  | (x, cq) :: sc => x ∈ all /\ (x ∉ names sc) /\ clean (names sc) cq = true /\ scope_ok sc
  end.

(** The builder's map knows the visible definitions, and no name that is not
    defined somewhere. *)
Definition compat (m : gmap string Query) (sc : scope) : Prop :=
  (forall x cq, (x, cq) ∈ sc -> m !! x = Some cq) /\ (forall x, is_Some (m !! x) -> x ∈ all).

Lemma elem_of_names (sc : scope) (x : string) (cq : Query) : (x, cq) ∈ sc -> x ∈ names sc.
Proof. induction sc as [|[y cq'] sc IH]; [by intros ?%not_elem_of_nil|]. set_solver. Qed.

Lemma env_of_None (sc : scope) (x : string) : x ∉ names sc -> env_of sc !! x = None.
Proof.
  induction sc as [|[y cq] sc IH]; simpl; intros Hx; [done|].
  rewrite lookup_insert_ne by set_solver. apply IH. set_solver.
Qed.

Lemma env_of_Some (sc : scope) (x : string) : scope_ok sc -> x ∈ names sc ->
  exists cq sc', (x, cq) ∈ sc /\ (forall d, d ∈ sc' -> d ∈ sc) /\
    env_of sc !! x = Some (bind_value (env_of sc') cq) /\
    scope_ok sc' /\ clean (names sc') cq = true /\
    S (weight sc' + length (cte_names to_lowercase cq)) <= weight sc.
Proof.
  induction sc as [|[y cq] sc IH]; simpl; intros Hok Hx; [set_solver|].
  destruct Hok as (Hall & Hy & Hc & Hok). destruct (decide (x = y)) as [->|Hne].
  - exists cq, sc. rewrite lookup_insert_eq. split_and!; [by left|by right|done..|lia].
  - destruct IH as (cq' & sc' & Hin & Hsub & He & Hok' & Hc' & Hw); [done|set_solver|].
    exists cq', sc'. rewrite lookup_insert_ne by done.
    split_and!; [by right|intros d Hd; right; auto|done..|lia].
Qed.

Lemma compat_sub (m : gmap string Query) (sc sc' : scope) :
  compat m sc -> (forall d, d ∈ sc' -> d ∈ sc) -> compat m sc'.
Proof. intros [H1' H2'] Hsub. split; [|done]. intros x cq Hd. auto. Qed.

(** Entering the WITH clause of a query. *)
Definition eval_ctes (ρ : gmap string (binding R)) (ctes : list Cte) : gmap string (binding R) :=
  foldl (fun ρ cte => match cte with mkCte a cq _ => <[lower_cte a := bind_value ρ cq]> ρ end) ρ ctes.
Definition ctes_names (ctes : list Cte) : list string :=
  flat_map (fun c => match c with mkCte a cq _ => lower_cte a :: cte_names to_lowercase cq end) ctes.
Definition clean_ctes (body : SetExpr) : gset string -> list Cte -> bool :=
  fix go visible ctes :=
    match ctes with
    | [] => clean_set_expr to_lowercase all visible body
    | mkCte a cq _ :: ctes =>
        bool_decide (lower_cte a ∈ all) && bool_decide (lower_cte a ∉ visible)
        && clean visible cq && go (visible ∪ {[ lower_cte a ]}) ctes
    end.

Lemma enter_with (body : SetExpr) (ctes : list Cte) (sc : scope) (m : gmap string Query) :
  scope_ok sc -> compat m sc -> clean_ctes body (names sc) ctes = true ->
  exists sc', scope_ok sc' /\ compat (foldl (insert_cte to_lowercase) m ctes) sc' /\
    env_of sc' = eval_ctes (env_of sc) ctes /\ weight sc' = weight sc + length (ctes_names ctes) /\
    clean_set_expr to_lowercase all (names sc') body = true.
Proof.
  revert sc m. induction ctes as [|[a cq rest] ctes IH]; intros sc m Hok Hm Hc; simpl in *.
  { exists sc. rewrite Nat.add_0_r. done. }
  bool_hyps. destruct Hm as [Hm1 Hm2].
  destruct (IH ((lower_cte a, cq) :: sc) (insert_cte to_lowercase m (mkCte a cq rest)))
    as (sc' & Hok' & Hm' & He & Hw & Hc'); simpl; [done| |done|].
  - split; unfold insert_cte; simpl; fold (lower_cte a).
    + intros x cq' [Heq|Hin]%elem_of_cons; [simplify_eq; by rewrite lookup_insert_eq|].
      rewrite lookup_insert_ne; [auto|]. intros Heq; subst x. by apply elem_of_names in Hin.
    + intros x Hx. destruct (decide (x = lower_cte a)) as [->|Hne]; [done|].
      rewrite lookup_insert_ne in Hx by done. auto.
  - exists sc'. simpl in *. rewrite length_app. split_and!; try done. lia.
Qed.

(** A build agrees with a value: both succeed, with the same value, or both
    fail. *)
Definition agrees (o : built LogicalPlan) (v : option R) : Prop :=
  match v with
  | Some r => exists p, o = Ret (Ok p) /\ eval_plan p = r
  | None => exists e, o = Ret (Err e)
  end.
Definition plan_of (o : built BuildResult) : built LogicalPlan := let^ b := o in Ret (Ok (br_plan b)).

Lemma agrees_bind (o : built LogicalPlan) (v : option R) k f :
  agrees o v -> (forall p, agrees (k p) (f (eval_plan p))) -> agrees (let^ p := o in k p) (v ≫= f).
Proof.
  intros Ho Hk. destruct v as [r|]; simpl in *.
  - destruct Ho as (p & -> & <-). apply Hk.
  - destruct Ho as (e & ->). by exists e.
Qed.

Lemma agrees_result_bind (o : built BuildResult) (v : option R) k f :
  agrees (plan_of o) v -> (forall p, agrees (k p) (f (eval_plan p))) ->
  agrees (let^ b := o in k (br_plan b)) (v ≫= f).
Proof.
  intros Ho Hk. apply (agrees_bind _ _ k f) in Ho; [|done].
  unfold plan_of in Ho. destruct o as [[b|e]| |]; simpl in *; done.
Qed.

Lemma agrees_fold {B} (g : LogicalPlan -> B -> built LogicalPlan) (f : option R -> B -> option R) (l : list B) p :
  (forall x p, x ∈ l -> agrees (g p x) (f (Some (eval_plan p)) x)) -> (forall x, f None x = None) ->
  agrees (fold_run g l p) (foldl f (Some (eval_plan p)) l).
Proof.
  intros Hf Hn. revert p. induction l as [|x l IH]; intros p; simpl; [by exists p|].
  specialize (Hf x p ltac:(left)) as Hx. destruct (f (Some (eval_plan p)) x) as [r|]; simpl in Hx.
  - destruct Hx as (p' & -> & <-). simpl. apply IH. intros y p'' Hy. apply Hf. by right.
  - destruct Hx as (e & ->). simpl. clear -Hn. induction l as [|y l IH]; simpl; [by exists e|]. by rewrite Hn.
Qed.

(** The clauses above FROM and above the body of a query. *)
Lemma select_plan_meaning (s : Select) (p : LogicalPlan) :
  supported_clauses s = true -> eval_plan (select_plan s p) = eval_clauses s (eval_plan p).
Proof.
  unfold supported_clauses, eval_clauses, select_plan. intros Hs. bool_hyps.
  destruct (sel_distinct s); [done|].
  match goal with H : Bool.eqb (is_grouped s) _ = true |- _ => apply eqb_prop in H; rewrite <- H end.
  destruct (is_grouped s); simpl.
  - by destruct (sel_selection s).
  - match goal with H : _ || _ = true |- _ => simpl in H; apply eqb_prop in H; rewrite <- H end.
    destruct (is_windowed s); by destruct (sel_selection s).
Qed.

Lemma query_plan_meaning (q : Query) (p : LogicalPlan) :
  eval_plan (limit_plan q (order_plan q p)) = eval_order q (eval_plan p).
Proof.
  unfold limit_plan, order_plan, eval_order.
  destruct (extract_limit_offset q) as [[l|] [o|]], (query_order_by q) as [[[|e es]|]|]; reflexivity.
Qed.

(** The recursion at fuel [n]: [fuel_step n] is what [resolve] stands for. *)
Definition fuel_step (n : nat) : Query -> gmap string Query -> built BuildResult :=
  match n with 0 => fun _ _ => OutOfFuel | S n => build_from_query_with_ctes to_lowercase n end.

Lemma build_unfold (n : nat) (q : Query) (m : gmap string Query) :
  build_from_query_with_ctes to_lowercase n q m = build_query_step to_lowercase (fuel_step n) q m.
Proof. by destruct n. Qed.

(** What each function of the builder has to satisfy at fuel [n]. *)
Definition meets {X} (n : nat) (count : X -> list string) (is_clean : gset string -> X -> bool)
    (build : X -> gmap string Query -> built LogicalPlan) (ev : gmap string (binding R) -> X -> option R)
    (x : X) : Prop :=
  forall sc m, scope_ok sc -> compat m sc -> is_clean (names sc) x = true ->
    weight sc + length (count x) <= n -> agrees (build x m) (ev (env_of sc) x).

Abbreviation query_meets n := (meets n (cte_names to_lowercase) (clean_query to_lowercase all)
  (fun q m => plan_of (build_query_step to_lowercase (fuel_step n) q m)) (eval_query to_lowercase)).
Abbreviation set_meets n := (meets n (set_cte_names to_lowercase) (clean_set_expr to_lowercase all)
  (build_set_expr to_lowercase (fuel_step n)) (eval_set_expr to_lowercase)).
Abbreviation select_meets n := (meets n (select_cte_names to_lowercase) (clean_select to_lowercase all)
  (build_select to_lowercase (fuel_step n)) (eval_select to_lowercase)).
Abbreviation twj_meets n := (meets n (twj_cte_names to_lowercase) (clean_twj to_lowercase all)
  (build_table_with_joins to_lowercase (fuel_step n)) (eval_joins to_lowercase)).
Abbreviation factor_meets n := (meets n (factor_cte_names to_lowercase) (clean_factor to_lowercase all)
  (build_table_factor to_lowercase (fuel_step n)) (eval_factor to_lowercase)).

Lemma query_case (n : nat) (q : Query) : set_meets n (query_body q) -> query_meets n q.
Proof.
  destruct q as [w body o l f rest]. intros Hbody sc m Hok Hm Hc Hw.
  assert (exists sc', scope_ok sc' /\ compat (foldl (insert_cte to_lowercase) m (with_tables w)) sc' /\
    env_of sc' = match w with Some (mkWith _ ctes) => eval_ctes (env_of sc) ctes | None => env_of sc end /\
    weight sc' + length (set_cte_names to_lowercase body) <= n /\
    clean_set_expr to_lowercase all (names sc') body = true) as (sc' & Hok' & Hm' & He & Hw' & Hc').
  { destruct w as [[r ctes]|].
    - destruct (enter_with body ctes sc m) as (sc' & ? & ? & ? & Hw2 & ?); [done..|].
      exists sc'. split_and!; try done. simpl in Hw. rewrite length_app in Hw. fold (ctes_names ctes) in Hw. lia.
    - exists sc. done. }
  assert (Hev : eval_query to_lowercase (env_of sc) (mkQuery w body o l f rest) =
    (v ← eval_set_expr to_lowercase (env_of sc') body; Some (eval_order (mkQuery w body o l f rest) v))).
  { rewrite He. by destruct w as [[r ctes]|]. }
  rewrite Hev. unfold plan_of. simpl.
  specialize (Hbody sc' _ Hok' Hm' Hc' Hw'). unfold agrees in Hbody. simpl in Hbody.
  destruct (eval_set_expr to_lowercase (env_of sc') body) as [r|]; simpl.
  - destruct Hbody as (p & -> & <-). simpl. eexists. split; [done|]. apply query_plan_meaning.
  - destruct Hbody as (e & ->). by exists e.
Qed.

Lemma select_case (n : nat) (s : Select) :
  (forall t, t ∈ sel_from s -> twj_meets n t) -> select_meets n s.
Proof.
  destruct s as [d proj from w g h rest]. simpl. intros Hfrom sc m Hok Hm Hc Hw.
  simpl in *. bool_hyps.
  apply (agrees_bind _ _ (fun p => Ret (Ok (select_plan (mkSelect d proj from w g h rest) p)))).
  2: { intros p. simpl. eexists. split; [done|]. by apply select_plan_meaning. }
  match goal with H : forallb _ _ = true |- _ => rewrite forallb_forall in H; rename H into Hcl end.
  assert (Ht : forall t, t ∈ from -> agrees (build_table_with_joins to_lowercase (fuel_step n) t m)
    (eval_joins to_lowercase (env_of sc) t)).
  { intros t Hin. apply Hfrom; [done..| |].
    - by apply Hcl, list_elem_of_In.
    - pose proof (length_flat_map_elem (twj_cte_names to_lowercase) from t Hin). lia. }
  destruct from as [|t ts]; [by eexists|].
  apply agrees_bind; [apply Ht; left|]. intros p. apply agrees_fold; [|done].
  intros t' p' Hin. simpl. apply agrees_bind; [apply Ht; by right|]. intros p2. by eexists.
Qed.

Lemma twj_case (n : nat) (t : TableWithJoins) :
  (forall f, f ∈ twj_factors t -> factor_meets n f) -> twj_meets n t.
Proof.
  destruct t as [r joins]. unfold twj_factors. simpl. intros Hf sc m Hok Hm Hc Hw.
  simpl in *. rewrite length_app in Hw. bool_hyps.
  apply agrees_bind; [apply Hf; [left|done..|lia]|].
  intros p. apply agrees_fold; [|by intros []].
  intros [r' op] p' Hin. simpl. apply agrees_bind.
  - match goal with H : forallb _ _ = true |- _ => rewrite forallb_forall in H; rename H into Hcl end.
    apply Hf; [right|done..| |].
    + apply list_elem_of_In, in_map_iff. exists (mkJoin r' op). split; [done|by apply list_elem_of_In].
    + apply (Hcl (mkJoin r' op)). by apply list_elem_of_In.
    + pose proof (length_flat_map_elem
        (fun j : Join_ => match j with mkJoin r _ => factor_cte_names to_lowercase r end) joins _ Hin) as Hl.
      simpl in Hl. lia.
  - intros p2. simpl. eexists. split; [done|].
    unfold join_plan. by destruct (extract_join_keys_from_operator _ _ _).
Qed.

Lemma factor_case (n : nat) (f : TableFactor) :
  (forall n', n = S n' -> forall q, query_meets n' q) ->
  (forall q, q ∈ factor_queries f -> query_meets n q) ->
  (forall t, t ∈ factor_twjs f -> twj_meets n t) -> factor_meets n f.
Proof.
  intros Hrec Hq Ht sc m Hok Hm Hc Hw. destruct f as [name alias rest|lat q alias|lat name args alias|t alias|text];
    simpl in *.
  - destruct (decide (to_lowercase (object_name_to_string name) ∈ names sc)) as [Hin|Hni].
    + destruct (env_of_Some sc _ Hok Hin) as (cq & sc' & Hd & Hsub & -> & Hok' & Hc' & Hw').
      rewrite (proj1 Hm _ _ Hd). unfold bind_value. destruct (query_has_from cq); [|by eexists].
      destruct n as [|n']; [lia|].
      apply (agrees_result_bind _ _ (fun p => Ret (Ok (SubqueryScan p _)))); [|intros p; by eexists].
      simpl fuel_step. rewrite build_unfold.
      apply (Hrec n' eq_refl cq sc' m Hok' (compat_sub _ _ _ Hm Hsub) Hc'). lia.
    + rewrite (env_of_None _ _ Hni). bool_hyps.
      destruct (m !! _) eqn:E; [|by eexists].
      exfalso. apply orb_true_iff in Hc as [Hc|Hc]; bool_hyps; [done|]. apply Hc, (proj2 Hm). by rewrite E.
  - apply (agrees_result_bind _ _ (fun p => match alias with
      | Some alias => Ret (Ok (SubqueryScan p alias))
      | None => Ret (Err (UnsupportedFeature "derived table without alias")) end)).
    + apply Hq; [left|done..].
    + intros p. destruct alias; by eexists.
  - by eexists.
  - apply agrees_bind; [apply Ht; [left|done..]|]. intros p. destruct alias; by eexists.
  - by eexists.
Qed.

Lemma set_case_query (n : nat) (q : Query) : query_meets n q -> set_meets n (SEQuery q).
Proof.
  intros Hq sc m Hok Hm Hc Hw. specialize (Hq sc m Hok Hm Hc Hw). simpl in *.
  unfold plan_of in Hq. by destruct (build_query_step _ _ q m) as [[b|e]| |].
Qed.

Lemma set_case_op (n : nat) op sq (l r : SetExpr) :
  set_meets n l -> set_meets n r -> set_meets n (SESetOperation op sq l r).
Proof.
  intros Hl Hr sc m Hok Hm Hc Hw. simpl in *. rewrite length_app in Hw. bool_hyps.
  apply agrees_bind; [apply Hl; (done || lia)|]. intros p.
  apply agrees_bind; [apply Hr; (done || lia)|]. intros p'. by eexists.
Qed.

Lemma build_meets (n : nat) (q : Query) : query_meets n q.
Proof.
  revert q. induction n as [n IH] using lt_wf_ind.
  apply (ast_ind (fun _ => True) (query_meets n) (set_meets n) (select_meets n) (twj_meets n) (factor_meets n)).
  - done.
  - intros q _ Hb _. by apply query_case.
  - done.
  - apply set_case_query.
  - intros. by apply set_case_op.
  - intros s Hs sc m Hok Hm Hc Hw. destruct s; simpl in *; try done; by eexists.
  - intros s Ht _. by apply select_case.
  - intros t Hf _. by apply twj_case.
  - intros f Hq Ht _. apply factor_case; [|done..]. intros n' ->. apply IH. lia.
Qed.
End correct.

Lemma build_keeps_value `{SqlDisplay} `{SqlDebug} (to_lowercase : string -> string)
    {R : Type} `{Algebra R} (fuel : nat) (q : Query) :
  well_scoped to_lowercase q = true -> length (cte_names to_lowercase q) <= fuel ->
  match (eval_query to_lowercase ∅ q : option R) with
  | Some v => exists b, build_logical_plan to_lowercase fuel (StQuery q) = Ret (Ok b) /\
                              eval_plan (br_plan b) = v
  | None => exists e, build_logical_plan to_lowercase fuel (StQuery q) = Ret (Err e)
  end.
Proof.
  intros Hw Hf. simpl. unfold build_from_query. rewrite build_unfold.
  pose proof (build_meets to_lowercase (R:=R) (list_to_set (cte_names to_lowercase q)) fuel q [] ∅ I) as Hm.
  specialize (Hm ltac:(split; [by intros ? ? ?%not_elem_of_nil|by intros x [? ?]]) Hw Hf). simpl in Hm.
  unfold agrees, plan_of in Hm.
  destruct (eval_query to_lowercase ∅ q); [destruct Hm as (p & Hp & <-)|destruct Hm as (e & He)];
    destruct (build_query_step _ _ q ∅) as [[b|e']| |]; simplify_eq/=; eauto.
Qed.


(** ** Concrete queries *)

(** Terms over the operators, as an algebra: two queries with the same term
    have the same value everywhere. *)
Definition term_algebra : Algebra LogicalPlan := {|
  sem_scan := Scan;
  sem_filter := Filter;
  sem_project := Project;
  sem_aggregate v g items having := Aggregate v g items having [];
  sem_window v items := Window v items [];
  sem_distinct v d := Project v [SelOther ("DISTINCT " +:+ d)];
  sem_sort := Sort;
  sem_limit := Limit;
  sem_join v w op := Join v w op [] [];
  sem_set_op := SetOp;
  sem_subquery := SubqueryScan;
  sem_exchange := ExchangeRead;
|}.

#[local] Existing Instance demo_display.
#[local] Existing Instance demo_debug.
#[local] Existing Instance term_algebra.

Definition col (s : string) : Expr := Identifier (Ident_new s).
Definition qcol (t s : string) : Expr := CompoundIdentifier [Ident_new t; Ident_new s].

(** WITH recent AS (SELECT * FROM sales WHERE flag) SELECT r.id FROM Recent r
    JOIN items i ON r.item = i.id *)
Definition recent_query : Query :=
  query_of
    (Some (mkWith false [cte "recent"
      (query_of None (select_from [SelWildcard] [mkTableWithJoins (table "sales") []] (Some (col "flag"))))]))
    (select_from [SelUnnamedExpr (qcol "r" "id")]
      [mkTableWithJoins (TFTable (name_of "Recent") (Some (alias_as "r")) "")
        [mkJoin (TFTable (name_of "items") (Some (alias_as "i")) "")
           (JOInner (JCOn (BinaryOp (qcol "r" "item") OpEq (qcol "i" "id"))))]] None).

Definition recent_plan : LogicalPlan :=
  Project
    (Join (SubqueryScan (Project (Filter (Scan "sales" None (table "sales")) (col "flag")) [SelWildcard]) (alias_as "r"))
          (Scan "items" (Some (alias_as "i")) (TFTable (name_of "items") (Some (alias_as "i")) ""))
          (JOInner (JCOn (BinaryOp (qcol "r" "item") OpEq (qcol "i" "id"))))
          [qualified "r" "item"] [qualified "i" "id"])
    [SelUnnamedExpr (qcol "r" "id")].

Example recent_query_built :
  build_logical_plan ascii_lowercase 1 (StQuery recent_query) =
  Ret (Ok (mkBuildResult recent_plan (with_ctes (with_tables (query_with recent_query))))).
Proof. vm_compute. reflexivity. Qed.


(** WITH sales AS (SELECT * FROM sales) SELECT * FROM sales *)
Definition shadowing_query : Query :=
  query_of (Some (mkWith false [cte "sales" (select_all_from (table "sales"))]))
    (select_from [SelWildcard] [mkTableWithJoins (table "sales") []] None).

Lemma shadowing_expands (to_lowercase : string -> string) (fuel : nat) (m : gmap string Query) :
  m !! to_lowercase "sales" = Some (select_all_from (table "sales")) ->
  build_from_query_with_ctes to_lowercase fuel (select_all_from (table "sales")) m = OutOfFuel.
Proof.
  intros Hm. induction fuel as [|fuel IH]; simpl; change (object_name_to_string (name_of "sales")) with "sales";
    rewrite Hm; simpl; [done|]. by rewrite IH.
Qed.

Lemma shadowing_diverges (to_lowercase : string -> string) (fuel : nat) :
  build_logical_plan to_lowercase fuel (StQuery shadowing_query) = OutOfFuel.
Proof.
  unfold build_logical_plan, build_from_query. rewrite build_unfold. simpl.
  change (object_name_to_string (name_of "sales")) with "sales".
  unfold insert_cte; simpl. rewrite lookup_insert_eq. simpl.
  destruct fuel; simpl; [done|]. rewrite shadowing_expands; [done|]. by rewrite lookup_insert_eq.
Qed.

(** the builder does not return on a common table expression that has the
    name of the table it reads, which SQL resolves to the table: every fuel
    runs out, so the recursion of the code has no end. *)
Theorem shadowing_cte_diverges (to_lowercase : string -> string) (fuel : nat) :
  build_logical_plan to_lowercase fuel (StQuery shadowing_query) = OutOfFuel /\
  (exists v : LogicalPlan, eval_query to_lowercase ∅ shadowing_query = Some v).
Proof.
  split; [apply shadowing_diverges|].
  simpl. change (object_name_to_string (name_of "sales")) with "sales". unfold cte_name; simpl.
  rewrite lookup_insert_eq, lookup_empty. eauto.
Qed.

(** WITH a AS (SELECT * FROM t), b AS (SELECT * FROM a)
    SELECT * FROM (WITH a AS (SELECT * FROM u) SELECT * FROM b) AS x *)
Definition capturing_query : Query :=
  query_of (Some (mkWith false [cte "a" (select_all_from (table "t")); cte "b" (select_all_from (table "a"))]))
    (select_from [SelWildcard] [mkTableWithJoins
       (TFDerived false (query_of (Some (mkWith false [cte "a" (select_all_from (table "u"))]))
          (select_from [SelWildcard] [mkTableWithJoins (table "b") []] None)) (Some (alias_as "x"))) []] None).

Fixpoint scanned (p : LogicalPlan) : list string :=
  match p with
  | Scan t _ _ => [t]
  | ExchangeRead _ _ => []
  | Filter i _ | Project i _ | Aggregate i _ _ _ _ | Sort i _ | Limit i _ _ | Window i _ _ | SubqueryScan i _ =>
      scanned i
  | Join l r _ _ _ | SetOp l r _ _ => scanned l ++ scanned r
  end.

(** A definition is expanded where it is used, so an inner definition of the
    same name captures it: [b] reads [t], the built plan reads [u]. *)
Theorem inner_cte_captures :
  (exists v, eval_query ascii_lowercase ∅ capturing_query = Some v /\ scanned v = ["t"]) /\
  (exists b, build_logical_plan ascii_lowercase 4 (StQuery capturing_query) = Ret (Ok b) /\
             scanned (br_plan b) = ["u"]).
Proof. split; eexists; (split; [vm_compute; reflexivity|reflexivity]). Qed.

(** The tests for aggregates do not look into the arguments of functions or
    into casts: SELECT round(sum(x)) FROM t is planned as a projection. *)
Theorem nested_aggregate_projected :
  exists b, build_logical_plan ascii_lowercase 0
    (StQuery (query_of None (select_from [SelUnnamedExpr (call "round" [call "sum" [col "x"] None] None)]
                [mkTableWithJoins (table "t") []] None))) = Ret (Ok b) /\
    br_plan b = Project (Scan "t" None (table "t")) [SelUnnamedExpr (call "round" [call "sum" [col "x"] None] None)] /\
    eval_query ascii_lowercase ∅ (query_of None (select_from
      [SelUnnamedExpr (call "round" [call "sum" [col "x"] None] None)] [mkTableWithJoins (table "t") []] None)) =
    Some (Aggregate (Scan "t" None (table "t")) (GroupByExpressions [] "")
      [SelUnnamedExpr (call "round" [call "sum" [col "x"] None] None)] None []).
Proof. eexists. split; [vm_compute; reflexivity|]. split; vm_compute; reflexivity. Qed.

(** DISTINCT is not read: the query without it gives the same plan. *)
Theorem distinct_not_planned `{SqlDisplay} `{SqlDebug} (to_lowercase : string -> string) (fuel : nat)
    (d : option string) projection from selection group_by having rest w o l f rest' :
  build_logical_plan to_lowercase fuel
    (StQuery (mkQuery w (SESelect (mkSelect d projection from selection group_by having rest)) o l f rest')) =
  build_logical_plan to_lowercase fuel
    (StQuery (mkQuery w (SESelect (mkSelect None projection from selection group_by having rest)) o l f rest')).
Proof. by destruct fuel. Qed.
