(* ===== verification/PlanColumns.v ===== *)
(** * Keys and columns of a built plan (sql/plan_builder.rs)

    What the planner reads off the syntax: the keys of an equi-join, the keys
    all windows of a SELECT share, and the columns a plan refers to. *)

From S2P Require Import Prelude SqlAst LogicalPlan PlanBuilder.

#[export] Instance ColumnRef_countable : Countable ColumnRef.
Proof.
  refine (inj_countable' (fun c => (cr_table c, cr_column c)) (fun p => mkColumnRef p.1 p.2) _).
  by intros [].
Defined.

(** ** Columns a plan refers to *)

(** The vector of columns in the order of their first use, and the set of
    those seen. *)
Record Columns := mkColumns { columns : list ColumnRef; seen : gset ColumnRef }.

Definition add_column_ref (col : ColumnRef) (st : Columns) : Columns :=
  if decide (col ∈ seen st) then st
  else mkColumns (columns st ++ [col]) ({[ col ]} ∪ seen st).

Fixpoint collect_columns_from_expr (expr : Expr) (st : Columns) : Columns :=
  match expr with
  | Identifier ident => add_column_ref (unqualified (value ident)) st
  | CompoundIdentifier parts =>
      match reverse parts with
      | c :: t :: _ => add_column_ref (qualified (value t) (value c)) st
      | _ => st
      end
  | BinaryOp l _ r => collect_columns_from_expr r (collect_columns_from_expr l st)
  | UnaryOp _ e | Nested e => collect_columns_from_expr e st
  | Function _ (ArgsList args _) _ _ =>
      foldl (fun st arg => match arg with
                           | UnnamedExpr e | NamedExpr _ e _ | ExprNamedExpr _ e _ => collect_columns_from_expr e st
                           | ArgOther _ => st
                           end) st args
  | Case operand conditions else_result =>
      let st := match operand with Some op => collect_columns_from_expr op st | None => st end in
      let st := foldl (fun st c => match c with (condition, res) =>
                  collect_columns_from_expr res (collect_columns_from_expr condition st) end) st conditions in
      match else_result with Some e => collect_columns_from_expr e st | None => st end
  | IsNull e | IsNotNull e => collect_columns_from_expr e st
  | InList e items _ => foldl (fun st e => collect_columns_from_expr e st) (collect_columns_from_expr e st) items
  | Between e _ low high =>
      collect_columns_from_expr high (collect_columns_from_expr low (collect_columns_from_expr e st))
  | Cast e _ => collect_columns_from_expr e st
  | _ => st
  end.

Definition collect_columns_from_select_item (item : SelectItem) (st : Columns) : Columns :=
  match item with
  | SelUnnamedExpr e | SelExprWithAlias e _ => collect_columns_from_expr e st
  | _ => st
  end.

Definition collect_from_items (items : list SelectItem) (st : Columns) : Columns :=
  foldl (fun st item => collect_columns_from_select_item item st) st items.

Definition add_column_refs (keys : list ColumnRef) (st : Columns) : Columns :=
  foldl (fun st key => add_column_ref key st) st keys.

(** The columns of the node itself. *)
Definition collect_node_columns (p : LogicalPlan) (st : Columns) : Columns :=
  match p with
  | Filter _ predicate => collect_columns_from_expr predicate st
  | Project _ items => collect_from_items items st
  | Aggregate _ _ aggr_exprs having group_keys =>
      let st := collect_from_items aggr_exprs (add_column_refs group_keys st) in
      match having with Some h => collect_columns_from_expr h st | None => st end
  | Sort _ order_by => foldl (fun st o => collect_columns_from_expr (ob_expr o) st) st order_by
  | Join _ _ join_op left_keys right_keys =>
      let st := add_column_refs right_keys (add_column_refs left_keys st) in
      match extract_join_on_expr join_op with Some e => collect_columns_from_expr e st | None => st end
  | Window _ window_exprs _ => collect_from_items window_exprs st
  | _ => st
  end.

Fixpoint collect_refs_recursive (p : LogicalPlan) (st : Columns) : Columns :=
  let st := collect_node_columns p st in
  match p with
  | Scan _ _ _ | ExchangeRead _ _ => st
  | Filter i _ | Project i _ | Aggregate i _ _ _ _ | Sort i _ | Limit i _ _ | Window i _ _ | SubqueryScan i _ =>
      collect_refs_recursive i st
  | Join l r _ _ _ | SetOp l r _ _ => collect_refs_recursive r (collect_refs_recursive l st)
  end.

Definition collect_referenced_columns (p : LogicalPlan) : list ColumnRef :=
  columns (collect_refs_recursive p (mkColumns [] ∅)).

(** ** Reference: every use, in order *)

Fixpoint expr_uses (expr : Expr) : list ColumnRef :=
  match expr with
  | Identifier _ | CompoundIdentifier _ => option_list (expr_to_column_ref expr)
  | BinaryOp l _ r => expr_uses l ++ expr_uses r
  | UnaryOp _ e | Nested e | IsNull e | IsNotNull e | Cast e _ => expr_uses e
  | Function _ (ArgsList args _) _ _ =>
      flat_map (fun arg => match arg with
                           | UnnamedExpr e | NamedExpr _ e _ | ExprNamedExpr _ e _ => expr_uses e
                           | ArgOther _ => []
                           end) args
  | Case operand conditions else_result =>
      match operand with Some e => expr_uses e | None => [] end
      ++ flat_map (fun c => match c with (a, b) => expr_uses a ++ expr_uses b end) conditions
      ++ match else_result with Some e => expr_uses e | None => [] end
  | InList e items _ => expr_uses e ++ flat_map expr_uses items
  | Between e _ low high => expr_uses e ++ expr_uses low ++ expr_uses high
  | _ => []
  end.

Definition items_uses (items : list SelectItem) : list ColumnRef :=
  flat_map (fun i => flat_map expr_uses (item_exprs i)) items.

Definition node_uses (p : LogicalPlan) : list ColumnRef :=
  match p with
  | Filter _ e => expr_uses e
  | Project _ items => items_uses items
  | Aggregate _ _ items having keys => keys ++ items_uses items ++ flat_map expr_uses (option_list having)
  | Sort _ order_by => flat_map (fun o => expr_uses (ob_expr o)) order_by
  | Join _ _ op lk rk => lk ++ rk ++ flat_map expr_uses (option_list (extract_join_on_expr op))
  | Window _ items _ => items_uses items
  | _ => []
  end.

Fixpoint plan_uses (p : LogicalPlan) : list ColumnRef :=
  node_uses p ++
  match p with
  | Scan _ _ _ | ExchangeRead _ _ => []
  | Filter i _ | Project i _ | Aggregate i _ _ _ _ | Sort i _ | Limit i _ _ | Window i _ _ | SubqueryScan i _ =>
      plan_uses i
  | Join l r _ _ _ | SetOp l r _ _ => plan_uses l ++ plan_uses r
  end.

(** Each element where it occurs first. *)
Fixpoint first_uses (seen : gset ColumnRef) (l : list ColumnRef) : list ColumnRef :=
  match l with
  | [] => []
  | c :: l => if decide (c ∈ seen) then first_uses seen l else c :: first_uses ({[ c ]} ∪ seen) l
  end.

(** ** Equivalence *)

Lemma add_refs_app (l l' : list ColumnRef) (st : Columns) :
  add_column_refs (l ++ l') st = add_column_refs l' (add_column_refs l st).
Proof. apply foldl_app. Qed.

(** A loop of collections is the collection of the concatenation. *)
Lemma collect_loop {A} (f : Columns -> A -> Columns) (g : A -> list ColumnRef) (l : list A) (st : Columns) :
  (forall a st, a ∈ l -> f st a = add_column_refs (g a) st) ->
  foldl f st l = add_column_refs (flat_map g l) st.
Proof.
  revert st. induction l as [|a l IH]; intros st Hf; simpl; [done|].
  rewrite Hf by left. rewrite add_refs_app. apply IH. intros b st' Hb. apply Hf. by right.
Qed.

Lemma collect_expr_uses (e : Expr) (st : Columns) :
  collect_columns_from_expr e st = add_column_refs (expr_uses e) st.
Proof.
  revert st. induction e as [e IH] using Expr_children_ind. intros st.
  destruct e; simpl in *; try done; rewrite ?add_refs_app;
    repeat (rewrite IH by (rewrite ?elem_of_cons, ?elem_of_nil; tauto)); try done.
  - destruct (reverse parts) as [|c [|t ps]]; done.
  - rewrite (collect_loop _ (fun c => match c with (a, b) => expr_uses a ++ expr_uses b end)).
    + assert (Hop : forall x st, Some x = operand \/ Some x = else_result ->
        collect_columns_from_expr x st = add_column_refs (expr_uses x) st).
      { intros x st' Hx. apply IH. rewrite !elem_of_app. destruct Hx as [<-|<-]; simpl; set_solver. }
      destruct operand as [o|], else_result as [r|]; simpl; rewrite ?add_refs_app, ?Hop by auto; done.
    + intros [a b] st' Hab. rewrite add_refs_app.
      assert (Hin : forall x, x = a \/ x = b -> x ∈ flat_map (fun c : Expr * Expr => [c.1; c.2]) conditions).
      { intros x Hx. apply list_elem_of_In, in_flat_map. exists (a, b).
        split; [by apply list_elem_of_In|]. simpl. destruct Hx as [->| ->]; auto. }
      rewrite !IH by (rewrite !elem_of_app; auto). done.
  - destruct args as [args clauses|]; [|done]. apply collect_loop.
    intros arg st' Harg.
    assert (Hin : forall x, x ∈ arg_exprs arg -> x ∈ flat_map arg_exprs args).
    { intros x Hx. apply list_elem_of_In, in_flat_map. exists arg. by rewrite <- !list_elem_of_In. }
    destruct arg; simpl in *; try done; apply IH; rewrite elem_of_app; left; apply Hin; set_solver.
  - apply collect_loop. intros e' st' He'. apply IH. by right.
Qed.

Lemma collect_items_uses (items : list SelectItem) (st : Columns) :
  collect_from_items items st = add_column_refs (items_uses items) st.
Proof.
  apply collect_loop. intros i st' _. destruct i; simpl; rewrite ?app_nil_r; [apply collect_expr_uses..|done|done].
Qed.

Lemma collect_node_uses (p : LogicalPlan) (st : Columns) :
  collect_node_columns p st = add_column_refs (node_uses p) st.
Proof.
  destruct p as [| | |i g items having keys|i order_by| |l r op lk rk| | | |]; simpl;
    rewrite ?add_refs_app; try done; try apply collect_expr_uses; try apply collect_items_uses.
  - rewrite collect_items_uses. destruct having; simpl; rewrite ?app_nil_r; [apply collect_expr_uses|done].
  - apply collect_loop. intros o st' _. apply collect_expr_uses.
  - destruct (extract_join_on_expr op); simpl; rewrite ?app_nil_r; [apply collect_expr_uses|done].
Qed.

Lemma collect_plan_uses (p : LogicalPlan) (st : Columns) :
  collect_refs_recursive p st = add_column_refs (plan_uses p) st.
Proof.
  revert st. induction p; intros st; cbn [collect_refs_recursive plan_uses];
    rewrite !add_refs_app, <- collect_node_uses; auto; congruence.
Qed.

Lemma add_column_refs_first (l : list ColumnRef) (st : Columns) :
  columns (add_column_refs l st) = columns st ++ first_uses (seen st) l.
Proof.
  revert st. induction l as [|c l IH]; intros st; simpl; [by rewrite app_nil_r|].
  unfold add_column_refs in *. simpl. rewrite IH. unfold add_column_ref.
  destruct (decide (c ∈ seen st)); simpl; [done|]. by rewrite <- app_assoc.
Qed.

Lemma elem_of_first_uses (s : gset ColumnRef) (l : list ColumnRef) (c : ColumnRef) :
  c ∈ first_uses s l <-> c ∈ l /\ (c ∉ s).
Proof.
  revert s. induction l as [|d l IH]; intros s; simpl; [rewrite elem_of_nil; tauto|].
  destruct (decide (d ∈ s)); rewrite !elem_of_cons, IH, ?not_elem_of_union, ?not_elem_of_singleton;
    destruct (decide (c = d)); subst; tauto.
Qed.

Lemma first_uses_NoDup (s : gset ColumnRef) (l : list ColumnRef) : NoDup (first_uses s l).
Proof.
  revert s. induction l as [|d l IH]; intros s; simpl; [constructor|].
  destruct (decide (d ∈ s)); [done|]. constructor; [|done].
  rewrite elem_of_first_uses, not_elem_of_union, not_elem_of_singleton. tauto.
Qed.


(** ** Keys of an equi-join *)

(** What the extraction relies on of the truth of an ON clause on a pair of
    rows: a conjunction is true when both sides are, parentheses do not
    matter. *)
Record on_truth (sat : Expr -> Prop) : Prop := {
  on_and : forall a b, sat (BinaryOp a OpAnd b) -> sat a /\ sat b;
  on_nested : forall e, sat (Nested e) -> sat e;
}.

(** The pair of columns [k] is compared by an equality that is true, and each
    belongs to its side. *)
Definition key_compared (sat : Expr -> Prop) (lt rt : gset string) (k : ColumnRef * ColumnRef) : Prop :=
  is_from_tables k.1 lt = true /\ is_from_tables k.2 rt = true /\
  exists a b, sat (BinaryOp a OpEq b) /\
    ((expr_to_column_ref a = Some k.1 /\ expr_to_column_ref b = Some k.2) \/
     (expr_to_column_ref a = Some k.2 /\ expr_to_column_ref b = Some k.1)).

Lemma equality_key_compared (sat : Expr -> Prop) (lt rt : gset string) (a b : Expr) :
  sat (BinaryOp a OpEq b) ->
  Forall (key_compared sat lt rt) (extract_equi_keys_recursive (BinaryOp a OpEq b) lt rt).
Proof.
  intros Hs. simpl. destruct (expr_to_column_ref a) as [l|] eqn:El; [|done].
  destruct (expr_to_column_ref b) as [r|] eqn:Er; [|done].
  destruct (is_from_tables l lt && is_from_tables r rt) eqn:E1.
  - bool_hyps. repeat constructor; simpl; [done..|]. exists a, b. auto.
  - destruct (is_from_tables l rt && is_from_tables r lt) eqn:E2; [|done].
    bool_hyps. repeat constructor; simpl; [done..|]. exists a, b. auto.
Qed.

(** the keys of an equi-join are sound.  On a pair of rows on which the ON
    clause is true, every extracted pair of columns is compared by an equality
    that is true, the left one of a table of the left input and the right one
    of the right; and there are as many left keys as right keys. *)
Theorem equi_keys_sound (sat : Expr -> Prop) (lt rt : gset string) (on : Expr) :
  on_truth sat -> sat on ->
  let keys := extract_equi_keys on lt rt in
  length keys.1 = length keys.2 /\ Forall (key_compared sat lt rt) (zip keys.1 keys.2).
Proof.
  intros Ht Hs. simpl. split; [by rewrite !length_map|].
  assert (Hz : forall l : list (ColumnRef * ColumnRef), zip (map fst l) (map snd l) = l).
  { induction l as [|[x y] l IH]; simpl; [done|]. by rewrite IH. }
  rewrite Hz. revert Hs. induction on as [on IH] using Expr_children_ind. intros Hs.
  destruct on as [| |l op r| |e| | | | | | | | | | | | | | | | | | | | | | | | | | | |]; try done.
  - destruct op; try done.
    + apply (on_and _ Ht) in Hs as [Hl Hr]. simpl in *.
      apply Forall_app. split; apply IH; simpl; set_solver.
    + by apply equality_key_compared.
  - apply (IH e); [simpl; set_solver|]. by apply (on_nested _ Ht).
Qed.

(** A row pair given by the values of its columns. *)
Definition values_sat (val : ColumnRef -> nat) : Expr -> Prop :=
  fix sat e :=
    match e with
    | BinaryOp a OpAnd b => sat a /\ sat b
    | BinaryOp a OpEq b =>
        match expr_to_column_ref a, expr_to_column_ref b with Some x, Some y => val x = val y | _, _ => False end
    | Nested e => sat e
    | _ => False
    end.

Definition tcol (t s : string) : Expr := CompoundIdentifier [Ident_new t; Ident_new s].

Definition on_example : Expr :=
  BinaryOp (Nested (BinaryOp (tcol "o" "cid") OpEq (tcol "c" "id"))) OpAnd
           (BinaryOp (tcol "c" "region") OpEq (tcol "o" "region")).

Lemma equi_keys_sound_witness :
  extract_equi_keys on_example {[ "o" ]} {[ "c" ]} =
    ([qualified "o" "cid"; qualified "o" "region"], [qualified "c" "id"; qualified "c" "region"]) /\
  Forall (key_compared (values_sat (fun _ => 0)) {[ "o" ]} {[ "c" ]})
    (zip (extract_equi_keys on_example {[ "o" ]} {[ "c" ]}).1 (extract_equi_keys on_example {[ "o" ]} {[ "c" ]}).2).
Proof.
  split; [vm_compute; reflexivity|]. apply equi_keys_sound.
  - split; [by intros a b|done].
  - vm_compute. auto.
Defined.

(** ** Keys shared by all windows *)

Lemma elem_of_intersect (k : ColumnRef) (a b : list ColumnRef) :
  k ∈ intersect_column_refs a b <-> k ∈ a /\ exists c, c ∈ b /\ matches k c = true.
Proof.
  unfold intersect_column_refs. rewrite !list_elem_of_In, filter_In, existsb_exists.
  split; intros [? (c & Hc & Hm)]; (split; [done|]); exists c; [rewrite list_elem_of_In|rewrite <- list_elem_of_In]; done.
Qed.

Lemma window_keys_fold (specs : list (list Expr)) (start : option (list ColumnRef)) (k : ColumnRef) :
  k ∈ default [] (foldl window_keys_step start specs) ->
  (forall prev, start = Some prev -> k ∈ prev) /\
  (forall spec, spec ∈ specs -> exists c, c ∈ omap expr_to_column_ref spec /\ matches k c = true).
Proof.
  revert start. induction specs as [|spec specs IH]; intros start; simpl.
  { intros Hk. split; [|by intros ? ?%not_elem_of_nil]. by intros prev ->. }
  intros [Hs Hspecs]%IH. specialize (Hs _ eq_refl). destruct start as [prev|].
  - apply elem_of_intersect in Hs as [Hp Hc]. split; [by intros ? [= <-]|].
    intros s [->|Hin]%elem_of_cons; auto.
  - split; [done|]. intros s [->|Hin]%elem_of_cons; [|auto]. exists k. auto using matches_refl.
Qed.

(** A column of the PARTITION BY list of a window. *)
Definition partitions_on (spec : list Expr) (k : ColumnRef) : Prop :=
  exists c, c ∈ omap expr_to_column_ref spec /\ matches k c = true.

(** a partition key of a Window node belongs to the PARTITION BY list of
    every inline window specification the builder visits, so rows that a
    window groups together agree on it. *)
Theorem window_partition_keys_shared (items : list SelectItem) (k : ColumnRef) (spec : list Expr) :
  k ∈ extract_window_partition_keys items -> spec ∈ flat_map item_window_specs items ->
  partitions_on spec k.
Proof. intros [_ Hk]%window_keys_fold. apply Hk. Qed.

Definition windowed (part : list Expr) : Expr :=
  Function (name_of "sum") (ArgsList [UnnamedExpr (Identifier (Ident_new "x"))] "") (Some (WindowSpec part "")) "".

Lemma window_partition_keys_shared_witness :
  extract_window_partition_keys [SelUnnamedExpr (windowed [tcol "t" "a"; tcol "t" "b"]);
                                 SelUnnamedExpr (windowed [Identifier (Ident_new "A")])] = [qualified "t" "a"] /\
  exists c, c ∈ omap expr_to_column_ref [Identifier (Ident_new "A")] /\ matches (qualified "t" "a") c = true.
Proof.
  split; [vm_compute; reflexivity|].
  apply (window_partition_keys_shared [SelUnnamedExpr (windowed [tcol "t" "a"; tcol "t" "b"]);
                                       SelUnnamedExpr (windowed [Identifier (Ident_new "A")])]).
  - vm_compute. left.
  - simpl. right. left.
Defined.

(** A window given by name is not visited, although the comment says that it
    counts as unpartitioned: the keys are those of the other window. *)
Theorem named_window_ignored :
  extract_window_partition_keys
    [SelUnnamedExpr (Function (name_of "sum") (ArgsList [UnnamedExpr (Identifier (Ident_new "x"))] "")
       (Some (NamedWindow (Ident_new "w"))) "");
     SelUnnamedExpr (windowed [tcol "t" "a"])] = [qualified "t" "a"].
Proof. vm_compute. reflexivity. Qed.
