(* ===== verification/StageSqlGen.v ===== *)
(** * SQL of a stage (sql/stage_sql_gen.rs)

    A stage fragment is printed as one SQL statement, top down.  The code
    appends to a string; here each function returns the text it appends.
    Where a fragment reads exchanged data, whose table aliases are gone, the
    qualifiers of columns are stripped ([dequalify_expr]). *)

From S2P Require Import Prelude SqlAst LogicalPlan PlanBuilder.

(** ** Where exchanged data is read *)

Fixpoint is_exchange_backed_plan (p : LogicalPlan) : bool :=
  match p with
  | ExchangeRead _ _ => true
  | SubqueryScan i _ => is_exchange_backed_plan i
  | Filter i _ | Project i _ | Aggregate i _ _ _ _ | Sort i _ | Limit i _ _ | Window i _ _ =>
      is_exchange_backed_plan i
  | Join _ _ _ _ _ | SetOp _ _ _ _ | Scan _ _ _ => false
  end.

Fixpoint plan_contains_bare_exchange (p : LogicalPlan) : bool :=
  match p with
  | ExchangeRead _ _ => true
  | SubqueryScan _ _ => false
  | Filter i _ | Project i _ | Aggregate i _ _ _ _ | Sort i _ | Limit i _ _ | Window i _ _ =>
      plan_contains_bare_exchange i
  | Join l r _ _ _ => plan_contains_bare_exchange l || plan_contains_bare_exchange r
  | SetOp l r _ _ => plan_contains_bare_exchange l || plan_contains_bare_exchange r
  | Scan _ _ _ => false
  end.

(** ** Stripping qualifiers *)

Fixpoint dequalify_expr (expr : Expr) : Expr :=
  match expr with
  | CompoundIdentifier parts => match last parts with Some i => Identifier i | None => expr end
  | BinaryOp l op r => BinaryOp (dequalify_expr l) op (dequalify_expr r)
  | UnaryOp op e => UnaryOp op (dequalify_expr e)
  | Nested inner => Nested (dequalify_expr inner)
  | Cast e data_type => Cast (dequalify_expr e) data_type
  | Function name args over rest =>
      Function name
        match args with
        | ArgsList args clauses =>
            ArgsList (map (fun arg => match arg with
                                      | UnnamedExpr e => UnnamedExpr (dequalify_expr e)
                                      | other => other
                                      end) args) clauses
        | other => other
        end over rest
  | IsNotNull inner => IsNotNull (dequalify_expr inner)
  | IsNull inner => IsNull (dequalify_expr inner)
  | Case operand conditions else_result =>
      Case (option_map dequalify_expr operand)
        (map (fun cw => match cw with (condition, res) => (dequalify_expr condition, dequalify_expr res) end) conditions)
        (option_map dequalify_expr else_result)
  | Between e negated low high =>
      Between (dequalify_expr e) negated (dequalify_expr low) (dequalify_expr high)
  | InList e items negated => InList (dequalify_expr e) (map dequalify_expr items) negated
  | InSubquery e subquery negated => InSubquery (dequalify_expr e) subquery negated
  | Like negated e pattern rest => Like negated (dequalify_expr e) (dequalify_expr pattern) rest
  | ILike negated e pattern rest => ILike negated (dequalify_expr e) (dequalify_expr pattern) rest
  | SimilarTo negated e pattern rest => SimilarTo negated (dequalify_expr e) (dequalify_expr pattern) rest
  | EExtract field _ e => EExtract field true (dequalify_expr e)
  | ESubstring e substring_from substring_for _ _ =>
      ESubstring (dequalify_expr e) (option_map dequalify_expr substring_from)
        (option_map dequalify_expr substring_for) false false
  | ETrim e trim_where trim_what trim_characters =>
      ETrim (dequalify_expr e) trim_where (option_map dequalify_expr trim_what)
        (option_map (map dequalify_expr) trim_characters)
  | IsTrue inner => IsTrue (dequalify_expr inner)
  | IsFalse inner => IsFalse (dequalify_expr inner)
  | IsNotTrue inner => IsNotTrue (dequalify_expr inner)
  | IsNotFalse inner => IsNotFalse (dequalify_expr inner)
  | IsUnknown inner => IsUnknown (dequalify_expr inner)
  | IsNotUnknown inner => IsNotUnknown (dequalify_expr inner)
  | IsDistinctFrom l r => IsDistinctFrom (dequalify_expr l) (dequalify_expr r)
  | IsNotDistinctFrom l r => IsNotDistinctFrom (dequalify_expr l) (dequalify_expr r)
  | ETuple exprs => ETuple (map dequalify_expr exprs)
  | _ => expr
  end.

Definition dequalify_order_by_expr (o : OrderByExpr) : OrderByExpr :=
  mkOrderByExpr (dequalify_expr (ob_expr o)) (ob_options o).

Definition dequalify_group_by (g : GroupByExpr) : GroupByExpr :=
  match g with
  | GroupByExpressions exprs modifiers => GroupByExpressions (map dequalify_expr exprs) modifiers
  | GroupByAll v => GroupByAll v
  end.

Definition dequalify_select_item (item : SelectItem) : SelectItem :=
  match item with
  | SelUnnamedExpr e => SelUnnamedExpr (dequalify_expr e)
  | SelExprWithAlias e alias => SelExprWithAlias (dequalify_expr e) alias
  | other => other
  end.

(** ** Text *)

Definition format_join_type (op : JoinOperator) : string :=
  match op with
  | JOJoin _ | JOInner _ => "JOIN"
  | JOLeft _ | JOLeftOuter _ => "LEFT JOIN"
  | JORight _ | JORightOuter _ => "RIGHT JOIN"
  | JOFullOuter _ => "FULL OUTER JOIN"
  | JOCrossJoin _ => "CROSS JOIN"
  | JOSemi _ => "SEMI JOIN"
  | JOLeftSemi _ => "LEFT SEMI JOIN"
  | JORightSemi _ => "RIGHT SEMI JOIN"
  | JOAnti _ => "ANTI JOIN"
  | JOLeftAnti _ => "LEFT ANTI JOIN"
  | JORightAnti _ => "RIGHT ANTI JOIN"
  | JOCrossApply => "CROSS APPLY"
  | JOOuterApply => "OUTER APPLY"
  | JOAsOf _ _ => "ASOF JOIN"
  | JOStraightJoin _ => "STRAIGHT_JOIN"
  end.

(** The loops that print a comma before every element but the first. *)
Definition comma_separated {A} (print : A -> string) (l : list A) : string :=
  String.concat ", " (map print l).

Section text.
Context `{SqlDisplay}.

Definition write_cte_prefix (ctes : list Cte) : string :=
  "WITH " +:+ comma_separated display_cte ctes +:+ " ".

Definition write_constraint (c : JoinConstraint Expr) (dequalify : bool) : string :=
  match c with
  | JCOn e => " ON " +:+ display_expr (if dequalify then dequalify_expr e else e)
  | JCUsing columns => " USING(" +:+ comma_separated display_object_name columns +:+ ")"
  | JCNatural => ""
  | JCNone => ""
  end.

(** [write_join_constraint] and [write_join_constraint_dequalified]. *)
Definition write_join_constraint (op : JoinOperator) (dequalify : bool) : string :=
  match extract_join_constraint op with Some c => write_constraint c dequalify | None => "" end.

Definition write_select_items (items : list SelectItem) : string :=
  match items with [] => "*" | _ => comma_separated display_item items end.

Definition write_select_items_dequalified (items : list SelectItem) : string :=
  match items with [] => "*" | _ => comma_separated (fun i => display_item (dequalify_select_item i)) items end.

Definition write_where (backed : bool) (predicate : Expr) : string :=
  " WHERE " +:+ display_expr (if backed then dequalify_expr predicate else predicate).

Definition write_order_by (backed : bool) (order_by : list OrderByExpr) : string :=
  match order_by with
  | [] => ""
  | _ => " ORDER BY " +:+ comma_separated
           (fun o => display_order_by (if backed then dequalify_order_by_expr o else o)) order_by
  end.

Definition write_limit (limit offset : option Expr) : string :=
  match limit with Some l => " LIMIT " +:+ display_expr l | None => "" end
  +:+ match offset with Some o => " OFFSET " +:+ display_expr o | None => "" end.

Definition write_group_by (backed : bool) (group_by : GroupByExpr) : string :=
  if has_group_by group_by
  then " " +:+ display_group_by (if backed then dequalify_group_by group_by else group_by)
  else "".

Definition write_having (backed : bool) (having : option Expr) : string :=
  match having with
  | Some h => " HAVING " +:+ display_expr (if backed then dequalify_expr h else h)
  | None => ""
  end.

Definition write_set_operator (op : SetOperator) (sq : SetQuantifier) : string :=
  " " +:+ display_set_operator op +:+ " "
  +:+ match sq with SQNone => "" | _ => display_set_quantifier sq +:+ " " end.

(** The join case, from the texts of its inputs. *)
Definition join_fragment (l r : LogicalPlan) (op : JoinOperator) (from_l from_r : string) : string :=
  from_l +:+ " " +:+ format_join_type op +:+ " " +:+ from_r
  +:+ write_join_constraint op (plan_contains_bare_exchange l || plan_contains_bare_exchange r).

(** [generate_sql] and [generate_from_fragment] call each other on the same
    node, so one recursion computes both texts. *)
Fixpoint generate (p : LogicalPlan) : string * string :=
  let sql :=
    match p with
    | Limit i limit offset => (generate i).1 +:+ write_limit limit offset
    | Sort i order_by => (generate i).1 +:+ write_order_by (is_exchange_backed_plan i) order_by
    | Aggregate i group_by aggr_exprs having _ =>
        let backed := is_exchange_backed_plan i in
        "SELECT " +:+ (if backed then write_select_items_dequalified aggr_exprs else write_select_items aggr_exprs)
        +:+ " FROM " +:+ (generate i).2
        +:+ write_group_by backed group_by +:+ write_having backed having
    | Project i items =>
        "SELECT " +:+ (if plan_contains_bare_exchange i then write_select_items_dequalified items
                       else write_select_items items)
        +:+ " FROM " +:+ (generate i).2
    | Window i window_exprs _ => "SELECT " +:+ write_select_items window_exprs +:+ " FROM " +:+ (generate i).2
    | SetOp l r op set_quantifier => (generate l).1 +:+ write_set_operator op set_quantifier +:+ (generate r).1
    | SubqueryScan i _ => (generate i).1
    | Scan _ _ table_factor => "SELECT * FROM " +:+ display_table_factor table_factor
    | ExchangeRead _ alias => "SELECT * FROM " +:+ alias
    | Filter i predicate =>
        "SELECT * FROM " +:+ (generate i).2 +:+ write_where (plan_contains_bare_exchange i) predicate
    | Join l r op _ _ => "SELECT * FROM " +:+ join_fragment l r op (generate l).2 (generate r).2
    end in
  let from :=
    match p with
    | Scan _ _ table_factor => display_table_factor table_factor
    | ExchangeRead _ alias => alias
    | Join l r op _ _ => join_fragment l r op (generate l).2 (generate r).2
    | Filter i predicate => (generate i).2 +:+ write_where (plan_contains_bare_exchange i) predicate
    | SubqueryScan i alias => "(" +:+ (generate i).1 +:+ ") " +:+ display_table_alias alias
    | _ => "(" +:+ sql +:+ ") AS __subquery"
    end in
  (sql, from).

Definition generate_sql (p : LogicalPlan) : string := (generate p).1.
Definition generate_from_fragment (p : LogicalPlan) : string := (generate p).2.

Definition generate_stage_sql (p : LogicalPlan) (c : PlanContext) : string :=
  match cte_definitions c with [] => "" | ctes => write_cte_prefix ctes end +:+ generate_sql p.

Definition generate_stage_sql_no_context (p : LogicalPlan) : string := generate_sql p.
End text.

(** ** Stripping is complete and stable *)

Definition is_qualified (e : Expr) : bool :=
  match e with CompoundIdentifier (_ :: _) => true | _ => false end.

(** Calls with expressions that [dequalify_expr] passes over: named arguments
    and window specifications. *)
Definition has_hidden_exprs (e : Expr) : bool :=
  match e with
  | Function _ args over _ =>
      match over_exprs over with [] => false | _ => true end
      || match args with
         | ArgsList args _ =>
             existsb (fun a => match a with NamedExpr _ _ _ | ExprNamedExpr _ _ _ => true | _ => false end) args
         | ArgsOther _ => false
         end
  | _ => false
  end.

Lemma flat_map_map_ext {A B C} (f : A -> list B) (g : B -> C) (h : A -> A) (f' : A -> list C) (l : list A) :
  (forall a, a ∈ l -> f' (h a) = map g (f a)) -> flat_map f' (map h l) = map g (flat_map f l).
Proof.
  induction l as [|a l IH]; intros Hl; simpl; [done|]. rewrite map_app, Hl by left. f_equal.
  apply IH. intros b Hb. apply Hl. by right.
Qed.

Lemma dequalify_children (e : Expr) : has_hidden_exprs e = false ->
  expr_children (dequalify_expr e) = map dequalify_expr (expr_children e).
Proof.
  destruct e; simpl; intros Hh; try done.
  - by destruct (last parts).
  - rewrite !map_app. f_equal; [by destruct operand|]. f_equal; [|by destruct else_result].
    induction conditions as [|[a b] cs IH]; simpl; [done|]. by rewrite IH.
  - apply orb_false_iff in Hh as [Ho Ha]. destruct (over_exprs over); [|done]. rewrite map_app, !app_nil_r.
    destruct args as [args c|]; [|done]. simpl. induction args as [|a args IH]; simpl in *; [done|].
    apply orb_false_iff in Ha as [Ha Hs]. rewrite map_app, IH by done. by destruct a.
  - f_equal. rewrite map_app. destruct substring_from, substring_for; done.
  - f_equal. rewrite map_app. destruct trim_what, trim_characters; done.
Qed.

(** after stripping no qualified column is left in the expression, as long
    as its function calls have neither named arguments nor PARTITION BY. *)
Theorem dequalify_complete (e : Expr) :
  expr_any has_hidden_exprs e = false -> expr_any is_qualified (dequalify_expr e) = false.
Proof.
  induction e as [e IH] using Expr_children_ind. rewrite !expr_any_unfold.
  intros [Hh Hc]%orb_false_iff. apply orb_false_iff. split.
  - destruct e; try done. simpl. destruct (last parts) eqn:E; [done|]. by apply last_None in E as ->.
  - rewrite dequalify_children by done. apply not_true_iff_false. rewrite existsb_exists.
    intros (e' & (e0 & <- & Hin)%in_map_iff & Hq). apply list_elem_of_In in Hin.
    rewrite IH in Hq; [done..|]. apply not_true_iff_false. intros Ht. apply not_true_iff_false in Hc.
    apply Hc, existsb_exists. exists e0. by rewrite <- list_elem_of_In.
Qed.

Lemma dequalify_complete_witness :
  expr_any is_qualified (dequalify_expr (BinaryOp (CompoundIdentifier [Ident_new "o"; Ident_new "x"]) OpEq
    (call "abs" [CompoundIdentifier [Ident_new "db"; Ident_new "c"; Ident_new "y"]] None))) = false.
Proof. apply dequalify_complete. vm_compute. reflexivity. Defined.

Lemma map_dequalify_twice (es : list Expr) :
  (forall e, e ∈ es -> dequalify_expr (dequalify_expr e) = dequalify_expr e) ->
  map dequalify_expr (map dequalify_expr es) = map dequalify_expr es.
Proof.
  intros Hes. rewrite map_map. apply map_ext_in. intros e He. apply Hes. by apply list_elem_of_In.
Qed.

(** Stripping twice is stripping once. *)
Lemma dequalify_idempotent (e : Expr) : dequalify_expr (dequalify_expr e) = dequalify_expr e.
Proof.
  induction e as [e IH] using Expr_children_ind.
  destruct e; simpl in *; try done; try (f_equal; apply IH; set_solver).
  - destruct (last parts) eqn:E; [done|]. simpl. by rewrite E.
  - f_equal.
    + destruct operand; simpl in *; [|done]. f_equal. apply IH. left.
    + rewrite map_map. apply map_ext_in. intros [a b] Hin%list_elem_of_In.
      assert (Hab : forall x, x = a \/ x = b -> x ∈ flat_map (fun c : Expr * Expr => [c.1; c.2]) conditions).
      { intros x Hx. apply list_elem_of_In, in_flat_map. exists (a, b).
        split; [by apply list_elem_of_In|]. simpl. destruct Hx as [->| ->]; auto. }
      by rewrite !IH by (rewrite !elem_of_app; auto).
    + destruct else_result; simpl in *; [|done]. f_equal. apply IH. rewrite !elem_of_app. set_solver.
  - destruct args as [args c|]; [|done]. do 2 f_equal. rewrite map_map. apply map_ext_in.
    intros a Ha%list_elem_of_In. destruct a; try done. f_equal. apply IH. rewrite elem_of_app. left.
    simpl. apply list_elem_of_In, in_flat_map. eexists. split; [by apply list_elem_of_In|]. by left.
  - f_equal; [apply IH; left|]. apply map_dequalify_twice. intros e' He'. apply IH. by right.
  - f_equal; [apply IH; left|destruct substring_from|destruct substring_for]; simpl in *; try done;
      f_equal; apply IH; set_solver.
  - f_equal; [apply IH; left|destruct trim_what|destruct trim_characters as [cs|]]; simpl in *; try done; f_equal.
    + apply IH. set_solver.
    + apply map_dequalify_twice. intros e' He'. apply IH. rewrite elem_of_cons, elem_of_app. auto.
  - f_equal. apply map_dequalify_twice. intros e' He'. by apply IH.
Qed.

(** ** Every input of the fragment is in the text *)

(** The strings occur in the text one after the other. *)
Fixpoint in_order (ls : list string) (text : string) : Prop :=
  match ls with
  | [] => True
  | l :: ls => exists before after, text = before +:+ l +:+ after /\ in_order ls after
  end.

Lemma in_order_pre (ls : list string) (pre text : string) : in_order ls text -> in_order ls (pre +:+ text).
Proof.
  destruct ls as [|l ls]; [done|]. intros (b & a & -> & Ho). exists (pre +:+ b), a.
  by rewrite string_app_assoc.
Qed.

Lemma in_order_app (ls ls' : list string) (text text' : string) :
  in_order ls text -> in_order ls' text' -> in_order (ls ++ ls') (text +:+ text').
Proof.
  revert text. induction ls as [|l ls IH]; intros text; simpl; [intros _; apply in_order_pre|].
  intros (b & a & -> & Ho) Ho'. exists b, (a +:+ text'). rewrite !string_app_assoc. auto.
Qed.

Lemma in_order_post (ls : list string) (text post : string) : in_order ls text -> in_order ls (text +:+ post).
Proof. intros Ho. rewrite <- (app_nil_r ls). by apply in_order_app. Qed.

Lemma in_order_self (l : string) : in_order [l] l.
Proof. exists "", "". by rewrite string_app_nil_r. Qed.

#[local] Arguments in_order : simpl never.

Ltac solve_in_order :=
  solve [ assumption | apply in_order_self | apply in_order_app; solve_in_order
        | apply in_order_pre; solve_in_order | apply in_order_post; solve_in_order ].

Section inputs.
Context `{SqlDisplay}.

(** The relations a fragment reads, from left to right: the text of a scanned
    table, the name of an exchange table. *)
Fixpoint leaf_texts (p : LogicalPlan) : list string :=
  match p with
  | Scan _ _ f => [display_table_factor f]
  | ExchangeRead _ alias => [alias]
  | Filter i _ | Project i _ | Aggregate i _ _ _ _ | Sort i _ | Limit i _ _ | Window i _ _ | SubqueryScan i _ =>
      leaf_texts i
  | Join l r _ _ _ | SetOp l r _ _ => leaf_texts l ++ leaf_texts r
  end.

Lemma generate_in_order (p : LogicalPlan) :
  in_order (leaf_texts p) (generate p).1 /\ in_order (leaf_texts p) (generate p).2.
Proof.
  induction p; simpl; unfold join_fragment;
    repeat match goal with H : in_order _ _ /\ in_order _ _ |- _ => destruct H end;
    split; solve_in_order.
Qed.

(** the SQL of a stage reads what its plan reads: every scanned table and
    every exchange table occurs in the text, in the order of the plan's
    leaves. *)
Theorem stage_sql_reads_inputs (p : LogicalPlan) (c : PlanContext) :
  in_order (leaf_texts p) (generate_stage_sql p c) /\
  in_order (leaf_texts p) (generate_stage_sql_no_context p).
Proof.
  destruct (generate_in_order p) as [Hp _]. split; [|done]. by apply in_order_pre.
Qed.

(** ** Grouping is not printed *)

(** A nested set operation is printed without parentheses: A EXCEPT (B EXCEPT
    C) and (A EXCEPT B) EXCEPT C have the same text. *)
Theorem set_op_grouping_lost (a b c : LogicalPlan) op sq op' sq' :
  generate_sql (SetOp a (SetOp b c op' sq') op sq) = generate_sql (SetOp (SetOp a b op sq) c op' sq').
Proof. unfold generate_sql. simpl. by rewrite !string_app_assoc. Qed.

(** FROM a, b RIGHT JOIN c ON ... and FROM (a CROSS JOIN b) RIGHT JOIN c ON ...
    have the same text, although the first joins [b] with [c]. *)
Theorem join_grouping_lost (a b c : LogicalPlan) (on : Expr) :
  plan_contains_bare_exchange a = false ->
  generate_from_fragment
    (Join a (Join b c (JORight (JCOn on)) [] []) (JOCrossJoin JCNone) [] []) =
  generate_from_fragment
    (Join (Join a b (JOCrossJoin JCNone) [] []) c (JORight (JCOn on)) [] []).
Proof.
  intros Ha. unfold generate_from_fragment. simpl. unfold join_fragment, write_join_constraint. simpl.
  rewrite Ha. simpl. by rewrite ?string_app_assoc, ?string_app_nil_r.
Qed.

(** ORDER BY ALL becomes a Sort without keys, for which nothing is printed. *)
Theorem order_by_all_not_printed (p : LogicalPlan) : generate_sql (Sort p []) = generate_sql p.
Proof. unfold generate_sql. simpl. apply string_app_nil_r. Qed.
End inputs.
