(* ===== verification/SqlRoundTrip.v ===== *)
(** * From a query to its plan and back to text (sql/plan_builder.rs,
    sql/stage_sql_gen.rs)

    The generator's tests parse a query, build its plan and print it.  Here
    the composition is compared with [print_query], the canonical text of a
    query: SELECT, FROM, WHERE, GROUP BY, HAVING, ORDER BY and LIMIT in this
    order, derived tables in parentheses.  It is the identity on the queries
    without WITH, nested joins, FROM lists and parenthesised set operands. *)

From S2P Require Import Prelude SqlAst LogicalPlan PlanBuilder PlanMeaning StageSqlGen.

Section roundtrip.
Context `{SqlDisplay} `{SqlDebug} (to_lowercase : string -> string).

(** ** Canonical text *)

Definition print_clauses (s : Select) (from : string) : string :=
  "SELECT " +:+ comma_separated display_item (sel_projection s) +:+ " FROM " +:+ from
  +:+ match sel_selection s with Some e => " WHERE " +:+ display_expr e | None => "" end
  +:+ (if has_group_by (sel_group_by s) then " " +:+ display_group_by (sel_group_by s) else "")
  +:+ match sel_having s with Some e => " HAVING " +:+ display_expr e | None => "" end.

Definition print_order (q : Query) : string :=
  match query_order_by q with
  | Some (OrderByExpressions exprs) => " ORDER BY " +:+ comma_separated display_order_by exprs
  | Some (OrderByAll _) => " ORDER BY ALL"
  | None => ""
  end.

Definition print_limit (q : Query) : string :=
  match query_limit_clause q with
  | Some (LimitOffset l o _) => write_limit l o
  | Some (OffsetCommaLimit o l) => write_limit (Some l) (Some o)
  | None => ""
  end.

Fixpoint print_query (q : Query) : string :=
  match q with
  | mkQuery _ body _ _ _ _ => print_body body +:+ print_order q +:+ print_limit q
  end
with print_body (s : SetExpr) : string :=
  match s with
  | SESelect s => print_select s
  | SESetOperation op sq l r => print_body l +:+ write_set_operator op sq +:+ print_body r
  | SEQuery q => "(" +:+ print_query q +:+ ")"
  | SEValues t | SEInsert t | SEUpdate t | SEOther t => t
  end
with print_select (s : Select) : string :=
  match s with mkSelect _ _ from _ _ _ _ => print_clauses s (String.concat ", " (map print_twj from)) end
with print_twj (t : TableWithJoins) : string :=
  match t with
  | mkTableWithJoins r joins =>
      foldl (fun text j => match j with
                           | mkJoin r op =>
                               text +:+ " " +:+ format_join_type op +:+ " " +:+ print_factor r
                               +:+ write_join_constraint op false
                           end) (print_factor r) joins
  end
with print_factor (f : TableFactor) : string :=
  match f with
  | TFDerived _ q alias =>
      "(" +:+ print_query q +:+ ") " +:+ match alias with Some a => display_table_alias a | None => "" end
  | TFNestedJoin t alias =>
      "(" +:+ print_twj t +:+ ") " +:+ match alias with Some a => display_table_alias a | None => "" end
  | f => display_table_factor f
  end.

(** ** Flat queries *)

Definition flat_clauses (s : Select) : bool :=
  supported_clauses s && match sel_projection s with [] => false | _ => true end.

Definition flat_order (q : Query) : bool :=
  match query_order_by q with Some (OrderByAll _) | Some (OrderByExpressions []) => false | _ => true end
  && match query_fetch q with Some _ => false | None => true end.

Fixpoint flat_query (q : Query) : bool :=
  match q with
  | mkQuery w body _ _ _ _ =>
      match w with Some _ => false | None => true end && flat_order q && flat_body body
  end
with flat_body (s : SetExpr) : bool :=
  match s with
  | SESelect s => flat_select s
  | SESetOperation _ _ l r => flat_body l && flat_body r && match r with SESelect _ => true | _ => false end
  | _ => false
  end
with flat_select (s : Select) : bool :=
  match s with
  | mkSelect _ _ from _ _ _ _ =>
      flat_clauses s && match from with [t] => flat_twj t | _ => false end
  end
with flat_twj (t : TableWithJoins) : bool :=
  match t with
  | mkTableWithJoins r joins =>
      flat_factor r && forallb (fun j => match j with mkJoin r _ => flat_factor r end) joins
  end
with flat_factor (f : TableFactor) : bool :=
  match f with
  | TFDerived _ q alias => flat_query q && match alias with Some _ => true | None => false end
  | TFNestedJoin _ _ => false
  | _ => true
  end.

(** ** The round trip *)

(** A plan without exchanges that prints as [text], as a statement or in FROM. *)
Definition prints (gen : LogicalPlan -> string) (o : built LogicalPlan) (text : string) : Prop :=
  exists p, o = Ret (Ok p) /\ gen p = text /\
    plan_contains_bare_exchange p = false /\ is_exchange_backed_plan p = false.

Lemma select_plan_prints (s : Select) (p : LogicalPlan) (from : string) :
  flat_clauses s = true -> generate_from_fragment p = from ->
  plan_contains_bare_exchange p = false -> is_exchange_backed_plan p = false ->
  prints generate_sql (Ret (Ok (select_plan s p))) (print_clauses s from).
Proof.
  intros Hc <- Hb He. eexists. split; [reflexivity|]. unfold flat_clauses, supported_clauses in Hc. bool_hyps.
  match goal with H : Bool.eqb (is_grouped s) _ = true |- _ => apply eqb_prop in H; rename H into Hg end.
  unfold generate_sql, generate_from_fragment, print_clauses, select_plan, write_group_by, write_having,
    write_where, write_select_items in *.
  destruct (sel_projection s) as [|i items] eqn:Ep; [done|].
  destruct (has_group_by (sel_group_by s) || existsb select_item_has_aggregate (i :: items)) eqn:Eg.
  - destruct (sel_selection s); simpl; rewrite ?He, ?Hb; simpl; (split; [|done]); by rewrite ?string_app_assoc.
  - unfold is_grouped in Hg. apply orb_false_iff in Eg as [Eg Ea]. rewrite Eg in Hg |- *.
    apply orb_false_iff in Hg as [_ Hh]. destruct (sel_having s); [done|].
    destruct (existsb select_item_has_window (i :: items)); simpl;
      destruct (sel_selection s); simpl; rewrite ?He, ?Hb; simpl; (split; [|done]);
      by rewrite ?string_app_nil_r.
Qed.

Lemma query_plan_prints (q : Query) (p : LogicalPlan) (text : string) :
  flat_order q = true -> generate_sql p = text ->
  plan_contains_bare_exchange p = false -> is_exchange_backed_plan p = false ->
  prints generate_sql (Ret (Ok (limit_plan q (order_plan q p)))) (text +:+ print_order q +:+ print_limit q).
Proof.
  intros Hf <- Hb He. eexists. split; [reflexivity|]. unfold flat_order in Hf. bool_hyps.
  unfold generate_sql, limit_plan, order_plan, print_order, print_limit, extract_limit_offset.
  destruct (query_fetch q); [done|].
  destruct (query_order_by q) as [[[|o os]|]|], (query_limit_clause q) as [[[l|] [o'|] b|o' l]|]; try done; simpl;
    rewrite ?He; simpl; (split; [|done]); unfold write_limit; by rewrite ?string_app_assoc, ?string_app_nil_r.
Qed.

Lemma join_prints (p p' : LogicalPlan) (op : JoinOperator) (t t' : string) :
  generate_from_fragment p = t -> generate_from_fragment p' = t' ->
  plan_contains_bare_exchange p = false -> plan_contains_bare_exchange p' = false ->
  prints generate_from_fragment (Ret (Ok (join_plan p p' op)))
    (t +:+ " " +:+ format_join_type op +:+ " " +:+ t' +:+ write_join_constraint op false).
Proof.
  intros <- <- Hb Hb'. eexists. split; [reflexivity|]. unfold join_plan, generate_from_fragment.
  destruct (extract_join_keys_from_operator _ _ _). simpl. unfold join_fragment. by rewrite Hb, Hb'.
Qed.

Abbreviation build_query := (fun q => build_query_step to_lowercase (fun _ _ => OutOfFuel) q ∅).

(** The query's plan prints as the query, and no definition goes along. *)
Definition query_prints (q : Query) : Prop :=
  flat_query q = true -> exists b, build_query q = Ret (Ok b) /\ cte_definitions (br_context b) = [] /\
    prints generate_sql (Ret (Ok (br_plan b))) (print_query q).
Definition body_prints (s : SetExpr) : Prop :=
  flat_body s = true -> prints generate_sql (build_set_expr to_lowercase (fun _ _ => OutOfFuel) s ∅) (print_body s).
Definition select_prints (s : Select) : Prop :=
  flat_select s = true -> prints generate_sql (build_select to_lowercase (fun _ _ => OutOfFuel) s ∅) (print_select s).
Definition twj_prints (t : TableWithJoins) : Prop :=
  flat_twj t = true ->
  prints generate_from_fragment (build_table_with_joins to_lowercase (fun _ _ => OutOfFuel) t ∅) (print_twj t).
Definition factor_prints (f : TableFactor) : Prop :=
  flat_factor f = true ->
  prints generate_from_fragment (build_table_factor to_lowercase (fun _ _ => OutOfFuel) f ∅) (print_factor f).

Lemma query_prints_case (q : Query) : body_prints (query_body q) -> query_prints q.
Proof.
  destruct q as [[w|] body o l f rest]; intros Hb Hf; simpl in *; [done|]. bool_hyps.
  destruct Hb as (p & -> & Ht & Hx & He); [done|]. eexists. split; [reflexivity|]. split; [done|].
  by apply query_plan_prints.
Qed.

Lemma set_op_prints (op : SetOperator) (sq : SetQuantifier) (l r : SetExpr) :
  body_prints l -> body_prints r -> body_prints (SESetOperation op sq l r).
Proof.
  intros Hl Hr Hf. simpl in *. bool_hyps.
  destruct Hl as (p & -> & Ht & Hx & _); [done|]. destruct Hr as (p' & -> & Ht' & Hx' & _); [done|].
  eexists. split; [reflexivity|]. unfold generate_sql in *. simpl. by rewrite Ht, Ht', Hx, Hx'.
Qed.

Lemma select_prints_case (s : Select) : (forall t, t ∈ sel_from s -> twj_prints t) -> select_prints s.
Proof.
  destruct s as [d proj from w g h rest]; simpl. intros Ht Hf. simpl in Hf. bool_hyps.
  destruct from as [|t [|]]; try done. destruct (Ht t) as (p & Hp & Htext & Hx & He); [left|done|].
  simpl. rewrite Hp. simpl. by apply select_plan_prints.
Qed.

Lemma joins_print (joins : list Join_) (p : LogicalPlan) (text : string) :
  (forall j, j ∈ joins -> factor_prints (join_relation j)) ->
  forallb (fun j : Join_ => match j with mkJoin r _ => flat_factor r end) joins = true ->
  prints generate_from_fragment (Ret (Ok p)) text ->
  prints generate_from_fragment
    (fold_run (fun p (join : Join_) => match join with
       | mkJoin relation op =>
           let^ rhs := build_table_factor to_lowercase (fun _ _ => OutOfFuel) relation ∅ in
           Ret (Ok (join_plan p rhs op))
       end) joins p)
    (foldl (fun text j => match j with
       | mkJoin r op => text +:+ " " +:+ format_join_type op +:+ " " +:+ print_factor r
                        +:+ write_join_constraint op false
       end) text joins).
Proof.
  revert p text. induction joins as [|[r op] joins IH]; intros p text Hj Hf Hp; simpl in *; [done|].
  bool_hyps. destruct (Hj (mkJoin r op)) as (p' & Hp' & Ht' & Hx' & _); [left|done|]. simpl in Hp'.
  rewrite Hp'. simpl. destruct Hp as (p0 & [= ->] & Ht & Hx & _).
  apply IH; [intros j Hin; apply Hj; by right|done|]. by apply join_prints.
Qed.

Lemma twj_prints_case (t : TableWithJoins) : (forall f, f ∈ twj_factors t -> factor_prints f) -> twj_prints t.
Proof.
  destruct t as [r joins]. unfold twj_factors; simpl. intros Hf Hc. simpl in Hc. bool_hyps.
  destruct (Hf r) as (p & Hp & Hrest); [left|done|]. simpl. rewrite Hp. simpl.
  apply joins_print; [|done|by exists p]. intros j Hj. apply Hf. right.
  apply list_elem_of_In, in_map_iff. exists j. by rewrite <- list_elem_of_In.
Qed.

Lemma factor_prints_case (f : TableFactor) : (forall q, q ∈ factor_queries f -> query_prints q) -> factor_prints f.
Proof.
  destruct f as [name alias rest|lat q alias|lat name args alias|t alias|text]; intros Hq Hf; simpl in *; try done.
  - rewrite lookup_empty. by eexists.
  - bool_hyps. destruct alias as [a|]; [|done].
    destruct (Hq q) as (b & -> & _ & p & [= <-] & Ht & Hx & He); [left|done|]. simpl.
    eexists. split; [reflexivity|]. unfold generate_from_fragment, generate_sql in *. simpl. by rewrite Ht.
  - by eexists.
  - by eexists.
Qed.

Lemma flat_query_prints (q : Query) : query_prints q.
Proof.
  revert q. apply (ast_ind (fun _ => True) query_prints body_prints select_prints twj_prints factor_prints).
  - done.
  - intros q _ Hb _. by apply query_prints_case.
  - done.
  - intros q _ Hf. done.
  - intros. by apply set_op_prints.
  - intros s Hs Hf. destruct s; done.
  - intros s Ht _. by apply select_prints_case.
  - intros t Hf _. by apply twj_prints_case.
  - intros f Hq _ _. by apply factor_prints_case.
Qed.
End roundtrip.


(** SELECT o.id, sum(o.x) FROM (SELECT id, x FROM orders WHERE flag) AS o
    JOIN items ON o.id = items.id WHERE x GROUP BY id ORDER BY id LIMIT n *)
Definition flat_example : Query :=
  mkQuery None
    (SESelect (mkSelect None [SelUnnamedExpr (qcol "o" "id"); SelUnnamedExpr (call "sum" [qcol "o" "x"] None)]
      [mkTableWithJoins
         (TFDerived false (query_of None (select_from [SelUnnamedExpr (col "id"); SelUnnamedExpr (col "x")]
            [mkTableWithJoins (table "orders") []] (Some (col "flag")))) (Some (alias_as "o")))
         [mkJoin (table "items") (JOInner (JCOn (BinaryOp (qcol "o" "id") OpEq (qcol "items" "id"))))]]
      (Some (col "x")) (GroupByExpressions [col "id"] "") None ""))
    (Some (OrderByExpressions [mkOrderByExpr (col "id") ""])) (Some (LimitOffset (Some (col "n")) None "")) None "".

#[local] Existing Instance demo_display.
#[local] Existing Instance demo_debug.


Example flat_example_text :
  print_query flat_example =
  "SELECT ?, ? FROM (SELECT id, x FROM ? WHERE flag) o JOIN ? ON ? WHERE x ? ORDER BY id LIMIT n".
Proof. vm_compute. reflexivity. Qed.
