(* ===== verification/Discovery.v ===== *)
(** * Parsing and table discovery (sql/parser.rs, sql/error.rs, sql/discovery.rs)

    [parse_sql] wraps the crate's parser.  The discovery walks a statement and
    records the references to registered tables, each with the scope it is in:
    every common table expression and every subquery opens a scope, and the
    walk keeps the stack of open scopes. *)

From S2P Require Import Prelude SqlAst NaiveDate DateInterval BooleanAnalyzer MacroCall.

(** ** Errors and parsing *)

Inductive SqlTransformError :=
| ParseError (msg : string)
| MultipleStatements
| UnsupportedStatement (msg : string)
| DatasetNotRegistered (msg : string)
| TransformFailed (msg : string)
| InternalError (msg : string).

Definition SqlTransformError_display (e : SqlTransformError) : string :=
  match e with
  | ParseError m => "Failed to parse SQL: " +:+ m
  | MultipleStatements => "Multiple statements not supported; expected single SELECT query"
  | UnsupportedStatement m => "Unsupported SQL statement type: " +:+ m
  | DatasetNotRegistered m => "Dataset not registered: " +:+ m
  | TransformFailed m => "Failed to transform SQL: " +:+ m
  | InternalError m => "Internal error: " +:+ m
  end.

(** The crate: the parser with its error as text, and the printer of
    statements. *)
Class SqlParser := {
  parse_statements : string -> result (list Statement) string;
  display_statement : Statement -> string;
}.

Definition parse_sql `{SqlParser} (sql : string) : result Statement SqlTransformError :=
  match parse_statements sql with
  | Err msg => Err (ParseError msg)
  | Ok [] => Err (ParseError "Empty SQL statement")
  | Ok [stmt] => Ok stmt
  | Ok (_ :: _ :: _) => Err MultipleStatements
  end.

Definition statement_to_sql `{SqlParser} (stmt : Statement) : string := display_statement stmt.

(** ** The walk *)

Record TableDiscovery := mkDiscovery {
  tables : list TableReference;
  scope_stack : list Z;
  next_scope_id : Z;
}.

(** [TableDiscovery::new]; the top of the stack is the head of the list. *)
Definition TableDiscovery_new : TableDiscovery := mkDiscovery [] [0%Z] 1%Z.

Definition current_scope (d : TableDiscovery) : ScopeId := mkScopeId (default 0%Z (head (scope_stack d))).

Definition enter_scope (d : TableDiscovery) : TableDiscovery :=
  mkDiscovery (tables d) (next_scope_id d :: scope_stack d) (next_scope_id d + 1)%Z.

Definition exit_scope (d : TableDiscovery) : TableDiscovery :=
  match scope_stack d with
  | _ :: ((_ :: _) as stack) => mkDiscovery (tables d) stack (next_scope_id d)
  | _ => d
  end.

Definition push_table (d : TableDiscovery) (r : TableReference) : TableDiscovery :=
  mkDiscovery (tables d ++ [r]) (scope_stack d) (next_scope_id d).

Section walk.
Context `{SqlDebug} (registered_datasets : gset string).

(** [enter_scope; f(x)?; exit_scope]. *)
Definition in_scope {A} (f : A -> TableDiscovery -> result TableDiscovery SqlTransformError) (a : A)
    (d : TableDiscovery) : result TableDiscovery SqlTransformError :=
  let? d := f a (enter_scope d) in Ok (exit_scope d).

(** One after the other, stopping at the first error. *)
Definition visit_all {A} (f : A -> TableDiscovery -> result TableDiscovery SqlTransformError) (l : list A)
    (d : TableDiscovery) : result TableDiscovery SqlTransformError := fold_result (fun d a => f a d) l d.

Fixpoint visit_query (q : Query) (d : TableDiscovery) {struct q} : result TableDiscovery SqlTransformError :=
  match q with
  | mkQuery with_ body _ _ _ _ =>
      let? d := match with_ with
                | Some (mkWith _ ctes) =>
                    fold_result (fun d cte => match cte with mkCte _ cq _ => in_scope visit_query cq d end) ctes d
                | None => Ok d
                end in
      visit_set_expr body d
  end
with visit_set_expr (s : SetExpr) (d : TableDiscovery) {struct s} : result TableDiscovery SqlTransformError :=
  match s with
  | SESelect select => visit_select select d
  | SEQuery query => in_scope visit_query query d
  | SESetOperation _ _ l r => let? d := visit_set_expr l d in visit_set_expr r d
  | SEValues _ => Ok d
  | SEInsert _ => Err (UnsupportedStatement "INSERT")
  | SEUpdate _ => Err (UnsupportedStatement "UPDATE")
  | SEOther _ => Ok d
  end
with visit_select (s : Select) (d : TableDiscovery) {struct s} : result TableDiscovery SqlTransformError :=
  match s with
  | mkSelect _ projection from selection _ having _ =>
      let? d := fold_result (fun d t => visit_table_with_joins t d) from d in
      let? d := match selection with Some e => visit_expr_for_subqueries e d | None => Ok d end in
      let? d := fold_result (fun d item => match item with
                  | SelUnnamedExpr e | SelExprWithAlias e _ => visit_expr_for_subqueries e d
                  | _ => Ok d
                  end) projection d in
      match having with Some e => visit_expr_for_subqueries e d | None => Ok d end
  end
with visit_table_with_joins (t : TableWithJoins) (d : TableDiscovery) {struct t}
    : result TableDiscovery SqlTransformError :=
  match t with
  | mkTableWithJoins relation joins =>
      let? d := visit_table_factor relation d in
      fold_result (fun d join => match join with
        | mkJoin relation op =>
            let? d := visit_table_factor relation d in
            on_join (fun e => visit_expr_for_subqueries e d) (Ok d) op
        end) joins d
  end
with visit_table_factor (f : TableFactor) (d : TableDiscovery) {struct f} : result TableDiscovery SqlTransformError :=
  match f with
  | TFTable name alias _ =>
      let table_name := extract_table_name name in
      Ok (if decide (table_name ∈ registered_datasets)
          then push_table d {| tr_dataset_id := table_name;
                               tr_alias := option_map (fun a => value (ta_name a)) alias;
                               tr_scope := current_scope d |}
          else d)
  | TFDerived _ subquery _ => in_scope visit_query subquery d
  | TFNestedJoin table_with_joins _ => visit_table_with_joins table_with_joins d
  | TFFunction _ _ _ _ | TFOther _ => Ok d
  end
with visit_expr_for_subqueries (e : Expr) (d : TableDiscovery) {struct e} : result TableDiscovery SqlTransformError :=
  match e with
  | Subquery query => in_scope visit_query query d
  | InSubquery _ subquery _ => in_scope visit_query subquery d
  | EExists subquery _ => in_scope visit_query subquery d
  | BinaryOp l _ r => let? d := visit_expr_for_subqueries l d in visit_expr_for_subqueries r d
  | UnaryOp _ e => visit_expr_for_subqueries e d
  | Nested inner => visit_expr_for_subqueries inner d
  | Between e _ low high =>
      let? d := visit_expr_for_subqueries e d in
      let? d := visit_expr_for_subqueries low d in
      visit_expr_for_subqueries high d
  | Case operand conditions else_result =>
      let? d := match operand with Some op => visit_expr_for_subqueries op d | None => Ok d end in
      let? d := fold_result (fun d case_when => match case_when with
                  | (condition, res) =>
                      let? d := visit_expr_for_subqueries condition d in
                      visit_expr_for_subqueries res d
                  end) conditions d in
      match else_result with Some el => visit_expr_for_subqueries el d | None => Ok d end
  | Function _ args _ _ =>
      match args with
      | ArgsList args _ =>
          fold_result (fun d arg => match arg with UnnamedExpr e => visit_expr_for_subqueries e d | _ => Ok d end) args d
      | ArgsOther _ => Ok d
      end
  | _ => Ok d
  end.

Definition visit_statement (stmt : Statement) (d : TableDiscovery) : result TableDiscovery SqlTransformError :=
  match stmt with
  | StQuery query => visit_query query d
  | _ => Err (UnsupportedStatement (statement_discriminant stmt))
  end.

Definition discover (stmt : Statement) : result (list TableReference) SqlTransformError :=
  let? d := visit_statement stmt TableDiscovery_new in Ok (tables d).
End walk.

(** ** Reference: the tables a query refers to *)

(** A reference by its name and alias, in the order of the text; [None] when
    an INSERT or UPDATE is found where a query should be. *)
Abbreviation refs := (option (list (string * option string))).

Definition refs_app (a b : refs) : refs := x ← a; y ← b; Some (x ++ y).
#[global] Arguments refs_app : simpl never.
Definition refs_all {A} (f : A -> refs) : list A -> refs :=
  fix go l := match l with [] => Some [] | a :: l => refs_app (f a) (go l) end.

Fixpoint query_refs (q : Query) : refs :=
  match q with
  | mkQuery w body _ _ _ _ =>
      refs_app match w with
               | Some (mkWith _ ctes) => refs_all (fun c => match c with mkCte _ cq _ => query_refs cq end) ctes
               | None => Some []
               end (set_refs body)
  end
with set_refs (s : SetExpr) : refs :=
  match s with
  | SESelect s => select_refs s
  | SEQuery q => query_refs q
  | SESetOperation _ _ l r => refs_app (set_refs l) (set_refs r)
  | SEInsert _ | SEUpdate _ => None
  | SEValues _ | SEOther _ => Some []
  end
with select_refs (s : Select) : refs :=
  match s with
  | mkSelect _ projection from selection _ having _ =>
      refs_app (refs_all twj_refs from)
        (refs_app match selection with Some e => expr_refs e | None => Some [] end
        (refs_app (refs_all (fun i => match i with
                                      | SelUnnamedExpr e | SelExprWithAlias e _ => expr_refs e
                                      | _ => Some []
                                      end) projection)
           match having with Some e => expr_refs e | None => Some [] end))
  end
with twj_refs (t : TableWithJoins) : refs :=
  match t with
  | mkTableWithJoins r joins =>
      refs_app (factor_refs r)
        (refs_all (fun j => match j with
                            | mkJoin r op => refs_app (factor_refs r) (on_join expr_refs (Some []) op)
                            end) joins)
  end
with factor_refs (f : TableFactor) : refs :=
  match f with
  | TFTable name alias _ => Some [(extract_table_name name, option_map (fun a => value (ta_name a)) alias)]
  | TFDerived _ q _ => query_refs q
  | TFNestedJoin t _ => twj_refs t
  | _ => Some []
  end
with expr_refs (e : Expr) : refs :=
  match e with
  | Subquery q | InSubquery _ q _ | EExists q _ => query_refs q
  | BinaryOp l _ r => refs_app (expr_refs l) (expr_refs r)
  | UnaryOp _ e | Nested e => expr_refs e
  | Between e _ low high => refs_app (expr_refs e) (refs_app (expr_refs low) (expr_refs high))
  | Case operand conditions else_result =>
      refs_app match operand with Some e => expr_refs e | None => Some [] end
        (refs_app (refs_all (fun c => match c with (a, b) => refs_app (expr_refs a) (expr_refs b) end) conditions)
           match else_result with Some e => expr_refs e | None => Some [] end)
  | Function _ args _ _ =>
      match args with
      | ArgsList args _ => refs_all (fun a => match a with UnnamedExpr e => expr_refs e | _ => Some [] end) args
      | ArgsOther _ => Some []
      end
  | _ => Some []
  end.

Definition statement_refs (stmt : Statement) : refs :=
  match stmt with StQuery q => query_refs q | _ => None end.

(** ** The walk finds them *)

Section exact.
Context `{SqlDebug} (reg : gset string).

Definition ref_of (r : TableReference) : string * option string := (tr_dataset_id r, tr_alias r).
Definition registered_refs (l : list (string * option string)) : list (string * option string) :=
  List.filter (fun r => bool_decide (r.1 ∈ reg)) l.

(** A part of the walk: the stack of scopes is as before, scopes are only
    added, and the registered tables of [l] are appended, each in the scope
    that was open or in one opened since. *)
Definition walked (l : list (string * option string)) (d d' : TableDiscovery) : Prop :=
  scope_stack d' = scope_stack d /\ (next_scope_id d <= next_scope_id d')%Z /\
  exists new, tables d' = tables d ++ new /\ map ref_of new = registered_refs l /\
    Forall (fun r => tr_scope r = current_scope d \/
      (next_scope_id d <= scope_index (tr_scope r) < next_scope_id d')%Z) new.

Definition walks (rs : refs) (visit : TableDiscovery -> result TableDiscovery SqlTransformError) : Prop :=
  forall d, scope_stack d <> [] ->
  match rs with
  | Some l => exists d', visit d = Ok d' /\ walked l d d'
  | None => exists e, visit d = Err e
  end.

Lemma walked_nil (d : TableDiscovery) : walked [] d d.
Proof. split_and!; [done|lia|]. exists []. by rewrite app_nil_r. Qed.

Lemma walked_app (l l' : list (string * option string)) (d d' d'' : TableDiscovery) :
  walked l d d' -> walked l' d' d'' -> walked (l ++ l') d d''.
Proof.
  intros (Hs & Hn & new & Ht & Hm & Hf) (Hs' & Hn' & new' & Ht' & Hm' & Hf').
  split_and!; [congruence|lia|]. exists (new ++ new'). unfold registered_refs in *.
  rewrite Ht', Ht, app_assoc, map_app, List.filter_app, Hm, Hm'. split_and!; [done..|].
  apply Forall_app. split.
  - eapply Forall_impl; [exact Hf|]. simpl. intros r [?|?]; [by left|right; lia].
  - eapply Forall_impl; [exact Hf'|]. simpl. intros r [->|?]; [left|right; lia].
    unfold current_scope. by rewrite Hs.
Qed.

Lemma walks_nil : walks (Some []) (fun d => Ok d).
Proof. intros d _. exists d. auto using walked_nil. Qed.

Lemma walks_app (a b : refs) f g :
  walks a f -> walks b g -> walks (refs_app a b) (fun d => let? d := f d in g d).
Proof.
  intros Ha Hb d Hd. specialize (Ha d Hd). unfold refs_app. destruct a as [l|]; simpl.
  - destruct Ha as (d' & -> & Hw). simpl. pose proof Hw as (Hs & _).
    specialize (Hb d' ltac:(by rewrite Hs)). destruct b as [l'|]; simpl.
    + destruct Hb as (d'' & -> & Hw'). exists d''. eauto using walked_app.
    + destruct Hb as (e & ->). by exists e.
  - destruct Ha as (e & ->). by exists e.
Qed.

Lemma walks_all {A} (f : A -> refs) g (l : list A) :
  (forall a, a ∈ l -> walks (f a) (fun d => g d a)) -> walks (refs_all f l) (fun d => fold_result g l d).
Proof.
  induction l as [|a l IH]; intros Hl; simpl; [apply walks_nil|].
  apply (walks_app _ _ (fun d => g d a)); [apply Hl; left|]. apply IH. intros b Hb. apply Hl. by right.
Qed.

(** A subquery: its scope is closed again, whatever it opened inside. *)
Lemma walks_in_scope {A} (rs : refs) f (a : A) :
  walks rs (f a) -> walks rs (fun d => in_scope f a d).
Proof.
  intros Hf d Hd. specialize (Hf (enter_scope d) ltac:(done)). unfold in_scope.
  destruct rs as [l|]; [|destruct Hf as (e & ->); by exists e].
  destruct Hf as (d' & -> & Hs & Hn & new & Ht & Hm & Hfa). simpl in *. eexists. split; [done|].
  destruct (scope_stack d) as [|s stack] eqn:Es; [done|]. unfold exit_scope. rewrite Hs.
  split_and!; simpl; [done|lia|]. exists new. split_and!; [done..|].
  eapply Forall_impl; [exact Hfa|]. intros r [->|?]; right; simpl; lia.
Qed.

(** A child of an expression, a query, ... is walked by the induction
    hypothesis for its list of subterms. *)
Lemma walks_option {A} (f : A -> refs) g (o : option A) :
  (forall a, a ∈ option_list o -> walks (f a) (g a)) ->
  walks match o with Some a => f a | None => Some [] end (fun d => match o with Some a => g a d | None => Ok d end).
Proof. destruct o; simpl; intros Hf; [apply Hf; left|apply walks_nil]. Qed.

Lemma walks_join (op : JoinOperator) :
  (forall e, e ∈ join_exprs op -> walks (expr_refs e) (visit_expr_for_subqueries reg e)) ->
  walks (on_join expr_refs (Some []) op) (fun d => on_join (fun e => visit_expr_for_subqueries reg e d) (Ok d) op).
Proof.
  intros Hop. destruct op as [c|c|c|c|c|c|c|c|c|c|c|c|c|c|c| | |m c]; try destruct c; simpl in *;
    try apply walks_nil; apply Hop; set_solver.
Qed.
(** The cases of the induction over the syntax. *)
Abbreviation query_walks := (fun q => walks (query_refs q) (visit_query reg q)).
Abbreviation set_walks := (fun s => walks (set_refs s) (visit_set_expr reg s)).
Abbreviation select_walks := (fun s => walks (select_refs s) (visit_select reg s)).
Abbreviation twj_walks := (fun t => walks (twj_refs t) (visit_table_with_joins reg t)).
Abbreviation factor_walks := (fun f => walks (factor_refs f) (visit_table_factor reg f)).
Abbreviation expr_walks := (fun e => walks (expr_refs e) (visit_expr_for_subqueries reg e)).

Lemma query_walks_case (q : Query) :
  (forall c, c ∈ query_ctes q -> query_walks c) -> set_walks (query_body q) -> query_walks q.
Proof.
  destruct q as [[[r ctes]|] body o l f rest]; simpl; intros Hc Hb;
    [|apply (walks_app _ _ (fun d => Ok d)); [apply walks_nil|done]].
  apply walks_app; [|done]. apply walks_all. intros [a cq rest'] Hin. apply walks_in_scope, Hc.
  unfold query_ctes. simpl. apply list_elem_of_In, in_map_iff. eexists. split; [|by apply list_elem_of_In]. done.
Qed.

Lemma select_walks_case (s : Select) :
  (forall t, t ∈ sel_from s -> twj_walks t) -> (forall e, e ∈ select_exprs s -> expr_walks e) -> select_walks s.
Proof.
  destruct s as [d proj from w g h rest]; unfold select_exprs; simpl; intros Ht He.
  apply walks_app; [by apply walks_all|].
  apply walks_app; [apply walks_option; intros e Hin; apply He; rewrite !elem_of_app; auto|].
  apply walks_app; [|apply walks_option; intros e Hin; apply He; rewrite !elem_of_app; auto].
  apply walks_all. intros i Hi. destruct i; try apply walks_nil; apply He; rewrite elem_of_app; left;
    apply list_elem_of_In, in_flat_map; (eexists; split; [by apply list_elem_of_In|by left]).
Qed.

Lemma twj_walks_case (t : TableWithJoins) :
  (forall f, f ∈ twj_factors t -> factor_walks f) -> (forall e, e ∈ twj_exprs t -> expr_walks e) -> twj_walks t.
Proof.
  destruct t as [r joins]; unfold twj_factors, twj_exprs; simpl; intros Hf He.
  apply walks_app; [apply Hf; left|]. apply walks_all. intros [r' op] Hin.
  apply walks_app.
  - apply Hf. right. apply list_elem_of_In, in_map_iff. eexists. split; [|by apply list_elem_of_In]. done.
  - apply walks_join. intros e Hop. apply He. apply list_elem_of_In, in_flat_map.
    eexists. split; [by apply list_elem_of_In|]. by apply list_elem_of_In.
Qed.

Lemma table_walks (name : ObjectName) (alias : option TableAlias) (rest : string) :
  factor_walks (TFTable name alias rest).
Proof.
  intros d Hd. simpl. eexists. split; [done|].
  case_decide as Hr; split_and!; try done; simpl; try lia.
  - eexists. split; [done|]. rewrite bool_decide_eq_true_2 by done. split; [done|]. constructor; [by left|done].
  - exists []. rewrite app_nil_r, bool_decide_eq_false_2 by done. done.
Qed.

Lemma factor_walks_case (f : TableFactor) :
  (forall q, q ∈ factor_queries f -> query_walks q) -> (forall t, t ∈ factor_twjs f -> twj_walks t) -> factor_walks f.
Proof.
  destruct f as [name alias rest|lat q alias|lat name args alias|t alias|text]; simpl; intros Hq Ht.
  - apply (table_walks name alias rest).
  - apply walks_in_scope, Hq. left.
  - apply walks_nil.
  - apply Ht. left.
  - apply walks_nil.
Qed.

Lemma case_walks (operand : option Expr) (conditions : list (Expr * Expr)) (else_result : option Expr) :
  (forall e, e ∈ expr_children (Case operand conditions else_result) -> expr_walks e) ->
  expr_walks (Case operand conditions else_result).
Proof.
  simpl. intros He.
  apply walks_app; [apply walks_option; intros e Hin; apply He; rewrite !elem_of_app; auto|].
  apply walks_app; [|apply walks_option; intros e Hin; apply He; rewrite !elem_of_app; auto].
  apply walks_all. intros [a b] Hin.
  assert (Hab : forall x, x = a \/ x = b -> expr_walks x).
  { intros x Hx. apply He. rewrite !elem_of_app. right. left. apply list_elem_of_In, in_flat_map.
    exists (a, b). split; [by apply list_elem_of_In|]. simpl. destruct Hx as [->| ->]; auto. }
  apply walks_app; apply Hab; auto.
Qed.

Lemma expr_walks_case (e : Expr) :
  (forall e', e' ∈ expr_children e -> expr_walks e') -> (forall q, q ∈ expr_queries e -> query_walks q) ->
  expr_walks e.
Proof.
  intros He Hq. destruct e; simpl; try apply walks_nil; try (apply He; left); try (apply walks_in_scope, Hq; left).
  - apply walks_app; apply He; set_solver.
  - apply walks_app; [|apply walks_app]; apply He; set_solver.
  - by apply case_walks.
  - simpl. destruct args as [args c|]; [|apply walks_nil]. apply walks_all. intros a Ha.
    destruct a; try apply walks_nil. apply He. simpl. rewrite elem_of_app. left.
    apply list_elem_of_In, in_flat_map. eexists. split; [by apply list_elem_of_In|by left].
Qed.

Lemma query_walked (q : Query) : query_walks q.
Proof.
  revert q. apply (ast_ind expr_walks query_walks set_walks select_walks twj_walks factor_walks).
  - apply expr_walks_case.
  - intros q Hc Hb _. by apply query_walks_case.
  - done.
  - intros q Hq. by apply walks_in_scope.
  - intros op sq l r Hl Hr. by apply walks_app.
  - intros s Hs. destruct s; try done; try apply walks_nil; intros d _; by eexists.
  - apply select_walks_case.
  - apply twj_walks_case.
  - intros f Hq Ht _. by apply factor_walks_case.
Qed.
End exact.

Lemma discovered `{SqlDebug} (reg : gset string) (stmt : Statement) :
  match statement_refs stmt with
  | Some l => exists ts, discover reg stmt = Ok ts /\ map ref_of ts = registered_refs reg l /\
                Forall (fun r => (0 <= scope_index (tr_scope r))%Z) ts
  | None => exists e, discover reg stmt = Err e
  end.
Proof.
  unfold discover, visit_statement, statement_refs. destruct stmt as [q| | | | | |]; try (by eexists).
  pose proof (query_walked reg q TableDiscovery_new ltac:(done)) as Hq.
  destruct (query_refs q) as [l|].
  - destruct Hq as (d & -> & _ & Hn & new & Ht & Hm & Hf). simpl in *. exists new. rewrite Ht.
    split_and!; [done..|]. eapply Forall_impl; [exact Hf|]. simpl. intros r [->|?]; simpl; lia.
  - destruct Hq as (e & ->). by eexists.
Qed.

