(* ===== verification/Transform.v ===== *)
(** * Rewriting a statement (sql/transformer.rs)

    [transform] parses a statement, discovers its registered tables, extracts
    their date ranges from the outermost WHERE clause ([MacroCall]) and
    replaces every reference by the scan macro of its dataset.  The walk that
    replaces follows the walk that discovers, except that it does not enter
    the branches of a CASE. *)

From S2P Require Import Prelude NaiveDate SqlAst DateInterval BooleanAnalyzer MacroCall Discovery.

Record TransformResult := mkTransformResult {
  original_sql : string;
  transformed_sql : string;
  tables_replaced : list string;
  date_ranges : gmap string DateRange;
}.

Section rewriting.
Context `{NaiveDateOps} (replacements : gmap string (RegisteredDataset * DateRange)).

Fixpoint rewrite_query (q : Query) : Query :=
  match q with
  | mkQuery with_ body order_by limit_clause fetch rest =>
      mkQuery
        match with_ with
        | Some (mkWith recursive ctes) =>
            Some (mkWith recursive
              (map (fun cte => match cte with mkCte a cq rest => mkCte a (rewrite_query cq) rest end) ctes))
        | None => None
        end
        (rewrite_set_expr body) order_by limit_clause fetch rest
  end
with rewrite_set_expr (s : SetExpr) : SetExpr :=
  match s with
  | SESelect select => SESelect (rewrite_select select)
  | SEQuery query => SEQuery (rewrite_query query)
  | SESetOperation op sq l r => SESetOperation op sq (rewrite_set_expr l) (rewrite_set_expr r)
  | s => s
  end
with rewrite_select (s : Select) : Select :=
  match s with
  | mkSelect distinct projection from selection group_by having rest =>
      mkSelect distinct
        (map (fun item => match item with
                          | SelUnnamedExpr e => SelUnnamedExpr (rewrite_expr_subqueries e)
                          | SelExprWithAlias e alias => SelExprWithAlias (rewrite_expr_subqueries e) alias
                          | item => item
                          end) projection)
        (map rewrite_table_with_joins from)
        (option_map rewrite_expr_subqueries selection) group_by
        (option_map rewrite_expr_subqueries having) rest
  end
with rewrite_table_with_joins (t : TableWithJoins) : TableWithJoins :=
  match t with
  | mkTableWithJoins relation joins =>
      mkTableWithJoins (rewrite_table_factor relation)
        (map (fun join => match join with
                          | mkJoin relation op =>
                              mkJoin (rewrite_table_factor relation) (map_join_on rewrite_expr_subqueries op)
                          end) joins)
  end
with rewrite_table_factor (f : TableFactor) : TableFactor :=
  match f with
  | TFTable _ _ _ => rewrite_table f replacements
  | TFDerived lateral subquery alias => TFDerived lateral (rewrite_query subquery) alias
  | TFNestedJoin table_with_joins alias => TFNestedJoin (rewrite_table_with_joins table_with_joins) alias
  | f => f
  end
with rewrite_expr_subqueries (e : Expr) : Expr :=
  match e with
  | Subquery query => Subquery (rewrite_query query)
  | InSubquery e subquery negated => InSubquery e (rewrite_query subquery) negated
  | EExists subquery negated => EExists (rewrite_query subquery) negated
  | BinaryOp l op r => BinaryOp (rewrite_expr_subqueries l) op (rewrite_expr_subqueries r)
  | UnaryOp op inner => UnaryOp op (rewrite_expr_subqueries inner)
  | Nested inner => Nested (rewrite_expr_subqueries inner)
  | Between inner negated low high =>
      Between (rewrite_expr_subqueries inner) negated (rewrite_expr_subqueries low) (rewrite_expr_subqueries high)
  | Case operand conditions else_result =>
      Case (option_map rewrite_expr_subqueries operand) conditions (option_map rewrite_expr_subqueries else_result)
  | Function name args over rest =>
      Function name
        match args with
        | ArgsList args clauses =>
            ArgsList (map (fun arg => match arg with
                                      | UnnamedExpr e => UnnamedExpr (rewrite_expr_subqueries e)
                                      | arg => arg
                                      end) args) clauses
        | args => args
        end over rest
  | e => e
  end.

Definition rewrite_statement (stmt : Statement) : result Statement SqlTransformError :=
  match stmt with
  | StQuery query => Ok (StQuery (rewrite_query query))
  | _ => Err (UnsupportedStatement "Only SELECT queries are supported")
  end.
End rewriting.

(** The WHERE clause of the outermost SELECT; none for set operations. *)
Definition extract_where_clause (stmt : Statement) : option Expr :=
  match stmt with
  | StQuery query => match query_body query with SESelect select => sel_selection select | _ => None end
  | _ => None
  end.

Section transform.
Context `{NaiveDateOps} `{SqlDebug} `{SqlParser}.

Definition transform (t : SqlTransformer) (sql : string) : result TransformResult SqlTransformError :=
  let? stmt := parse_sql sql in
  let? ts := discover (registered_dataset_ids t) stmt in
  match ts with
  | [] => Ok (mkTransformResult sql sql [] ∅)
  | _ =>
      let ranges := transform_date_ranges t (extract_where_clause stmt) ts in
      let replacements := transform_replacements t ranges ts in
      let? stmt' := rewrite_statement replacements stmt in
      Ok (mkTransformResult sql (statement_to_sql stmt') (map tr_dataset_id ts) ranges)
  end.
End transform.

(** ** What is left after rewriting *)

(** No table in the branches of a CASE that the walks come to. *)
Definition no_refs (r : refs) : bool := match r with Some [] => true | _ => false end.

Fixpoint branch_free_query (q : Query) : bool :=
  match q with
  | mkQuery w body _ _ _ _ =>
      match w with
      | Some (mkWith _ ctes) => forallb (fun c => match c with mkCte _ cq _ => branch_free_query cq end) ctes
      | None => true
      end && branch_free_set body
  end
with branch_free_set (s : SetExpr) : bool :=
  match s with
  | SESelect s => branch_free_select s
  | SEQuery q => branch_free_query q
  | SESetOperation _ _ l r => branch_free_set l && branch_free_set r
  | _ => true
  end
with branch_free_select (s : Select) : bool :=
  match s with
  | mkSelect _ projection from selection _ having _ =>
      forallb branch_free_twj from
      && match selection with Some e => branch_free_expr e | None => true end
      && forallb (fun i => match i with
                           | SelUnnamedExpr e | SelExprWithAlias e _ => branch_free_expr e
                           | _ => true
                           end) projection
      && match having with Some e => branch_free_expr e | None => true end
  end
with branch_free_twj (t : TableWithJoins) : bool :=
  match t with
  | mkTableWithJoins r joins =>
      branch_free_factor r
      && forallb (fun j => match j with
                           | mkJoin r op => branch_free_factor r && on_join branch_free_expr true op
                           end) joins
  end
with branch_free_factor (f : TableFactor) : bool :=
  match f with
  | TFDerived _ q _ => branch_free_query q
  | TFNestedJoin t _ => branch_free_twj t
  | _ => true
  end
with branch_free_expr (e : Expr) : bool :=
  match e with
  | Subquery q | InSubquery _ q _ | EExists q _ => branch_free_query q
  | BinaryOp l _ r => branch_free_expr l && branch_free_expr r
  | UnaryOp _ e | Nested e => branch_free_expr e
  | Between e _ low high => branch_free_expr e && branch_free_expr low && branch_free_expr high
  | Case operand conditions else_result =>
      match operand with Some e => branch_free_expr e | None => true end
      && forallb (fun c => match c with (a, b) => no_refs (expr_refs a) && no_refs (expr_refs b) end) conditions
      && match else_result with Some e => branch_free_expr e | None => true end
  | Function _ args _ _ =>
      match args with
      | ArgsList args _ => forallb (fun a => match a with UnnamedExpr e => branch_free_expr e | _ => true end) args
      | ArgsOther _ => true
      end
  | _ => true
  end.

Section left.
Context `{NaiveDateOps} (reps : gmap string (RegisteredDataset * DateRange)).

(** The references whose name is not in the replacement map. *)
Definition not_replaced (l : list (string * option string)) : list (string * option string) :=
  List.filter (fun r => bool_decide (r.1 ∉ dom reps)) l.

Definition leaves {X} (refs_of : X -> refs) (rewrite : X -> X) (x : X) : Prop :=
  refs_of (rewrite x) = not_replaced <$> refs_of x.

Lemma not_replaced_app (a b : refs) :
  not_replaced <$> refs_app a b = refs_app (not_replaced <$> a) (not_replaced <$> b).
Proof. destruct a as [a|], b as [b|]; simpl; try done. unfold not_replaced. by rewrite List.filter_app. Qed.

Lemma not_replaced_all {A} (f : A -> refs) (h : A -> A) (l : list A) :
  (forall a, a ∈ l -> f (h a) = not_replaced <$> f a) ->
  refs_all f (map h l) = not_replaced <$> refs_all f l.
Proof.
  induction l as [|a l IH]; intros Hl; simpl; [done|].
  rewrite not_replaced_app, Hl by left. f_equal. apply IH. intros b Hb. apply Hl. by right.
Qed.

Abbreviation leaves_query := (fun q => branch_free_query q = true -> leaves query_refs (rewrite_query reps) q).
Abbreviation leaves_set := (fun s => branch_free_set s = true -> leaves set_refs (rewrite_set_expr reps) s).
Abbreviation leaves_select := (fun s => branch_free_select s = true -> leaves select_refs (rewrite_select reps) s).
Abbreviation leaves_twj := (fun t => branch_free_twj t = true -> leaves twj_refs (rewrite_table_with_joins reps) t).
Abbreviation leaves_factor := (fun f => branch_free_factor f = true -> leaves factor_refs (rewrite_table_factor reps) f).
Abbreviation leaves_expr := (fun e => branch_free_expr e = true -> leaves expr_refs (rewrite_expr_subqueries reps) e).

Lemma leaves_option (o : option Expr) :
  (forall e, e ∈ option_list o -> leaves_expr e) ->
  match o with Some e => branch_free_expr e | None => true end = true ->
  match option_map (rewrite_expr_subqueries reps) o with Some e => expr_refs e | None => Some [] end =
  not_replaced <$> match o with Some e => expr_refs e | None => Some [] end.
Proof. destruct o; simpl; intros He Hb; [|done]. apply He; [left|done]. Qed.

Lemma leaves_query_case (q : Query) :
  (forall c, c ∈ query_ctes q -> leaves_query c) -> leaves_set (query_body q) -> leaves_query q.
Proof.
  destruct q as [w body o l f rest]. unfold leaves, query_ctes. simpl. intros Hc Hb Hf. bool_hyps.
  rewrite not_replaced_app. f_equal; [|by apply Hb]. destruct w as [[r ctes]|]; [|done]. simpl in *.
  rewrite forallb_forall in *. apply not_replaced_all. intros [a cq rest'] Hin. apply Hc.
  - apply list_elem_of_In, in_map_iff. eexists. split; [|by apply list_elem_of_In]. done.
  - apply list_elem_of_In in Hin. by apply (H0 _ Hin).
Qed.

Lemma leaves_select_case (s : Select) :
  (forall t, t ∈ sel_from s -> leaves_twj t) -> (forall e, e ∈ select_exprs s -> leaves_expr e) -> leaves_select s.
Proof.
  destruct s as [d proj from w g h rest]; unfold select_exprs, leaves; simpl; intros Ht He Hf. bool_hyps.
  rewrite !forallb_forall in *. rewrite !not_replaced_app.
  f_equal; [apply not_replaced_all; intros t Hin; apply Ht, H0, list_elem_of_In; done|].
  f_equal; [apply leaves_option; [intros e Hin; apply He; rewrite !elem_of_app; auto|done]|].
  f_equal; [|apply leaves_option; [intros e Hin; apply He; rewrite !elem_of_app; auto|done]].
  apply not_replaced_all. intros i Hi.
  assert (Hie : forall e, e ∈ item_exprs i -> e ∈ flat_map item_exprs proj).
  { intros e Hin. apply list_elem_of_In, in_flat_map. exists i. by rewrite <- !list_elem_of_In. }
  match goal with H : forall x : SelectItem, In x proj -> _ |- _ => specialize (H i) end.
  rewrite <- list_elem_of_In in *.
  destruct i; try done; apply He; auto; rewrite elem_of_app; left; apply Hie; left.
Qed.

Lemma leaves_join (op : JoinOperator) :
  (forall e, e ∈ join_exprs op -> leaves_expr e) -> on_join branch_free_expr true op = true ->
  on_join expr_refs (Some []) (map_join_on (rewrite_expr_subqueries reps) op) =
  not_replaced <$> on_join expr_refs (Some []) op.
Proof.
  intros He Hb. destruct op as [c|c|c|c|c|c|c|c|c|c|c|c|c|c|c| | |m c]; try destruct c; simpl in *; try done;
    apply He; try done; rewrite ?elem_of_cons; auto.
Qed.

Lemma leaves_twj_case (t : TableWithJoins) :
  (forall f, f ∈ twj_factors t -> leaves_factor f) -> (forall e, e ∈ twj_exprs t -> leaves_expr e) -> leaves_twj t.
Proof.
  destruct t as [r joins]; unfold twj_factors, twj_exprs, leaves; simpl; intros Hf He Hb. bool_hyps.
  rewrite forallb_forall in *. rewrite not_replaced_app. f_equal; [apply Hf; [left|done]|].
  apply not_replaced_all. intros [r' op] Hin. apply list_elem_of_In in Hin.
  match goal with H : forall x : Join_, In x joins -> _ |- _ => specialize (H _ Hin); simpl in H end. bool_hyps.
  rewrite not_replaced_app. f_equal.
  - apply Hf; [|done]. right. apply list_elem_of_In, in_map_iff. by exists (mkJoin r' op).
  - apply leaves_join; [|done]. intros e Hop. apply He. apply list_elem_of_In, in_flat_map.
    exists (mkJoin r' op). split; [done|]. by apply list_elem_of_In.
Qed.

Lemma leaves_factor_case (f : TableFactor) :
  (forall q, q ∈ factor_queries f -> leaves_query q) -> (forall t, t ∈ factor_twjs f -> leaves_twj t) ->
  leaves_factor f.
Proof.
  destruct f as [name alias rest|lat q alias|lat name args alias|t alias|text]; unfold leaves; simpl; intros Hq Ht Hf;
    try done; [|apply Hq; [left|done]|apply Ht; [left|done]].
  destruct (reps !! extract_table_name name) as [[ds range]|] eqn:E; simpl.
  - rewrite bool_decide_eq_false_2; [|rewrite elem_of_dom, E; intros Hn; apply Hn; eauto].
    unfold create_macro_call. by destruct (format_date_args range).
  - rewrite bool_decide_eq_true_2; [done|]. by apply not_elem_of_dom.
Qed.

Lemma no_refs_conditions (conditions : list (Expr * Expr)) :
  forallb (fun c => match c with (a, b) => no_refs (expr_refs a) && no_refs (expr_refs b) end) conditions = true ->
  refs_all (fun c => match c with (a, b) => refs_app (expr_refs a) (expr_refs b) end) conditions = Some [].
Proof.
  induction conditions as [|[a b] cs IH]; simpl; [done|]. intros Hc. bool_hyps. rewrite IH by done.
  unfold no_refs in *. by destruct (expr_refs a) as [[|]|], (expr_refs b) as [[|]|].
Qed.

Lemma leaves_expr_case (e : Expr) :
  (forall e', e' ∈ expr_children e -> leaves_expr e') -> (forall q, q ∈ expr_queries e -> leaves_query q) ->
  leaves_expr e.
Proof.
  intros He Hq Hb. unfold leaves. destruct e; try done; simpl in *; bool_hyps;
    try (apply He; [left|done]); try (apply Hq; [left|done]).
  - rewrite not_replaced_app. f_equal; apply He; (done || set_solver).
  - rewrite !not_replaced_app. repeat f_equal; apply He; (done || set_solver).
  - rewrite !not_replaced_app, no_refs_conditions by done. f_equal; [|f_equal];
      apply leaves_option; try done; intros e Hin; apply He; rewrite !elem_of_app; auto.
  - destruct args as [args c|]; [|done]. rewrite forallb_forall in Hb. apply not_replaced_all. intros a Ha.
    destruct a as [e| | |]; try done. apply He.
    + rewrite elem_of_app. left. apply list_elem_of_In, in_flat_map. exists (UnnamedExpr e).
      split; [by apply list_elem_of_In|by left].
    + apply list_elem_of_In in Ha. apply (Hb _ Ha).
Qed.

Lemma rewrite_leaves (q : Query) : leaves_query q.
Proof.
  revert q. refine (proj1 (proj2 (ast_ind leaves_expr leaves_query leaves_set leaves_select leaves_twj
    leaves_factor _ _ _ _ _ _ _ _ _))).
  - apply leaves_expr_case.
  - intros q Hc Hb _. by apply leaves_query_case.
  - done.
  - done.
  - intros op sq l r Hl Hr Hb. unfold leaves in *. simpl in *. bool_hyps. rewrite not_replaced_app.
    by rewrite Hl, Hr.
  - intros s Hs Hb. by destruct s.
  - apply leaves_select_case.
  - apply leaves_twj_case.
  - intros f Hq Ht _. by apply leaves_factor_case.
Qed.
End left.

Section complete.
Context `{NaiveDateLaws} `{SqlDebug} `{SqlParser}.

(** Every discovered table has a date range and so a replacement. *)
Lemma foldl_extract_Some tc e (tables : list TableReference) (m : gmap string Interval) ds :
  is_Some (tc !! ds) -> ds ∈ map tr_dataset_id tables \/ is_Some (m !! ds) ->
  is_Some (foldl (extract_step tc e) m tables !! ds).
Proof.
  intros [c Hc]. revert m; induction tables as [|t ts IH]; intros m Hd; simpl in *.
  { destruct Hd as [Hd%not_elem_of_nil|]; done. }
  apply IH. unfold extract_step. destruct (decide (tr_dataset_id t = ds)) as [->|Hne].
  - right. rewrite Hc. simpl. rewrite lookup_insert_eq. by eexists.
  - destruct Hd as [Hd|Hd]; [left; set_solver|right].
    destruct (tc !! tr_dataset_id t); [|done]. by rewrite lookup_insert_ne.
Qed.

Lemma discovered_replaced (t : SqlTransformer) (w : option Expr) (ts : list TableReference) (r : TableReference) :
  r ∈ ts -> is_Some (registered_datasets t !! tr_dataset_id r) ->
  tr_dataset_id r ∈ dom (transform_replacements t (transform_date_ranges t w ts) ts).
Proof.
  intros Hin [ds Hds]. apply elem_of_dom.
  assert (is_Some (transform_date_ranges t w ts !! tr_dataset_id r)) as [range Hr].
  { destruct w as [e|]; simpl; [|rewrite (wide_scan_lookup ts ∅ r Hin); by eexists].
    rewrite lookup_fmap, fmap_is_Some. apply foldl_extract_Some.
    - rewrite lookup_fmap, Hds. by eexists.
    - left. by apply (list_elem_of_fmap_2 tr_dataset_id). }
  rewrite (replacements_lookup _ _ _ _ ds range Hin Hds Hr). by eexists.
Qed.

Lemma registered_not_replaced (reg : gset string) reps l :
  (forall r, r ∈ registered_refs reg l -> r.1 ∈ dom reps) -> registered_refs reg (not_replaced reps l) = [].
Proof.
  induction l as [|r l IH]; intros Hl; simpl in *; [done|].
  destruct (bool_decide (r.1 ∉ dom reps)) eqn:Ed, (bool_decide (r.1 ∈ reg)) eqn:Er; simpl; rewrite ?Er; auto.
  - bool_hyps. destruct Ed. apply Hl. left.
  - apply IH. intros r' Hr'. apply Hl. by right.
Qed.

End complete.

(** ** Concrete statements *)

#[local] Existing Instance Civil.ops.
#[local] Existing Instance Civil.laws.
#[local] Existing Instance demo_debug.

(** A parser that knows one statement. *)
Definition demo_parser (q : Query) : SqlParser := {|
  parse_statements _ := Ok [StQuery q];
  display_statement stmt := match stmt with StQuery q' => String.concat "," (map fst (default [] (query_refs q'))) | _ => "" end;
|}.

(** SELECT * FROM sales WHERE dt >= '2025-06-01' AND id IN (SELECT id FROM sales) *)
Definition nested_query : Query :=
  query_of None (select_from [SelWildcard] [mkTableWithJoins (table "sales") []]
    (Some (BinaryOp (BinaryOp (column "dt") OpGtEq (date_string "2025-06-01")) OpAnd
       (InSubquery (column "id")
          (query_of None (select_from [SelUnnamedExpr (column "id")] [mkTableWithJoins (table "sales") []] None))
          false)))).


(** The tables of the subqueries directly below the WHERE clause. *)
Definition where_subquery_tables (q : Query) : list TableFactor :=
  match query_body q with
  | SESelect s =>
      match sel_selection s with
      | Some (BinaryOp _ _ (InSubquery _ sub _)) =>
          match query_body sub with SESelect s' => map twj_relation (sel_from s') | _ => [] end
      | _ => []
      end
  | _ => []
  end.

(** Replacements are keyed by dataset, so the table of a subquery gets the
    date range of the outermost WHERE clause, which does not filter it: a row
    dated 2025-01-01, which the subquery selects, is dropped by its macro.
    The documentation says that keeping the original predicates preserves the
    result. *)
Theorem subquery_pruned_by_outer_where :
  let ts := [Build_TableReference "sales" None (mkScopeId 0); Build_TableReference "sales" None (mkScopeId 1)] in
  let reps := transform_replacements sample_transformer
    (transform_date_ranges sample_transformer (extract_where_clause (StQuery nested_query)) ts) ts in
  discover (registered_dataset_ids sample_transformer) (StQuery nested_query) = Ok ts /\
  exists args,
    where_subquery_tables (rewrite_query reps nested_query) =
      [TFFunction false (name_of "scan_sales") [UnnamedExpr (fst args); UnnamedExpr (snd args)] None] /\
    ~ macro_keeps (civil_env "2025-01-01") (civil "2025-01-01") args.
Proof.
  split; [vm_compute; reflexivity|].
  exists (create_date_literal "2025-06-01", create_date_literal WIDE_SCAN_END).
  split; [vm_compute; reflexivity|]. intros (b & c & x & y & Hb & Hc & Hx & Hy & Hle & _).
  vm_compute in Hb. injection Hb as <-. vm_compute in Hx. injection Hx as <-. by vm_compute in Hle.
Qed.

(** SELECT CASE WHEN EXISTS (SELECT * FROM sales) THEN x END FROM other *)
Definition case_query : Query :=
  query_of None (select_from
    [SelUnnamedExpr (Case None [(EExists (select_all_from (table "sales")) false, column "x")] None)]
    [mkTableWithJoins (table "other") []] None).

(** A table in the branch of a CASE is discovered and reported as replaced,
    but stays in the statement. *)
Theorem case_branch_not_replaced :
  exists res, @transform _ _ (demo_parser case_query) sample_transformer "sql" = Ok res /\ tables_replaced res = ["sales"] /\
    transformed_sql res = "other,sales".
Proof. eexists. split; [vm_compute; reflexivity|]. split; vm_compute; reflexivity. Qed.
