(* ===== verification/Admission.v ===== *)
(** * Admission control (sql/admission.rs)

    Before a query runs, recursive common table expressions are rejected and
    every registered table in FROM needs a predicate that mentions its time
    column.  The datasets are checked in the order of a hash map, which is an
    argument ([iter_order]). *)

From S2P Require Import Prelude NaiveDate SqlAst DateInterval BooleanAnalyzer MacroCall LogicalPlan PlanBuilder PlanMeaning Discovery Transform.

Inductive AdmissionError :=
| RecursiveCte (cte_name : string)
| MissingTimeRange (table_name time_column : string)
| AdmissionParseError (msg : string)
| AdmissionUnsupported (msg : string).

#[export] Instance AdmissionError_eq_dec : EqDecision AdmissionError.
Proof. solve_decision. Defined.

Definition AdmissionError_display (e : AdmissionError) : string :=
  match e with
  | RecursiveCte cte_name =>
      "Recursive CTEs are not supported in distributed execution: WITH RECURSIVE " +:+ cte_name
  | MissingTimeRange table_name time_column =>
      "Query on distributed table '" +:+ table_name +:+ "' requires a time-range predicate on column '"
      +:+ time_column +:+ "'. Add a WHERE clause like: " +:+ time_column +:+ " BETWEEN '...' AND '...'"
  | AdmissionParseError msg => "Failed to parse SQL: " +:+ msg
  | AdmissionUnsupported msg => "Unsupported statement: " +:+ msg
  end.

(** [From<SqlTransformError> for AdmissionError]. *)
Definition AdmissionError_from (e : SqlTransformError) : AdmissionError :=
  match e with
  | ParseError msg => AdmissionParseError msg
  | UnsupportedStatement msg => AdmissionUnsupported msg
  | other => AdmissionParseError (SqlTransformError_display other)
  end.

(** ** The controller *)

Record AdmissionController := { ac_datasets : gmap string RegisteredDataset }.

Definition AdmissionController_new : AdmissionController := {| ac_datasets := ∅ |}.

Definition ac_register_dataset (c : AdmissionController) (d : RegisteredDataset) : AdmissionController :=
  {| ac_datasets := <[rd_dataset_id d := d]> (ac_datasets c) |}.

Definition ac_unregister_dataset (c : AdmissionController) (dataset_id : string) : AdmissionController :=
  {| ac_datasets := delete dataset_id (ac_datasets c) |}.

Definition ac_registered_dataset_ids (c : AdmissionController) : gset string := dom (ac_datasets c).

(** ** Recursive common table expressions *)

Abbreviation verdict := (result unit AdmissionError).

Definition first_cte_name (ctes : list Cte) : string :=
  match ctes with cte :: _ => value (ta_name (cte_alias cte)) | [] => "unknown" end.

Fixpoint check_query_for_recursive_cte (q : Query) : verdict :=
  match q with
  | mkQuery with_ body _ _ _ _ =>
      let? _ := match with_ with
                | Some (mkWith recursive ctes) =>
                    if recursive then Err (RecursiveCte (first_cte_name ctes))
                    else for_each (fun cte => match cte with
                                              | mkCte _ cq _ => check_query_for_recursive_cte cq
                                              end) ctes
                | None => Ok tt
                end in
      check_set_expr_for_recursive_cte body
  end
with check_set_expr_for_recursive_cte (s : SetExpr) : verdict :=
  match s with
  | SESelect select => check_select_for_recursive_cte select
  | SEQuery query => check_query_for_recursive_cte query
  | SESetOperation _ _ l r =>
      let? _ := check_set_expr_for_recursive_cte l in check_set_expr_for_recursive_cte r
  | _ => Ok tt
  end
with check_select_for_recursive_cte (s : Select) : verdict :=
  match s with
  | mkSelect _ _ from selection _ _ _ =>
      let? _ := for_each check_table_with_joins_for_recursive_cte from in
      match selection with Some e => check_expr_for_recursive_cte e | None => Ok tt end
  end
with check_table_with_joins_for_recursive_cte (t : TableWithJoins) : verdict :=
  match t with
  | mkTableWithJoins relation joins =>
      let? _ := check_table_factor_for_recursive_cte relation in
      for_each (fun join => match join with
                            | mkJoin relation _ => check_table_factor_for_recursive_cte relation
                            end) joins
  end
with check_table_factor_for_recursive_cte (f : TableFactor) : verdict :=
  match f with
  | TFDerived _ subquery _ => check_query_for_recursive_cte subquery
  | TFNestedJoin table_with_joins _ => check_table_with_joins_for_recursive_cte table_with_joins
  | _ => Ok tt
  end
with check_expr_for_recursive_cte (e : Expr) : verdict :=
  match e with
  | Subquery query => check_query_for_recursive_cte query
  | InSubquery _ subquery _ => check_query_for_recursive_cte subquery
  | EExists subquery _ => check_query_for_recursive_cte subquery
  | BinaryOp l _ r => let? _ := check_expr_for_recursive_cte l in check_expr_for_recursive_cte r
  | UnaryOp _ inner => check_expr_for_recursive_cte inner
  | Nested inner => check_expr_for_recursive_cte inner
  | _ => Ok tt
  end.

Definition check_recursive_cte (stmt : Statement) : verdict :=
  match stmt with StQuery query => check_query_for_recursive_cte query | _ => Ok tt end.

(** ** Tables and predicates of a query *)

(** [QualifiedTableRef]: the name and the alias.  Collection appends to a
    vector; the functions return what is appended. *)
Definition extract_table_name_opt (name : ObjectName) : option string :=
  match last name with Some (NameIdentifier ident) => Some (value ident) | _ => None end.

Fixpoint collect_qualified_table_refs (q : Query) : list (string * option string) :=
  match q with
  | mkQuery with_ body _ _ _ _ =>
      match with_ with
      | Some (mkWith _ ctes) =>
          flat_map (fun cte => match cte with mkCte _ cq _ => collect_qualified_table_refs cq end) ctes
      | None => []
      end ++ collect_qualified_refs_from_set_expr body
  end
with collect_qualified_refs_from_set_expr (s : SetExpr) : list (string * option string) :=
  match s with
  | SESelect select => collect_qualified_refs_from_select select
  | SEQuery query => collect_qualified_table_refs query
  | SESetOperation _ _ l r => collect_qualified_refs_from_set_expr l ++ collect_qualified_refs_from_set_expr r
  | _ => []
  end
with collect_qualified_refs_from_select (s : Select) : list (string * option string) :=
  match s with mkSelect _ _ from _ _ _ _ => flat_map collect_qualified_refs_from_table_with_joins from end
with collect_qualified_refs_from_table_with_joins (t : TableWithJoins) : list (string * option string) :=
  match t with
  | mkTableWithJoins relation joins =>
      collect_qualified_refs_from_table_factor relation
      ++ flat_map (fun join => match join with
                               | mkJoin relation _ => collect_qualified_refs_from_table_factor relation
                               end) joins
  end
with collect_qualified_refs_from_table_factor (f : TableFactor) : list (string * option string) :=
  match f with
  | TFTable name alias _ =>
      match extract_table_name_opt name with
      | Some table_name => [(table_name, option_map (fun a => value (ta_name a)) alias)]
      | None => []
      end
  | TFDerived _ subquery _ => collect_qualified_table_refs subquery
  | TFNestedJoin table_with_joins _ => collect_qualified_refs_from_table_with_joins table_with_joins
  | _ => []
  end.

Fixpoint collect_predicates (q : Query) : list Expr :=
  match q with
  | mkQuery with_ body _ _ _ _ =>
      match with_ with
      | Some (mkWith _ ctes) => flat_map (fun cte => match cte with mkCte _ cq _ => collect_predicates cq end) ctes
      | None => []
      end ++ collect_predicates_from_set_expr body
  end
with collect_predicates_from_set_expr (s : SetExpr) : list Expr :=
  match s with
  | SESelect select => collect_predicates_from_select select
  | SEQuery query => collect_predicates query
  | SESetOperation _ _ l r => collect_predicates_from_set_expr l ++ collect_predicates_from_set_expr r
  | _ => []
  end
with collect_predicates_from_select (s : Select) : list Expr :=
  match s with
  | mkSelect _ _ from selection _ _ _ =>
      option_list selection ++ flat_map collect_predicates_from_table_with_joins from
  end
with collect_predicates_from_table_with_joins (t : TableWithJoins) : list Expr :=
  match t with
  | mkTableWithJoins relation joins =>
      collect_predicates_from_table_factor relation
      ++ flat_map (fun join => match join with
                               | mkJoin relation op =>
                                   collect_predicates_from_table_factor relation
                                   ++ on_join (fun e => [e]) [] op
                               end) joins
  end
with collect_predicates_from_table_factor (f : TableFactor) : list Expr :=
  match f with
  | TFDerived _ subquery _ => collect_predicates subquery
  | TFNestedJoin table_with_joins _ => collect_predicates_from_table_with_joins table_with_joins
  | _ => []
  end.

Fixpoint expr_references_column (e : Expr) (column_name : string) (valid_qualifiers : gset string) : bool :=
  match e with
  | Identifier ident => eq_ignore_ascii_case (value ident) column_name
  | CompoundIdentifier parts =>
      match reverse parts with
      | [] => false
      | c :: rest =>
          eq_ignore_ascii_case (value c) column_name
          && match rest with
             | [] => true
             | qualifier :: _ =>
                 existsb (fun q => eq_ignore_ascii_case q (value qualifier)) (elements valid_qualifiers)
             end
      end
  | BinaryOp l _ r =>
      expr_references_column l column_name valid_qualifiers
      || expr_references_column r column_name valid_qualifiers
  | Between inner _ _ _ => expr_references_column inner column_name valid_qualifiers
  | InList inner _ _ => expr_references_column inner column_name valid_qualifiers
  | Nested inner => expr_references_column inner column_name valid_qualifiers
  | _ => false
  end.

Definition has_time_predicate (predicates : list Expr) (time_column : string) (valid_qualifiers : gset string) : bool :=
  existsb (fun pred => expr_references_column pred time_column valid_qualifiers) predicates.

(** ** Time ranges *)

(** The qualifiers of the registered tables: name and alias of each use. *)
Definition add_qualifiers (c : AdmissionController) (m : gmap string (gset string)) (tr : string * option string)
    : gmap string (gset string) :=
  match ac_datasets c !! tr.1 with
  | Some _ =>
      let qualifiers := default ∅ (m !! tr.1) in
      <[tr.1 := qualifiers ∪ {[ tr.1 ]} ∪ match tr.2 with Some alias => {[ alias ]} | None => ∅ end]> m
  | None => m
  end.

Definition dataset_qualifiers (c : AdmissionController) (q : Query) : gmap string (gset string) :=
  foldl (add_qualifiers c) ∅ (collect_qualified_table_refs q).

Section check.
Context `{SqlParser} (iter_order : gmap string (gset string) -> list (string * gset string)).

(** One iteration of the loop over the datasets; the registry is indexed by a
    key it has. *)
Definition check_dataset (c : AdmissionController) (predicates : list Expr) (dq : string * gset string) : verdict :=
  match ac_datasets c !! dq.1 with
  | Some dataset =>
      if has_time_predicate predicates (rd_time_column_name dataset) dq.2 then Ok tt
      else Err (MissingTimeRange (rd_dataset_id dataset) (rd_time_column_name dataset))
  | None => Ok tt
  end.

Definition check_query_time_ranges (c : AdmissionController) (q : Query) : verdict :=
  let qualifiers := dataset_qualifiers c q in
  if decide (qualifiers = ∅) then Ok tt
  else for_each (check_dataset c (collect_predicates q)) (iter_order qualifiers).

Definition check_time_range_predicates (c : AdmissionController) (stmt : Statement) : verdict :=
  match stmt with
  | StQuery query => check_query_time_ranges c query
  | _ => Err (AdmissionUnsupported "Only SELECT queries are supported")
  end.

Definition check_ (c : AdmissionController) (sql : string) : verdict :=
  match parse_sql sql with
  | Err e => Err (AdmissionError_from e)
  | Ok stmt => let? _ := check_recursive_cte stmt in check_time_range_predicates c stmt
  end.

(** ** The transformer's entry points *)

Inductive TransformError :=
| TAdmission (e : AdmissionError)
| TTransform (e : SqlTransformError).

(** [create_admission_controller]: the registry inserted under the datasets'
    own ids, in the order [values] gives them. *)
Definition create_admission_controller (values : list RegisteredDataset) : AdmissionController :=
  foldl ac_register_dataset AdmissionController_new values.

Definition admit_sql (t : SqlTransformer) (sql : string) : verdict :=
  check_ (create_admission_controller (map snd (map_to_list (registered_datasets t)))) sql.

Definition admit_and_transform `{NaiveDateOps} `{SqlDebug} (t : SqlTransformer) (sql : string)
    : result TransformResult TransformError :=
  match admit_sql t sql with
  | Err e => Err (TAdmission e)
  | Ok _ => match transform t sql with Ok r => Ok r | Err e => Err (TTransform e) end
  end.
End check.

(** ** What is accepted *)

(** The table name and the aliases under which a table is used. *)
Definition use_qualifiers (t : string) (refs : list (string * option string)) : gset string :=
  list_to_set (flat_map (fun r => if decide (r.1 = t) then t :: option_list r.2 else []) refs).

Lemma qualifiers_lookup (c : AdmissionController) (refs : list (string * option string)) m t :
  is_Some (ac_datasets c !! t) ->
  foldl (add_qualifiers c) m refs !! t =
  if decide (t ∈ map fst refs) then Some (default ∅ (m !! t) ∪ use_qualifiers t refs) else m !! t.
Proof.
  intros [ds Hds]. revert m. induction refs as [|[x a] refs IH]; intros m; simpl.
  { done. }
  rewrite IH. clear IH. unfold add_qualifiers, use_qualifiers in *. simpl.
  destruct (decide (x = t)) as [->|Hne].
  - rewrite Hds, lookup_insert_eq. rewrite (decide_True (P := t ∈ t :: _)) by left. simpl.
    destruct (decide (t ∈ map fst refs)) as [Hin|Hni]; f_equal.
    + rewrite list_to_set_app_L. destruct a; simpl; set_solver.
    + assert (He : flat_map (fun r : string * option string => if decide (r.1 = t) then t :: option_list r.2 else []) refs = []).
      { clear -Hni. induction refs as [|r refs IH]; simpl in *; [done|].
        apply not_elem_of_cons in Hni as [Hr Hni]. rewrite decide_False by congruence. by apply IH. }
      rewrite He, app_nil_r. destruct a; simpl; set_solver.
  - assert (Hm : (match ac_datasets c !! x with
                  | Some _ => <[x:=default ∅ (m !! x) ∪ {[x]} ∪ match a with Some alias => {[alias]} | None => ∅ end]> m
                  | None => m end) !! t = m !! t).
    { destruct (ac_datasets c !! x); [|done]. by rewrite lookup_insert_ne. }
    rewrite Hm. simpl. destruct (decide (t ∈ map fst refs)) as [Hin|Hni].
    + rewrite decide_True by (by right). done.
    + rewrite decide_False; [done|]. rewrite elem_of_cons. intros [?|?]; congruence.
Qed.

Lemma qualifiers_registered (c : AdmissionController) (refs : list (string * option string)) t s :
  foldl (add_qualifiers c) ∅ refs !! t = Some s -> is_Some (ac_datasets c !! t).
Proof.
  cut (forall m : gmap string (gset string), (forall x, is_Some (m !! x) -> is_Some (ac_datasets c !! x)) ->
    forall x, is_Some (foldl (add_qualifiers c) m refs !! x) -> is_Some (ac_datasets c !! x)).
  { intros Hc Ht. apply (Hc ∅); [by intros x [? ?]|by rewrite Ht]. }
  induction refs as [|[x a] refs IH]; intros m Hm; simpl; [done|]. apply IH. intros y Hy.
  unfold add_qualifiers in Hy. simpl in Hy. destruct (ac_datasets c !! x) eqn:E; [|by apply Hm].
  destruct (decide (y = x)) as [->|Hne]; [by rewrite E|]. rewrite lookup_insert_ne in Hy by done. by apply Hm.
Qed.

(** The table [t] is used in FROM and has a predicate of its own: one that
    mentions the time column, unqualified or under the table's name or an
    alias. *)
Definition has_own_predicate (q : Query) (t : string) (ds : RegisteredDataset) : Prop :=
  exists e, e ∈ collect_predicates q /\
    expr_references_column e (rd_time_column_name ds) (use_qualifiers t (collect_qualified_table_refs q)) = true.

Lemma check_dataset_spec (c : AdmissionController) (q : Query) (t : string) (ds : RegisteredDataset) :
  ac_datasets c !! t = Some ds ->
  check_dataset c (collect_predicates q) (t, use_qualifiers t (collect_qualified_table_refs q)) =
    Err (MissingTimeRange (rd_dataset_id ds) (rd_time_column_name ds)) /\ ~ has_own_predicate q t ds \/
  check_dataset c (collect_predicates q) (t, use_qualifiers t (collect_qualified_table_refs q)) = Ok tt /\
    has_own_predicate q t ds.
Proof.
  intros Hds. unfold check_dataset, has_time_predicate, has_own_predicate. simpl. rewrite Hds.
  destruct (existsb _ _) eqn:E; [right|left]; (split; [done|]).
  - apply existsb_exists in E as (e & He & Hr). exists e. by rewrite list_elem_of_In.
  - intros (e & He & Hr). apply not_true_iff_false in E. apply E, existsb_exists.
    exists e. by rewrite <- list_elem_of_In.
Qed.

Lemma qualifiers_elem (c : AdmissionController) (q : Query) (t : string) (s : gset string) :
  dataset_qualifiers c q !! t = Some s <->
  s = use_qualifiers t (collect_qualified_table_refs q) /\ is_Some (ac_datasets c !! t) /\
  t ∈ map fst (collect_qualified_table_refs q).
Proof.
  unfold dataset_qualifiers. split.
  - intros Ht. pose proof (qualifiers_registered _ _ _ _ Ht) as Hr.
    rewrite (qualifiers_lookup _ _ _ _ Hr), lookup_empty in Ht. case_decide; [|done].
    injection Ht as <-. split_and!; [simpl; set_solver|done..].
  - intros (-> & Hr & Hin). rewrite (qualifiers_lookup _ _ _ _ Hr), decide_True by done.
    f_equal. rewrite lookup_empty. simpl. set_solver.
Qed.

Section spec.
Context `{SqlParser} (iter_order : gmap string (gset string) -> list (string * gset string)).
Hypothesis iter_order_perm : forall m, iter_order m ≡ₚ map_to_list m.

End spec.

(** ** The entry point of queries *)

(** admission and transformation compose.  When the query is admitted it
    is a single SELECT, and the transformation then only fails on an INSERT or
    UPDATE inside it; a query that is not admitted is not transformed. *)
Theorem admit_and_transform_outcome `{SqlParser} `{NaiveDateOps} `{SqlDebug} iter_order
    (t : SqlTransformer) (sql : string) :
  match admit_sql iter_order t sql with
  | Err e => admit_and_transform iter_order t sql = Err (TAdmission e)
  | Ok _ => exists q, parse_sql sql = Ok (StQuery q) /\ check_query_for_recursive_cte q = Ok tt /\
      match query_refs q with
      | Some _ => exists r, admit_and_transform iter_order t sql = Ok r
      | None => exists e, admit_and_transform iter_order t sql = Err (TTransform e)
      end
  end.
Proof.
  unfold admit_and_transform. destruct (admit_sql iter_order t sql) as [u|e] eqn:Ea; [|done].
  unfold admit_sql, check_ in Ea. destruct (parse_sql sql) as [stmt|e] eqn:Ep; [|done].
  destruct (check_recursive_cte stmt) as [[]|e] eqn:Ec; [|done]. simpl in Ea.
  destruct stmt as [q| | | | | |]; try done. exists q. split_and!; [done..|].
  unfold transform. rewrite Ep. simpl.
  pose proof (discovered (registered_dataset_ids t) (StQuery q)) as Hd. simpl statement_refs in Hd.
  destruct (query_refs q) as [l|].
  - destruct Hd as (ts & -> & _). simpl. destruct ts; eauto.
  - destruct Hd as (e & ->). simpl. eauto.
Qed.

(** ** Concrete queries *)

#[local] Existing Instance Civil.ops.
#[local] Existing Instance Civil.laws.
#[local] Existing Instance demo_debug.
#[local] Existing Instance demo_display.

Definition sales_controller : AdmissionController :=
  ac_register_dataset AdmissionController_new (RegisteredDataset_new "sales" "dt").

Definition list_order (m : gmap string (gset string)) : list (string * gset string) := map_to_list m.

(** The documented example. *)
Definition sales_query (w : option Expr) : Query :=
  query_of None (select_from [SelWildcard] [mkTableWithJoins (table "sales") []] w).


(** A predicate that only mentions the column is enough: SELECT * FROM sales
    WHERE dt = dt is admitted, although it bounds nothing. *)
Theorem unbounded_query_admitted :
  check_query_time_ranges list_order sales_controller
    (sales_query (Some (BinaryOp (column "dt") OpEq (column "dt")))) = Ok tt /\
  analyze_for_table (BinaryOp (column "dt") OpEq (column "dt")) "sales" "dt" = universe.
Proof. split; vm_compute; reflexivity. Qed.

(** A registered table in a subquery of the WHERE clause is not looked at,
    although it is discovered and scanned over its whole range: SELECT * FROM
    other WHERE id IN (SELECT id FROM sales). *)
Definition hidden_table_query : Query :=
  query_of None (select_from [SelWildcard] [mkTableWithJoins (table "other") []]
    (Some (InSubquery (column "id") (sales_query None) false))).

Theorem subquery_table_admitted :
  check_query_time_ranges list_order sales_controller hidden_table_query = Ok tt /\
  discover {[ "sales" ]} (StQuery hidden_table_query) = Ok [Build_TableReference "sales" None (mkScopeId 1)].
Proof. split; vm_compute; reflexivity. Qed.

(** The reported table depends on the order of a hash map, although admission
    is documented to be deterministic. *)
Theorem reported_table_depends_on_order :
  exists c q o o', (forall m, o m ≡ₚ map_to_list m) /\ (forall m, o' m ≡ₚ map_to_list m) /\
    check_query_time_ranges o c q <> check_query_time_ranges o' c q.
Proof.
  exists (ac_register_dataset sales_controller (RegisteredDataset_new "items" "day")).
  exists (query_of None (select_from [SelWildcard]
    [mkTableWithJoins (table "sales") []; mkTableWithJoins (table "items") []] None)).
  exists list_order, (fun m => reverse (map_to_list m)).
  split_and!; [done|intros m; apply reverse_Permutation|]. vm_compute. discriminate.
Qed.

(** Only WITH RECURSIVE is rejected: a definition that shadows the table it
    reads is admitted, and the plan builder does not return on it. *)
Theorem shadowing_query_admitted (fuel : nat) :
  check_query_for_recursive_cte shadowing_query = Ok tt /\
  build_logical_plan ascii_lowercase fuel (StQuery shadowing_query) = OutOfFuel.
Proof. split; [reflexivity|]. apply shadowing_diverges. Qed.
