(* ===== verification/LdpTypes.v ===== *)
(** * The distributed plan (ldp/types.rs)

    Identifiers, distributions and their requirements, exchanges, stages and
    the plan, with the navigation functions of [LdpPlan].  A newtype around a
    string or an integer is that string or integer. *)

From S2P Require Import Prelude Float64 LogicalPlan.

#[local] Open Scope Z_scope.

Abbreviation QueryId := string.
Abbreviation WorkerId := string.
Abbreviation EpochId := string.
Abbreviation StageId := Z.
Abbreviation ExchangeId := Z.

(** [StageId::alloc_next] and [ExchangeId::alloc_next]: the current value and
    the incremented counter, a [u32]. *)
Definition alloc_next (c : Z) : Z * Z := (c, wrap32 (c + 1)).

(** ** Statistics *)

Inductive StatsSource := Exact | Estimated | Unknown.

#[export] Instance StatsSource_eq_dec : EqDecision StatsSource.
Proof. solve_decision. Defined.

Definition is_exact (s : StatsSource) : bool := match s with Exact => true | _ => false end.
Definition is_uncertain (s : StatsSource) : bool := negb (is_exact s).

(** ** Distributions *)

Inductive Distribution :=
| Singleton (worker : WorkerId)
| HashPartitioned (column_refs : list ColumnRef) (workers : list WorkerId)
| EpochPartitioned (workers : list WorkerId)
| Replicated (workers : list WorkerId).

#[export] Instance Distribution_eq_dec : EqDecision Distribution.
Proof. solve_decision. Defined.

Definition workers (d : Distribution) : list WorkerId :=
  match d with
  | Singleton w => [w]
  | HashPartitioned _ ws => ws
  | EpochPartitioned ws => ws
  | Replicated ws => ws
  end.

Definition is_singleton (d : Distribution) : bool :=
  match d with Singleton _ => true | _ => false end.

Record DistributionAnnotation := mkAnnotation {
  distribution : Distribution;
  est_rows : Z;
  est_bytes : Z;
  stats_source : StatsSource;
}.

Definition annotation_new (d : Distribution) (rows bytes : Z) : DistributionAnnotation :=
  mkAnnotation d rows bytes Exact.

Definition annotation_with_source (d : Distribution) (rows bytes : Z) (s : StatsSource)
    : DistributionAnnotation := mkAnnotation d rows bytes s.

Definition annotation_unknown (d : Distribution) : DistributionAnnotation := mkAnnotation d 0 0 Unknown.

Definition with_safety_factor (a : DistributionAnnotation) (factor : f64) : Z * Z :=
  if is_uncertain (stats_source a)
  then (f64_scale (est_rows a) factor, f64_scale (est_bytes a) factor)
  else (est_rows a, est_bytes a).

Inductive RequiredDistribution :=
| AnyDistribution
| RequireSingleton
| RequireHashPartitioned (column_refs : list ColumnRef).

Definition is_satisfied_by (required : RequiredDistribution) (actual : Distribution) : bool :=
  match required with
  | AnyDistribution => true
  | RequireSingleton => is_singleton actual
  | RequireHashPartitioned column_refs =>
      match actual with
      | HashPartitioned actual_refs _ => all_match column_refs actual_refs
      | Replicated _ => true
      | _ => false
      end
  end.

(** ** Exchanges *)

Inductive Exchange :=
| Gather (target : WorkerId)
| Broadcast (targets : list WorkerId)
| HashPartition (column_refs : list ColumnRef) (partitions : Z).

#[export] Instance Exchange_eq_dec : EqDecision Exchange.
Proof. solve_decision. Defined.

(** ** Stages *)

Inductive StageInput :=
| LocalCatalog
| ExchangeInput (exchange_id : ExchangeId) (table_name : string).

Inductive StageOutput :=
| Stream
| Partitioned (partitions : Z) (column_refs : list ColumnRef).

Record StageLimits := mkStageLimits {
  max_bytes_output : Z;
  max_rows_output : Z;
  timeout_ms : Z;
  memory_bytes : Z;
}.

Definition StageLimits_default : StageLimits :=
  {| max_bytes_output := 5 * 1024 * 1024 * 1024;
     max_rows_output := 100000000;
     timeout_ms := 300000;
     memory_bytes := 2 * 1024 * 1024 * 1024 |}.

Record Stage := mkStage {
  stage_id : StageId;
  target_workers : list WorkerId;
  inputs : list StageInput;
  output : StageOutput;
  stage_sql : string;
  limits : StageLimits;
}.

Definition Stage_new (id : StageId) (sql : string) : Stage :=
  {| stage_id := id; target_workers := []; inputs := []; output := Stream; stage_sql := sql;
     limits := StageLimits_default |}.

Definition is_exchange_input (i : StageInput) : bool :=
  match i with ExchangeInput _ _ => true | LocalCatalog => false end.

Definition has_exchange_inputs (s : Stage) : bool := existsb is_exchange_input (inputs s).

Record ExchangeEdge := mkEdge {
  exchange_id : ExchangeId;
  kind : Exchange;
  from_stage : StageId;
  to_stage : StageId;
  partition_to_worker : list WorkerId;
}.

Record LdpPlan := mkPlan {
  query_id : QueryId;
  coordinator : WorkerId;
  stages : list Stage;
  edges : list ExchangeEdge;
  root_stage : StageId;
}.

Definition LdpPlan_new (q : QueryId) (c : WorkerId) : LdpPlan := mkPlan q c [] [] 0.

Definition with_root (q : QueryId) (c : WorkerId) (root : StageId) : LdpPlan := mkPlan q c [] [] root.

Definition final_stage (p : LdpPlan) : option Stage := last (stages p).

Definition get_stage (p : LdpPlan) (id : StageId) : option Stage :=
  List.find (fun s => stage_id s =? id) (stages p).

Definition downstream_stages (p : LdpPlan) (id : StageId) : list StageId :=
  map to_stage (List.filter (fun e => from_stage e =? id) (edges p)).

Definition upstream_stages (p : LdpPlan) (id : StageId) : list StageId :=
  map from_stage (List.filter (fun e => to_stage e =? id) (edges p)).

(** ** Topological order

    The loop of [topological_order] as a machine: the queue, the visited set,
    the remaining in-degrees and the result so far. *)
Record TopoState := mkTopo {
  queue : list StageId;
  visited : gset StageId;
  in_degree : gmap StageId Z;
  result_ids : list StageId;
}.

Definition topo_init (p : LdpPlan) : TopoState :=
  let deg := foldl (fun m s => <[stage_id s := Z.of_nat (length (upstream_stages p (stage_id s)))]> m)
               (∅ : gmap StageId Z) (stages p) in
  {| queue := map stage_id (List.filter (fun s => bool_decide (deg !! stage_id s = Some 0)) (stages p));
     visited := ∅; in_degree := deg; result_ids := [] |}.

(** One iteration of the inner [for]: decrement, and enqueue at zero. *)
Definition topo_relax (st : TopoState) (downstream : StageId) : TopoState :=
  match in_degree st !! downstream with
  | None => st
  | Some deg =>
      let deg' := Z.max 0 (deg - 1) in
      {| queue := if (deg' =? 0) && bool_decide (downstream ∉ visited st)
                  then queue st ++ [downstream] else queue st;
         visited := visited st;
         in_degree := <[downstream := deg']> (in_degree st);
         result_ids := result_ids st |}
  end.

(** One iteration of the [while let]: pop, skip if visited, visit. *)
Definition topo_step (p : LdpPlan) (st : TopoState) : option TopoState :=
  match queue st with
  | [] => None
  | id :: q =>
      let st' := {| queue := q; visited := visited st; in_degree := in_degree st;
                    result_ids := result_ids st |} in
      if bool_decide (id ∈ visited st) then Some st'
      else
        Some (foldl topo_relax
                {| queue := q; visited := {[id]} ∪ visited st; in_degree := in_degree st;
                   result_ids := result_ids st ++ [id] |}
                (downstream_stages p id))
  end.

Fixpoint topo_loop (fuel : nat) (p : LdpPlan) (st : TopoState) : outcome (list StageId) :=
  match fuel with
  | O => OutOfFuel
  | S fuel =>
      match topo_step p st with
      | None => Ret (result_ids st)
      | Some st' => topo_loop fuel p st'
      end
  end.

(** Every iteration consumes one queue entry; an entry is a stage put there at
    the start or an edge relaxed once. *)
Definition topo_fuel (p : LdpPlan) : nat := S (length (stages p) + length (edges p)).

Definition topological_order (p : LdpPlan) : outcome (list StageId) :=
  topo_loop (topo_fuel p) p (topo_init p).

(** ** Epoch statistics *)

Record EpochStats := mkEpochStats {
  rows : Z;
  bytes : Z;
  ndv : gmap string Z;
  es_source : StatsSource;
}.

Definition EpochStats_exact (r b : Z) : EpochStats := mkEpochStats r b ∅ Exact.
Definition EpochStats_estimated (r b : Z) : EpochStats := mkEpochStats r b ∅ Estimated.
Definition with_ndv (s : EpochStats) (column : string) (n : Z) : EpochStats :=
  mkEpochStats (rows s) (bytes s) (<[column := n]> (ndv s)) (es_source s).

(** ** Facts *)

Lemma is_satisfied_hash refs actual ws :
  is_satisfied_by (RequireHashPartitioned refs) (HashPartitioned actual ws) =
  (length refs =? length actual)%nat && forallb (fun p => matches (fst p) (snd p)) (zip refs actual).
Proof. apply all_match_zip. Qed.

Lemma with_safety_factor_exact a factor :
  stats_source a = Exact -> with_safety_factor a factor = (est_rows a, est_bytes a).
Proof. unfold with_safety_factor, is_uncertain. by intros ->. Qed.

#[export] Hint Resolve with_safety_factor_exact : worker.
