(* ===== verification/TopoOrder.v ===== *)
(** * Correctness of [LdpPlan::topological_order]

    The loop terminates on every plan, lists no stage twice and never lists a
    stage before one it depends on; on an acyclic plan whose edges start at
    stages of the plan it lists every stage. *)

From S2P Require Import Prelude LdpTypes.

#[local] Open Scope Z_scope.

Definition ids (p : LdpPlan) : list StageId := map stage_id (stages p).

(** Edges into [v] whose source is not yet visited. *)
Definition pending (p : LdpPlan) (vis : gset StageId) (v : StageId) : nat :=
  length (List.filter (fun e => (to_stage e =? v) && bool_decide (from_stage e ∉ vis)) (edges p)).

(** Edges whose source is not yet visited. *)
Definition unvisited_edges (p : LdpPlan) (vis : gset StageId) : nat :=
  length (List.filter (fun e => bool_decide (from_stage e ∉ vis)) (edges p)).

Definition occurrences (v : StageId) (l : list StageId) : nat := length (List.filter (Z.eqb v) l).

(** [u] is listed before [v]. *)
Definition precedes (l : list StageId) (u v : StageId) : Prop :=
  forall l1 l2, l = l1 ++ v :: l2 -> u ∈ l1.

Record topo_inv (p : LdpPlan) (st : TopoState) : Prop := {
  inv_degree v : v ∈ ids p -> in_degree st !! v = Some (Z.of_nat (pending p (visited st) v));
  inv_degree_dom v d : in_degree st !! v = Some d -> v ∈ ids p;
  inv_nodup : NoDup (result_ids st);
  inv_result v : v ∈ result_ids st <-> v ∈ visited st;
  inv_ids v : v ∈ visited st -> v ∈ ids p;
  inv_queue v : v ∈ queue st -> v ∈ ids p /\ pending p (visited st) v = 0%nat;
  inv_ready v : v ∈ ids p -> pending p (visited st) v = 0%nat -> v ∈ queue st \/ v ∈ visited st;
  inv_order e : e ∈ edges p -> precedes (result_ids st) (from_stage e) (to_stage e);
}.

Definition topo_measure (p : LdpPlan) (st : TopoState) : nat :=
  (length (queue st) + unvisited_edges p (visited st))%nat.

(** ** Counting *)

Lemma pending_zero p vis v :
  pending p vis v = 0%nat <-> forall e, e ∈ edges p -> to_stage e = v -> from_stage e ∈ vis.
Proof.
  unfold pending. induction (edges p) as [|e es IH]; simpl.
  { split; [|done]. intros _ e He. by apply not_elem_of_nil in He. }
  destruct (Z.eqb_spec (to_stage e) v) as [E|E]; simpl.
  - destruct (decide (from_stage e ∈ vis)) as [Hv|Hv].
    + rewrite bool_decide_eq_false_2 by (intros Hn; done). rewrite IH. set_solver.
    + rewrite bool_decide_eq_true_2 by done. split; [done|]. intros Ha. destruct Hv. set_solver.
  - rewrite IH. set_solver.
Qed.

Lemma pending_visit p vis v id : id ∉ vis ->
  pending p vis v = (pending p ({[id]} ∪ vis) v + occurrences v (downstream_stages p id))%nat.
Proof.
  intros Hid. unfold pending, occurrences, downstream_stages.
  induction (edges p) as [|e es IH]; simpl; [done|].
  destruct (Z.eqb_spec (from_stage e) id) as [->|E]; simpl.
  - rewrite (bool_decide_eq_true_2 (id ∉ vis)) by done.
    rewrite (bool_decide_eq_false_2 (id ∉ {[id]} ∪ vis)) by set_solver.
    rewrite andb_false_r, andb_true_r, (Z.eqb_sym v). destruct (to_stage e =? v); simpl; lia.
  - rewrite (bool_decide_ext (from_stage e ∉ {[id]} ∪ vis) (from_stage e ∉ vis)) by set_solver.
    destruct ((to_stage e =? v) && bool_decide (from_stage e ∉ vis)); simpl; lia.
Qed.

Lemma unvisited_visit p vis id : id ∉ vis ->
  unvisited_edges p vis = (unvisited_edges p ({[id]} ∪ vis) + length (downstream_stages p id))%nat.
Proof.
  intros Hid. unfold unvisited_edges, downstream_stages. rewrite length_map.
  induction (edges p) as [|e es IH]; simpl; [done|].
  destruct (Z.eqb_spec (from_stage e) id) as [->|E]; simpl.
  - rewrite (bool_decide_eq_true_2 (id ∉ vis)) by done.
    rewrite (bool_decide_eq_false_2 (id ∉ {[id]} ∪ vis)) by set_solver. simpl; lia.
  - rewrite (bool_decide_ext (from_stage e ∉ {[id]} ∪ vis) (from_stage e ∉ vis)) by set_solver.
    destruct (bool_decide (from_stage e ∉ vis)); simpl; lia.
Qed.

Lemma occurrences_pos v l : (0 < occurrences v l)%nat <-> v ∈ l.
Proof.
  unfold occurrences. induction l as [|a l IH]; simpl.
  { split; [lia|]. intros H; by apply not_elem_of_nil in H. }
  rewrite elem_of_cons. destruct (Z.eqb_spec v a); simpl; [split; [auto|lia]|]. rewrite IH. tauto.
Qed.

Lemma occurrences_zero v l : v ∉ l -> occurrences v l = 0%nat.
Proof. pose proof (occurrences_pos v l) as Hp. destruct (occurrences v l); [done|]. intros Hn. destruct Hn. apply Hp. lia. Qed.

(** ** The inner loop *)

(** What relaxing the downstream list does to the state: degrees drop by the
    number of occurrences, and exactly the unvisited stages that reach zero
    are enqueued. *)
Record relaxed (ds : list StageId) (st st' : TopoState) : Prop := {
  rl_visited : visited st' = visited st;
  rl_result : result_ids st' = result_ids st;
  rl_degree v : in_degree st' !! v =
    (fun d => if decide (v ∈ ds) then Z.max 0 (d - Z.of_nat (occurrences v ds)) else d) <$> (in_degree st !! v);
  rl_queue : exists extra, queue st' = queue st ++ extra /\ (length extra <= length ds)%nat /\
    (forall v, v ∈ extra -> v ∈ ds /\ v ∉ visited st /\ in_degree st' !! v = Some 0) /\
    (forall v, v ∈ ds -> v ∉ visited st -> in_degree st' !! v = Some 0 -> v ∈ extra);
}.

Lemma relax_degree_app v d ds a : 0 <= d ->
  (if decide (v = a) then Z.max 0 ((if decide (v ∈ ds) then Z.max 0 (d - Z.of_nat (occurrences v ds)) else d) - 1)
   else if decide (v ∈ ds) then Z.max 0 (d - Z.of_nat (occurrences v ds)) else d) =
  (if decide (v ∈ ds ++ [a]) then Z.max 0 (d - Z.of_nat (occurrences v (ds ++ [a]))) else d).
Proof.
  intros Hd. unfold occurrences at 3. rewrite List.filter_app, length_app. fold (occurrences v ds). simpl.
  destruct (decide (v = a)) as [->|Hne].
  - rewrite Z.eqb_refl; simpl. rewrite (decide_True (P := a ∈ ds ++ [a])) by set_solver.
    case_decide as Hin; [lia|]. rewrite (occurrences_zero a ds Hin). lia.
  - destruct (Z.eqb_spec v a); [done|]; simpl. rewrite Nat.add_0_r.
    repeat case_decide; set_solver.
Qed.

Lemma relax_all ds st : (forall v d, in_degree st !! v = Some d -> 0 <= d) ->
  relaxed ds st (foldl topo_relax st ds).
Proof.
  intros Hpos. induction ds as [|a ds IH] using rev_ind; simpl.
  { split; [done|done| |exists []; split; [by rewrite app_nil_r|]; set_solver].
    intros v. rewrite <- option_fmap_id at 1. apply option_fmap_ext; intros d.
    by rewrite decide_False by apply not_elem_of_nil. }
  rewrite foldl_app; simpl. destruct IH as [Hv Hr Hd (extra & Hq & Hlen & Hx1 & Hx2)].
  set (st1 := foldl topo_relax st ds) in *. unfold topo_relax.
  destruct (in_degree st1 !! a) as [da|] eqn:Ea.
  - assert (Hdeg : forall v, <[a := Z.max 0 (da - 1)]> (in_degree st1) !! v =
      (fun d => if decide (v ∈ ds ++ [a]) then Z.max 0 (d - Z.of_nat (occurrences v (ds ++ [a]))) else d)
        <$> in_degree st !! v).
    { intros v. rewrite Hd in Ea. destruct (in_degree st !! a) as [d0|] eqn:E0; [|done]. simpl in Ea.
      destruct (decide (a = v)) as [<-|Hne].
      - rewrite lookup_insert_eq, E0; simpl. rewrite <- relax_degree_app by eauto.
        rewrite (decide_True (P := a = a)) by done. congruence.
      - rewrite lookup_insert_ne, Hd by done. destruct (in_degree st !! v) as [d1|] eqn:E1; simpl; [|done].
        rewrite <- relax_degree_app by eauto. by rewrite (decide_False (P := v = a)) by done. }
    split; simpl; [done|done|done|].
    destruct ((Z.max 0 (da - 1) =? 0) && bool_decide (a ∉ visited st1)) eqn:Et.
    + bool_hyps. exists (extra ++ [a]). split; [by rewrite Hq, app_assoc|].
      split; [rewrite !length_app; simpl; lia|]. split.
      * intros v [Hin|Hin]%elem_of_app.
        -- destruct (Hx1 v Hin) as (? & ? & Hz0). split; [set_solver|]. split; [done|].
           destruct (decide (a = v)) as [<-|]; [rewrite lookup_insert_eq; congruence|by rewrite lookup_insert_ne].
        -- apply list_elem_of_singleton in Hin as ->. split; [set_solver|]. split; [by rewrite <- Hv|].
           rewrite lookup_insert_eq; congruence.
      * intros v Hin Hnv Hz0. destruct (decide (a = v)) as [<-|]; [set_solver|].
        rewrite lookup_insert_ne in Hz0 by done. apply elem_of_app; left. apply Hx2; [set_solver|done|done].
    + exists extra. split; [done|]. split; [rewrite length_app; simpl; lia|]. split.
      * intros v Hin. destruct (Hx1 v Hin) as (? & ? & Hz0). split; [set_solver|]. split; [done|].
        destruct (decide (a = v)) as [<-|]; [|by rewrite lookup_insert_ne].
        rewrite lookup_insert_eq. f_equal. simplify_eq. done.
      * intros v Hin Hnv Hz0. destruct (decide (a = v)) as [<-|].
        -- rewrite lookup_insert_eq in Hz0. injection Hz0 as Hz0. exfalso.
           apply andb_false_iff in Et as [?|?]; bool_hyps; [lia|]. rewrite Hv in *. tauto.
        -- rewrite lookup_insert_ne in Hz0 by done. apply Hx2; [set_solver|done|done].
  - assert (E0 : in_degree st !! a = None) by (rewrite Hd in Ea; by destruct (in_degree st !! a)).
    split; [done|done| |].
    + intros v. rewrite Hd. destruct (in_degree st !! v) as [d1|] eqn:E1; simpl; [|done].
      rewrite <- relax_degree_app by eauto. rewrite (decide_False (P := v = a)) by congruence. done.
    + exists extra. split; [done|]. split; [rewrite length_app; simpl; lia|]. split.
      * intros v Hin. destruct (Hx1 v Hin) as (? & ? & ?). set_solver.
      * intros v Hin Hnv Hz0. apply Hx2; [|done|done]. apply elem_of_app in Hin as [?|Hin]; [done|].
        apply list_elem_of_singleton in Hin as ->. fold st1 in Hz0. congruence.
Qed.

(** ** The outer loop *)

Lemma degree_fold (p : LdpPlan) (l : list Stage) (m : gmap StageId Z) v :
  foldl (fun m s => <[stage_id s := Z.of_nat (length (upstream_stages p (stage_id s)))]> m) m l !! v =
  if decide (v ∈ map stage_id l) then Some (Z.of_nat (length (upstream_stages p v))) else m !! v.
Proof.
  revert m; induction l as [|s l IH]; intros m; simpl; [done|]. rewrite IH.
  destruct (decide (v = stage_id s)) as [->|Hne].
  - rewrite (decide_True (P := stage_id s ∈ stage_id s :: _)) by left.
    case_decide; [done|]. by rewrite lookup_insert_eq.
  - rewrite lookup_insert_ne by done.
    destruct (decide (v ∈ map stage_id l)) as [Hin|Hin].
    + by rewrite decide_True by (by right).
    + rewrite decide_False; [done|]. by intros [?|?]%elem_of_cons.
Qed.

Lemma pending_empty p v : pending p ∅ v = length (upstream_stages p v).
Proof.
  unfold pending, upstream_stages. rewrite length_map. f_equal. apply List.filter_ext. intros e.
  rewrite bool_decide_eq_true_2 by set_solver. by rewrite andb_true_r.
Qed.

Lemma topo_init_inv p : topo_inv p (topo_init p).
Proof.
  assert (Hd : forall v, in_degree (topo_init p) !! v =
    if decide (v ∈ ids p) then Some (Z.of_nat (pending p ∅ v)) else None).
  { intros v. unfold topo_init; simpl. rewrite degree_fold, pending_empty. done. }
  assert (Hq : forall v, v ∈ queue (topo_init p) <-> v ∈ ids p /\ pending p ∅ v = 0%nat).
  { intros v. unfold topo_init at 1; cbn [queue]. fold (in_degree (topo_init p)).
    rewrite !list_elem_of_In, in_map_iff. setoid_rewrite List.filter_In. split.
    - intros (s & <- & Hs & Ht). bool_hyps. assert (Hin : stage_id s ∈ ids p).
      { apply list_elem_of_In, in_map_iff. eauto. }
      split; [by apply list_elem_of_In|].
      change (in_degree (topo_init p) !! stage_id s = Some 0) in Ht.
      rewrite Hd, decide_True in Ht by done. injection Ht. lia.
    - intros [(s & <- & Hs)%in_map_iff Hp]. exists s. split; [done|]. split; [done|].
      apply bool_decide_eq_true. change (in_degree (topo_init p) !! stage_id s = Some 0).
      rewrite Hd, decide_True; [by rewrite Hp|]. apply list_elem_of_In, in_map_iff. eauto. }
  split.
  - intros v Hv. rewrite Hd, decide_True by done. done.
  - intros v d. rewrite Hd. by case_decide.
  - apply NoDup_nil_2.
  - intros v. simpl. set_solver.
  - intros v. simpl. set_solver.
  - apply Hq.
  - intros v Hv Hp. left. by apply Hq.
  - intros e _ l1 l2. simpl. by destruct l1.
Qed.

Lemma precedes_snoc l u v id : precedes l u v -> (v = id -> u ∈ l) -> precedes (l ++ [id]) u v.
Proof.
  intros Hp Hid l1 l2 Heq. destruct l2 as [|x l2 _] using rev_ind.
  - apply app_inj_tail in Heq as [<- <-]. auto.
  - rewrite app_comm_cons, app_assoc in Heq. apply app_inj_tail in Heq as [-> _]. by eapply Hp.
Qed.

Lemma topo_step_inv p st st' : topo_inv p st -> topo_step p st = Some st' ->
  topo_inv p st' /\ (topo_measure p st' < topo_measure p st)%nat.
Proof.
  intros Hi. unfold topo_step, topo_measure. destruct (queue st) as [|id q] eqn:Eq; [done|].
  destruct (bool_decide (id ∈ visited st)) eqn:Ev; intros [= <-]; bool_hyps; simpl.
  { split; [|lia]. split; simpl; try apply Hi.
    - intros v Hv. apply Hi. rewrite Eq. by right.
    - intros v Hv Hp. destruct (inv_ready _ _ Hi v Hv Hp) as [Hin|]; [|auto].
      rewrite Eq in Hin. apply elem_of_cons in Hin as [->|]; auto. }
  destruct (inv_queue _ _ Hi id ltac:(rewrite Eq; left)) as [Hid Hp0].
  set (st1 := {| queue := q; visited := {[id]} ∪ visited st; in_degree := in_degree st;
                 result_ids := result_ids st ++ [id] |}).
  assert (Hnn : forall v d, in_degree st1 !! v = Some d -> 0 <= d).
  { intros v d Hvd. simpl in Hvd. pose proof (inv_degree_dom _ _ Hi v d Hvd) as Hin.
    rewrite (inv_degree _ _ Hi v Hin) in Hvd. injection Hvd. lia. }
  destruct (relax_all (downstream_stages p id) st1 Hnn) as [Hv Hr Hd (extra & Hq & Hlen & Hx1 & Hx2)].
  set (st2 := foldl topo_relax st1 _) in *. simpl in Hv, Hr, Hq, Hd.
  assert (Hdeg : forall v, v ∈ ids p -> in_degree st2 !! v = Some (Z.of_nat (pending p (visited st2) v))).
  { intros v Hin. rewrite Hd, (inv_degree _ _ Hi v Hin); simpl. f_equal. rewrite Hv.
    pose proof (pending_visit p (visited st) v id Ev) as Hpv.
    case_decide as Hds; [lia|]. rewrite (occurrences_zero _ _ Hds) in Hpv. lia. }
  split.
  - split; rewrite ?Hr.
    + done.
    + intros v d. rewrite Hd. intros (d0 & Hd0 & _)%fmap_Some_1. by eapply inv_degree_dom.
    + apply NoDup_app. split; [apply Hi|]. split; [|apply NoDup_singleton].
      intros x Hx%(inv_result _ _ Hi) ->%list_elem_of_singleton. done.
    + intros v. rewrite Hv, elem_of_app, (inv_result _ _ Hi), list_elem_of_singleton. set_solver.
    + intros v. rewrite Hv. intros [->%elem_of_singleton|?]%elem_of_union; [done|by apply Hi].
    + intros v. rewrite Hq. intros [Hin|Hin]%elem_of_app.
      * destruct (inv_queue _ _ Hi v ltac:(rewrite Eq; by right)) as [? Hp]. split; [done|].
        rewrite Hv. pose proof (pending_visit p (visited st) v id Ev). lia.
      * destruct (Hx1 v Hin) as (? & ? & Hz). pose proof Hz as Hz'. rewrite Hd in Hz'.
        apply fmap_Some_1 in Hz' as (d0 & Hd0 & _). pose proof (inv_degree_dom _ _ Hi v d0 Hd0) as Hin'.
        split; [done|]. rewrite (Hdeg v Hin') in Hz. injection Hz. lia.
    + intros v Hin Hp. rewrite Hq, Hv. destruct (decide (v ∈ {[id]} ∪ visited st)); [auto|]. left.
      destruct (decide (v ∈ downstream_stages p id)) as [Hds|Hds].
      * apply elem_of_app; right. apply Hx2; [done|done|]. rewrite (Hdeg v Hin), Hp. done.
      * apply elem_of_app; left. rewrite Hv in Hp. pose proof (pending_visit p (visited st) v id Ev) as Hpv.
        rewrite (occurrences_zero _ _ Hds) in Hpv.
        destruct (inv_ready _ _ Hi v Hin) as [Hin'|]; [lia| |set_solver].
        rewrite Eq in Hin'. apply elem_of_cons in Hin' as [->|]; [set_solver|done].
    + intros e He. apply precedes_snoc; [by apply Hi|]. intros Hto.
      apply (inv_result _ _ Hi). by eapply (proj1 (pending_zero p (visited st) id)).
  - rewrite Hq, Hv, length_app. pose proof (unvisited_visit p (visited st) id Ev). lia.
Qed.

Lemma topo_loop_spec p fuel st : topo_inv p st -> (topo_measure p st < fuel)%nat ->
  exists st', topo_loop fuel p st = Ret (result_ids st') /\ topo_inv p st' /\ queue st' = [].
Proof.
  revert st; induction fuel as [|fuel IH]; intros st Hi Hm; [lia|]. simpl.
  destruct (topo_step p st) as [st'|] eqn:Es.
  - destruct (topo_step_inv p st st' Hi Es). apply IH; [done|lia].
  - exists st. split; [done|]. split; [done|]. unfold topo_step in Es. destruct (queue st); [done|].
    by case_match.
Qed.

Lemma topological_order_run p :
  exists st, topological_order p = Ret (result_ids st) /\ topo_inv p st /\ queue st = [].
Proof.
  apply topo_loop_spec; [apply topo_init_inv|]. unfold topo_fuel, topo_measure.
  assert (length (queue (topo_init p)) <= length (stages p))%nat.
  { simpl. rewrite length_map. apply List.filter_length_le. }
  assert (unvisited_edges p (visited (topo_init p)) <= length (edges p))%nat by apply List.filter_length_le.
  lia.
Qed.

(** on every plan, cyclic or not, [topological_order] returns; the list
    has no stage twice, only stages of the plan, and a listed stage comes after
    every stage it reads from. *)
Theorem topological_order_sound p :
  exists l, topological_order p = Ret l /\ NoDup l /\ (forall v, v ∈ l -> v ∈ ids p) /\
    forall e, e ∈ edges p -> precedes l (from_stage e) (to_stage e).
Proof.
  destruct (topological_order_run p) as (st & Hr & Hi & _). exists (result_ids st).
  split; [done|]. split; [apply Hi|]. split; [|apply Hi].
  intros v ?%(inv_result _ _ Hi). by apply Hi.
Qed.

(** The order is complete on a plan ranked by its edges. *)
Lemma topological_order_all p (rank : StageId -> nat) :
  (forall e, e ∈ edges p -> from_stage e ∈ ids p /\ (rank (from_stage e) < rank (to_stage e))%nat) ->
  exists l, topological_order p = Ret l /\ NoDup l /\ (forall v, v ∈ l <-> v ∈ ids p) /\
    forall e, e ∈ edges p -> precedes l (from_stage e) (to_stage e).
Proof.
  intros Hrank. destruct (topological_order_run p) as (st & Hr & Hi & Hq). exists (result_ids st).
  split; [done|]. split; [apply Hi|]. split; [|apply Hi].
  intros v. rewrite (inv_result _ _ Hi). split; [apply Hi|].
  remember (rank v) as n eqn:En. revert v En. induction (lt_wf n) as [n _ IH]. intros v -> Hv.
  destruct (inv_ready _ _ Hi v Hv) as [Hin|]; [|rewrite Hq in Hin; by apply not_elem_of_nil in Hin|done].
  apply pending_zero. intros e He <-. destruct (Hrank e He). by eapply IH.
Qed.

(** on an acyclic plan whose edges start at its stages, the order lists
    every stage exactly once, dependencies first. *)
Theorem topological_order_complete p (rank : StageId -> nat) :
  (forall e, e ∈ edges p -> from_stage e ∈ ids p /\ (rank (from_stage e) < rank (to_stage e))%nat) ->
  NoDup (ids p) ->
  exists l, topological_order p = Ret l /\ l ≡ₚ ids p /\
    forall e, e ∈ edges p -> precedes l (from_stage e) (to_stage e).
Proof.
  intros Hr Hnd. destruct (topological_order_all p rank Hr) as (l & ? & ? & ? & ?).
  exists l. split; [done|]. split; [|done]. by apply NoDup_Permutation.
Qed.

(** A diamond: stages 0, 1, 2, 3 listed backwards in the plan. *)
Definition diamond : LdpPlan :=
  {| query_id := "q"; coordinator := "c";
     stages := [Stage_new 3 ""; Stage_new 2 ""; Stage_new 1 ""; Stage_new 0 ""];
     edges := [mkEdge 0 (Gather "c") 0 1 []; mkEdge 1 (Gather "c") 0 2 [];
               mkEdge 2 (Gather "c") 1 3 []; mkEdge 3 (Gather "c") 2 3 []];
     root_stage := 3 |}.

Example diamond_order : topological_order diamond = Ret [0; 1; 2; 3].
Proof. reflexivity. Qed.

Lemma topological_order_complete_witness :
  exists l, topological_order diamond = Ret l /\ l ≡ₚ ids diamond /\
    forall e, e ∈ edges diamond -> precedes l (from_stage e) (to_stage e).
Proof.
  apply (topological_order_complete diamond Z.to_nat).
  - intros e He. simpl in He. repeat (apply elem_of_cons in He as [->|He]; [split; [vm_compute; set_solver|simpl; lia]|]).
    by apply not_elem_of_nil in He.
  - by apply (bool_decide_unpack (NoDup (ids diamond))).
Defined.
