(* ===== verification/Policy.v ===== *)
(** * Planner policy (ldp/planner/policy.rs) *)

From S2P Require Import Prelude Float64 LdpTypes.

#[local] Open Scope Z_scope.

Record PlannerPolicy := mkPolicy {
  broadcast_bytes_max : Z;
  shuffle_bytes_max : Z;
  gather_rows_max : Z;
  gather_bytes_max : Z;
  default_partitions : Z;
  pol_coordinator : WorkerId;
  safety_factor : f64;
  enable_streaming_pipeline : bool;
  pipeline_buffer_bytes : Z;
}.

Definition mib : Z := 1024 * 1024.
Definition gib : Z := 1024 * 1024 * 1024.

Definition policy_default : PlannerPolicy :=
  {| broadcast_bytes_max := 256 * mib;
     shuffle_bytes_max := 2 * gib;
     gather_rows_max := 50000000;
     gather_bytes_max := 5 * gib;
     default_partitions := 16;
     pol_coordinator := "";
     safety_factor := f64_2_0;
     enable_streaming_pipeline := false;
     pipeline_buffer_bytes := 32 * mib |}.

Definition conservative : PlannerPolicy :=
  {| broadcast_bytes_max := 0;
     shuffle_bytes_max := u64_max;
     gather_rows_max := u64_max;
     gather_bytes_max := u64_max;
     default_partitions := 16;
     pol_coordinator := "";
     safety_factor := f64_3_0;
     enable_streaming_pipeline := false;
     pipeline_buffer_bytes := 32 * mib |}.

Definition aggressive : PlannerPolicy :=
  {| broadcast_bytes_max := gib;
     shuffle_bytes_max := 10 * gib;
     gather_rows_max := 100000000;
     gather_bytes_max := 10 * gib;
     default_partitions := 32;
     pol_coordinator := "";
     safety_factor := f64_1_1;
     enable_streaming_pipeline := false;
     pipeline_buffer_bytes := 32 * mib |}.

(** ** Builder methods *)
Definition set_broadcast_bytes_max (p : PlannerPolicy) (b : Z) : PlannerPolicy :=
  mkPolicy b (shuffle_bytes_max p) (gather_rows_max p) (gather_bytes_max p) (default_partitions p)
    (pol_coordinator p) (safety_factor p) (enable_streaming_pipeline p) (pipeline_buffer_bytes p).
Definition set_shuffle_bytes_max (p : PlannerPolicy) (b : Z) : PlannerPolicy :=
  mkPolicy (broadcast_bytes_max p) b (gather_rows_max p) (gather_bytes_max p) (default_partitions p)
    (pol_coordinator p) (safety_factor p) (enable_streaming_pipeline p) (pipeline_buffer_bytes p).
Definition set_gather_rows_max (p : PlannerPolicy) (r : Z) : PlannerPolicy :=
  mkPolicy (broadcast_bytes_max p) (shuffle_bytes_max p) r (gather_bytes_max p) (default_partitions p)
    (pol_coordinator p) (safety_factor p) (enable_streaming_pipeline p) (pipeline_buffer_bytes p).
Definition set_gather_bytes_max (p : PlannerPolicy) (b : Z) : PlannerPolicy :=
  mkPolicy (broadcast_bytes_max p) (shuffle_bytes_max p) (gather_rows_max p) b (default_partitions p)
    (pol_coordinator p) (safety_factor p) (enable_streaming_pipeline p) (pipeline_buffer_bytes p).
Definition set_default_partitions (p : PlannerPolicy) (n : Z) : PlannerPolicy :=
  mkPolicy (broadcast_bytes_max p) (shuffle_bytes_max p) (gather_rows_max p) (gather_bytes_max p) n
    (pol_coordinator p) (safety_factor p) (enable_streaming_pipeline p) (pipeline_buffer_bytes p).
Definition set_safety_factor (p : PlannerPolicy) (f : f64) : PlannerPolicy :=
  mkPolicy (broadcast_bytes_max p) (shuffle_bytes_max p) (gather_rows_max p) (gather_bytes_max p)
    (default_partitions p) (pol_coordinator p) f (enable_streaming_pipeline p) (pipeline_buffer_bytes p).
Definition with_broadcast_enabled (p : PlannerPolicy) (enabled : bool) : PlannerPolicy :=
  set_broadcast_bytes_max p (if enabled then 256 * mib else 0).
Definition with_streaming_pipeline (p : PlannerPolicy) (enabled : bool) : PlannerPolicy :=
  mkPolicy (broadcast_bytes_max p) (shuffle_bytes_max p) (gather_rows_max p) (gather_bytes_max p)
    (default_partitions p) (pol_coordinator p) (safety_factor p) enabled (pipeline_buffer_bytes p).
Definition with_pipeline_buffer_bytes (p : PlannerPolicy) (b : Z) : PlannerPolicy :=
  mkPolicy (broadcast_bytes_max p) (shuffle_bytes_max p) (gather_rows_max p) (gather_bytes_max p)
    (default_partitions p) (pol_coordinator p) (safety_factor p) (enable_streaming_pipeline p) b.
Definition with_coordinator (c : WorkerId) : PlannerPolicy :=
  mkPolicy (broadcast_bytes_max policy_default) (shuffle_bytes_max policy_default)
    (gather_rows_max policy_default) (gather_bytes_max policy_default)
    (default_partitions policy_default) c (safety_factor policy_default)
    (enable_streaming_pipeline policy_default) (pipeline_buffer_bytes policy_default).
Definition for_testing : PlannerPolicy :=
  set_safety_factor (with_broadcast_enabled policy_default true) f64_1_0.

(** ** Decisions *)
Definition can_broadcast (p : PlannerPolicy) (estimated_bytes : Z) : bool :=
  estimated_bytes <=? broadcast_bytes_max p.

Definition can_optimize_to_broadcast (p : PlannerPolicy) (estimated_bytes : Z)
    (stats_exact is_join_context : bool) : bool :=
  is_join_context && stats_exact && (estimated_bytes <=? broadcast_bytes_max p).

Definition can_shuffle (p : PlannerPolicy) (estimated_bytes : Z) : bool :=
  estimated_bytes <=? shuffle_bytes_max p.

Definition can_gather (p : PlannerPolicy) (estimated_rows estimated_bytes : Z) : bool :=
  (estimated_rows <=? gather_rows_max p) && (estimated_bytes <=? gather_bytes_max p).

Definition can_gather_with_safety (p : PlannerPolicy) (estimated_rows estimated_bytes : Z)
    (stats_exact : bool) : bool :=
  let '(r, b) :=
    if stats_exact then (estimated_rows, estimated_bytes)
    else (f64_scale estimated_rows (safety_factor p), f64_scale estimated_bytes (safety_factor p)) in
  (r <=? gather_rows_max p) && (b <=? gather_bytes_max p).

Definition apply_safety_factor (p : PlannerPolicy) (v : Z) (stats_exact : bool) : Z :=
  if stats_exact then v else f64_scale v (safety_factor p).

(** [can_gather_with_safety] is [can_gather] of the scaled estimates. *)
Lemma can_gather_with_safety_eq p r b exact :
  can_gather_with_safety p r b exact =
  can_gather p (apply_safety_factor p r exact) (apply_safety_factor p b exact).
Proof. by destruct exact. Qed.
