(* ===== verification/Requirements.v ===== *)
(** * Distribution requirements of operators (ldp/planner/requirements.rs) *)

From S2P Require Import Prelude SqlAst LogicalPlan LdpTypes.

Definition get_logical_plan_requirements (plan : LogicalPlan) : list RequiredDistribution :=
  match plan with
  | Scan _ _ _ | ExchangeRead _ _ => []
  | Filter _ _ | Project _ _ => [AnyDistribution]
  | Sort _ _ => [RequireSingleton]
  | Limit _ _ _ => [RequireSingleton]
  | Aggregate _ _ _ _ group_keys =>
      match group_keys with
      | [] => [RequireSingleton]
      | _ => [RequireHashPartitioned group_keys]
      end
  | Join _ _ _ left_keys right_keys =>
      match left_keys, right_keys with
      | [], _ | _, [] => [AnyDistribution; RequireSingleton]
      | _, _ => [RequireHashPartitioned left_keys; RequireHashPartitioned right_keys]
      end
  | SetOp _ _ op set_quantifier =>
      match op, set_quantifier with
      | SetUnion, SQAll => [AnyDistribution; AnyDistribution]
      | _, _ => [RequireSingleton; RequireSingleton]
      end
  | Window _ _ partition_keys =>
      match partition_keys with
      | [] => [RequireSingleton]
      | _ => [RequireHashPartitioned partition_keys]
      end
  | SubqueryScan _ _ => [AnyDistribution]
  end.

Definition satisfies (actual : Distribution) (required : RequiredDistribution) : bool :=
  is_satisfied_by required actual.

Definition all_satisfied (child_distributions : list Distribution)
    (requirements : list RequiredDistribution) : bool :=
  if (length child_distributions =? length requirements)%nat then
    forallb (fun p => satisfies (fst p) (snd p)) (zip child_distributions requirements)
  else false.

Definition unsatisfied_requirements (child_distributions : list Distribution)
    (requirements : list RequiredDistribution) : list (nat * Distribution * RequiredDistribution) :=
  map (fun '(i, (a, r)) => (i, a, r))
    (List.filter (fun '(_, (a, r)) => negb (satisfies a r))
       (zip (seq 0 (length (zip child_distributions requirements))) (zip child_distributions requirements))).

(** Every operator states one requirement per input. *)
Lemma requirements_length p : length (get_logical_plan_requirements p) = arity p.
Proof. destruct p; simpl; repeat case_match; done. Qed.

(** [unsatisfied_requirements] reports nothing exactly when every
    requirement is met, for matching numbers of inputs and requirements. *)
Theorem unsatisfied_iff_all_satisfied ds rs :
  length ds = length rs ->
  unsatisfied_requirements ds rs = [] <-> all_satisfied ds rs = true.
Proof.
  intros Hlen. unfold unsatisfied_requirements, all_satisfied. rewrite Hlen, Nat.eqb_refl.
  generalize (zip ds rs) as l, 0. induction l as [|[a r] l IH]; intros n; simpl; [done|].
  destruct (satisfies a r) eqn:E; simpl; [apply IH|]. split; done.
Qed.

Lemma unsatisfied_iff_all_satisfied_witness :
  unsatisfied_requirements [Singleton "c"] [RequireSingleton] = [] <->
  all_satisfied [Singleton "c"] [RequireSingleton] = true.
Proof. apply unsatisfied_iff_all_satisfied. reflexivity. Defined.
