(* ===== verification/ExchangeSelect.v ===== *)
(** * Choice of exchanges (ldp/planner/exchange.rs) *)

From S2P Require Import Prelude Float64 LogicalPlan LdpTypes Policy.

#[local] Open Scope Z_scope.

Inductive RejectReason :=
| ShuffleTooLarge (estimated_bytes limit : Z)
| GatherTooLarge (estimated_rows estimated_bytes row_limit byte_limit : Z)
| CannotDetermineExchange (msg : string).

Inductive ExchangeDecision :=
| NoExchange
| Insert (exchange : Exchange)
| Reject (reason : RejectReason).

Definition determine_gather_exchange (rows bytes : Z) (stats_exact : bool)
    (policy : PlannerPolicy) : ExchangeDecision :=
  if can_gather_with_safety policy rows bytes stats_exact
  then Insert (Gather (pol_coordinator policy))
  else Reject (GatherTooLarge rows bytes (gather_rows_max policy) (gather_bytes_max policy)).

Definition determine_hash_or_broadcast_exchange (actual : Distribution)
    (annotation : DistributionAnnotation) (required_column_refs : list ColumnRef)
    (policy : PlannerPolicy) (is_join_context : bool) (targets : list WorkerId) : ExchangeDecision :=
  let '(_, bytes) := with_safety_factor annotation (safety_factor policy) in
  let stats_exact := is_exact (stats_source annotation) in
  if can_optimize_to_broadcast policy bytes stats_exact is_join_context then
    Insert (Broadcast (match targets with [] => workers actual | _ => targets end))
  else if negb (can_shuffle policy bytes) then
    Reject (ShuffleTooLarge bytes (shuffle_bytes_max policy))
  else Insert (HashPartition required_column_refs (default_partitions policy)).

Definition determine_exchange (actual : Distribution) (annotation : DistributionAnnotation)
    (required : RequiredDistribution) (policy : PlannerPolicy) (is_join_context : bool)
    (targets : list WorkerId) : ExchangeDecision :=
  if is_satisfied_by required actual then NoExchange
  else
    let '(r, b) := with_safety_factor annotation (safety_factor policy) in
    let stats_exact := is_exact (stats_source annotation) in
    match required with
    | AnyDistribution => NoExchange
    | RequireSingleton => determine_gather_exchange r b stats_exact policy
    | RequireHashPartitioned column_refs =>
        determine_hash_or_broadcast_exchange actual annotation column_refs policy is_join_context targets
    end.

(** ** Joins *)

Record JoinExchangeContext := {
  left_annotation : DistributionAnnotation;
  right_annotation : DistributionAnnotation;
  left_actual : Distribution;
  right_actual : Distribution;
  jc_left_keys : list ColumnRef;
  jc_right_keys : list ColumnRef;
  jc_policy : PlannerPolicy;
  jc_target_workers : list WorkerId;
}.

Definition keys_match (partition_keys join_keys : list ColumnRef) : bool :=
  all_match partition_keys join_keys.

Definition is_replicated (d : Distribution) : bool :=
  match d with Replicated _ => true | _ => false end.

(** Colocation optimization 2: both sides partitioned on the join keys over the
    same workers. *)
Definition co_partitioned (ctx : JoinExchangeContext) : bool :=
  match left_actual ctx, right_actual ctx with
  | HashPartitioned lk lw, HashPartitioned rk rw =>
      keys_match lk (jc_left_keys ctx) && keys_match rk (jc_right_keys ctx) && bool_decide (lw = rw)
  | _, _ => false
  end.

(** The broadcast and shuffle strategies, after the early returns. *)
Definition join_strategy (ctx : JoinExchangeContext) (left_satisfied right_satisfied : bool)
    : ExchangeDecision * ExchangeDecision :=
  let policy := jc_policy ctx in
  let '(_, left_bytes) := with_safety_factor (left_annotation ctx) (safety_factor policy) in
  let '(_, right_bytes) := with_safety_factor (right_annotation ctx) (safety_factor policy) in
  let left_exact := is_exact (stats_source (left_annotation ctx)) in
  let right_exact := is_exact (stats_source (right_annotation ctx)) in
  let left_can_broadcast := can_optimize_to_broadcast policy left_bytes left_exact true in
  let right_can_broadcast := can_optimize_to_broadcast policy right_bytes right_exact true in
  let targets_for_left :=
    match jc_target_workers ctx with [] => workers (right_actual ctx) | ws => ws end in
  let targets_for_right :=
    match jc_target_workers ctx with [] => workers (left_actual ctx) | ws => ws end in
  let broadcast_left := if left_satisfied then NoExchange else Insert (Broadcast targets_for_left) in
  let broadcast_right := if right_satisfied then NoExchange else Insert (Broadcast targets_for_right) in
  match left_can_broadcast, right_can_broadcast with
  | true, true =>
      if left_bytes <=? right_bytes then (broadcast_left, NoExchange) else (NoExchange, broadcast_right)
  | true, false => (broadcast_left, NoExchange)
  | false, true => (NoExchange, broadcast_right)
  | false, false =>
      let total_shuffle := u64_add left_bytes right_bytes in
      if negb (can_shuffle policy total_shuffle) then
        (Reject (ShuffleTooLarge total_shuffle (shuffle_bytes_max policy)),
         Reject (ShuffleTooLarge total_shuffle (shuffle_bytes_max policy)))
      else
        (if left_satisfied then NoExchange
         else Insert (HashPartition (jc_left_keys ctx) (default_partitions policy)),
         if right_satisfied then NoExchange
         else Insert (HashPartition (jc_right_keys ctx) (default_partitions policy)))
  end.

Definition determine_join_exchanges (ctx : JoinExchangeContext) : ExchangeDecision * ExchangeDecision :=
  if is_replicated (right_actual ctx) then (NoExchange, NoExchange)
  else if co_partitioned ctx then (NoExchange, NoExchange)
  else
    let left_satisfied := is_satisfied_by (RequireHashPartitioned (jc_left_keys ctx)) (left_actual ctx) in
    let right_satisfied := is_satisfied_by (RequireHashPartitioned (jc_right_keys ctx)) (right_actual ctx) in
    if left_satisfied && right_satisfied then (NoExchange, NoExchange)
    else join_strategy ctx left_satisfied right_satisfied.
