(* ===== verification/Metadata.v ===== *)
(** * Metadata for planning (ldp/planner/metadata.rs, storage_metadata.rs)

    [Metadata] is the trait, with its default [get_table_scan_stats].
    [InMemory] is the implementation behind the coordinator, [Cluster] the
    placement-based one. *)

From S2P Require Import Prelude LdpTypes.

#[local] Open Scope Z_scope.

Record TableScanStats := mkScanStats {
  ts_rows : Z;
  ts_bytes : Z;
  ts_workers : list WorkerId;
  ts_source : StatsSource;
  ts_distribution : option Distribution;
}.

Definition to_distribution (t : TableScanStats) : Distribution :=
  match ts_distribution t with
  | Some d => d
  | None =>
      match ts_workers t with
      | [w] => Singleton w
      | ws => EpochPartitioned ws
      end
  end.

(** ** Aggregation over the epochs of a table *)

(** The accumulators of the loop of [get_table_scan_stats]. *)
Record ScanAcc := mkScanAcc {
  total_rows : Z;
  total_bytes : Z;
  acc_workers : list WorkerId;
  all_exact : bool;
}.

Definition scan_step (get_epoch_stats : string -> option EpochStats) (acc : ScanAcc)
    (epoch : string * WorkerId) : ScanAcc :=
  let '(epoch_id, worker_id) := epoch in
  let acc :=
    match get_epoch_stats epoch_id with
    | Some stats =>
        {| total_rows := u64_add (total_rows acc) (rows stats);
           total_bytes := u64_add (total_bytes acc) (bytes stats);
           acc_workers := acc_workers acc;
           all_exact := if bool_decide (es_source stats = Exact) then all_exact acc else false |}
    | None =>
        {| total_rows := total_rows acc; total_bytes := total_bytes acc;
           acc_workers := acc_workers acc; all_exact := false |}
    end in
  if bool_decide (worker_id ∈ acc_workers acc) then acc
  else {| total_rows := total_rows acc; total_bytes := total_bytes acc;
          acc_workers := acc_workers acc ++ [worker_id]; all_exact := all_exact acc |}.

Definition aggregate_epochs (get_epoch_stats : string -> option EpochStats)
    (epochs : list (string * WorkerId)) : TableScanStats :=
  let acc := foldl (scan_step get_epoch_stats) (mkScanAcc 0 0 [] true) epochs in
  {| ts_rows := total_rows acc;
     ts_bytes := total_bytes acc;
     ts_workers := acc_workers acc;
     ts_source :=
       if all_exact acc && negb (bool_decide (epochs = [])) then Exact
       else if negb (bool_decide (epochs = [])) then Estimated else Unknown;
     ts_distribution := None |}.

(** The trait. *)
Class Metadata (M : Type) := {
  get_epoch_stats : M -> string -> option EpochStats;
  get_epoch_worker : M -> string -> option WorkerId;
  get_epochs_for_table : M -> string -> option string -> option string -> list (string * WorkerId);
  get_table_scan_stats : M -> string -> TableScanStats;
}.

(** ** The in-memory implementation *)
Module InMemory.
Record t := mk {
  epochs : gmap string (EpochStats * WorkerId);
  table_epochs : gmap string (list (string * option (Z * Z)));
  table_stats : gmap string TableScanStats;
}.

Definition new : t := mk ∅ ∅ ∅.

Definition push_epoch (m : t) (epoch_id table_name : string) (stats : EpochStats)
    (worker : WorkerId) (time_range : option (Z * Z)) : t :=
  mk (<[epoch_id := (stats, worker)]> (epochs m))
     (<[table_name := default [] (table_epochs m !! table_name) ++ [(epoch_id, time_range)]]> (table_epochs m))
     (table_stats m).

Definition add_epoch (m : t) (epoch_id table_name : string) (stats : EpochStats) (worker : WorkerId) : t :=
  push_epoch m epoch_id table_name stats worker None.

Definition add_epoch_with_time_range (m : t) (epoch_id table_name : string) (stats : EpochStats)
    (worker : WorkerId) (time_range : Z * Z) : t :=
  push_epoch m epoch_id table_name stats worker (Some time_range).

Definition sort_epochs_by_time (m : t) (table_name : string) : t :=
  match table_epochs m !! table_name with
  | None => m
  | Some l =>
      mk (epochs m)
         (<[table_name := sort_by_key (fun e => match snd e with Some (s, _) => s | None => 0 end) l]>
            (table_epochs m))
         (table_stats m)
  end.

Definition register_table_stats (m : t) (table_name : string) (ws : list WorkerId) (d : Distribution)
    (row_count byte_size : Z) (source : StatsSource) : t :=
  mk (epochs m) (table_epochs m)
     (<[table_name := mkScanStats row_count byte_size ws source (Some d)]> (table_stats m)).

Definition resolved_name (m : t) (table_name : string) : string :=
  match table_epochs m !! table_name with
  | Some _ => table_name
  | None =>
      match strip_prefix "scan_" table_name with
      | Some base => match table_epochs m !! base with Some _ => base | None => table_name end
      | None => table_name
      end
  end.

Definition time_matches (time_range : option (Z * Z)) (start_ms end_ms : option Z) : bool :=
  match time_range, start_ms, end_ms with
  | None, _, _ => true
  | _, None, None => true
  | Some (epoch_start, epoch_end), query_start, query_end =>
      let qs := default 0 query_start in
      let qe := default u64_max query_end in
      (epoch_start <? qe) && (qs <? epoch_end)
  end.

Definition select_epoch (m : t) (start_ms end_ms : option Z) (e : string * option (Z * Z))
    : option (string * WorkerId) :=
  if time_matches (snd e) start_ms end_ms
  then (fun entry => (fst e, snd entry)) <$> (epochs m !! fst e)
  else None.

Definition epochs_for_table (m : t) (table_name : string) (start_epoch end_epoch : option string)
    : list (string * WorkerId) :=
  let start_ms := s ← start_epoch; parse_u64 s in
  let end_ms := s ← end_epoch; parse_u64 s in
  match table_epochs m !! resolved_name m table_name with
  | Some entries => omap (select_epoch m start_ms end_ms) entries
  | None => []
  end.

Definition epoch_stats (m : t) (epoch_id : string) : option EpochStats := fst <$> (epochs m !! epoch_id).
Definition epoch_worker (m : t) (epoch_id : string) : option WorkerId := snd <$> (epochs m !! epoch_id).

Definition table_scan_stats (m : t) (table_name : string) : TableScanStats :=
  match table_stats m !! table_name with
  | Some s => s
  | None =>
      match base ← strip_prefix "scan_" table_name; table_stats m !! base with
      | Some s => s
      | None => aggregate_epochs (epoch_stats m) (epochs_for_table m table_name None None)
      end
  end.

#[export] Instance metadata : Metadata t := {|
  get_epoch_stats := epoch_stats;
  get_epoch_worker := epoch_worker;
  get_epochs_for_table := epochs_for_table;
  get_table_scan_stats := table_scan_stats;
|}.
End InMemory.

(** ** Placement-based metadata *)
Module Cluster.
Record EpochPlacement := mkPlacement {
  epoch_id : string;
  dataset_id : string;
  worker_id : WorkerId;
  time_range : Z * Z;
  stats : EpochStats;
}.

Definition overlaps_time_range (p : EpochPlacement) (start_ms end_ms : option Z) : bool :=
  let '(epoch_start, epoch_end) := time_range p in
  (epoch_start <? default u64_max end_ms) && (default 0 start_ms <? epoch_end).

Record t := mk {
  epochs : gmap (string * string) EpochPlacement;
  dataset_epochs : gmap string (list string);
  local_worker_id : option WorkerId;
}.

Definition new : t := mk ∅ ∅ None.
Definition with_local_worker (w : WorkerId) : t := mk ∅ ∅ (Some w).
Definition set_local_worker (m : t) (w : WorkerId) : t := mk (epochs m) (dataset_epochs m) (Some w).

Definition register_epoch (m : t) (p : EpochPlacement) : t :=
  mk (<[(dataset_id p, epoch_id p) := p]> (epochs m))
     (<[dataset_id p := default [] (dataset_epochs m !! dataset_id p) ++ [epoch_id p]]> (dataset_epochs m))
     (local_worker_id m).

Definition select_epoch (m : t) (ds : string) (start_ms end_ms : option Z) (e : string)
    : option (string * WorkerId) :=
  p ← epochs m !! (ds, e);
  if overlaps_time_range p start_ms end_ms then Some (e, worker_id p) else None.

Definition epochs_for (m : t) (ds : string) (start_ms end_ms : option Z) : list (string * WorkerId) :=
  match dataset_epochs m !! ds with
  | Some es => omap (select_epoch m ds start_ms end_ms) es
  | None => []
  end.

Definition worker_for (m : t) (ds e : string) : option WorkerId := worker_id <$> (epochs m !! (ds, e)).
Definition stats_for (m : t) (ds e : string) : option EpochStats := stats <$> (epochs m !! (ds, e)).

Definition start_time (m : t) (ds e : string) : Z :=
  match epochs m !! (ds, e) with Some p => fst (time_range p) | None => 0 end.

Definition sort_epochs_by_time (m : t) (ds : string) : t :=
  match dataset_epochs m !! ds with
  | None => m
  | Some es => mk (epochs m) (<[ds := sort_by_key (start_time m ds) es]> (dataset_epochs m)) (local_worker_id m)
  end.

Definition worker_step (m : t) (ds : string) (ws : list WorkerId) (e : string) : list WorkerId :=
  match epochs m !! (ds, e) with
  | Some p => if bool_decide (worker_id p ∈ ws) then ws else ws ++ [worker_id p]
  | None => ws
  end.

Definition workers_for_dataset (m : t) (ds : string) : list WorkerId :=
  match dataset_epochs m !! ds with
  | Some es => foldl (worker_step m ds) [] es
  | None => []
  end.

(** The trait's [get_epoch_stats] and [get_epoch_worker] return the first
    match in the iteration order of a [HashMap], which is unspecified:
    [order] is one such order of the entries. *)
Definition is_order (m : t) (order : list ((string * string) * EpochPlacement)) : Prop :=
  order ≡ₚ map_to_list (epochs m).

Definition id_matches (id : string) (entry : (string * string) * EpochPlacement) : bool :=
  let '((ds, eid), _) := entry in
  bool_decide (eid = id) || bool_decide (ds +:+ "__" +:+ eid = id).

Definition get_epoch_stats (order : list ((string * string) * EpochPlacement)) (id : string)
    : option EpochStats := (fun e => stats (snd e)) <$> List.find (id_matches id) order.

Definition get_epoch_worker (order : list ((string * string) * EpochPlacement)) (id : string)
    : option WorkerId := (fun e => worker_id (snd e)) <$> List.find (id_matches id) order.

(** [parse_epoch_timestamp]: the text, or its part before the first [_]. *)
Fixpoint before_underscore (s : string) : string :=
  match s with
  | EmptyString => EmptyString
  | String c s => if decide (Ascii.nat_of_ascii c = 95)%nat then EmptyString else String c (before_underscore s)
  end.

Definition parse_epoch_timestamp (id : string) : option Z :=
  match parse_u64 id with
  | Some ts => Some ts
  | None => parse_u64 (before_underscore id)
  end.

Definition get_epochs_for_table (m : t) (table_name : string) (start_epoch end_epoch : option string)
    : list (string * WorkerId) :=
  epochs_for m table_name (s ← start_epoch; parse_epoch_timestamp s) (s ← end_epoch; parse_epoch_timestamp s).

Definition get_table_scan_stats (m : t) (order : list ((string * string) * EpochPlacement))
    (table_name : string) : TableScanStats :=
  aggregate_epochs (get_epoch_stats order) (get_epochs_for_table m table_name None None).
End Cluster.

(** ** Facts on aggregation *)
Section aggregation.
Variable gs : string -> option EpochStats.

Definition sum_of (f : EpochStats -> Z) (l : list (string * WorkerId)) : Z :=
  foldr (fun e acc => match gs (fst e) with Some s => f s | None => 0 end + acc) 0 l.

Definition exact_epoch (e : string * WorkerId) : bool :=
  match gs (fst e) with Some s => bool_decide (es_source s = Exact) | None => false end.

Lemma u64_add_wrap a b c : u64_add (wrap64 (a + b)) c = wrap64 (a + (b + c)).
Proof. unfold u64_add, wrap64. rewrite Z.add_mod_idemp_l by done. f_equal. lia. Qed.

Lemma sum_of_snoc f l e :
  sum_of f (l ++ [e]) = sum_of f l + match gs (fst e) with Some s => f s | None => 0 end.
Proof. induction l; simpl in *; lia. Qed.

Record scan_result (l : list (string * WorkerId)) (acc : ScanAcc) : Prop := {
  sr_rows : total_rows acc = wrap64 (0 + sum_of rows l);
  sr_bytes : total_bytes acc = wrap64 (0 + sum_of bytes l);
  sr_nodup : NoDup (acc_workers acc);
  sr_workers w : w ∈ acc_workers acc <-> exists id, (id, w) ∈ l;
  sr_exact : all_exact acc = forallb exact_epoch l;
}.

Lemma scan_result_step l acc e : scan_result l acc -> scan_result (l ++ [e]) (scan_step gs acc e).
Proof.
  destruct e as [id w]. intros [Hr Hb Hn Hw He]. unfold scan_step.
  set (acc' := match gs id with Some _ => _ | None => _ end).
  assert (total_rows acc' = wrap64 (0 + sum_of rows (l ++ [(id, w)])) /\
          total_bytes acc' = wrap64 (0 + sum_of bytes (l ++ [(id, w)])) /\
          acc_workers acc' = acc_workers acc /\
          all_exact acc' = forallb exact_epoch (l ++ [(id, w)])) as (H1 & H2 & H3 & H4).
  { rewrite !sum_of_snoc, forallb_app; simpl. unfold exact_epoch at 2; simpl. subst acc'.
    destruct (gs id) as [s|]; simpl; rewrite ?Hr, ?Hb, ?He, ?u64_add_wrap, ?Z.add_0_r;
      repeat split; try done; [case_bool_decide|]; by rewrite ?andb_true_r, ?andb_false_r. }
  assert (Hw' : forall v, (exists id', (id', v) ∈ l ++ [(id, w)]) <-> v ∈ acc_workers acc \/ v = w).
  { intros v. rewrite Hw. split.
    - intros (id' & [?|Hin]%elem_of_app); [eauto|]. apply list_elem_of_singleton in Hin. naive_solver.
    - intros [(id' & ?)| ->]; [exists id'|exists id]; set_solver. }
  case_bool_decide as Hin; split; simpl; rewrite ?H3 in *; try done.
  - intros v. rewrite Hw'. naive_solver.
  - apply NoDup_app. split; [done|]. split; [set_solver|apply NoDup_singleton].
  - intros v. rewrite Hw'. set_solver.
Qed.

Lemma scan_result_fold l : scan_result l (foldl (scan_step gs) (mkScanAcc 0 0 [] true) l).
Proof.
  induction l as [|e l IH] using rev_ind; simpl.
  - split; simpl; try done; [constructor|]. intros w. split; [|intros (? & H)]; set_solver.
  - rewrite foldl_app. by apply scan_result_step.
Qed.
End aggregation.

(** the statistics of a table scan.  Rows and bytes are the sums over the
    epochs, modulo 2^64; the workers are exactly the workers that hold an
    epoch, each once; the result is [Exact] precisely when there is an epoch
    and every epoch has exact statistics. *)
Theorem aggregate_epochs_spec gs l :
  let t := aggregate_epochs gs l in
  ts_rows t = wrap64 (sum_of gs rows l) /\ ts_bytes t = wrap64 (sum_of gs bytes l) /\
  NoDup (ts_workers t) /\ (forall w, w ∈ ts_workers t <-> exists id, (id, w) ∈ l) /\
  (ts_source t = Exact <-> l <> [] /\ forall e, e ∈ l -> exact_epoch gs e = true).
Proof.
  destruct (scan_result_fold gs l) as [Hr Hb Hn Hw He]. unfold aggregate_epochs; cbn zeta; simpl.
  rewrite Hr, Hb, He. repeat split; try done.
  - intros H. by apply Hw.
  - intros H. by apply Hw.
  - destruct l; simpl in *; [done|]. done.
  - intros e Hin. destruct (forallb (exact_epoch gs) l) eqn:Ef.
    + rewrite forallb_forall in Ef. by apply Ef, list_elem_of_In.
    + destruct l; simpl in H; done.
  - intros [Hne Ha]. rewrite (bool_decide_eq_false_2 (l = [])) by done.
    replace (forallb (exact_epoch gs) l) with true; [done|]. symmetry. apply forallb_forall.
    intros e He'. by apply Ha, list_elem_of_In.
Qed.

(** the planner finds a dataset under its scan macro's name.  For a table
    that has epochs and whose name does not itself start with [scan_], the
    statistics of [scan_<table>] are those of the table. *)
Theorem scan_prefix_resolves (m : InMemory.t) (table : string) :
  is_Some (InMemory.table_epochs m !! table) ->
  InMemory.table_epochs m !! ("scan_" +:+ table) = None ->
  InMemory.table_stats m !! ("scan_" +:+ table) = None ->
  strip_prefix "scan_" table = None ->
  InMemory.table_scan_stats m ("scan_" +:+ table) = InMemory.table_scan_stats m table.
Proof.
  intros [l Hl] He Hs Hp. unfold InMemory.table_scan_stats, InMemory.epochs_for_table, InMemory.resolved_name.
  rewrite Hs, He, strip_prefix_append, Hp, Hl. simpl.
  by destruct (InMemory.table_stats m !! table).
Qed.

Definition sample_metadata : InMemory.t :=
  InMemory.add_epoch (InMemory.add_epoch InMemory.new "e1" "orders" (EpochStats_exact 100 1000) "w1")
    "e2" "orders" (EpochStats_exact 50 500) "w2".

Lemma scan_prefix_resolves_witness :
  InMemory.table_scan_stats sample_metadata "scan_orders" = InMemory.table_scan_stats sample_metadata "orders".
Proof.
  apply (scan_prefix_resolves sample_metadata "orders"); [eexists; reflexivity|reflexivity|reflexivity|reflexivity].
Defined.

Example sample_scan_stats :
  InMemory.table_scan_stats sample_metadata "orders" = mkScanStats 150 1500 ["w1"; "w2"] Exact None.
Proof. reflexivity. Qed.

(** time pruning.  Between two millisecond bounds an epoch is returned
    exactly when it has no recorded time range or its range overlaps the
    queried half-open window, with the worker recorded for it. *)
Theorem epochs_for_table_window m table entries s e (qs qe : Z) id w :
  InMemory.table_epochs m !! InMemory.resolved_name m table = Some entries ->
  parse_u64 s = Some qs -> parse_u64 e = Some qe ->
  (id, w) ∈ InMemory.epochs_for_table m table (Some s) (Some e) <->
  exists tr st, (id, tr) ∈ entries /\ InMemory.epochs m !! id = Some (st, w) /\
    match tr with None => True | Some (a, b) => a < qe /\ qs < b end.
Proof.
  intros Ht Hs He. unfold InMemory.epochs_for_table. rewrite Ht. simpl. rewrite Hs, He.
  rewrite list_elem_of_omap. unfold InMemory.select_epoch. split.
  - intros ((id' & tr) & Hin & Hsel). simpl in Hsel.
    destruct (InMemory.time_matches tr (Some qs) (Some qe)) eqn:Et; [|done].
    apply fmap_Some_1 in Hsel as ([st w'] & Hlk & Heq). simplify_eq. exists tr, st.
    split; [done|]. split; [done|]. destruct tr as [[a b]|]; [|done]. simpl in Et. by bool_hyps.
  - intros (tr & st & Hin & Hlk & Htr). exists (id, tr). split; [done|]. simpl. rewrite Hlk.
    replace (InMemory.time_matches tr (Some qs) (Some qe)) with true; [done|].
    destruct tr as [[a b]|]; [|done]. simpl. symmetry. apply andb_true_iff. rewrite !Z.ltb_lt. done.
Qed.

Lemma epochs_for_table_window_witness :
  ("e1", "w1") ∈ InMemory.epochs_for_table
    (InMemory.add_epoch_with_time_range InMemory.new "e1" "orders" (EpochStats_exact 1 1) "w1" (100, 200))
    "orders" (Some "150") (Some "300").
Proof.
  apply (epochs_for_table_window _ "orders" [("e1", Some (100, 200))] "150" "300" 150 300);
    [reflexivity|reflexivity|reflexivity|].
  exists (Some (100, 200)), (EpochStats_exact 1 1). split; [left|]. split; [reflexivity|lia].
Defined.

(** registering the same epoch again counts it twice: the epoch list of
    the table grows while the epoch map only replaces the entry. *)
Theorem readd_counts_twice (st : EpochStats) (w : WorkerId) :
  let m := InMemory.add_epoch (InMemory.add_epoch InMemory.new "e1" "orders" st w) "e1" "orders" st w in
  ts_rows (InMemory.table_scan_stats m "orders") = wrap64 (2 * rows st).
Proof.
  cbn zeta. set (m := InMemory.add_epoch _ _ _ _ _).
  assert (Hs : InMemory.epoch_stats m "e1" = Some st) by reflexivity.
  transitivity (total_rows (foldl (scan_step (InMemory.epoch_stats m)) (mkScanAcc 0 0 [] true)
    [("e1", w); ("e1", w)])); [reflexivity|].
  rewrite (sr_rows _ _ _ (scan_result_fold (InMemory.epoch_stats m) [("e1", w); ("e1", w)])).
  cbn [sum_of foldr fst]. rewrite Hs. f_equal. lia.
Qed.

(** ** Facts on placements *)

(** [sort_epochs_by_time] changes no answer: every window of every dataset
    selects the same epochs, and the dataset's own are then listed by start
    time. *)
Theorem cluster_sort_correct (m : Cluster.t) (ds : string) :
  (forall ds' qs qe, Cluster.epochs_for (Cluster.sort_epochs_by_time m ds) ds' qs qe ≡ₚ
                     Cluster.epochs_for m ds' qs qe) /\
  (forall es, Cluster.dataset_epochs (Cluster.sort_epochs_by_time m ds) !! ds = Some es ->
     StronglySorted (key_le (Cluster.start_time m ds)) es).
Proof.
  unfold Cluster.sort_epochs_by_time.
  destruct (Cluster.dataset_epochs m !! ds) as [es|] eqn:Ed; simpl; split.
  - intros ds' qs qe. unfold Cluster.epochs_for; simpl. destruct (decide (ds = ds')) as [<-|Hne].
    + rewrite lookup_insert_eq, Ed. apply omap_Permutation, sort_by_key_perm.
    + by rewrite lookup_insert_ne.
  - intros es'. rewrite lookup_insert_eq. intros [= <-]. apply sort_by_key_sorted.
  - done.
  - intros es. by rewrite Ed.
Qed.

(** a freshly registered placement is found by dataset and epoch, and
    selected in every window its time range overlaps. *)
Theorem cluster_register_found (m : Cluster.t) (p : Cluster.EpochPlacement) (qs qe : option Z) :
  let m' := Cluster.register_epoch m p in
  Cluster.worker_for m' (Cluster.dataset_id p) (Cluster.epoch_id p) = Some (Cluster.worker_id p) /\
  Cluster.stats_for m' (Cluster.dataset_id p) (Cluster.epoch_id p) = Some (Cluster.stats p) /\
  ((Cluster.epoch_id p, Cluster.worker_id p) ∈ Cluster.epochs_for m' (Cluster.dataset_id p) qs qe <->
   Cluster.overlaps_time_range p qs qe = true).
Proof.
  cbn zeta. unfold Cluster.worker_for, Cluster.stats_for, Cluster.epochs_for, Cluster.register_epoch; simpl.
  rewrite !lookup_insert_eq. repeat split; try done.
  - intros (e & _ & Hsel)%list_elem_of_omap. unfold Cluster.select_epoch in Hsel; simpl in Hsel.
    destruct (decide (e = Cluster.epoch_id p)) as [->|Hne].
    + rewrite lookup_insert_eq in Hsel. simpl in Hsel. by destruct (Cluster.overlaps_time_range p qs qe).
    + rewrite lookup_insert_ne in Hsel by congruence. destruct (Cluster.epochs m !! _); simpl in Hsel; [|done].
      case_match; congruence.
  - intros Ho. apply list_elem_of_omap. exists (Cluster.epoch_id p). split; [set_solver|].
    unfold Cluster.select_epoch; simpl. rewrite lookup_insert_eq; simpl. by rewrite Ho.
Qed.

(** the statistics of a table are looked up by bare epoch id in whatever
    order the hash map iterates, so an epoch id used by two datasets makes the
    statistics of one table depend on that order. *)
Theorem cluster_stats_order_dependent :
  exists (m : Cluster.t) o1 o2, Cluster.is_order m o1 /\ Cluster.is_order m o2 /\
    ts_rows (Cluster.get_table_scan_stats m o1 "small") <>
    ts_rows (Cluster.get_table_scan_stats m o2 "small").
Proof.
  set (p1 := Cluster.mkPlacement "e1" "small" "w1" (0, 10) (EpochStats_exact 1 1)).
  set (p2 := Cluster.mkPlacement "e1" "large" "w1" (0, 10) (EpochStats_exact 1000 1000)).
  set (m := Cluster.register_epoch (Cluster.register_epoch Cluster.new p1) p2).
  exists m, (map_to_list (Cluster.epochs m)), (reverse (map_to_list (Cluster.epochs m))).
  split; [apply Permutation_refl|]. split; [apply reverse_Permutation|]. vm_compute. discriminate.
Qed.
