(* ===== verification/Annotate.v ===== *)
(** * Annotation and exchange enforcement (ldp/planner/annotate.rs)

    The core of the planner: bottom-up distribution properties, and an exchange
    above every child whose distribution does not meet its parent's
    requirement. *)

From S2P Require Import Prelude Float64 SqlAst LogicalPlan LdpTypes Policy Requirements ExchangeSelect Metadata.

#[local] Open Scope Z_scope.
#[local] Set Warnings "-register-all".

(** ** Data *)

Inductive AnnotatedPlan := Annotated {
  ap_plan : LogicalPlan;
  ap_annotation : DistributionAnnotation;
  exchange_before : option Exchange;
  pre_exchange_distribution : option Distribution;
  ap_children : list AnnotatedPlan;
}.

Definition annotated_new (plan : LogicalPlan) (a : DistributionAnnotation) (cs : list AnnotatedPlan)
    : AnnotatedPlan := Annotated plan a None None cs.

Definition annotated_with_exchange (plan : LogicalPlan) (a : DistributionAnnotation)
    (cs : list AnnotatedPlan) (ex : Exchange) : AnnotatedPlan := Annotated plan a (Some ex) None cs.

Fixpoint has_any_exchange (t : AnnotatedPlan) : bool :=
  match exchange_before t with
  | Some _ => true
  | None => existsb has_any_exchange (ap_children t)
  end.

Fixpoint count_exchanges (t : AnnotatedPlan) : nat :=
  (match exchange_before t with Some _ => 1 | None => 0 end
   + list_sum (map count_exchanges (ap_children t)))%nat.

Inductive PlanningError :=
| Rejected (reason : RejectReason)
| MissingMetadata (table : string)
| InvalidPlan (msg : string).

Abbreviation dist_of t := (distribution (ap_annotation t)).

(** ** Estimates *)

Definition estimate_group_cardinality (input_rows : Z) (num_group_keys : nat) : Z :=
  if (num_group_keys =? 0)%nat then 1
  else
    let base := f64_to_u64 (f64_sqrt (f64_of_u64 input_rows)) in
    let factor := f64_sqrt (f64_of_u64 (Z.of_nat num_group_keys)) in
    f64_to_u64 (f64_mul (f64_of_u64 base) factor).

Definition combine_stats_sources (a b : StatsSource) : StatsSource :=
  match a, b with
  | Exact, Exact => Exact
  | Unknown, _ | _, Unknown => Unknown
  | _, _ => Estimated
  end.

(** ** Exchanges of a node *)

Definition compute_post_exchange_distribution (exchange : Exchange) (policy : PlannerPolicy)
    (upstream_workers : list WorkerId) : Distribution :=
  match exchange with
  | Gather target => Singleton target
  | Broadcast targets => Replicated targets
  | HashPartition column_refs partitions =>
      HashPartitioned column_refs
        (match upstream_workers with
         | [] => replicate (Z.to_nat partitions) (pol_coordinator policy)
         | _ => upstream_workers
         end)
  end.

Definition handle_join_exchanges (plan : LogicalPlan) (left_child right_child : AnnotatedPlan)
    (policy : PlannerPolicy) (targets : list WorkerId)
    : result (ExchangeDecision * ExchangeDecision) PlanningError :=
  match plan with
  | Join _ _ _ left_keys right_keys =>
      if bool_decide (left_keys = []) || bool_decide (right_keys = []) then
        let right_dist := dist_of right_child in
        if is_singleton right_dist then Ok (NoExchange, NoExchange)
        else
          match determine_exchange right_dist (ap_annotation right_child) RequireSingleton policy false targets with
          | Reject reason => Err (Rejected reason)
          | right_exchange => Ok (NoExchange, right_exchange)
          end
      else
        let '(left_decision, right_decision) :=
          determine_join_exchanges
            {| left_annotation := ap_annotation left_child; right_annotation := ap_annotation right_child;
               left_actual := dist_of left_child; right_actual := dist_of right_child;
               jc_left_keys := left_keys; jc_right_keys := right_keys;
               jc_policy := policy; jc_target_workers := targets |} in
        match left_decision with
        | Reject reason => Err (Rejected reason)
        | _ =>
            match right_decision with
            | Reject reason => Err (Rejected reason)
            | _ => Ok (left_decision, right_decision)
            end
        end
  | _ => Ok (NoExchange, NoExchange)
  end.

Definition inserted (d : ExchangeDecision) : option Exchange :=
  match d with Insert ex => Some ex | _ => None end.

(** The loop over children and requirements for operators other than joins. *)
Fixpoint standard_exchanges (policy : PlannerPolicy) (targets : list WorkerId)
    (cs : list AnnotatedPlan) (rs : list RequiredDistribution)
    : result (list (option Exchange)) PlanningError :=
  match cs, rs with
  | c :: cs, r :: rs =>
      let? ex :=
        if is_satisfied_by r (dist_of c) then Ok None
        else
          match determine_exchange (dist_of c) (ap_annotation c) r policy false targets with
          | NoExchange => Ok None
          | Insert e => Ok (Some e)
          | Reject reason => Err (Rejected reason)
          end in
      let? rest := standard_exchanges policy targets cs rs in
      Ok (ex :: rest)
  | cs, _ => Ok (map (fun _ => None) cs)
  end.

Definition node_exchanges (plan : LogicalPlan) (policy : PlannerPolicy) (targets : list WorkerId)
    (cs : list AnnotatedPlan) : result (list (option Exchange)) PlanningError :=
  match plan, cs with
  | Join _ _ _ _ _, [l; r] =>
      let? decisions := handle_join_exchanges plan l r policy targets in
      Ok [inserted (fst decisions); inserted (snd decisions)]
  | _, _ => standard_exchanges policy targets cs (get_logical_plan_requirements plan)
  end.

(** Step 5: put the exchange on the child and record both distributions. *)
Definition apply_exchange (policy : PlannerPolicy) (child : AnnotatedPlan) (ex : option Exchange)
    : AnnotatedPlan :=
  match ex with
  | None => child
  | Some exchange =>
      let pre := dist_of child in
      let a := ap_annotation child in
      Annotated (ap_plan child)
        (mkAnnotation (compute_post_exchange_distribution exchange policy (workers pre))
           (est_rows a) (est_bytes a) (stats_source a))
        (Some exchange) (Some pre) (ap_children child)
  end.

(** ** Output distribution *)

Definition node_output : Type := Distribution * Z * Z * StatsSource.

Definition no_child_output (policy : PlannerPolicy) : node_output :=
  (Singleton (pol_coordinator policy), 0, 0, Unknown).

Definition preserve_child (policy : PlannerPolicy) (cs : list AnnotatedPlan) : node_output :=
  match cs with
  | c :: _ => (dist_of c, est_rows (ap_annotation c), est_bytes (ap_annotation c), stats_source (ap_annotation c))
  | [] => no_child_output policy
  end.

Definition output_scan (s : TableScanStats) : node_output := (to_distribution s, ts_rows s, ts_bytes s, ts_source s).

Definition output_filter (policy : PlannerPolicy) (cs : list AnnotatedPlan) : node_output :=
  match cs with
  | c :: _ => (dist_of c, f64_scale (est_rows (ap_annotation c)) f64_0_5,
               f64_scale (est_bytes (ap_annotation c)) f64_0_5, stats_source (ap_annotation c))
  | [] => no_child_output policy
  end.

(** [Sort] and [Limit]. *)
Definition output_singleton (policy : PlannerPolicy) (cs : list AnnotatedPlan) : node_output :=
  match cs with
  | c :: _ => (Singleton (pol_coordinator policy), est_rows (ap_annotation c),
               est_bytes (ap_annotation c), stats_source (ap_annotation c))
  | [] => no_child_output policy
  end.

Definition output_aggregate (policy : PlannerPolicy) (group_keys : list ColumnRef)
    (cs : list AnnotatedPlan) : node_output :=
  let '(r, b, src) :=
    match cs with
    | c :: _ =>
        let a := ap_annotation c in
        if bool_decide (group_keys = []) then (1, 100, stats_source a)
        else
          let groups := estimate_group_cardinality (est_rows a) (length group_keys) in
          let bytes_per_row := if 0 <? est_rows a then est_bytes a / est_rows a else 100 in
          (groups, u64_mul groups bytes_per_row, stats_source a)
    | [] => (0, 0, Unknown)
    end in
  let dist :=
    match cs with
    | c :: _ =>
        match dist_of c with
        | Singleton w => Singleton w
        | HashPartitioned refs ws => HashPartitioned refs ws
        | _ => Singleton (pol_coordinator policy)
        end
    | [] => Singleton (pol_coordinator policy)
    end in
  (dist, r, b, src).

Definition output_join (policy : PlannerPolicy) (cs : list AnnotatedPlan) : node_output :=
  match cs with
  | l :: r :: _ =>
      let la := ap_annotation l in
      let ra := ap_annotation r in
      let rows := f64_scale (est_rows la) f64_0_1 in
      let bytes_per_row :=
        if 0 <? est_rows la then u64_add (est_bytes la) (est_bytes ra) / Z.max (est_rows la) 1 else 100 in
      let dist :=
        match distribution la, distribution ra with
        | Replicated _, _ => distribution ra
        | _, Replicated _ => distribution la
        | _, _ => distribution la
        end in
      (dist, rows, u64_mul rows bytes_per_row, combine_stats_sources (stats_source la) (stats_source ra))
  | _ => no_child_output policy
  end.

Definition output_setop (policy : PlannerPolicy) (cs : list AnnotatedPlan) : node_output :=
  (match cs with c :: _ => dist_of c | [] => Singleton (pol_coordinator policy) end,
   foldl (fun acc c => u64_add acc (est_rows (ap_annotation c))) 0 cs,
   foldl (fun acc c => u64_add acc (est_bytes (ap_annotation c))) 0 cs,
   foldl (fun acc c => combine_stats_sources acc (stats_source (ap_annotation c))) Exact cs).

Definition output_window (policy : PlannerPolicy) (partition_keys : list ColumnRef)
    (cs : list AnnotatedPlan) : node_output :=
  match cs with
  | c :: _ =>
      let a := ap_annotation c in
      let dist :=
        if bool_decide (partition_keys = []) then distribution a
        else
          match distribution a with
          | HashPartitioned column_refs ws =>
              if all_match column_refs partition_keys then HashPartitioned column_refs ws
              else distribution a
          | Replicated ws => HashPartitioned partition_keys ws
          | other => other
          end in
      (dist, est_rows a, est_bytes a, stats_source a)
  | [] => no_child_output policy
  end.

Section annotate.
Context {M : Type} `{Metadata M} (metadata : M) (policy : PlannerPolicy).

Definition compute_output_distribution (plan : LogicalPlan) (cs : list AnnotatedPlan)
    : result node_output PlanningError :=
  Ok match plan with
     | Scan table_name _ _ => output_scan (get_table_scan_stats metadata table_name)
     | ExchangeRead _ _ => no_child_output policy
     | Filter _ _ => output_filter policy cs
     | Project _ _ => preserve_child policy cs
     | Sort _ _ | Limit _ _ _ => output_singleton policy cs
     | Aggregate _ _ _ _ group_keys => output_aggregate policy group_keys cs
     | Join _ _ _ _ _ => output_join policy cs
     | SetOp _ _ _ _ => output_setop policy cs
     | Window _ _ partition_keys => output_window policy partition_keys cs
     | SubqueryScan _ _ => preserve_child policy cs
     end.

(** Steps 2 to 6 of [annotate_recursive]: one node over its annotated
    children. *)
Definition annotate_node (targets : list WorkerId) (plan : LogicalPlan) (cs : list AnnotatedPlan)
    : result AnnotatedPlan PlanningError :=
  let? exchanges := node_exchanges plan policy targets cs in
  let cs' := zip_with (apply_exchange policy) cs exchanges in
  let? out := compute_output_distribution plan cs' in
  let '(dist, r, b, src) := out in
  Ok (annotated_new plan (annotation_with_source dist r b src) cs').

Fixpoint annotate_recursive (targets : list WorkerId) (plan : LogicalPlan)
    : result AnnotatedPlan PlanningError :=
  let? cs :=
    match plan with
    | Scan _ _ _ | ExchangeRead _ _ => Ok []
    | Filter i _ | Project i _ | Aggregate i _ _ _ _ | Sort i _ | Limit i _ _
    | Window i _ _ | SubqueryScan i _ =>
        let? c := annotate_recursive targets i in Ok [c]
    | Join l r _ _ _ | SetOp l r _ _ =>
        let? a := annotate_recursive targets l in
        let? b := annotate_recursive targets r in Ok [a; b]
    end in
  annotate_node targets plan cs.

Definition annotate_logical_plan (plan : LogicalPlan) : result AnnotatedPlan PlanningError :=
  annotate_recursive [] plan.
End annotate.
