(* ===== verification/Enforce.v ===== *)
(** * Correctness of exchange enforcement

    The specification of what the annotated plan promises to stage cutting:
    every input of every operator has the distribution the operator requires,
    the exchanges that establish it are recorded with the distribution they
    start from, and the only errors are rejections by the data movement
    limits. *)

From S2P Require Import Prelude Float64 SqlAst LogicalPlan LdpTypes Policy Requirements ExchangeSelect Metadata Annotate.

#[local] Open Scope Z_scope.

(** ** Specification *)

(** The distribution a parent sees after a decision. *)
Definition decided_distribution (policy : PlannerPolicy) (actual : Distribution) (d : ExchangeDecision)
    : Distribution :=
  match d with
  | Insert ex => compute_post_exchange_distribution ex policy (workers actual)
  | _ => actual
  end.

(** The data movement limit an inserted exchange respects. *)
Definition exchange_allowed (policy : PlannerPolicy) (a : DistributionAnnotation) (ex : Exchange) : Prop :=
  let '(r, b) := with_safety_factor a (safety_factor policy) in
  match ex with
  | Gather target =>
      target = pol_coordinator policy /\ can_gather_with_safety policy r b (is_exact (stats_source a)) = true
  | Broadcast _ => stats_source a = Exact /\ b <= broadcast_bytes_max policy
  | HashPartition _ n => n = default_partitions policy /\ b <= shuffle_bytes_max policy
  end.

(** One input against the requirement of its parent. *)
Definition input_enforced (policy : PlannerPolicy) (c : AnnotatedPlan) (r : RequiredDistribution) : Prop :=
  is_satisfied_by r (dist_of c) = true /\
  match exchange_before c with
  | None => pre_exchange_distribution c = None
  | Some ex => exists d,
      pre_exchange_distribution c = Some d /\ is_satisfied_by r d = false /\
      dist_of c = compute_post_exchange_distribution ex policy (workers d)
  end.

(** The side of an equi-join that the broadcast strategy leaves where it is:
    already partitioned on its keys, with exact statistics under the limit. *)
Definition broadcast_skipped (policy : PlannerPolicy) (a : DistributionAnnotation) (d : Distribution)
    (keys : list ColumnRef) : Prop :=
  is_satisfied_by (RequireHashPartitioned keys) d = true /\
  stats_source a = Exact /\ est_bytes a <= broadcast_bytes_max policy.

Definition colocated (lk rk : list ColumnRef) (dl dr : Distribution) : Prop :=
  (is_satisfied_by (RequireHashPartitioned lk) dl = true /\
   is_satisfied_by (RequireHashPartitioned rk) dr = true)
  \/ is_replicated dl = true \/ is_replicated dr = true.

Definition is_equi_join (p : LogicalPlan) : bool :=
  match p with Join _ _ _ (_ :: _) (_ :: _) => true | _ => false end.

Definition join_enforced (policy : PlannerPolicy) (lk rk : list ColumnRef) (cs : list AnnotatedPlan) : Prop :=
  match cs with
  | [l; r] =>
      colocated lk rk (dist_of l) (dist_of r)
      \/ broadcast_skipped policy (ap_annotation l) (dist_of l) lk
      \/ broadcast_skipped policy (ap_annotation r) (dist_of r) rk
  | _ => False
  end.

Definition node_enforced (policy : PlannerPolicy) (t : AnnotatedPlan) : Prop :=
  map ap_plan (ap_children t) = children (ap_plan t) /\
  match ap_plan t with
  | Join _ _ _ ((_ :: _) as lk) ((_ :: _) as rk) => join_enforced policy lk rk (ap_children t)
  | p => Forall2 (input_enforced policy) (ap_children t) (get_logical_plan_requirements p)
  end.

Fixpoint enforced (policy : PlannerPolicy) (t : AnnotatedPlan) : Prop :=
  node_enforced policy t /\
  foldr (fun c acc => enforced policy c /\ acc) True (ap_children t).

(** ** One exchange *)

Lemma with_safety_factor_is_exact a f :
  is_exact (stats_source a) = true -> with_safety_factor a f = (est_rows a, est_bytes a).
Proof. destruct (stats_source a) eqn:E; try done. auto with worker. Qed.

Lemma is_exact_eq s : is_exact s = true -> s = Exact.
Proof. by destruct s. Qed.

Lemma post_hash_satisfied refs n policy ws :
  is_satisfied_by (RequireHashPartitioned refs)
    (compute_post_exchange_distribution (HashPartition refs n) policy ws) = true.
Proof. simpl. apply all_match_refl. Qed.

#[local] Hint Resolve is_exact_eq post_hash_satisfied : worker.

Lemma determine_exchange_cases actual a required policy join targets :
  match determine_exchange actual a required policy join targets with
  | NoExchange => is_satisfied_by required actual = true
  | Insert ex =>
      is_satisfied_by required actual = false /\
      is_satisfied_by required (compute_post_exchange_distribution ex policy (workers actual)) = true /\
      exchange_allowed policy a ex
  | Reject _ => is_satisfied_by required actual = false
  end.
Proof.
  unfold determine_exchange. destruct (is_satisfied_by required actual) eqn:Hs; [done|].
  destruct (with_safety_factor a (safety_factor policy)) as [r b] eqn:Hf.
  destruct required as [| |refs]; [done| |].
  - unfold determine_gather_exchange, exchange_allowed. rewrite Hf.
    destruct (can_gather_with_safety policy r b (is_exact (stats_source a))) eqn:Hg; [|done].
    done.
  - unfold determine_hash_or_broadcast_exchange, exchange_allowed. rewrite Hf.
    destruct (can_optimize_to_broadcast policy b _ join) eqn:Hb.
    { unfold can_optimize_to_broadcast in Hb. bool_hyps. eauto with worker. }
    unfold can_shuffle. destruct (b <=? shuffle_bytes_max policy) eqn:Hc; simpl; [|done].
    bool_hyps. rewrite all_match_refl. eauto.
Qed.

(** ** Joins *)

Lemma can_broadcast_facts policy a b join :
  snd (with_safety_factor a (safety_factor policy)) = b ->
  can_optimize_to_broadcast policy b (is_exact (stats_source a)) join = true ->
  stats_source a = Exact /\ est_bytes a <= broadcast_bytes_max policy.
Proof.
  unfold can_optimize_to_broadcast. intros <- H. bool_hyps.
  rewrite with_safety_factor_is_exact in * by done. eauto with worker.
Qed.

(** The promise on the two sides after their decisions. *)
Definition join_decided (ctx : JoinExchangeContext) (ld rd : ExchangeDecision) : Prop :=
  let pl := decided_distribution (jc_policy ctx) (left_actual ctx) ld in
  let pr := decided_distribution (jc_policy ctx) (right_actual ctx) rd in
  colocated (jc_left_keys ctx) (jc_right_keys ctx) pl pr
  \/ (ld = NoExchange /\
      broadcast_skipped (jc_policy ctx) (left_annotation ctx) (left_actual ctx) (jc_left_keys ctx))
  \/ (rd = NoExchange /\
      broadcast_skipped (jc_policy ctx) (right_annotation ctx) (right_actual ctx) (jc_right_keys ctx)).

Definition rejected (d : ExchangeDecision) : bool := match d with Reject _ => true | _ => false end.

Section join.
Context (ctx : JoinExchangeContext).
Abbreviation ls := (is_satisfied_by (RequireHashPartitioned (jc_left_keys ctx)) (left_actual ctx)).
Abbreviation rs := (is_satisfied_by (RequireHashPartitioned (jc_right_keys ctx)) (right_actual ctx)).

Lemma broadcast_left_decided targets :
  stats_source (left_annotation ctx) = Exact /\ est_bytes (left_annotation ctx) <= broadcast_bytes_max (jc_policy ctx) ->
  join_decided ctx (if ls then NoExchange else Insert (Broadcast targets)) NoExchange.
Proof.
  intros H. unfold join_decided. destruct ls eqn:E.
  - right; left. split; [done|]. split; done.
  - left; right; left. done.
Qed.

Lemma broadcast_right_decided targets :
  stats_source (right_annotation ctx) = Exact /\ est_bytes (right_annotation ctx) <= broadcast_bytes_max (jc_policy ctx) ->
  join_decided ctx NoExchange (if rs then NoExchange else Insert (Broadcast targets)).
Proof.
  intros H. unfold join_decided. destruct rs eqn:E.
  - right; right. split; [done|]. split; done.
  - left; right; right. done.
Qed.

Lemma shuffle_decided n m :
  join_decided ctx (if ls then NoExchange else Insert (HashPartition (jc_left_keys ctx) n))
    (if rs then NoExchange else Insert (HashPartition (jc_right_keys ctx) m)).
Proof.
  left; left. split.
  - destruct ls eqn:E; [done|]. apply post_hash_satisfied.
  - destruct rs eqn:E; [done|]. apply post_hash_satisfied.
Qed.

Lemma join_strategy_decided ld rd :
  join_strategy ctx ls rs = (ld, rd) -> rejected ld = false ->
  rejected rd = false /\ join_decided ctx ld rd.
Proof.
  unfold join_strategy.
  destruct (with_safety_factor (left_annotation ctx) _) as [lr lb] eqn:El.
  destruct (with_safety_factor (right_annotation ctx) _) as [rr rb] eqn:Er.
  pose proof (can_broadcast_facts _ _ _ true (f_equal snd El)) as Cl.
  pose proof (can_broadcast_facts _ _ _ true (f_equal snd Er)) as Cr.
  simpl in Cl, Cr.
  destruct (can_optimize_to_broadcast _ lb _ _), (can_optimize_to_broadcast _ rb _ _).
  - destruct (lb <=? rb); intros [= <- <-] _.
    + split; [done|]. by apply broadcast_left_decided, Cl.
    + split; [by repeat case_match|]. by apply broadcast_right_decided, Cr.
  - intros [= <- <-] _. split; [done|]. by apply broadcast_left_decided, Cl.
  - intros [= <- <-] _. split; [by repeat case_match|]. by apply broadcast_right_decided, Cr.
  - destruct (negb _); intros [= <- <-]; [done|]. intros _.
    split; [by repeat case_match|apply shuffle_decided].
Qed.

(** Every outcome of [determine_join_exchanges] that is not a rejection. *)
Lemma join_exchanges_decided ld rd :
  determine_join_exchanges ctx = (ld, rd) -> rejected ld = false ->
  rejected rd = false /\ join_decided ctx ld rd.
Proof.
  unfold determine_join_exchanges.
  destruct (is_replicated (right_actual ctx)) eqn:Hrep.
  { intros [= <- <-] _. split; [done|]. left; right; right. done. }
  destruct (co_partitioned ctx) eqn:Hco.
  { intros [= <- <-] _. split; [done|]. left; left. revert Hco. unfold co_partitioned, keys_match.
    destruct (left_actual ctx), (right_actual ctx); simpl; try done. intros; bool_hyps.
    split; rewrite all_match_sym; done. }
  destruct (ls && rs) eqn:Hs; [|apply join_strategy_decided].
  intros [= <- <-] _. split; [done|]. bool_hyps. left; left. done.
Qed.
End join.

(** ** One node *)

Definition fresh (c : AnnotatedPlan) : Prop :=
  exchange_before c = None /\ pre_exchange_distribution c = None.

Lemma apply_exchange_children policy c ex :
  ap_plan (apply_exchange policy c ex) = ap_plan c /\
  ap_children (apply_exchange policy c ex) = ap_children c.
Proof. by destruct ex. Qed.

Lemma enforced_apply_exchange policy c ex :
  enforced policy c -> enforced policy (apply_exchange policy c ex).
Proof. by destruct c, ex. Qed.

(** A child with the exchange of a satisfied decision meets the requirement. *)
Lemma input_enforced_decide policy targets c r ex :
  fresh c ->
  (if is_satisfied_by r (dist_of c) then Ok None
   else match determine_exchange (dist_of c) (ap_annotation c) r policy false targets with
        | NoExchange => Ok None
        | Insert e => Ok (Some e)
        | Reject reason => Err (Rejected reason)
        end) = Ok ex ->
  input_enforced policy (apply_exchange policy c ex) r.
Proof.
  intros [Hf1 Hf2]. destruct (is_satisfied_by r (dist_of c)) eqn:Hs.
  { intros [= <-]. unfold input_enforced. simpl. by rewrite Hf1. }
  pose proof (determine_exchange_cases (dist_of c) (ap_annotation c) r policy false targets) as H.
  destruct (determine_exchange _ _ _ _ _ _); intros [= <-]; [congruence|].
  destruct H as (? & ? & _). unfold input_enforced. simpl. eauto.
Qed.

Lemma standard_exchanges_enforced policy targets cs rs exs :
  length cs = length rs -> Forall fresh cs ->
  standard_exchanges policy targets cs rs = Ok exs ->
  length exs = length cs /\
  Forall2 (input_enforced policy) (zip_with (apply_exchange policy) cs exs) rs.
Proof.
  revert rs exs. induction cs as [|c cs IH]; intros [|r rs] exs Hlen Hf; try done.
  { intros [= <-]. split; constructor. }
  cbn [standard_exchanges]. intros H. inv_bind H. inv_bind H. injection H as <-.
  apply Forall_cons in Hf as [Hc Hcs]. apply input_enforced_decide in E; [|done].
  destruct (IH rs a0) as [? ?]; [simpl in Hlen; lia|done|done|]. split; [simpl; lia|]. by constructor.
Qed.

(** The same for the two inputs of a join without equality keys. *)
Lemma cross_join_enforced policy targets l r ld rd pl pr op lk rk :
  fresh l -> fresh r -> lk = [] \/ rk = [] ->
  handle_join_exchanges (Join pl pr op lk rk) l r policy targets = Ok (ld, rd) ->
  input_enforced policy (apply_exchange policy l (inserted ld)) AnyDistribution /\
  input_enforced policy (apply_exchange policy r (inserted rd)) RequireSingleton.
Proof.
  intros Hl Hr Hk. unfold handle_join_exchanges.
  assert (bool_decide (lk = []) || bool_decide (rk = []) = true) as ->
    by (apply orb_true_iff; rewrite !bool_decide_eq_true; done).
  assert (Hany : input_enforced policy l AnyDistribution).
  { unfold input_enforced. destruct Hl as [-> ->]. done. }
  destruct (is_singleton (dist_of r)) eqn:Hs.
  { intros [= <- <-]. split; [done|]. apply (input_enforced_decide policy targets); [done|].
    simpl. by rewrite Hs. }
  pose proof (input_enforced_decide policy targets r RequireSingleton) as H. simpl in H. rewrite Hs in H.
  destruct (determine_exchange _ _ _ _ _ _); intros [= <- <-]; split; auto; by apply H.
Qed.

(** A decision that is not a rejection puts the decided distribution on the
    child and keeps its statistics. *)
Lemma apply_inserted policy c d :
  dist_of (apply_exchange policy c (inserted d)) = decided_distribution policy (dist_of c) d /\
  stats_source (ap_annotation (apply_exchange policy c (inserted d))) = stats_source (ap_annotation c) /\
  est_bytes (ap_annotation (apply_exchange policy c (inserted d))) = est_bytes (ap_annotation c).
Proof. by destruct d. Qed.

Lemma equi_join_enforced policy targets l r ld rd pl pr op k1 lk k2 rk :
  handle_join_exchanges (Join pl pr op (k1 :: lk) (k2 :: rk)) l r policy targets = Ok (ld, rd) ->
  join_enforced policy (k1 :: lk) (k2 :: rk)
    [apply_exchange policy l (inserted ld); apply_exchange policy r (inserted rd)].
Proof.
  unfold handle_join_exchanges. cbn [bool_decide orb]. rewrite !bool_decide_eq_false_2 by done. cbn [orb].
  destruct (determine_join_exchanges _) as [ld' rd'] eqn:Hd. intros H.
  assert (ld' = ld /\ rd' = rd /\ rejected ld = false) as (-> & -> & Hrej).
  { destruct ld', rd'; simplify_eq; done. }
  apply join_exchanges_decided in Hd as [_ Hd]; [|done]. unfold join_decided in Hd. simpl in Hd.
  unfold join_enforced, broadcast_skipped.
  destruct (apply_inserted policy l ld) as (-> & -> & ->).
  destruct (apply_inserted policy r rd) as (-> & -> & ->).
  destruct Hd as [?|[[-> ?]|[-> ?]]]; auto.
Qed.

Lemma node_exchanges_enforced policy targets plan cs exs :
  map ap_plan cs = children plan -> Forall fresh cs ->
  node_exchanges plan policy targets cs = Ok exs ->
  length exs = length cs /\
  (forall a, node_enforced policy (annotated_new plan a (zip_with (apply_exchange policy) cs exs))).
Proof.
  intros Hch Hf H.
  assert (Hlen : length cs = length (get_logical_plan_requirements plan)).
  { by rewrite requirements_length, <- (length_map ap_plan), Hch. }
  assert (Hplans : length exs = length cs ->
    map ap_plan (zip_with (apply_exchange policy) cs exs) = children plan).
  { rewrite <- Hch. clear. revert exs. induction cs as [|c cs IH]; intros [|ex exs]; simpl; try done.
    intros [= Hl]. rewrite IH by done. by rewrite (proj1 (apply_exchange_children policy c ex)). }
  unfold node_enforced. simpl.
  destruct plan; try (apply standard_exchanges_enforced in H as [Hl ?]; [|done..]; split; [done|];
    intros _; split; [by apply Hplans|done]).
  destruct cs as [|l [|r [|]]]; try discriminate Hch. clear Hlen.
  cbn [node_exchanges] in H. inv_bind H. injection H as <-. destruct a as [ld rd].
  split; [done|]. intros _. split; [by apply Hplans|].
  apply Forall_cons in Hf as [Hl [Hr _]%Forall_cons]. simpl.
  destruct left_keys as [|k1 lk]; [|destruct right_keys as [|k2 rk]].
  1, 2: simpl; apply cross_join_enforced in E as [? ?]; auto.
  eapply equi_join_enforced, E.
Qed.

(** ** The whole plan *)

Section whole.
Context {M : Type} `{Metadata M} (metadata : M) (policy : PlannerPolicy) (targets : list WorkerId).

Lemma annotate_node_enforced plan cs t :
  map ap_plan cs = children plan -> Forall (fun c => fresh c /\ enforced policy c) cs ->
  annotate_node metadata policy targets plan cs = Ok t ->
  ap_plan t = plan /\ fresh t /\ enforced policy t.
Proof.
  intros Hch Hcs Ht. unfold annotate_node in Ht.
  destruct (node_exchanges plan policy targets cs) eqn:E; [|done]. cbn [result_bind] in Ht.
  destruct (compute_output_distribution _ _ _ _) as [[[[d r] b] src]|]; [|done].
  injection Ht as <-. do 2 (split; [done|]).
  apply node_exchanges_enforced in E as [_ Hn]; [|done|].
  2: { eapply Forall_impl; [exact Hcs|]. by intros c []. }
  split; [apply Hn|]. simpl. clear -Hcs. revert a.
  induction Hcs as [|c cs [_ Hc] _ IH]; intros [|ex exs]; simpl; try done.
  split; [by apply enforced_apply_exchange|apply IH].
Qed.

(** The recursion over [plan.children()], as the source writes it. *)
Lemma annotate_recursive_eq plan :
  annotate_recursive metadata policy targets plan =
  let? cs := collect_results (annotate_recursive metadata policy targets) (children plan) in
  annotate_node metadata policy targets plan cs.
Proof.
  destruct plan; cbn [annotate_recursive children collect_results]; try done;
    repeat match goal with
    | |- context [annotate_recursive metadata policy targets ?p] =>
        destruct (annotate_recursive metadata policy targets p); cbn [result_bind]; try done
    end.
Qed.

Lemma annotate_recursive_enforced plan t :
  annotate_recursive metadata policy targets plan = Ok t ->
  ap_plan t = plan /\ fresh t /\ enforced policy t.
Proof.
  revert t. induction plan as [plan IH] using LogicalPlan_children_ind. intros t. rewrite annotate_recursive_eq.
  destruct (collect_results _ _) as [cs|] eqn:Hcs; [|done]. cbn [result_bind].
  apply collect_results_Forall2 in Hcs. apply annotate_node_enforced.
  - clear -Hcs IH. induction Hcs; [done|]. apply Forall_cons in IH as [Hp ?]. simpl.
    f_equal; [by apply Hp|auto].
  - clear -Hcs IH. induction Hcs; [done|]. apply Forall_cons in IH as [Hp ?].
    constructor; [by apply Hp|auto].
Qed.
End whole.

(** ** Widths, and the policy without limits *)

Definition ann_in_u64 (a : DistributionAnnotation) : Prop := in_u64 (est_rows a) /\ in_u64 (est_bytes a).

Definition unlimited (policy : PlannerPolicy) : Prop :=
  u64_max <= shuffle_bytes_max policy /\ u64_max <= gather_rows_max policy /\
  u64_max <= gather_bytes_max policy.

Lemma in_u64_le z m : in_u64 z -> u64_max <= m -> (z <=? m) = true.
Proof. unfold in_u64, u64_max. intros. apply Z.leb_le. lia. Qed.

Lemma with_safety_factor_in a f :
  ann_in_u64 a -> in_u64 (fst (with_safety_factor a f)) /\ in_u64 (snd (with_safety_factor a f)).
Proof. unfold with_safety_factor. intros []. destruct (is_uncertain _); simpl; auto with worker. Qed.

Lemma can_gather_unlimited policy r b exact :
  unlimited policy -> in_u64 r -> in_u64 b -> can_gather_with_safety policy r b exact = true.
Proof.
  intros (_ & ? & ?) ? ?. unfold can_gather_with_safety.
  destruct exact; rewrite !in_u64_le; auto with worker.
Qed.

Lemma determine_exchange_unlimited policy actual a required join targets :
  unlimited policy -> ann_in_u64 a ->
  rejected (determine_exchange actual a required policy join targets) = false.
Proof.
  intros Hu Ha. unfold determine_exchange. destruct (is_satisfied_by _ _); [done|].
  destruct (with_safety_factor_in a (safety_factor policy) Ha) as [Hr Hb].
  destruct (with_safety_factor _ _) as [r b] eqn:Hf. simpl in Hr, Hb.
  destruct required as [| |refs]; [done| |].
  - unfold determine_gather_exchange. by rewrite can_gather_unlimited.
  - unfold determine_hash_or_broadcast_exchange, can_shuffle. rewrite Hf.
    destruct (can_optimize_to_broadcast _ _ _ _); [done|].
    by rewrite in_u64_le by (done || apply Hu).
Qed.

Lemma determine_join_unlimited ctx ld rd :
  unlimited (jc_policy ctx) -> determine_join_exchanges ctx = (ld, rd) -> rejected ld = false.
Proof.
  intros [Hu _]. unfold determine_join_exchanges, join_strategy, can_shuffle.
  repeat case_match; intros [= <- <-]; try done.
  match goal with H : negb (u64_add _ _ <=? _) = true |- _ =>
    rewrite in_u64_le in H by (done || apply wrap64_in); discriminate H end.
Qed.

Lemma apply_exchange_in_u64 policy c ex :
  ann_in_u64 (ap_annotation c) -> ann_in_u64 (ap_annotation (apply_exchange policy c ex)).
Proof. by destruct ex. Qed.

Lemma node_exchanges_unlimited policy targets plan cs :
  unlimited policy -> Forall (fun c => ann_in_u64 (ap_annotation c)) cs ->
  exists exs, node_exchanges plan policy targets cs = Ok exs.
Proof.
  intros Hu Hcs.
  assert (Hstd : forall rs, exists exs, standard_exchanges policy targets cs rs = Ok exs).
  { induction Hcs as [|c cs Hc Hcs IH]; intros [|r rs]; simpl; eauto. destruct (IH rs) as [exs ->].
    pose proof (determine_exchange_unlimited policy (dist_of c) _ r false targets Hu Hc).
    destruct (is_satisfied_by _ _); simpl; [eauto|]. destruct (determine_exchange _ _ _ _ _ _); simpl; eauto. done. }
  destruct plan; try apply Hstd. destruct cs as [|l [|r [|]]]; try apply Hstd.
  cbn [node_exchanges]. unfold handle_join_exchanges.
  apply Forall_cons in Hcs as [Hl [Hr _]%Forall_cons].
  destruct (bool_decide _ || bool_decide _).
  - destruct (is_singleton _); simpl; [eauto|].
    pose proof (determine_exchange_unlimited policy (dist_of r) _ RequireSingleton false targets Hu Hr).
    destruct (determine_exchange _ _ _ _ _ _); simpl; eauto. done.
  - destruct (determine_join_exchanges _) as [ld rd] eqn:Hd.
    epose proof (determine_join_unlimited _ _ _ _ Hd) as Hld.
    pose proof (proj1 (join_exchanges_decided _ _ _ Hd Hld)) as Hrd.
    destruct ld, rd; simpl in *; try done; eauto.
    Unshelve. done.
Qed.

Section total.
Context {M : Type} `{Metadata M} (metadata : M) (policy : PlannerPolicy) (targets : list WorkerId).
Context (Hscan : forall table,
  in_u64 (ts_rows (get_table_scan_stats metadata table)) /\
  in_u64 (ts_bytes (get_table_scan_stats metadata table))).

Definition output_in_u64 (o : node_output) : Prop :=
  let '(_, r, b, _) := o in in_u64 r /\ in_u64 b.

Lemma sum_in_u64 (f : AnnotatedPlan -> Z) cs z :
  in_u64 z -> in_u64 (foldl (fun acc c => u64_add acc (f c)) z cs).
Proof. revert z. induction cs as [|c cs IH]; intros z Hz; simpl; [done|]. apply IH, wrap64_in. Qed.

Lemma compute_output_in_u64 plan cs :
  Forall (fun c => ann_in_u64 (ap_annotation c)) cs ->
  exists o, compute_output_distribution metadata policy plan cs = Ok o /\ output_in_u64 o.
Proof.
  intros Hcs. eexists; split; [done|].
  assert (Hnone : output_in_u64 (no_child_output policy)) by done.
  destruct plan.
  - apply Hscan.
  - destruct Hcs; [done|]. split; apply f64_scale_in.
  - by destruct Hcs.
  - change (output_in_u64 (output_aggregate policy group_keys cs)). unfold output_aggregate.
    destruct Hcs as [|c cs Hc Hcs]; [done|]. case_bool_decide; [done|].
    split; [|apply wrap64_in]. unfold estimate_group_cardinality. case_match; [done|apply f64_to_u64_in].
  - by destruct Hcs.
  - by destruct Hcs.
  - destruct Hcs as [|? ? ? []]; simpl; try done. split; [apply f64_scale_in|apply wrap64_in].
  - split; by apply sum_in_u64.
  - by destruct Hcs.
  - by destruct Hcs.
  - done.
Qed.

Lemma annotate_recursive_total plan :
  unlimited policy ->
  exists t, annotate_recursive metadata policy targets plan = Ok t /\ ann_in_u64 (ap_annotation t).
Proof.
  intros Hu. induction plan as [plan IH] using LogicalPlan_children_ind.
  rewrite annotate_recursive_eq.
  assert (exists cs, collect_results (annotate_recursive metadata policy targets) (children plan) = Ok cs /\
    Forall (fun c => ann_in_u64 (ap_annotation c)) cs) as (cs & -> & Hcs).
  { induction IH as [|p ps (t & Ht & Hin) _ (cs & Hcs & Hall)]; simpl; [eauto|].
    rewrite Ht, Hcs. simpl. eauto. }
  cbn [result_bind]. unfold annotate_node.
  destruct (node_exchanges_unlimited policy targets plan cs Hu Hcs) as [exs ->]. cbn [result_bind].
  destruct (compute_output_in_u64 plan (zip_with (apply_exchange policy) cs exs)) as (o & -> & Ho).
  { clear -Hcs. revert exs. induction Hcs; intros [|ex exs]; simpl; constructor; auto.
    by apply apply_exchange_in_u64. }
  destruct o as [[[d r] b] src]. cbn [result_bind]. eauto.
Qed.
End total.

(** ** Rejections *)

(** What a rejection reports is over the policy's limits. *)
Definition over_limit (policy : PlannerPolicy) (reason : RejectReason) : Prop :=
  match reason with
  | ShuffleTooLarge b limit => limit = shuffle_bytes_max policy /\ limit < b
  | GatherTooLarge r b row_limit byte_limit =>
      row_limit = gather_rows_max policy /\ byte_limit = gather_bytes_max policy /\
      exists exact, can_gather_with_safety policy r b exact = false
  | CannotDetermineExchange _ => False
  end.

Lemma determine_exchange_reject policy actual a required join targets reason :
  determine_exchange actual a required policy join targets = Reject reason -> over_limit policy reason.
Proof.
  unfold determine_exchange, determine_gather_exchange, determine_hash_or_broadcast_exchange, can_shuffle.
  destruct (with_safety_factor a _) as [r b].
  repeat case_match; intros; simplify_eq/=; bool_hyps; eauto.
Qed.

Lemma determine_join_reject ctx ld rd :
  determine_join_exchanges ctx = (ld, rd) ->
  (forall reason, ld = Reject reason -> over_limit (jc_policy ctx) reason) /\
  (forall reason, rd = Reject reason -> over_limit (jc_policy ctx) reason).
Proof.
  unfold determine_join_exchanges, join_strategy, can_shuffle.
  repeat case_match; intros [= <- <-]; split; intros ? [=]; subst; simpl; bool_hyps; done.
Qed.

Lemma node_exchanges_err policy targets plan cs e :
  node_exchanges plan policy targets cs = Err e -> exists reason, e = Rejected reason /\ over_limit policy reason.
Proof.
  assert (Hstd : forall rs, standard_exchanges policy targets cs rs = Err e ->
    exists reason, e = Rejected reason /\ over_limit policy reason).
  { induction cs as [|c cs IH]; intros [|r rs]; simpl; try done.
    destruct (is_satisfied_by _ _); simpl.
    - specialize (IH rs). destruct (standard_exchanges _ _ _ _); simpl; [done|]. intros [= <-]. auto.
    - destruct (determine_exchange _ _ _ _ _ _) eqn:Hd; simpl.
      3: { intros [= <-]. eauto using determine_exchange_reject. }
      all: specialize (IH rs); destruct (standard_exchanges _ _ _ _); simpl; [done|]; intros [= <-]; auto. }
  destruct plan; try apply Hstd. destruct cs as [|l [|r [|]]]; try apply Hstd.
  cbn [node_exchanges]. unfold handle_join_exchanges.
  destruct (bool_decide _ || bool_decide _).
  - destruct (is_singleton _); [done|].
    destruct (determine_exchange _ _ _ _ _ _) eqn:Hd; try done. intros [= <-].
    eauto using determine_exchange_reject.
  - destruct (determine_join_exchanges _) as [ld rd] eqn:Hd. apply determine_join_reject in Hd as [H1 H2].
    destruct ld as [| |rl], rd as [| |rr]; simpl; try done; intros [= <-]; eauto.
Qed.

Lemma annotate_recursive_err {M} `{Metadata M} (metadata : M) policy targets plan e :
  annotate_recursive metadata policy targets plan = Err e ->
  exists reason, e = Rejected reason /\ over_limit policy reason.
Proof.
  induction plan as [plan IH] using LogicalPlan_children_ind. rewrite annotate_recursive_eq.
  destruct (collect_results _ _) as [cs|e'] eqn:Hcs; cbn [result_bind].
  - unfold annotate_node. destruct (node_exchanges _ _ _ _) eqn:Hn; cbn [result_bind].
    + destruct (compute_output_distribution _ _ _ _) as [[[[]]]|] eqn:Ho; [done|discriminate Ho].
    + intros [= <-]. by eapply node_exchanges_err.
  - intros [= <-]. revert Hcs. induction IH as [|p ps Hp _ IH]; simpl; [done|].
    destruct (annotate_recursive _ _ _ p); simpl; [|by intros [= <-]; auto].
    destruct (collect_results _ ps); simpl; [done|]. intros [= <-]. auto.
Qed.

(** ** The properties *)

(** A decision of [determine_exchange] is right on every branch: no
    exchange exactly when the requirement already holds, an inserted exchange
    establishes the requirement within the limit of its kind, and a rejection
    reports an estimate over the policy's limit. *)
Theorem determine_exchange_correct actual a required policy join targets :
  match determine_exchange actual a required policy join targets with
  | NoExchange => is_satisfied_by required actual = true
  | Insert ex =>
      is_satisfied_by required actual = false /\
      is_satisfied_by required (compute_post_exchange_distribution ex policy (workers actual)) = true /\
      exchange_allowed policy a ex
  | Reject reason => is_satisfied_by required actual = false /\ over_limit policy reason
  end.
Proof.
  pose proof (determine_exchange_cases actual a required policy join targets) as H.
  pose proof (determine_exchange_reject policy actual a required join targets) as Hr.
  destruct (determine_exchange _ _ _ _ _ _); auto.
Qed.


(** Annotation fails only by rejecting a data movement that exceeds a
    limit of the policy: missing metadata or the shape of the plan never make
    it fail. *)
Theorem annotate_error_is_over_limit {M} `{Metadata M} (metadata : M) policy plan e :
  annotate_logical_plan metadata policy plan = Err e ->
  exists reason, e = Rejected reason /\ over_limit policy reason.
Proof. apply annotate_recursive_err. Qed.

(** Under limits of [u64::MAX], as [PlannerPolicy::conservative] sets them,
    every plan is annotated, for any metadata of machine-width statistics, and
    the estimates of the result stay in [u64]. *)
Theorem annotate_total {M} `{Metadata M} (metadata : M) policy plan :
  (forall table, in_u64 (ts_rows (get_table_scan_stats metadata table)) /\
                 in_u64 (ts_bytes (get_table_scan_stats metadata table))) ->
  unlimited policy ->
  exists t, annotate_logical_plan metadata policy plan = Ok t /\
            in_u64 (est_rows (ap_annotation t)) /\ in_u64 (est_bytes (ap_annotation t)).
Proof. intros Hs Hu. by apply annotate_recursive_total. Qed.

(** The inputs of an equi-join that is not rejected are colocated after the
    exchanges when neither input starts hash-partitioned: both end partitioned
    on their keys, or one is replicated. *)
Theorem join_exchanges_colocate ctx ld rd :
  determine_join_exchanges ctx = (ld, rd) ->
  rejected ld = false ->
  (forall refs ws, left_actual ctx <> HashPartitioned refs ws) ->
  (forall refs ws, right_actual ctx <> HashPartitioned refs ws) ->
  colocated (jc_left_keys ctx) (jc_right_keys ctx)
    (decided_distribution (jc_policy ctx) (left_actual ctx) ld)
    (decided_distribution (jc_policy ctx) (right_actual ctx) rd).
Proof.
  intros Hd Hrej Hl Hr. apply join_exchanges_decided in Hd as [Hrd Hd]; [|done].
  destruct Hd as [?|[[-> [Hs _]]|[-> [Hs _]]]]; [done| |]; right.
  - left. simpl. destruct (left_actual ctx); simpl in *; try done. by destruct (Hl column_refs workers).
  - right. simpl. destruct (right_actual ctx); simpl in *; try done. by destruct (Hr column_refs workers).
Qed.

(** ** Concrete plans *)

#[local] Existing Instance InMemory.metadata.

Definition scan (t : string) : LogicalPlan := Scan t None (TFTable [] None "").

(** Two tables over two workers each, and a query that groups their join. *)
Definition demo_metadata : InMemory.t :=
  InMemory.add_epoch (InMemory.add_epoch (InMemory.add_epoch (InMemory.add_epoch InMemory.new
    "o1" "orders" (EpochStats_exact 1000000 400000000) "w1")
    "o2" "orders" (EpochStats_exact 1000000 400000000) "w2")
    "c1" "customers" (EpochStats_exact 1000 100000) "w1")
    "c2" "customers" (EpochStats_exact 1000 100000) "w2".

Definition demo_plan : LogicalPlan :=
  Aggregate
    (Join (scan "orders") (scan "customers") (JOInner JCNone)
       [qualified "o" "cid"] [qualified "c" "id"])
    (GroupByExpressions [] "") [] None [unqualified "region"].

Definition demo_policy : PlannerPolicy := with_coordinator "w0".

Definition demo_annotated : AnnotatedPlan :=
  match annotate_logical_plan demo_metadata demo_policy demo_plan with
  | Ok t => t
  | Err _ => Annotated demo_plan (annotation_unknown (Singleton "")) None None []
  end.

(** The small side of the join is broadcast, the join is shuffled for the
    grouping. *)
Example demo_exchanges :
  map exchange_before (ap_children demo_annotated) =
    [Some (HashPartition [unqualified "region"] 16)] /\
  map exchange_before (ap_children demo_annotated ≫= ap_children) =
    [None; Some (Broadcast ["w1"; "w2"])].
Proof. vm_compute. done. Qed.


Definition tight_policy : PlannerPolicy := set_shuffle_bytes_max demo_policy 1000.

Lemma annotate_error_is_over_limit_witness :
  over_limit tight_policy (ShuffleTooLarge 80000000 1000).
Proof.
  destruct (annotate_error_is_over_limit demo_metadata tight_policy demo_plan
    (Rejected (ShuffleTooLarge 80000000 1000))) as (reason & Heq & Hover).
  - vm_compute. reflexivity.
  - injection Heq as <-. exact Hover.
Defined.

Lemma empty_metadata_in_u64 table :
  in_u64 (ts_rows (get_table_scan_stats InMemory.new table)) /\
  in_u64 (ts_bytes (get_table_scan_stats InMemory.new table)).
Proof.
  assert (get_table_scan_stats InMemory.new table = aggregate_epochs (InMemory.epoch_stats InMemory.new) []) as ->.
  { cbn [get_table_scan_stats InMemory.metadata].
    unfold InMemory.table_scan_stats, InMemory.epochs_for_table, InMemory.new.
    destruct (strip_prefix "scan_" table); cbn [mbind option_bind InMemory.table_stats InMemory.table_epochs];
      rewrite ?lookup_empty; done. }
  vm_compute. done.
Qed.

Lemma annotate_total_witness :
  exists t, annotate_logical_plan InMemory.new conservative demo_plan = Ok t /\
            in_u64 (est_rows (ap_annotation t)) /\ in_u64 (est_bytes (ap_annotation t)).
Proof.
  apply (annotate_total InMemory.new conservative demo_plan).
  - exact empty_metadata_in_u64.
  - repeat split; vm_compute; discriminate.
Defined.

Definition demo_join (la ra : DistributionAnnotation) (policy : PlannerPolicy) : JoinExchangeContext :=
  {| left_annotation := la; right_annotation := ra;
     left_actual := distribution la; right_actual := distribution ra;
     jc_left_keys := [qualified "o" "cid"]; jc_right_keys := [qualified "c" "id"];
     jc_policy := policy; jc_target_workers := [] |}.

Definition epochs_ann (bytes : Z) : DistributionAnnotation :=
  annotation_new (EpochPartitioned ["w1"; "w2"]) 1000 bytes.

Lemma join_exchanges_colocate_witness :
  colocated [qualified "o" "cid"] [qualified "c" "id"]
    (EpochPartitioned ["w1"; "w2"]) (Replicated ["w1"; "w2"]).
Proof.
  apply (join_exchanges_colocate (demo_join (epochs_ann (300 * mib)) (epochs_ann 1000) demo_policy)
           NoExchange (Insert (Broadcast ["w1"; "w2"]))).
  - vm_compute. reflexivity.
  - reflexivity.
  - discriminate.
  - discriminate.
Defined.

(** ** Where enforcement falls short *)

Definition estimated_ann (r b : Z) : DistributionAnnotation :=
  annotation_with_source (EpochPartitioned ["w1"; "w2"]) r b Estimated.

Definition hashed_ann (key : ColumnRef) (ws : list WorkerId) (bytes : Z) : DistributionAnnotation :=
  annotation_new (HashPartitioned [key] ws) 1000 bytes.

(** When a side chosen for broadcast is already partitioned on its keys it
    stays where it is and the other side is not moved either: the join runs
    over a partitioned and an epoch-partitioned input, with no exchange, and
    its inputs are not colocated. *)
Theorem join_broadcast_skip_not_colocated :
  let ctx := demo_join (hashed_ann (qualified "o" "cid") ["w1"; "w2"] 1000)
               (epochs_ann (1024 * mib)) demo_policy in
  determine_join_exchanges ctx = (NoExchange, NoExchange) /\
  ~ colocated (jc_left_keys ctx) (jc_right_keys ctx) (left_actual ctx) (right_actual ctx).
Proof.
  split; [vm_compute; reflexivity|]. intros [[_ H]|[H|H]]; vm_compute in H; discriminate H.
Qed.

(** The worker sets of co-partitioned inputs do not matter: inputs
    partitioned on the join keys over disjoint workers get no exchange, since
    the test of both requirements returns what the co-partitioning test did
    not. *)
Theorem co_partition_workers_ignored :
  let ctx := demo_join (hashed_ann (qualified "o" "cid") ["w1"; "w2"] (1024 * mib))
               (hashed_ann (qualified "c" "id") ["w3"; "w4"] (1024 * mib)) demo_policy in
  co_partitioned ctx = false /\ determine_join_exchanges ctx = (NoExchange, NoExchange).
Proof. vm_compute. done. Qed.

(** The safety factor is applied twice to a gather: an estimate of 20
    million rows, doubled by the factor to 40 million, is rejected against the
    limit of 50 million that the rejection itself reports. *)
Theorem gather_applies_safety_twice :
  let a := estimated_ann 20000000 1000 in
  with_safety_factor a (safety_factor policy_default) = (40000000, 2000) /\
  can_gather policy_default 40000000 2000 = true /\
  determine_exchange (distribution a) a RequireSingleton policy_default false [] =
    Reject (GatherTooLarge 40000000 2000 50000000 (5 * gib)).
Proof. vm_compute. done. Qed.

(** A window function over a replicated input is annotated as
    hash-partitioned on its keys, although every worker computes all of it: a
    later equi-join or grouping on those keys gets no exchange. *)
Theorem window_over_replicated_claims_partitioned :
  let child := Annotated (scan "dim") (annotation_new (Replicated ["w1"; "w2"]) 10 1000) None None [] in
  let w := output_window demo_policy [unqualified "k"] [child] in
  w = (HashPartitioned [unqualified "k"] ["w1"; "w2"], 10, 1000, Exact) /\
  determine_exchange (w.1.1.1) (ap_annotation child) (RequireHashPartitioned [unqualified "k"])
    demo_policy false [] = NoExchange.
Proof. vm_compute. done. Qed.

(** The total of a shuffle wraps: two inputs of 2^63 bytes each count as a
    shuffle of zero bytes, which every limit admits. *)
Theorem shuffle_total_wraps :
  let ctx := demo_join (epochs_ann (2 ^ 63)) (epochs_ann (2 ^ 63)) demo_policy in
  determine_join_exchanges ctx =
    (Insert (HashPartition [qualified "o" "cid"] 16), Insert (HashPartition [qualified "c" "id"] 16)).
Proof. vm_compute. done. Qed.
