(* ===== verification/OrderByColumns.v ===== *)
(** * ORDER BY columns across stage boundaries (ldp/planner/cut.rs, first half)

    A [Sort] above an exchange needs its columns in the output of the stage
    below: the columns of the ORDER BY expressions, and the rewriting of the
    plan that adds them. *)

From S2P Require Import Prelude SqlAst LogicalPlan LdpTypes Annotate.

(** ** Columns of an expression *)

Fixpoint extract_all_columns_from_expr (expr : Expr) : list Expr :=
  match expr with
  | Identifier ident => [Identifier ident]
  | CompoundIdentifier parts => match parts with [] => [] | _ => [CompoundIdentifier parts] end
  | BinaryOp l _ r => extract_all_columns_from_expr l ++ extract_all_columns_from_expr r
  | UnaryOp _ e => extract_all_columns_from_expr e
  | Nested inner => extract_all_columns_from_expr inner
  | Case operand conditions else_result =>
      match operand with Some op => extract_all_columns_from_expr op | None => [] end
      ++ flat_map (fun case_when => match case_when with (c, r) =>
           extract_all_columns_from_expr c ++ extract_all_columns_from_expr r end) conditions
      ++ match else_result with Some e => extract_all_columns_from_expr e | None => [] end
  | Function _ (ArgsList args _) _ _ =>
      flat_map (fun arg => match arg with
                           | UnnamedExpr e => extract_all_columns_from_expr e
                           | _ => []
                           end) args
  | Cast e _ => extract_all_columns_from_expr e
  | InList e items _ => extract_all_columns_from_expr e ++ flat_map extract_all_columns_from_expr items
  | _ => []
  end.

Fixpoint extract_column_from_expr (expr : Expr) : list Expr :=
  match expr with
  | Identifier ident => [Identifier ident]
  | CompoundIdentifier (_ :: _) => [expr]
  | BinaryOp l _ r => extract_column_from_expr l ++ extract_column_from_expr r
  | UnaryOp _ e => extract_column_from_expr e
  | Nested inner => extract_column_from_expr inner
  | _ => extract_all_columns_from_expr expr
  end.

Definition extract_order_by_columns (order_by : list OrderByExpr) : list Expr :=
  flat_map (fun o => extract_column_from_expr (ob_expr o)) order_by.

(** ** Output names *)

Definition get_column_alias (expr : Expr) : string :=
  match expr with
  | Identifier ident => value ident
  | CompoundIdentifier (p :: ps) => value (List.last (p :: ps) p)
  | _ => "order_by_col"
  end.

Definition get_output_column_name (item : SelectItem) : option string :=
  match item with
  | SelExprWithAlias _ alias => Some (value alias)
  | SelUnnamedExpr (Identifier ident) => Some (value ident)
  | SelUnnamedExpr (CompoundIdentifier (p :: ps)) => Some (value (List.last (p :: ps) p))
  | _ => None
  end.

Definition outputs_name (name : string) (item : SelectItem) : bool :=
  match get_output_column_name item with
  | Some n => eq_ignore_ascii_case n name
  | None => false
  end.

(** [col_str.rsplit('.').next()]: what follows the last dot. *)
Definition item_matches_column (item : SelectItem) (col_str : string) : bool :=
  outputs_name (after_last_dot col_str) item.

Section display.
Context `{SqlDisplay}.

(** The three loops of [add_columns_to_plan] that push missing columns. *)
Definition push_project_column (items : list SelectItem) (col : Expr) : list SelectItem :=
  let alias := get_column_alias col in
  if existsb (outputs_name alias) items then items
  else items ++ [SelExprWithAlias col (Ident_new alias)].

Definition push_aggregate_column (items : list SelectItem) (col : Expr) : list SelectItem :=
  if existsb (fun item => str_contains (display_item item) (display_expr col)) items then items
  else items ++ [SelUnnamedExpr col].

Definition push_window_column (items : list SelectItem) (col : Expr) : list SelectItem :=
  if existsb (fun item => item_matches_column item (display_expr col)) items then items
  else items ++ [SelExprWithAlias col (Ident_new (get_column_alias col))].

Fixpoint add_columns_to_plan (plan : LogicalPlan) (columns : list Expr) : LogicalPlan :=
  match columns with
  | [] => plan
  | _ =>
      match plan with
      | Project input items => Project input (foldl push_project_column items columns)
      | Aggregate input group_by aggr_exprs having group_keys =>
          Aggregate input group_by (foldl push_aggregate_column aggr_exprs columns) having group_keys
      | Filter input predicate => Filter (add_columns_to_plan input columns) predicate
      | Join _ _ _ _ _ =>
          Project plan (SelWildcard ::
            map (fun col => SelExprWithAlias col (Ident_new (get_column_alias col))) columns)
      | Sort input order_by => Sort (add_columns_to_plan input columns) order_by
      | Limit input limit offset => Limit (add_columns_to_plan input columns) limit offset
      | Window input window_exprs partition_keys =>
          Window (add_columns_to_plan input columns)
            (foldl push_window_column window_exprs columns) partition_keys
      | SubqueryScan input alias => SubqueryScan (add_columns_to_plan input columns) alias
      | _ => Project plan (map SelUnnamedExpr columns)
      end
  end.

Definition add_columns_to_plan_safe (plan : LogicalPlan) (columns : list Expr) : option LogicalPlan :=
  match columns with
  | [] => None
  | _ =>
      match plan with
      | Project _ _ | Aggregate _ _ _ _ _ | Window _ _ _ => Some (add_columns_to_plan plan columns)
      | _ => None
      end
  end.

Definition set_plan (t : AnnotatedPlan) (p : LogicalPlan) : AnnotatedPlan :=
  Annotated p (ap_annotation t) (exchange_before t) (pre_exchange_distribution t) (ap_children t).

Definition set_children (t : AnnotatedPlan) (cs : list AnnotatedPlan) : AnnotatedPlan :=
  Annotated (ap_plan t) (ap_annotation t) (exchange_before t) (pre_exchange_distribution t) cs.

Fixpoint add_order_by_columns_in_subtree (columns : list Expr) (t : AnnotatedPlan) : AnnotatedPlan :=
  match add_columns_to_plan_safe (ap_plan t) columns with
  | Some new_plan => set_plan t new_plan
  | None =>
      set_children t
        (map (fun child => match exchange_before child with
                           | None => add_order_by_columns_in_subtree columns child
                           | Some _ => child
                           end) (ap_children t))
  end.

Fixpoint add_order_by_columns_to_exchange_children (columns : list Expr) (t : AnnotatedPlan)
    : AnnotatedPlan :=
  let t' := set_plan t (default (ap_plan t) (add_columns_to_plan_safe (ap_plan t) columns)) in
  set_children t'
    (map (fun child =>
            match exchange_before child with
            | Some _ =>
                match add_columns_to_plan_safe (ap_plan child) columns with
                | Some new_plan => set_plan child new_plan
                | None => add_order_by_columns_in_subtree columns child
                end
            | None => add_order_by_columns_to_exchange_children columns child
            end) (ap_children t)).
End display.

Fixpoint has_exchange_in_descendants (t : AnnotatedPlan) : bool :=
  match exchange_before t with
  | Some _ => true
  | None => existsb has_exchange_in_descendants (ap_children t)
  end.

Fixpoint extract_inner_projection_items (plan : LogicalPlan) : option (list SelectItem) :=
  match plan with
  | Project _ items => Some items
  | Limit input _ _ => extract_inner_projection_items input
  | Sort input _ => extract_inner_projection_items input
  | Window _ window_exprs _ => Some window_exprs
  | _ => None
  end.

(** ** Facts *)

Lemma push_project_keeps `{SqlDisplay} items columns :
  exists extra, foldl push_project_column items columns = items ++ extra.
Proof.
  revert items. induction columns as [|c cs IH]; intros items; simpl; [exists []; by rewrite app_nil_r|].
  destruct (IH (push_project_column items c)) as [extra ->]. unfold push_project_column.
  destruct (existsb _ items); [by exists extra|]. eexists. by rewrite <- app_assoc.
Qed.

Lemma push_project_column_outputs items c :
  existsb (outputs_name (get_column_alias c)) (push_project_column items c) = true.
Proof.
  unfold push_project_column. destruct (existsb _ items) eqn:Hx; [done|].
  rewrite existsb_app, Hx. simpl. unfold outputs_name. simpl. by rewrite eq_ignore_ascii_case_refl.
Qed.

(** Adding ORDER BY columns to a projection keeps its items in front and
    makes every column available under the name the sorting stage uses. *)
Theorem add_columns_covers `{SqlDisplay} input items columns :
  exists items', add_columns_to_plan (Project input items) columns = Project input items' /\
    (exists extra, items' = items ++ extra) /\
    forall c, c ∈ columns -> existsb (outputs_name (get_column_alias c)) items' = true.
Proof.
  exists (foldl push_project_column items columns). split; [by destruct columns|].
  split; [apply push_project_keeps|]. revert items. induction columns as [|c cs IH]; intros items c' Hc'.
  { by apply not_elem_of_nil in Hc'. }
  apply elem_of_cons in Hc' as [->|Hc']; simpl; [|auto].
  destruct (push_project_keeps (push_project_column items c) cs) as [extra ->].
  by rewrite existsb_app, push_project_column_outputs.
Qed.
