(* ===== verification/Cut.v ===== *)
(** * Stage cutting (ldp/planner/cut.rs)

    The annotated plan becomes stages at its exchanges.  The mutual recursion
    of [cut_recursive] and [extract_stage_plan] runs on trees whose plans were
    rewritten for ORDER BY columns, so it is not structural: it is bounded by
    the height of the tree.  Indexing a missing child panics.  The SQL
    generator (sql/stage_sql_gen.rs) is an argument. *)

From stdpp Require Import pretty.
From S2P Require Import Prelude SqlAst LogicalPlan LdpTypes Policy Annotate OrderByColumns.

#[local] Open Scope Z_scope.

(** ** Plan fragments *)

(** [new_children[0]] and [new_children[1]] panic when out of range. *)
Definition reconstruct_plan_with_children (plan : LogicalPlan) (new_children : list LogicalPlan)
    : outcome LogicalPlan :=
  let child i := of_option (new_children !! i) in
  match plan with
  | Scan table_name alias table_factor => Ret (Scan table_name alias table_factor)
  | Filter _ predicate => let! c := child 0%nat in Ret (Filter c predicate)
  | Project _ items => let! c := child 0%nat in Ret (Project c items)
  | Aggregate _ group_by aggr_exprs having group_keys =>
      let! c := child 0%nat in Ret (Aggregate c group_by aggr_exprs having group_keys)
  | Sort _ order_by => let! c := child 0%nat in Ret (Sort c order_by)
  | Limit _ limit offset => let! c := child 0%nat in Ret (Limit c limit offset)
  | Join _ _ join_op left_keys right_keys =>
      let! l := child 0%nat in let! r := child 1%nat in Ret (Join l r join_op left_keys right_keys)
  | SetOp _ _ op set_quantifier =>
      let! l := child 0%nat in let! r := child 1%nat in Ret (SetOp l r op set_quantifier)
  | Window _ window_exprs partition_keys =>
      let! c := child 0%nat in Ret (Window c window_exprs partition_keys)
  | SubqueryScan _ alias => let! c := child 0%nat in Ret (SubqueryScan c alias)
  | ExchangeRead exchange_id alias => Ret (ExchangeRead exchange_id alias)
  end.

Fixpoint is_purely_exchange_backed (plan : LogicalPlan) : bool :=
  match plan with
  | ExchangeRead _ _ => true
  | Scan _ _ _ => false
  | SubqueryScan input _ | Filter input _ | Project input _ | Aggregate input _ _ _ _
  | Sort input _ | Limit input _ _ | Window input _ _ => is_purely_exchange_backed input
  | Join l r _ _ _ | SetOp l r _ _ => is_purely_exchange_backed l && is_purely_exchange_backed r
  end.

Fixpoint collect_scan_names (plan : LogicalPlan) : list string :=
  match plan with
  | Scan table_name _ _ => [table_name]
  | ExchangeRead _ _ => []
  | Filter input _ | Project input _ | Aggregate input _ _ _ _
  | Sort input _ | Limit input _ _ | Window input _ _ => collect_scan_names input
  | SubqueryScan input alias =>
      (if is_purely_exchange_backed input then [] else [value (ta_name alias)])
      ++ collect_scan_names input
  | Join l r _ _ _ | SetOp l r _ _ => collect_scan_names l ++ collect_scan_names r
  end.

Definition filter_ctes_for_stage (plan : LogicalPlan) (context : PlanContext) : PlanContext :=
  if PlanContext_is_empty context then PlanContext_default
  else
    let scan_names := collect_scan_names plan in
    if existsb (fun cte => existsb (fun name =>
         eq_ignore_ascii_case name (value (ta_name (cte_alias cte)))) scan_names)
         (cte_definitions context)
    then context else PlanContext_default.

Fixpoint collect_exchange_reads (plan : LogicalPlan) : list (Z * string) :=
  match plan with
  | ExchangeRead exchange_id alias => [(exchange_id, alias)]
  | Scan _ _ _ => []
  | Filter input _ | Project input _ | Aggregate input _ _ _ _ | Sort input _ | Limit input _ _
  | Window input _ _ | SubqueryScan input _ => collect_exchange_reads input
  | Join l r _ _ _ | SetOp l r _ _ => collect_exchange_reads l ++ collect_exchange_reads r
  end.

Fixpoint has_local_scan (plan : LogicalPlan) : bool :=
  match plan with
  | Scan _ _ _ => true
  | ExchangeRead _ _ => false
  | Filter input _ | Project input _ | Aggregate input _ _ _ _ | Sort input _ | Limit input _ _
  | Window input _ _ | SubqueryScan input _ => has_local_scan input
  | Join l r _ _ _ | SetOp l r _ _ => has_local_scan l || has_local_scan r
  end.

Definition derive_relation_alias (plan : LogicalPlan) : option TableAlias :=
  match plan with
  | Scan table_name alias _ =>
      Some (default {| ta_name := Ident_new table_name; ta_columns := []; ta_explicit := true |} alias)
  | SubqueryScan _ alias => Some alias
  | _ => None
  end.

Definition determine_stage_output (t : AnnotatedPlan) : StageOutput :=
  match exchange_before t with
  | Some (HashPartition column_refs partitions) => Partitioned partitions column_refs
  | _ => Stream
  end.

(** ** Cutting *)

Record CutContext := mkCutContext {
  next_stage_id : StageId;
  next_exchange_id : ExchangeId;
  stage_annotations : gmap StageId DistributionAnnotation;
  plan_context : PlanContext;
}.

Definition CutContext_new (c : PlanContext) : CutContext := mkCutContext 0 0 ∅ c.

(** What [cut_recursive] mutates: [plan] and [ctx]. *)
Record CutState := mkCut { st_plan : LdpPlan; st_ctx : CutContext }.

Definition alloc_stage_id (st : CutState) : StageId * CutState :=
  let c := st_ctx st in
  let '(id, n) := alloc_next (next_stage_id c) in
  (id, mkCut (st_plan st) (mkCutContext n (next_exchange_id c) (stage_annotations c) (plan_context c))).

Definition alloc_exchange_id (st : CutState) : ExchangeId * CutState :=
  let c := st_ctx st in
  let '(id, n) := alloc_next (next_exchange_id c) in
  (id, mkCut (st_plan st) (mkCutContext (next_stage_id c) n (stage_annotations c) (plan_context c))).

Definition push_edges (es : list ExchangeEdge) (p : LdpPlan) : LdpPlan :=
  mkPlan (query_id p) (coordinator p) (stages p) (edges p ++ es) (root_stage p).

Definition push_stage (s : Stage) (p : LdpPlan) : LdpPlan :=
  mkPlan (query_id p) (coordinator p) (stages p ++ [s]) (edges p) (root_stage p).

(** An edge whose [to_stage] is not known yet. *)
Definition PendingEdge : Type := ExchangeId * StageId * Exchange.

Definition resolve_edge (to_stage : StageId) (e : PendingEdge) : ExchangeEdge :=
  let '(exchange_id, from_stage, kind) := e in mkEdge exchange_id kind from_stage to_stage [].

Definition exchange_table_name (id : ExchangeId) : string := "__exchange_" +:+ pretty id.

(** The [ExchangeRead] placeholder, under the relation alias of the child. *)
Definition exchange_placeholder (child : LogicalPlan) (id : ExchangeId) : LogicalPlan :=
  let read := ExchangeRead id (exchange_table_name id) in
  match derive_relation_alias child with
  | Some alias => SubqueryScan read alias
  | None => read
  end.

Definition stage_inputs (stage_plan : LogicalPlan) : list StageInput :=
  map (fun '(exchange_id, alias) => ExchangeInput exchange_id alias) (collect_exchange_reads stage_plan)
  ++ (if has_local_scan stage_plan then [LocalCatalog] else []).

(** The annotation recorded for worker assignment: the distribution before the
    exchange. *)
Definition stage_annotation (t : AnnotatedPlan) : DistributionAnnotation :=
  let a := ap_annotation t in
  match pre_exchange_distribution t with
  | Some pre => mkAnnotation pre (est_rows a) (est_bytes a) (stats_source a)
  | None => a
  end.

Definition sort_order_by_columns (plan : LogicalPlan) : list Expr :=
  match plan with
  | Sort _ order_by => extract_order_by_columns order_by
  | Limit (Sort _ order_by) _ _ => extract_order_by_columns order_by
  | _ => []
  end.

(** The [Project] that restores the original output columns. *)
Definition restore_projection (original : LogicalPlan) (columns : list Expr) (stage_plan : LogicalPlan)
    : LogicalPlan :=
  match columns with
  | [] => stage_plan
  | _ =>
      match extract_inner_projection_items original with
      | None => stage_plan
      | Some original_items =>
          let wrapper_items := omap (fun item => (fun name => SelUnnamedExpr (Identifier (Ident_new name)))
                                       <$> get_output_column_name item) original_items in
          if (length wrapper_items =? length original_items)%nat
          then Project stage_plan wrapper_items else stage_plan
      end
  end.

Section cut.
Context `{SqlDisplay} (generate_stage_sql : LogicalPlan -> PlanContext -> string).

(** One iteration of the child loop of [cut_recursive] and of
    [extract_stage_plan]; [at_exchange] and [inside] are the rewritings of the
    child that [cut_recursive] does first. *)
Definition cut_child (cut : AnnotatedPlan -> CutState -> outcome (StageId * CutState))
    (extract : AnnotatedPlan -> CutState -> outcome (LogicalPlan * list PendingEdge * CutState))
    (at_exchange inside : AnnotatedPlan -> AnnotatedPlan)
    (child : AnnotatedPlan) (st : CutState) : outcome (LogicalPlan * list PendingEdge * CutState) :=
  match exchange_before child with
  | Some exchange =>
      let! r := cut (at_exchange child) st in
      let '(from_stage, st) := r in
      let '(exchange_id, st) := alloc_exchange_id st in
      Ret (exchange_placeholder (ap_plan child) exchange_id, [(exchange_id, from_stage, exchange)], st)
  | None => extract (inside child) st
  end.

Fixpoint cut_children (step : AnnotatedPlan -> CutState -> outcome (LogicalPlan * list PendingEdge * CutState))
    (cs : list AnnotatedPlan) (st : CutState) : outcome (list LogicalPlan * list PendingEdge * CutState) :=
  match cs with
  | [] => Ret ([], [], st)
  | c :: cs =>
      let! r := step c st in
      let '(p, pending, st) := r in
      let! rest := cut_children step cs st in
      let '(ps, pendings, st) := rest in
      Ret (p :: ps, pending ++ pendings, st)
  end.

(** From the child plans to the pushed stage. *)
Definition finish_stage (t : AnnotatedPlan) (columns : list Expr) (child_plans : list LogicalPlan)
    (pending : list PendingEdge) (st : CutState) : outcome (StageId * CutState) :=
  let! rebuilt := reconstruct_plan_with_children (ap_plan t) child_plans in
  let stage_plan := restore_projection (ap_plan t) columns rebuilt in
  let stage_context := filter_ctes_for_stage stage_plan (plan_context (st_ctx st)) in
  let sql := generate_stage_sql stage_plan stage_context in
  let '(id, st) := alloc_stage_id st in
  let stage := mkStage id [] (stage_inputs stage_plan) (determine_stage_output t) sql StageLimits_default in
  let c := st_ctx st in
  Ret (id, mkCut (push_stage stage (push_edges (map (resolve_edge id) pending) (st_plan st)))
             (mkCutContext (next_stage_id c) (next_exchange_id c)
                (<[id := stage_annotation t]> (stage_annotations c)) (plan_context c))).

Definition rewrite_at_exchange (columns : list Expr) (child : AnnotatedPlan) : AnnotatedPlan :=
  match columns with
  | [] => child
  | _ => set_plan child (add_columns_to_plan (ap_plan child) columns)
  end.

Definition rewrite_inside (columns : list Expr) (child : AnnotatedPlan) : AnnotatedPlan :=
  match columns with
  | [] => child
  | _ => if has_exchange_in_descendants child
         then add_order_by_columns_to_exchange_children columns child else child
  end.

Fixpoint cut_recursive (fuel : nat) (t : AnnotatedPlan) (st : CutState) {struct fuel}
    : outcome (StageId * CutState) :=
  match fuel with
  | O => OutOfFuel
  | S fuel =>
      let columns := sort_order_by_columns (ap_plan t) in
      let! r := cut_children (cut_child (cut_recursive fuel) (extract_stage_plan fuel)
                                (rewrite_at_exchange columns) (rewrite_inside columns))
                  (ap_children t) st in
      let '(plans, pending, st) := r in
      finish_stage t columns plans pending st
  end
with extract_stage_plan (fuel : nat) (t : AnnotatedPlan) (st : CutState) {struct fuel}
    : outcome (LogicalPlan * list PendingEdge * CutState) :=
  match fuel with
  | O => OutOfFuel
  | S fuel =>
      match ap_children t with
      | [] => Ret (ap_plan t, [], st)
      | cs =>
          let! r := cut_children (cut_child (cut_recursive fuel) (extract_stage_plan fuel) id id) cs st in
          let '(plans, pending, st) := r in
          let! p := reconstruct_plan_with_children (ap_plan t) plans in
          Ret (p, pending, st)
      end
  end.

(** Every call goes one level down. *)
Fixpoint height (t : AnnotatedPlan) : nat := S (foldr Nat.max 0 (map height (ap_children t)))%nat.

(** ** Workers *)

Definition assign_stage_worker (coordinator : WorkerId) (anns : gmap StageId DistributionAnnotation)
    (s : Stage) : Stage :=
  let ws := match anns !! stage_id s with
            | Some a => sort_dedup (workers (distribution a))
            | None => target_workers s
            end in
  mkStage (stage_id s) (match ws with [] => [coordinator] | _ => ws end)
    (inputs s) (output s) (stage_sql s) (limits s).

(** [for i in 0..partitions]; [workers[i % workers.len()]] panics on an empty
    vector. *)
Definition round_robin (ws : list WorkerId) (partitions : Z) : outcome (list WorkerId) :=
  match ws with
  | [] => if 0 <? partitions then Panic else Ret []
  | w :: _ => Ret (map (fun i => nth (i mod length ws) ws w) (seq 0 (Z.to_nat partitions)))
  end.

Definition assign_edge (ss : list Stage) (e : ExchangeEdge) : outcome ExchangeEdge :=
  match kind e with
  | HashPartition _ partitions =>
      match List.find (fun s => stage_id s =? to_stage e) ss with
      | Some s =>
          let! ws := round_robin (target_workers s) partitions in
          Ret (mkEdge (exchange_id e) (kind e) (from_stage e) (to_stage e) ws)
      | None => Ret e
      end
  | _ => Ret e
  end.

Fixpoint assign_edges (ss : list Stage) (es : list ExchangeEdge) : outcome (list ExchangeEdge) :=
  match es with
  | [] => Ret []
  | e :: es => let! e' := assign_edge ss e in let! es' := assign_edges ss es in Ret (e' :: es')
  end.

Definition assign_stage_workers (p : LdpPlan) (ctx : CutContext) : outcome LdpPlan :=
  let ss := map (assign_stage_worker (coordinator p) (stage_annotations ctx)) (stages p) in
  let! es := assign_edges ss (edges p) in
  Ret (mkPlan (query_id p) (coordinator p) ss es (root_stage p)).

(** [iter_mut().find(..)]: the first stage with the root's id streams. *)
Fixpoint set_root_stream (root : StageId) (ss : list Stage) : list Stage :=
  match ss with
  | [] => []
  | s :: ss =>
      if stage_id s =? root
      then mkStage (stage_id s) (target_workers s) (inputs s) Stream (stage_sql s) (limits s) :: ss
      else s :: set_root_stream root ss
  end.

Definition cut_into_stages (root : AnnotatedPlan) (policy : PlannerPolicy) (query : string)
    (context : PlanContext) : outcome LdpPlan :=
  let st := mkCut (LdpPlan_new query (pol_coordinator policy)) (CutContext_new context) in
  let! r := cut_recursive (height root) root st in
  let '(final_stage_id, st) := r in
  let p := st_plan st in
  let p := mkPlan (query_id p) (coordinator p) (stages p) (edges p) final_stage_id in
  let! p := assign_stage_workers p (st_ctx st) in
  Ret (mkPlan (query_id p) (coordinator p) (set_root_stream (root_stage p) (stages p)) (edges p)
         (root_stage p)).
End cut.

(** ** SQL of a stage alone *)

Fixpoint extract_plan_with_placeholders (t : AnnotatedPlan) (exchange_counter : Z)
    : outcome (LogicalPlan * Z) :=
  match ap_children t with
  | [] => Ret (ap_plan t, exchange_counter)
  | cs =>
      let! r := (fix go (l : list AnnotatedPlan) (counter : Z) : outcome (list LogicalPlan * Z) :=
        match l with
        | [] => Ret ([], counter)
        | c :: l =>
            let! r := match exchange_before c with
                      | Some _ => Ret (ExchangeRead counter (exchange_table_name counter), wrap32 (counter + 1))
                      | None => extract_plan_with_placeholders c counter
                      end in
            let '(p, counter) := r in
            let! rest := go l counter in
            Ret (p :: fst rest, snd rest)
        end) cs exchange_counter in
      let! p := reconstruct_plan_with_children (ap_plan t) (fst r) in
      Ret (p, snd r)
  end.

Definition extract_stage_sql (generate_stage_sql_no_context : LogicalPlan -> string) (t : AnnotatedPlan)
    : outcome string :=
  let! r := extract_plan_with_placeholders t 0 in
  Ret (generate_stage_sql_no_context (fst r)).
