(* ===== verification/CutShape.v ===== *)
(** * Shapes that stage cutting accepts

    [shaped] says that an annotated tree carries as many children as its plan
    has inputs, reads no exchange yet, and that no [Sort] whose columns must
    cross an exchange sits on an operator that [add_columns_to_plan] would wrap
    in a [Project].  The rewritings for ORDER BY columns keep it, with the
    height and the number of exchanges. *)

From S2P Require Import Prelude SqlAst LogicalPlan LdpTypes Annotate OrderByColumns Cut.

Definition is_exchange_read (p : LogicalPlan) : bool :=
  match p with ExchangeRead _ _ => true | _ => false end.

(** The operators that [add_columns_to_plan] puts a [Project] above. *)
Definition wraps (p : LogicalPlan) : bool :=
  match p with Join _ _ _ _ _ | SetOp _ _ _ _ | Scan _ _ _ | ExchangeRead _ _ => true | _ => false end.

Definition sort_child_shaped (c : AnnotatedPlan) : bool :=
  match exchange_before c with Some _ => negb (wraps (ap_plan c)) | None => true end.

Definition node_shaped (t : AnnotatedPlan) : bool :=
  (length (ap_children t) =? arity (ap_plan t))%nat && negb (is_exchange_read (ap_plan t)) &&
  match sort_order_by_columns (ap_plan t) with
  | [] => true
  | _ => forallb sort_child_shaped (ap_children t)
  end.

Fixpoint shaped (t : AnnotatedPlan) : bool := node_shaped t && forallb shaped (ap_children t).

(** The stages that the children of a node become. *)
Definition count_below (t : AnnotatedPlan) : nat := list_sum (map count_exchanges (ap_children t)).

(** The annotations of the stages a tree is cut into, in the order of their
    creation: a reference for worker assignment. *)
Fixpoint annotations_below (t : AnnotatedPlan) : list DistributionAnnotation :=
  concat (map (fun c => annotations_below c ++
                 match exchange_before c with Some _ => [stage_annotation c] | None => [] end)
            (ap_children t)).

Definition child_annotations (c : AnnotatedPlan) : list DistributionAnnotation :=
  annotations_below c ++ match exchange_before c with Some _ => [stage_annotation c] | None => [] end.

Lemma AnnotatedPlan_children_ind (P : AnnotatedPlan -> Prop) :
  (forall t, Forall P (ap_children t) -> P t) -> forall t, P t.
Proof.
  intros H. fix IH 1. intros [p a e pre cs]. apply H. simpl.
  induction cs as [|c cs IHcs]; constructor; [apply IH|exact IHcs].
Qed.

(** ** Agreement of a rewritten tree with the original *)

Definition same_shape (p q : LogicalPlan) : Prop :=
  arity q = arity p /\ is_exchange_read q = is_exchange_read p /\ wraps q = wraps p /\
  sort_order_by_columns q = sort_order_by_columns p.

Record agrees (t t' : AnnotatedPlan) : Prop := {
  ag_height : height t' = height t;
  ag_count : count_exchanges t' = count_exchanges t;
  ag_below : count_below t' = count_below t;
  ag_shaped : shaped t' = shaped t;
  ag_annotations : annotations_below t' = annotations_below t;
  ag_stage_annotation : stage_annotation t' = stage_annotation t;
  ag_exchange : exchange_before t' = exchange_before t;
  ag_plan : same_shape (ap_plan t) (ap_plan t');
}.

Lemma same_shape_refl p : same_shape p p.
Proof. by repeat split. Qed.

Lemma agrees_refl t : agrees t t.
Proof. by split. Qed.

#[export] Hint Resolve same_shape_refl agrees_refl : worker.

Lemma annotations_below_eq t : annotations_below t = concat (map child_annotations (ap_children t)).
Proof. by destruct t. Qed.

Lemma child_annotations_length c : length (child_annotations c) = count_exchanges c.
Proof.
  induction c as [c IH] using AnnotatedPlan_children_ind. unfold child_annotations.
  rewrite annotations_below_eq, length_app. destruct c as [p a e pre cs]. simpl in *.
  replace (length (concat (map child_annotations cs))) with (list_sum (map count_exchanges cs)).
  { destruct e; simpl; lia. }
  clear -IH. induction IH as [|c cs Hc _ IH]; simpl; [done|]. rewrite length_app. lia.
Qed.

Lemma annotations_below_length t : length (annotations_below t) = count_below t.
Proof.
  rewrite annotations_below_eq. unfold count_below. induction (ap_children t) as [|c cs IH]; simpl; [done|].
  by rewrite length_app, child_annotations_length, IH.
Qed.

Lemma agrees_node t t' :
  stage_annotation t' = stage_annotation t ->
  exchange_before t' = exchange_before t -> same_shape (ap_plan t) (ap_plan t') ->
  Forall2 agrees (ap_children t) (ap_children t') -> agrees t t'.
Proof.
  intros Hann He (Ha & Hx & Hw & Hs) Hcs.
  assert (Hh : map height (ap_children t') = map height (ap_children t)).
  { induction Hcs as [|c c' cs cs' Hc _ IH]; simpl; [done|]. by rewrite (ag_height _ _ Hc), IH. }
  assert (Hc : map count_exchanges (ap_children t') = map count_exchanges (ap_children t)).
  { clear Hh. induction Hcs as [|c c' cs cs' Hc _ IH]; simpl; [done|]. by rewrite (ag_count _ _ Hc), IH. }
  assert (Hsh : forallb shaped (ap_children t') = forallb shaped (ap_children t)).
  { clear Hh Hc. induction Hcs as [|c c' cs cs' Hc _ IH]; simpl; [done|]. by rewrite (ag_shaped _ _ Hc), IH. }
  assert (Hso : forallb sort_child_shaped (ap_children t') = forallb sort_child_shaped (ap_children t)).
  { clear Hh Hc Hsh. induction Hcs as [|c c' cs cs' Hc _ IH]; simpl; [done|]. rewrite IH. f_equal.
    unfold sort_child_shaped. rewrite (ag_exchange _ _ Hc). by rewrite (proj1 (proj2 (proj2 (ag_plan _ _ Hc)))). }
  assert (Hbe : map child_annotations (ap_children t') = map child_annotations (ap_children t)).
  { clear Hh Hc Hsh Hso. induction Hcs as [|c c' cs cs' Hc _ IH]; simpl; [done|]. rewrite IH. f_equal.
    unfold child_annotations. by rewrite (ag_annotations _ _ Hc), (ag_exchange _ _ Hc), (ag_stage_annotation _ _ Hc). }
  apply Forall2_length in Hcs.
  assert (Hb : annotations_below t' = annotations_below t) by by rewrite !annotations_below_eq, Hbe.
  destruct t as [p a e pre cs], t' as [p' a' e' pre' cs']. simpl in *.
  split; simpl.
  - by rewrite Hh.
  - by rewrite He, Hc.
  - unfold count_below. simpl. by rewrite Hc.
  - unfold node_shaped. simpl. by rewrite Hsh, Hso, Hs, Hx, Ha, Hcs.
  - done.
  - done.
  - done.
  - by repeat split.
Qed.

Section rewriting.
Context `{SqlDisplay}.

Lemma add_columns_same_shape p columns :
  wraps p = false -> same_shape p (add_columns_to_plan p columns).
Proof.
  intros Hw. destruct columns as [|c cs]; [destruct p; apply same_shape_refl|].
  destruct p; try discriminate Hw; simpl; repeat split. by destruct p.
Qed.

Lemma add_columns_safe_same_shape p columns q :
  add_columns_to_plan_safe p columns = Some q -> same_shape p q.
Proof.
  unfold add_columns_to_plan_safe. destruct columns as [|c cs]; [done|].
  destruct p; intros [= <-]; by repeat split.
Qed.

Lemma Forall2_map_agrees (f : AnnotatedPlan -> AnnotatedPlan) cs :
  Forall (fun c => agrees c (f c)) cs -> Forall2 agrees cs (map f cs).
Proof. induction 1; simpl; constructor; auto. Qed.

Lemma set_plan_agrees t p : same_shape (ap_plan t) p -> agrees t (set_plan t p).
Proof.
  intros Hs. apply agrees_node; [done|done|done|]. simpl.
  induction (ap_children t); constructor; auto with worker.
Qed.

Lemma subtree_agrees columns t : agrees t (add_order_by_columns_in_subtree columns t).
Proof.
  induction t as [t IH] using AnnotatedPlan_children_ind. destruct t as [p a e pre cs]. simpl in *.
  destruct (add_columns_to_plan_safe p columns) eqn:Hs.
  { apply (set_plan_agrees (Annotated p a e pre cs)). by eapply add_columns_safe_same_shape. }
  apply agrees_node; [done|done|apply same_shape_refl|]. simpl. apply Forall2_map_agrees.
  eapply Forall_impl; [exact IH|]. intros c Hc. simpl. destruct (exchange_before c); auto with worker.
Qed.

Lemma exchange_children_agrees columns t :
  agrees t (add_order_by_columns_to_exchange_children columns t).
Proof.
  induction t as [t IH] using AnnotatedPlan_children_ind. destruct t as [p a e pre cs]. simpl in *.
  apply agrees_node; [done|done| |].
  { simpl. destruct (add_columns_to_plan_safe p columns) eqn:Hs; simpl; [|apply same_shape_refl].
    by eapply add_columns_safe_same_shape. }
  simpl. apply Forall2_map_agrees. eapply Forall_impl; [exact IH|]. intros c Hc. simpl.
  destruct (exchange_before c); [|done].
  destruct (add_columns_to_plan_safe (ap_plan c) columns) eqn:Hs; [|apply subtree_agrees].
  apply set_plan_agrees. by eapply add_columns_safe_same_shape.
Qed.

Lemma rewrite_inside_agrees columns t : agrees t (rewrite_inside columns t).
Proof.
  unfold rewrite_inside. destruct columns; [apply agrees_refl|].
  destruct (has_exchange_in_descendants t); [apply exchange_children_agrees|apply agrees_refl].
Qed.

Lemma rewrite_at_exchange_agrees columns t :
  (columns <> [] -> wraps (ap_plan t) = false) -> agrees t (rewrite_at_exchange columns t).
Proof.
  intros Hw. unfold rewrite_at_exchange. destruct columns; [apply agrees_refl|].
  apply set_plan_agrees, add_columns_same_shape, Hw. done.
Qed.
End rewriting.
