(* ===== verification/CutCorrect.v ===== *)
(** * Correctness of stage cutting

    [balanced] is the invariant of a fragment of the plan under construction:
    its stages, the edges inside it, and the pending edges that leave it.
    Fragments compose side by side, and finishing a stage turns the pending
    edges into edges into that stage. *)

From S2P Require Import Prelude SqlAst LogicalPlan LdpTypes Policy Annotate OrderByColumns Cut CutShape.

#[local] Open Scope Z_scope.

Abbreviation zlen l := (Z.of_nat (length l)).

(** ** Specification *)

Definition output_of (ex : Exchange) : StageOutput :=
  match ex with
  | HashPartition column_refs partitions => Partitioned partitions column_refs
  | _ => Stream
  end.

(** The exchanges a stage reads, in order. *)
Definition input_exchanges (s : Stage) : list ExchangeId :=
  omap (fun i => match i with ExchangeInput id _ => Some id | LocalCatalog => None end) (inputs s).

(** An exchange is read from the table named after it. *)
Definition inputs_named (s : Stage) : Prop :=
  Forall (fun i => match i with ExchangeInput id table => table = exchange_table_name id | LocalCatalog => True end) (inputs s).

(** The exchanges that feed a stage, in the order of the edges. *)
Definition edges_into (id : StageId) (es : list ExchangeEdge) : list ExchangeId :=
  map exchange_id (List.filter (fun e => to_stage e =? id) es).

Definition edge_source (e : ExchangeEdge) : StageId * Exchange := (from_stage e, kind e).
Definition pending_source (e : PendingEdge) : StageId * Exchange := (snd (fst e), snd e).
Definition pending_id (e : PendingEdge) : ExchangeId := fst (fst e).

Record balanced (ns ne : Z) (S : list Stage) (E : list ExchangeEdge) (P : list PendingEdge) : Prop := {
  bal_stages : map stage_id S = seqZ ns (zlen S);
  bal_exchanges : map exchange_id E ++ map pending_id P ≡ₚ seqZ ne (zlen S);
  bal_sources : map from_stage E ++ map (fun e => fst (pending_source e)) P ≡ₚ seqZ ns (zlen S);
  bal_forward : Forall (fun e => ns <= from_stage e < to_stage e /\ to_stage e < ns + zlen S) E;
  bal_outputs : Forall (fun sk => exists s, s ∈ S /\ stage_id s = fst sk /\ output s = output_of (snd sk))
                  (map edge_source E ++ map pending_source P);
  bal_inputs : Forall (fun s => input_exchanges s = edges_into (stage_id s) E) S;
  bal_unassigned : Forall (fun e => partition_to_worker e = []) E;
  bal_named : Forall inputs_named S;
}.

Lemma balanced_nil ns ne : balanced ns ne [] [] [].
Proof. by split. Qed.

(** ** Composition *)

Lemma edges_into_app id es es' : edges_into id (es ++ es') = edges_into id es ++ edges_into id es'.
Proof. unfold edges_into. by rewrite List.filter_app, map_app. Qed.

Lemma edges_into_none id es : Forall (fun e => to_stage e <> id) es -> edges_into id es = [].
Proof.
  induction 1 as [|e es He _ IH]; [done|]. unfold edges_into in *. simpl.
  by rewrite (proj2 (Z.eqb_neq _ _) He).
Qed.

Lemma edges_into_resolved id P : edges_into id (map (resolve_edge id) P) = map pending_id P.
Proof.
  induction P as [|[[q a] k] P IH]; [done|]. unfold edges_into in *. simpl. by rewrite Z.eqb_refl, <- IH.
Qed.

Lemma stage_id_range ns ne S E P s : balanced ns ne S E P -> s ∈ S -> ns <= stage_id s < ns + zlen S.
Proof.
  intros Hb Hs. apply (list_elem_of_fmap_2 stage_id) in Hs as Hid.
  change (stage_id <$> S) with (map stage_id S) in Hid. rewrite (bal_stages _ _ _ _ _ Hb) in Hid.
  by apply elem_of_seqZ in Hid.
Qed.

Lemma balanced_app ns ne S1 E1 P1 S2 E2 P2 :
  balanced ns ne S1 E1 P1 ->
  balanced (ns + zlen S1) (ne + zlen S1) S2 E2 P2 ->
  balanced ns ne (S1 ++ S2) (E1 ++ E2) (P1 ++ P2).
Proof.
  intros H1 H2. pose proof H1 as [i1 x1 s1 f1 o1 n1 u1 m1]. pose proof H2 as [i2 x2 s2 f2 o2 n2 u2 m2].
  assert (Hseq : forall a, seqZ a (zlen (S1 ++ S2)) = seqZ a (zlen S1) ++ seqZ (a + zlen S1) (zlen S2)).
  { intros a. rewrite length_app, Nat2Z.inj_add, seqZ_app by lia. done. }
  split.
  - by rewrite map_app, i1, i2, Hseq.
  - rewrite !map_app, Hseq, <- x1, <- x2. solve_Permutation.
  - rewrite !map_app, Hseq, <- s1, <- s2. solve_Permutation.
  - apply Forall_app; split; [eapply Forall_impl; [exact f1|]|eapply Forall_impl; [exact f2|]];
      intros e; rewrite length_app; lia.
  - rewrite !map_app. rewrite !Forall_app in *. destruct o1, o2.
    repeat split; (eapply Forall_impl; [done|]); intros sk (s & ? & ?); exists s; rewrite elem_of_app; auto.
  - apply Forall_forall. intros s Hs. rewrite edges_into_app. apply elem_of_app in Hs as [Hs|Hs].
    + rewrite (proj1 (Forall_forall _ _) n1 s Hs), (edges_into_none _ E2); [by rewrite app_nil_r|].
      eapply Forall_impl; [exact f2|]. pose proof (stage_id_range _ _ _ _ _ _ H1 Hs). simpl. lia.
    + rewrite (proj1 (Forall_forall _ _) n2 s Hs), (edges_into_none _ E1); [done|].
      eapply Forall_impl; [exact f1|]. pose proof (stage_id_range _ _ _ _ _ _ H2 Hs). simpl. lia.
  - by apply Forall_app.
  - by apply Forall_app.
Qed.

(** Finishing a stage over the pending edges of its fragment. *)
Lemma balanced_finish ns ne S E P s ex :
  balanced ns ne S E P ->
  stage_id s = ns + zlen S -> input_exchanges s = map pending_id P -> output s = output_of ex -> inputs_named s ->
  balanced ns ne (S ++ [s]) (E ++ map (resolve_edge (stage_id s)) P) [(ne + zlen S, stage_id s, ex)].
Proof.
  intros Hb Hid Hin Hout Hnamed. pose proof Hb as [i x r f o n u m].
  assert (Hseq : forall a, seqZ a (zlen (S ++ [s])) = seqZ a (zlen S) ++ [a + zlen S]).
  { intros a. rewrite length_app. simpl. rewrite Nat.add_1_r. apply seqZ_S. }
  assert (Hids : map exchange_id (map (resolve_edge (stage_id s)) P) = map pending_id P).
  { rewrite map_map. apply map_ext. by intros [[] ?]. }
  assert (Hsrc : map edge_source (map (resolve_edge (stage_id s)) P) = map pending_source P).
  { rewrite map_map. apply map_ext. by intros [[] ?]. }
  assert (Hfrom : map from_stage (map (resolve_edge (stage_id s)) P) = map (fun e => fst (pending_source e)) P).
  { rewrite map_map. apply map_ext. by intros [[] ?]. }
  split.
  - rewrite map_app, i, Hseq. simpl. by rewrite Hid.
  - rewrite map_app, Hids, Hseq, <- x. done.
  - rewrite map_app, Hfrom, Hseq, <- r. simpl. by rewrite Hid.
  - apply Forall_app; split.
    + eapply Forall_impl; [exact f|]. intros e. rewrite length_app. simpl. lia.
    + apply Forall_forall. intros e He. apply list_elem_of_In in He. apply in_map_iff in He as ([[q a] k] & <- & He).
      assert (Ha : a ∈ seqZ ns (zlen S)).
      { rewrite <- r. apply elem_of_app; right. apply list_elem_of_In, in_map_iff. by exists (q, a, k). }
      apply elem_of_seqZ in Ha. simpl. rewrite length_app. simpl. lia.
  - rewrite map_app, Hsrc. apply Forall_app; split.
    + eapply Forall_impl; [exact o|]. intros sk (s' & ? & ?). exists s'. rewrite elem_of_app. auto.
    + simpl. constructor; [|done]. exists s. rewrite elem_of_app, list_elem_of_singleton. auto.
  - apply Forall_app; split.
    + apply Forall_forall. intros s' Hs'. rewrite edges_into_app, (edges_into_none _ (map _ P)).
      { rewrite app_nil_r. by apply (proj1 (Forall_forall _ _) n). }
      pose proof (stage_id_range _ _ _ _ _ _ Hb Hs'). apply Forall_map, Forall_forall. intros [[] ?] _. simpl. lia.
    + constructor; [|done]. rewrite edges_into_app, (edges_into_none _ E).
      2: { eapply Forall_impl; [exact f|]. simpl. lia. }
      by rewrite edges_into_resolved.
  - apply Forall_app; split; [done|]. apply Forall_map, Forall_forall. by intros [[] ?] _.
  - apply Forall_app; split; [done|]. by constructor.
Qed.

(** ** States *)

Abbreviation ns_of st := (next_stage_id (st_ctx st)).
Abbreviation ne_of st := (next_exchange_id (st_ctx st)).

Abbreviation anns_of st := (stage_annotations (st_ctx st)).

(** What a call may do to the state: push stages and edges, record the
    annotations [L] of the stages, advance the counter. *)
Record advanced (st st' : CutState) (S : list Stage) (E : list ExchangeEdge)
    (L : list DistributionAnnotation) : Prop := {
  adv_stages : stages (st_plan st') = stages (st_plan st) ++ S;
  adv_edges : edges (st_plan st') = edges (st_plan st) ++ E;
  adv_next : ns_of st' = ns_of st + zlen S;
  adv_query : query_id (st_plan st') = query_id (st_plan st);
  adv_coordinator : coordinator (st_plan st') = coordinator (st_plan st);
  adv_old : forall id, id < ns_of st -> anns_of st' !! id = anns_of st !! id;
  adv_new : Forall2 (fun s a => anns_of st' !! stage_id s = Some a) S L;
}.

Lemma advanced_refl st : advanced st st [] [] [].
Proof. split; simpl; rewrite ?app_nil_r; try done. lia. Qed.

Lemma advanced_trans st1 st2 st3 S1 E1 L1 S2 E2 L2 :
  Forall (fun s => stage_id s < ns_of st2) S1 ->
  advanced st1 st2 S1 E1 L1 -> advanced st2 st3 S2 E2 L2 ->
  advanced st1 st3 (S1 ++ S2) (E1 ++ E2) (L1 ++ L2).
Proof.
  intros Hlt [a1 b1 c1 d1 e1 f1 g1] [a2 b2 c2 d2 e2 f2 g2]. split.
  - by rewrite a2, a1, app_assoc.
  - by rewrite b2, b1, app_assoc.
  - rewrite c2, c1, length_app. lia.
  - congruence.
  - congruence.
  - intros id Hid. rewrite f2 by lia. auto.
  - apply Forall2_app; [|done]. clear -Hlt g1 f2.
    induction g1 as [|s a S1 L1 Hs _ IH]; constructor; apply Forall_cons in Hlt as [? ?]; [|auto].
    by rewrite f2.
Qed.

Lemma balanced_below st st' S E L P :
  advanced st st' S E L -> balanced (ns_of st) (ne_of st) S E P ->
  Forall (fun s => stage_id s < ns_of st') S.
Proof.
  intros Ha Hb. apply Forall_forall. intros s Hs. rewrite (adv_next _ _ _ _ _ Ha).
  pose proof (stage_id_range _ _ _ _ _ _ Hb Hs). lia.
Qed.

(** The counters have room for [n] more identifiers. *)
Definition room (st : CutState) (n : nat) : Prop :=
  0 <= ns_of st /\ 0 <= ne_of st /\
  ns_of st + Z.of_nat n < u32_modulus /\ ne_of st + Z.of_nat n < u32_modulus.

Definition pending_read (e : PendingEdge) : Z * string :=
  (pending_id e, exchange_table_name (pending_id e)).

(** The promise of a step over a child that becomes stages annotated [L]. *)
Definition step_spec (L : list DistributionAnnotation)
    (run : CutState -> outcome (LogicalPlan * list PendingEdge * CutState)) : Prop :=
  forall st, room st (length L) -> exists p P st' S E,
    run st = Ret (p, P, st') /\ advanced st st' S E L /\ ne_of st' = ne_of st + zlen L /\
    balanced (ns_of st) (ne_of st) S E P /\ collect_exchange_reads p = map pending_read P.

(** The promise of a cut of a subtree with the stages [L] below its root. *)
Definition cut_spec (L : list DistributionAnnotation) (a : DistributionAnnotation) (out : StageOutput)
    (run : CutState -> outcome (StageId * CutState)) : Prop :=
  forall st, room st (S (length L)) -> exists id st' S E,
    run st = Ret (id, st') /\ advanced st st' S E (L ++ [a]) /\
    ne_of st' = ne_of st + zlen L /\ id = ns_of st + zlen L /\
    forall ex, output_of ex = out ->
      balanced (ns_of st) (ne_of st) S E [(ne_of st + zlen L, id, ex)].

Lemma advanced_length st st' S E L : advanced st st' S E L -> length S = length L.
Proof. intros Ha. by apply Forall2_length with (1 := adv_new _ _ _ _ _ Ha). Qed.

Lemma cut_children_spec step cs :
  Forall (fun c => step_spec (child_annotations c) (step c)) cs ->
  forall st, room st (length (concat (map child_annotations cs))) -> exists ps P st' S E,
    cut_children step cs st = Ret (ps, P, st') /\ advanced st st' S E (concat (map child_annotations cs)) /\
    ne_of st' = ne_of st + zlen S /\ balanced (ns_of st) (ne_of st) S E P /\
    length ps = length cs /\ concat (map collect_exchange_reads ps) = map pending_read P.
Proof.
  induction 1 as [|c cs Hc _ IH]; intros st Hr.
  { exists [], [], st, [], []. split; [done|]. split; [apply advanced_refl|]. split; [simpl; lia|].
    split; [apply balanced_nil|done]. }
  simpl in Hr. unfold room in Hr. rewrite length_app, Nat2Z.inj_add in Hr.
  destruct (Hc st) as (p & P & st1 & S1 & E1 & Hrun & Ha & Hne & Hb & Hp); [unfold room; lia|].
  pose proof (advanced_length _ _ _ _ _ Ha) as Hl.
  destruct (IH st1) as (ps & P2 & st2 & S2 & E2 & Hrun2 & Ha2 & Hne2 & Hb2 & Hlp & Hp2).
  { pose proof (adv_next _ _ _ _ _ Ha). unfold room. lia. }
  exists (p :: ps), (P ++ P2), st2, (S1 ++ S2), (E1 ++ E2).
  cbn [cut_children]. rewrite Hrun. cbn [outcome_bind]. rewrite Hrun2. cbn [outcome_bind].
  split; [done|]. split; [by eapply advanced_trans; [eapply balanced_below| |]|]. rewrite length_app. simpl.
  split; [lia|]. rewrite (adv_next _ _ _ _ _ Ha), Hne, <- Hl in Hb2.
  split; [by apply balanced_app|]. split; [lia|]. by rewrite Hp, Hp2, map_app.
Qed.

(** ** Plan fragments *)

Lemma reconstruct_spec p ps :
  length ps = arity p -> is_exchange_read p = false ->
  exists q, reconstruct_plan_with_children p ps = Ret q /\
            collect_exchange_reads q = concat (map collect_exchange_reads ps).
Proof.
  intros Hl Hx. destruct p; try discriminate Hx; destruct ps as [|q1 [|q2 [|]]]; try discriminate Hl;
    eexists; (split; [reflexivity|]); simpl; by rewrite ?app_nil_r.
Qed.

Lemma restore_projection_reads p columns q :
  collect_exchange_reads (restore_projection p columns q) = collect_exchange_reads q.
Proof. unfold restore_projection. by repeat case_match. Qed.

Lemma stage_inputs_exchanges p id ws out sql lim :
  input_exchanges (mkStage id ws (stage_inputs p) out sql lim) = map fst (collect_exchange_reads p).
Proof.
  unfold input_exchanges, stage_inputs. simpl. rewrite omap_app.
  induction (collect_exchange_reads p) as [|[i a] l IH]; simpl; [by destruct (has_local_scan p)|]. by f_equal.
Qed.

Lemma exchange_placeholder_reads p id :
  collect_exchange_reads (exchange_placeholder p id) = [(id, exchange_table_name id)].
Proof. unfold exchange_placeholder. by destruct (derive_relation_alias p). Qed.

Section cut.
Context `{SqlDisplay} (gen : LogicalPlan -> PlanContext -> string).

Lemma cut_child_exchange cut extract f g child ex :
  exchange_before child = Some ex ->
  cut_spec (annotations_below child) (stage_annotation child) (output_of ex) (cut (f child)) ->
  step_spec (child_annotations child) (cut_child cut extract f g child).
Proof.
  intros Hex Hc st Hr. unfold child_annotations in *. rewrite Hex in *.
  rewrite length_app, Nat.add_1_r in *.
  destruct (Hc st Hr) as (id & st' & S & E & Hrun & Ha & Hne & Hid & Hb).
  unfold cut_child. rewrite Hex, Hrun. cbn [outcome_bind]. unfold alloc_exchange_id, alloc_next.
  do 5 eexists. split; [reflexivity|]. destruct Hr as (? & ? & ? & ?).
  split; [destruct Ha; split; done|]. split.
  { simpl. rewrite wrap32_small by (unfold in_u32; lia). lia. }
  rewrite Hne. split; [apply Hb; done|]. by rewrite exchange_placeholder_reads.
Qed.

Lemma finish_stage_spec t columns ps P st0 st S E L :
  shaped t = true -> length ps = length (ap_children t) ->
  concat (map collect_exchange_reads ps) = map pending_read P ->
  advanced st0 st S E L -> balanced (ns_of st0) (ne_of st0) S E P ->
  0 <= ns_of st0 -> ns_of st0 + zlen L + 1 < u32_modulus ->
  exists s st', finish_stage gen t columns ps P st = Ret (stage_id s, st') /\
    stage_id s = ns_of st0 + zlen L /\ ne_of st' = ne_of st /\
    advanced st0 st' (S ++ [s]) (E ++ map (resolve_edge (stage_id s)) P) (L ++ [stage_annotation t]) /\
    forall ex, output_of ex = determine_stage_output t ->
      balanced (ns_of st0) (ne_of st0) (S ++ [s]) (E ++ map (resolve_edge (stage_id s)) P)
        [(ne_of st0 + zlen L, stage_id s, ex)].
Proof.
  intros Hsh Hlen Hreads Ha Hb H0 Hroom. destruct t as [p a e pre cs]. simpl in Hsh, Hlen.
  unfold node_shaped in Hsh. simpl in Hsh. bool_hyps.
  match goal with H : (_ =? _)%nat = true |- _ => apply Nat.eqb_eq in H end.
  destruct (reconstruct_spec p ps) as (q & Hq & Hqr); [lia|done|].
  unfold finish_stage. simpl. rewrite Hq. cbn [outcome_bind]. unfold alloc_stage_id, alloc_next.
  set (plan' := restore_projection p columns q).
  set (s := mkStage (ns_of st) [] (stage_inputs plan') (determine_stage_output (Annotated p a e pre cs))
              (gen plan' (filter_ctes_for_stage plan' (plan_context (st_ctx st)))) StageLimits_default).
  pose proof (adv_next _ _ _ _ _ Ha) as Hns. pose proof (advanced_length _ _ _ _ _ Ha) as Hl.
  exists s. eexists. split; [reflexivity|]. rewrite <- Hl. split; [exact Hns|]. split; [done|]. split.
  - pose proof (balanced_below _ _ _ _ _ _ Ha Hb) as Hbelow.
    eapply (advanced_trans st0 st); [done|done|]. split; simpl; try done.
    + by rewrite wrap32_small by (unfold in_u32; lia).
    + intros id Hid. apply lookup_insert_ne. lia.
    + constructor; [apply lookup_insert_eq|done].
  - assert (Hplan : collect_exchange_reads plan' = map pending_read P) by (unfold plan'; by rewrite restore_projection_reads, Hqr, Hreads).
    intros ex Hex. apply balanced_finish; [done|exact Hns| |done|].
    + unfold s. rewrite stage_inputs_exchanges, Hplan, map_map. by apply map_ext.
    + unfold inputs_named, s, stage_inputs. simpl. rewrite Hplan, map_map. apply Forall_app. split.
      * apply Forall_map, Forall_forall. by intros [[] ?] _.
      * destruct (has_local_scan _); [by apply Forall_singleton|constructor].
Qed.

(** *** The mutual recursion *)

Lemma height_child t c : c ∈ ap_children t -> (height c < height t)%nat.
Proof.
  destruct t as [p a e pre cs]. simpl. induction cs as [|d cs IH]; intros Hc; simpl; [by apply not_elem_of_nil in Hc|].
  apply elem_of_cons in Hc as [->|Hc]; [lia|]. apply IH in Hc. lia.
Qed.

Lemma shaped_child t c : shaped t = true -> c ∈ ap_children t -> shaped c = true.
Proof.
  destruct t as [p a e pre cs]. simpl. intros Hs Hc. bool_hyps.
  match goal with H : forallb _ _ = true |- _ => rewrite forallb_forall in H; apply H end.
  by apply list_elem_of_In.
Qed.

Lemma shaped_sort_child t c ex :
  shaped t = true -> c ∈ ap_children t -> exchange_before c = Some ex ->
  sort_order_by_columns (ap_plan t) <> [] -> wraps (ap_plan c) = false.
Proof.
  destruct t as [p a e pre cs]. simpl. intros Hs Hc Hex Hcol. unfold node_shaped in Hs. simpl in Hs.
  destruct (sort_order_by_columns p); [done|]. bool_hyps.
  match goal with H : forallb sort_child_shaped _ = true |- _ =>
    rewrite forallb_forall in H; specialize (H c (proj1 (list_elem_of_In _ _) Hc)) as Hsort end.
  unfold sort_child_shaped in Hsort. rewrite Hex in Hsort. by apply negb_true_iff.
Qed.

Lemma cut_recursive_S fuel t st :
  cut_recursive gen (S fuel) t st =
  let columns := sort_order_by_columns (ap_plan t) in
  let! r := cut_children (cut_child (cut_recursive gen fuel) (extract_stage_plan gen fuel)
                            (rewrite_at_exchange columns) (rewrite_inside columns)) (ap_children t) st in
  let '(plans, pending, st) := r in finish_stage gen t columns plans pending st.
Proof. reflexivity. Qed.

Lemma extract_stage_plan_S fuel t st :
  extract_stage_plan gen (S fuel) t st =
  match ap_children t with
  | [] => Ret (ap_plan t, [], st)
  | cs =>
      let! r := cut_children (cut_child (cut_recursive gen fuel) (extract_stage_plan gen fuel) id id) cs st in
      let '(plans, pending, st) := r in
      let! p := reconstruct_plan_with_children (ap_plan t) plans in
      Ret (p, pending, st)
  end.
Proof. reflexivity. Qed.

Definition cut_meets (fuel : nat) : Prop :=
  forall t, (height t <= fuel)%nat -> shaped t = true ->
    cut_spec (annotations_below t) (stage_annotation t) (determine_stage_output t)
      (cut_recursive gen fuel t).

Definition extract_meets (fuel : nat) : Prop :=
  forall t, (height t <= fuel)%nat -> shaped t = true -> exchange_before t = None ->
    step_spec (child_annotations t) (extract_stage_plan gen fuel t).

(** The children of a node, rewritten by functions that keep their shape. *)
Lemma children_step fuel t f g :
  cut_meets fuel -> extract_meets fuel -> (height t <= S fuel)%nat -> shaped t = true ->
  (forall c ex, c ∈ ap_children t -> exchange_before c = Some ex -> agrees c (f c)) ->
  (forall c, agrees c (g c)) ->
  Forall (fun c => step_spec (child_annotations c)
    (cut_child (cut_recursive gen fuel) (extract_stage_plan gen fuel) f g c)) (ap_children t).
Proof.
  intros IHcut IHext Hh Hs Hf Hg. apply Forall_forall. intros c Hc.
  pose proof (height_child t c Hc). pose proof (shaped_child t c Hs Hc) as Hsc.
  destruct (exchange_before c) as [ex|] eqn:Hex.
  - destruct (Hf c ex Hc Hex) as [h _ _ sh an sa e _].
    apply cut_child_exchange with (ex := ex); [done|]. rewrite <- an, <- sa.
    replace (output_of ex) with (determine_stage_output (f c)).
    { apply IHcut; [lia|congruence]. }
    unfold determine_stage_output. by rewrite e, Hex.
  - destruct (Hg c) as [h _ _ sh an sa e _]. intros st Hst. unfold cut_child. rewrite Hex.
    assert (child_annotations c = child_annotations (g c)) as Heq
      by (unfold child_annotations; by rewrite an, sa, e).
    rewrite Heq in *. apply IHext; [lia|congruence|congruence|done].
Qed.

Lemma cut_step fuel : cut_meets fuel -> extract_meets fuel -> cut_meets (S fuel).
Proof.
  intros IHcut IHext t Hh Hs st Hr. rewrite cut_recursive_S. cbv zeta.
  destruct (cut_children_spec _ (ap_children t) (children_step fuel t
    (rewrite_at_exchange (sort_order_by_columns (ap_plan t)))
    (rewrite_inside (sort_order_by_columns (ap_plan t))) IHcut IHext Hh Hs
    (fun c ex Hc Hex => rewrite_at_exchange_agrees _ c (shaped_sort_child t c ex Hs Hc Hex))
    (rewrite_inside_agrees (sort_order_by_columns (ap_plan t)))) st)
    as (ps & P & st1 & S1 & E1 & Hrun & Ha & Hne & Hb & Hl & Hp).
  { rewrite <- annotations_below_eq. unfold room in *. lia. }
  rewrite Hrun. cbn [outcome_bind]. rewrite <- annotations_below_eq in Ha. destruct Hr as (? & ? & ? & ?).
  destruct (finish_stage_spec t (sort_order_by_columns (ap_plan t)) ps P st st1 S1 E1 _ Hs Hl Hp Ha Hb)
    as (s & st' & Hfin & Hid & Hne' & Ha' & Hb'); [lia|lia|].
  rewrite Hfin. do 4 eexists. split; [done|]. split; [done|].
  rewrite Hne', Hne, (advanced_length _ _ _ _ _ Ha). done.
Qed.

Lemma extract_step fuel : cut_meets fuel -> extract_meets fuel -> extract_meets (S fuel).
Proof.
  intros IHcut IHext t Hh Hs Hex st Hr. rewrite extract_stage_plan_S.
  assert (child_annotations t = annotations_below t) as Heq.
  { unfold child_annotations. by rewrite Hex, app_nil_r. }
  rewrite Heq in *. rewrite annotations_below_eq in *.
  pose proof (children_step fuel t id id IHcut IHext Hh Hs (fun c _ _ _ => agrees_refl c) agrees_refl) as Hcs.
  destruct (cut_children_spec _ (ap_children t) Hcs st Hr)
    as (ps & P & st1 & S1 & E1 & Hrun & Ha & Hne & Hb & Hl & Hp).
  assert (Hn : node_shaped t = true) by (destruct t; simpl in Hs; by bool_hyps).
  unfold node_shaped in Hn. bool_hyps.
  match goal with H : (_ =? _)%nat = true |- _ => apply Nat.eqb_eq in H end.
  destruct (reconstruct_spec (ap_plan t) ps) as (q & Hq & Hqr); [lia|done|].
  rewrite (advanced_length _ _ _ _ _ Ha) in Hne.
  destruct (ap_children t) as [|c cs] eqn:Hcs'.
  - exists (ap_plan t), [], st, [], [].
    split; [done|]. split; [apply advanced_refl|]. split; [simpl; lia|]. split; [apply balanced_nil|].
    by destruct (ap_plan t).
  - rewrite Hrun. cbn [outcome_bind]. rewrite Hq. cbn [outcome_bind].
    exists q, P, st1, S1, E1. by rewrite Hqr.
Qed.

Lemma cut_extract_meets fuel : cut_meets fuel /\ extract_meets fuel.
Proof.
  induction fuel as [|fuel [IHcut IHext]].
  - split; intros []; simpl; lia.
  - split; [by apply cut_step|by apply extract_step].
Qed.
End cut.
