(* ===== verification/CutPlan.v ===== *)
(** * The plan that cutting produces

    The contract of [cut_into_stages] with the executor: the stages form a tree
    rooted at the last stage, inputs and edges agree, outputs match the
    exchanges that consume them, and workers and partition maps are those of
    the distributions before the exchanges. *)

From S2P Require Import Prelude Float64 SqlAst LogicalPlan LdpTypes TopoOrder Policy Requirements ExchangeSelect Metadata Annotate Enforce OrderByColumns Cut CutShape CutCorrect.

#[local] Open Scope Z_scope.

(** ** Specification *)

(** The workers of a stage with annotation [a]. *)
Definition workers_for (coordinator : WorkerId) (a : DistributionAnnotation) : list WorkerId :=
  match sort_dedup (workers (distribution a)) with [] => [coordinator] | ws => ws end.

(** The partition map of a hash exchange: partition [i] goes to worker
    [i mod n] of the receiving stage. *)
Definition edge_assigned (ss : list Stage) (e : ExchangeEdge) : Prop :=
  match kind e with
  | HashPartition _ n => exists s, s ∈ ss /\ stage_id s = to_stage e /\
      length (partition_to_worker e) = Z.to_nat n /\
      forall i, (i < Z.to_nat n)%nat ->
        partition_to_worker e !! i = target_workers s !! (i mod length (target_workers s))%nat
  | _ => partition_to_worker e = []
  end.

Record cut_plan_ok (t : AnnotatedPlan) (p : LdpPlan) : Prop := {
  ok_stages : map stage_id (stages p) = seqZ 0 (Z.of_nat (S (count_below t)));
  ok_root : root_stage p = Z.of_nat (count_below t);
  ok_exchanges : map exchange_id (edges p) ≡ₚ seqZ 0 (Z.of_nat (count_below t));
  ok_sources : map from_stage (edges p) ≡ₚ seqZ 0 (Z.of_nat (count_below t));
  ok_forward : Forall (fun e => 0 <= from_stage e < to_stage e /\ to_stage e <= root_stage p) (edges p);
  ok_outputs : Forall (fun e => exists s, s ∈ stages p /\ stage_id s = from_stage e /\
                                          output s = output_of (kind e)) (edges p);
  ok_root_output : Forall (fun s => stage_id s = root_stage p -> output s = Stream) (stages p);
  ok_inputs : Forall (fun s => input_exchanges s = edges_into (stage_id s) (edges p)) (stages p);
  ok_workers : map target_workers (stages p) =
               map (workers_for (coordinator p)) (annotations_below t ++ [stage_annotation t]);
  ok_partitions : Forall (edge_assigned (stages p)) (edges p);
  ok_named : Forall inputs_named (stages p);
}.

(** The parts of the contract, as the executor relies on them. *)
Definition tree_towards_root (p : LdpPlan) : Prop :=
  map stage_id (stages p) = seqZ 0 (root_stage p + 1) /\
  map exchange_id (edges p) ≡ₚ seqZ 0 (root_stage p) /\
  map from_stage (edges p) ≡ₚ seqZ 0 (root_stage p) /\
  Forall (fun e => 0 <= from_stage e < to_stage e /\ to_stage e <= root_stage p) (edges p).

Definition inputs_are_edges (p : LdpPlan) : Prop :=
  Forall (fun s => input_exchanges s = edges_into (stage_id s) (edges p)) (stages p).

Definition inputs_are_named (p : LdpPlan) : Prop := Forall inputs_named (stages p).

Definition outputs_match (p : LdpPlan) : Prop :=
  (forall e s, e ∈ edges p -> s ∈ stages p -> stage_id s = from_stage e -> output s = output_of (kind e)) /\
  (forall s, s ∈ stages p -> stage_id s = root_stage p -> output s = Stream).

Definition runs_in_order (p : LdpPlan) (order : list StageId) : Prop :=
  order ≡ₚ map stage_id (stages p) /\
  forall e, e ∈ edges p -> precedes order (from_stage e) (to_stage e).

(** ** Workers *)

Lemma workers_for_nonempty c a : workers_for c a <> [].
Proof. unfold workers_for. by destruct (sort_dedup _). Qed.

Lemma round_robin_spec ws n :
  ws <> [] -> exists l, round_robin ws n = Ret l /\ length l = Z.to_nat n /\
    forall i, (i < Z.to_nat n)%nat -> l !! i = ws !! (i mod length ws)%nat.
Proof.
  intros Hws. destruct ws as [|w ws]; [done|]. eexists. split; [reflexivity|].
  split; [by rewrite length_map, length_seq|]. intros i Hi.
  change (map ?f ?l) with (f <$> l). rewrite list_lookup_fmap, lookup_seq_lt by done. simpl fmap.
  pose proof (Nat.mod_upper_bound i (length (w :: ws))) as Hb. simpl length in *.
  destruct (lookup_lt_is_Some_2 (w :: ws) (i mod S (length ws))) as [x Hx]; [simpl; lia|].
  rewrite Hx. simpl. f_equal. apply nth_lookup_Some with (1 := Hx).
Qed.

(** The two records agree outside the partition map. *)
Definition same_edge (e e' : ExchangeEdge) : Prop :=
  exchange_id e' = exchange_id e /\ kind e' = kind e /\
  from_stage e' = from_stage e /\ to_stage e' = to_stage e.

Lemma assign_edge_spec ss e :
  Forall (fun s => target_workers s <> []) ss -> to_stage e ∈ map stage_id ss ->
  partition_to_worker e = [] ->
  exists e', assign_edge ss e = Ret e' /\ same_edge e e' /\ edge_assigned ss e'.
Proof.
  intros Hws Hto Hp. unfold assign_edge, edge_assigned. destruct (kind e) as [w|ws|refs n] eqn:Hk.
  1, 2: exists e; rewrite Hk; by repeat split.
  destruct (List.find _ ss) as [s|] eqn:Hf.
  - apply find_some in Hf as [Hin Heq%Z.eqb_eq]. apply list_elem_of_In in Hin.
    rewrite Forall_forall in Hws. destruct (round_robin_spec (target_workers s) n (Hws s Hin)) as (l & -> & Hl & Hi).
    cbn [outcome_bind]. eexists. split; [done|]. simpl. split; [by repeat split|]. eauto.
  - exfalso. apply list_elem_of_In, in_map_iff in Hto as (s & Hs & Hin).
    pose proof (find_none _ _ Hf s Hin) as Hn. simpl in Hn. apply Z.eqb_neq in Hn. congruence.
Qed.

Lemma assign_edges_spec ss es :
  Forall (fun s => target_workers s <> []) ss ->
  Forall (fun e => to_stage e ∈ map stage_id ss /\ partition_to_worker e = []) es ->
  exists es', assign_edges ss es = Ret es' /\ Forall2 same_edge es es' /\ Forall (edge_assigned ss) es'.
Proof.
  intros Hws. induction 1 as [|e es [Ht Hp] _ (es' & Hes & H2 & Ha)]; [by exists []|].
  destruct (assign_edge_spec ss e Hws Ht Hp) as (e' & He & Hs & Hea).
  exists (e' :: es'). cbn [assign_edges]. rewrite He. cbn [outcome_bind]. rewrite Hes. auto.
Qed.

(** What [set_root_stream] keeps of a stage, and [assign_stage_worker] of its
    other half. *)
Definition stage_view (s : Stage) : StageId * list WorkerId * list StageInput :=
  (stage_id s, target_workers s, inputs s).

Lemma set_root_stream_view root ss : map stage_view (set_root_stream root ss) = map stage_view ss.
Proof.
  induction ss as [|s ss IH]; simpl; [done|]. destruct (stage_id s =? root); simpl; by rewrite ?IH.
Qed.

Lemma map_view_eq {B} (f : StageId * list WorkerId * list StageInput -> B) ss ss' :
  map stage_view ss = map stage_view ss' ->
  map (fun s => f (stage_view s)) ss = map (fun s => f (stage_view s)) ss'.
Proof. intros H. by rewrite <- !(map_map stage_view f), H. Qed.

Lemma elem_of_view ss ss' s :
  map stage_view ss = map stage_view ss' -> s ∈ ss -> exists s', s' ∈ ss' /\ stage_view s' = stage_view s.
Proof.
  intros H Hs. apply (list_elem_of_fmap_2 stage_view) in Hs. change (stage_view <$> ss) with (map stage_view ss) in Hs.
  rewrite H in Hs. apply list_elem_of_fmap in Hs as (s' & ? & ?). eauto.
Qed.

Lemma set_root_stream_other root ss s :
  stage_id s <> root -> s ∈ ss -> s ∈ set_root_stream root ss.
Proof.
  intros Hne. induction ss as [|s' ss IH]; simpl; [done|]. intros Hs.
  apply elem_of_cons in Hs as [->|Hs]; destruct (Z.eqb_spec (stage_id s') root); rewrite elem_of_cons; auto.
  congruence.
Qed.

Lemma set_root_stream_root root ss :
  NoDup (map stage_id ss) ->
  Forall (fun s => stage_id s = root -> output s = Stream) (set_root_stream root ss).
Proof.
  induction ss as [|s ss IH]; simpl; [constructor|]. intros [Hni Hnd]%NoDup_cons.
  destruct (Z.eqb_spec (stage_id s) root) as [<-|Hne]; constructor; try done; auto.
  apply Forall_forall. intros s' Hs' Heq. destruct Hni. rewrite <- Heq.
  by apply list_elem_of_fmap_2.
Qed.

Lemma assigned_workers c anns S L :
  Forall2 (fun s a => anns !! stage_id s = Some a) S L ->
  map target_workers (map (assign_stage_worker c anns) S) = map (workers_for c) L.
Proof.
  induction 1 as [|s a S L Hs _ IH]; [done|]. cbn [map]. rewrite IH. f_equal.
  unfold assign_stage_worker, workers_for. simpl. rewrite Hs. by destruct (sort_dedup _).
Qed.

Lemma same_edge_map {B} (f : ExchangeEdge -> B) es es' :
  (forall e e', same_edge e e' -> f e' = f e) -> Forall2 same_edge es es' -> map f es' = map f es.
Proof. intros Hf. induction 1; simpl; f_equal; auto. Qed.

Lemma same_edge_Forall (Q : ExchangeEdge -> Prop) es es' :
  (forall e e', same_edge e e' -> Q e -> Q e') -> Forall2 same_edge es es' -> Forall Q es -> Forall Q es'.
Proof. intros HQ. induction 1; intros HF; constructor; apply Forall_cons in HF as [? ?]; eauto. Qed.

Lemma same_edge_into id es es' : Forall2 same_edge es es' -> edges_into id es' = edges_into id es.
Proof.
  unfold edges_into. induction 1 as [|e e' es es' (Hx & _ & _ & Ht) _ IH]; simpl; [done|].
  rewrite Ht. destruct (to_stage e =? id); simpl; by rewrite ?Hx, IH.
Qed.

(** A balanced fragment rooted at its last stage, without pending edges. *)
Lemma balanced_root S E n id ex :
  length S = Datatypes.S n -> balanced 0 0 S E [(0 + Z.of_nat n, id, ex)] ->
  id = 0 + Z.of_nat n ->
  map exchange_id E ≡ₚ seqZ 0 (Z.of_nat n) /\ map from_stage E ≡ₚ seqZ 0 (Z.of_nat n).
Proof.
  intros Hl [_ x r _ _ _ _ _] ->. rewrite Hl, seqZ_S in x, r. simpl in x, r. split.
  - by eapply Permutation_app_inv_r.
  - by eapply Permutation_app_inv_r.
Qed.

Lemma edge_assigned_view ss ss' e :
  map stage_view ss = map stage_view ss' -> edge_assigned ss e -> edge_assigned ss' e.
Proof.
  intros Hv. unfold edge_assigned. destruct (kind e); try done.
  intros (s & Hs & Hid & Hl & Hi). destruct (elem_of_view _ _ _ Hv Hs) as (s' & Hs' & [= Hid' Ht' _]).
  exists s'. rewrite Ht', Hid'. auto.
Qed.

(** From the balanced stages to the finished ones. *)
Section finished.
Context (S : list Stage) (E E' : list ExchangeEdge) (P : list PendingEdge) (n : nat).
Context (c : WorkerId) (anns : gmap StageId DistributionAnnotation).
Context (Hb : balanced 0 0 S E P) (Hl : length S = Datatypes.S n) (He : Forall2 same_edge E E').
Abbreviation ss := (map (assign_stage_worker c anns) S).
Abbreviation final := (set_root_stream (Z.of_nat n) ss).

Lemma finished_ids : map stage_id final = seqZ 0 (Z.of_nat (Datatypes.S n)).
Proof.
  transitivity (map stage_id ss).
  - apply (map_view_eq (fun v => v.1.1)), set_root_stream_view.
  - rewrite map_map. simpl. rewrite <- Hl. apply (bal_stages _ _ _ _ _ Hb).
Qed.

Lemma finished_outputs :
  Forall (fun e => exists s, s ∈ final /\ stage_id s = from_stage e /\ output s = output_of (kind e)) E'.
Proof.
  eapply same_edge_Forall; [|exact He|].
  { intros e e' (_ & -> & -> & _) HQ. exact HQ. }
  apply Forall_forall. intros e Hin.
  pose proof (proj1 (Forall_forall _ _) (bal_forward _ _ _ _ _ Hb) e Hin) as Hf. simpl in Hf.
  destruct (proj1 (Forall_app _ _ _) (bal_outputs _ _ _ _ _ Hb)) as [Ho _].
  rewrite Forall_map, Forall_forall in Ho. destruct (Ho e Hin) as (s & Hs & Hid & Hout). simpl in Hid, Hout.
  exists (assign_stage_worker c anns s). split; [|done].
  apply set_root_stream_other; [simpl; lia|]. by apply list_elem_of_fmap_2.
Qed.

Lemma finished_inputs :
  Forall (fun s => input_exchanges s = edges_into (stage_id s) E') final.
Proof.
  apply Forall_forall. intros s Hs.
  destruct (elem_of_view _ ss _ (set_root_stream_view _ _) Hs) as (s' & Hs' & [= Hid Ht Hi]).
  apply list_elem_of_fmap in Hs' as (s0 & -> & Hs0). simpl in Hid, Hi.
  rewrite (same_edge_into _ _ _ He), <- Hid. unfold input_exchanges. rewrite <- Hi.
  apply (proj1 (Forall_forall _ _) (bal_inputs _ _ _ _ _ Hb) s0 Hs0).
Qed.

Lemma finished_named : Forall inputs_named final.
Proof.
  apply Forall_forall. intros s Hs.
  destruct (elem_of_view _ ss _ (set_root_stream_view _ _) Hs) as (s' & Hs' & [= _ _ Hi]).
  apply list_elem_of_fmap in Hs' as (s0 & -> & Hs0). simpl in Hi. unfold inputs_named. rewrite <- Hi.
  apply (proj1 (Forall_forall _ _) (bal_named _ _ _ _ _ Hb) s0 Hs0).
Qed.

Lemma finished_forward :
  Forall (fun e => 0 <= from_stage e < to_stage e /\ to_stage e <= Z.of_nat n) E'.
Proof.
  eapply same_edge_Forall; [|exact He|eapply Forall_impl; [exact (bal_forward _ _ _ _ _ Hb)|]].
  { intros e e' (_ & _ & -> & ->) HQ. exact HQ. }
  intros e. rewrite Hl. simpl. lia.
Qed.
End finished.

(** ** The whole cut *)

Lemma output_of_surjective t : exists ex, output_of ex = determine_stage_output t.
Proof.
  unfold determine_stage_output. destruct (exchange_before t) as [[]|]; try (by exists (Broadcast [])).
  by eexists (HashPartition _ _).
Qed.

Section plan.
Context `{SqlDisplay} (gen : LogicalPlan -> PlanContext -> string).
Context (t : AnnotatedPlan) (policy : PlannerPolicy) (query : string) (context : PlanContext).
Context (Hshaped : shaped t = true) (Hroom : Z.of_nat (S (count_below t)) < u32_modulus).

Lemma cut_into_stages_ok :
  exists p, cut_into_stages gen t policy query context = Ret p /\ cut_plan_ok t p /\
    query_id p = query /\ coordinator p = pol_coordinator policy.
Proof.
  set (st0 := mkCut (LdpPlan_new query (pol_coordinator policy)) (CutContext_new context)).
  destruct (proj1 (cut_extract_meets gen (height t)) t (le_n _) Hshaped st0)
    as (id & st & S & E & Hrun & Ha & _ & Hid & Hb).
  { unfold room. simpl. rewrite annotations_below_length. lia. }
  pose proof (advanced_length _ _ _ _ _ Ha) as Hl. rewrite length_app, Nat.add_1_r in Hl.
  rewrite annotations_below_length in *. simpl in Hid, Hb. subst id.
  destruct (output_of_surjective t) as [ex Hex]. specialize (Hb ex Hex).
  unfold cut_into_stages. fold st0. rewrite Hrun. cbn [outcome_bind]. unfold assign_stage_workers.
  destruct Ha as [a1 a2 _ a4 a5 _ a7]. simpl in a1, a2, a4, a5 |- *. rewrite a1, a2, a4, a5.
  set (ss := map (assign_stage_worker (pol_coordinator policy) (stage_annotations (st_ctx st))) S).
  assert (Hids : map stage_id ss = map stage_id S) by (unfold ss; rewrite map_map; by apply map_ext).
  destruct (assign_edges_spec ss E) as (E' & HE' & Hsame & Hass).
  { apply Forall_map, Forall_forall. intros s _. simpl. by case_match. }
  { apply Forall_forall. intros e Hin. split.
    - rewrite Hids, (bal_stages _ _ _ _ _ Hb). apply elem_of_seqZ.
      pose proof (proj1 (Forall_forall _ _) (bal_forward _ _ _ _ _ Hb) e Hin). simpl in *. lia.
    - apply (proj1 (Forall_forall _ _) (bal_unassigned _ _ _ _ _ Hb) e Hin). }
  rewrite HE'. cbn [outcome_bind]. eexists. split; [reflexivity|]. split; [|done].
  destruct (balanced_root _ _ _ _ _ Hl Hb eq_refl) as [Hx Hs].
  split; simpl.
  - eapply finished_ids; done.
  - done.
  - by rewrite (same_edge_map exchange_id E E') by (done || by intros ? ? (? & _)).
  - by rewrite (same_edge_map from_stage E E') by (done || by intros ? ? (_ & _ & ? & _)).
  - eapply finished_forward; done.
  - eapply finished_outputs; done.
  - apply set_root_stream_root. rewrite Hids, (bal_stages _ _ _ _ _ Hb). apply NoDup_seqZ.
  - eapply finished_inputs; done.
  - rewrite <- (assigned_workers _ _ _ _ a7). apply (map_view_eq (fun v => v.1.2)), set_root_stream_view.
  - eapply Forall_impl; [exact Hass|]. intros e. apply edge_assigned_view. symmetry. apply set_root_stream_view.
  - eapply finished_named; done.
Qed.
End plan.

(** ** Plans of the annotator *)

(** A logical plan whose annotation can be cut: no exchange is read yet, and an
    ORDER BY with columns is not directly above an operator that would be
    wrapped. *)
Fixpoint cuttable (p : LogicalPlan) : bool :=
  match p with
  | ExchangeRead _ _ => false
  | Scan _ _ _ => true
  | Sort i order_by =>
      (match extract_order_by_columns order_by with [] => true | _ => negb (wraps i) end) && cuttable i
  | Filter i _ | Project i _ | Aggregate i _ _ _ _ | Limit i _ _
  | Window i _ _ | SubqueryScan i _ => cuttable i
  | Join l r _ _ _ | SetOp l r _ _ => cuttable l && cuttable r
  end.

Lemma cuttable_children p : cuttable p = true -> Forall (fun q => cuttable q = true) (children p).
Proof. destruct p; simpl; intros; bool_hyps; repeat constructor; done. Qed.

Lemma cuttable_sort p :
  cuttable p = true -> sort_order_by_columns p <> [] -> Forall (fun q => wraps q = false) (children p).
Proof.
  destruct p; try done.
  - simpl. intros Hc Hne. destruct (extract_order_by_columns order_by); [done|]. bool_hyps. by constructor.
  - destruct p; try done. intros _ _. by constructor.
Qed.

Lemma enforced_shaped policy t : enforced policy t -> cuttable (ap_plan t) = true -> shaped t = true.
Proof.
  induction t as [t IH] using AnnotatedPlan_children_ind. destruct t as [p a e pre cs]. simpl in *.
  intros [[Hch _] Hcs] Hc. simpl in Hch. apply andb_true_iff; split.
  - unfold node_shaped. simpl. rewrite <- (length_map ap_plan), Hch. unfold arity. rewrite Nat.eqb_refl. simpl.
    apply andb_true_iff; split; [by destruct p|]. destruct (sort_order_by_columns p) eqn:Hs; [done|].
    pose proof (cuttable_sort p Hc ltac:(by rewrite Hs)) as Hw. rewrite <- Hch, Forall_map in Hw.
    apply forallb_forall. intros c Hin%list_elem_of_In. unfold sort_child_shaped.
    rewrite Forall_forall in Hw. rewrite Hw by done. by destruct (exchange_before c).
  - apply cuttable_children in Hc. rewrite <- Hch, Forall_map in Hc. clear Hch.
    induction IH as [|c cs Hi _ IH']; simpl; [done|]. simpl in Hcs. destruct Hcs as [He Hcs].
    apply Forall_cons in Hc as [? ?]. rewrite Hi by done. auto.
Qed.

(** ** The properties *)

Section properties.
Context `{SqlDisplay} (gen : LogicalPlan -> PlanContext -> string).
Context (t : AnnotatedPlan) (policy : PlannerPolicy) (query : string) (context : PlanContext).

(** A returned plan is the one of [cut_into_stages_ok]. *)
Lemma cut_returned p :
  shaped t = true -> Z.of_nat (S (count_below t)) < u32_modulus ->
  cut_into_stages gen t policy query context = Ret p -> cut_plan_ok t p.
Proof.
  intros Hs Hr Hp. destruct (cut_into_stages_ok gen t policy query context Hs Hr) as (p' & Hp' & Hok & _).
  congruence.
Qed.


(** C5: The stages of a cut plan form a tree towards the root: they are
    numbered 0 to n in order with the root last, the exchanges are 0 to n-1,
    every stage but the root sends exactly one exchange, and every exchange
    goes to a later stage. *)
Theorem cut_plan_is_a_tree p :
  shaped t = true -> Z.of_nat (S (count_below t)) < u32_modulus ->
  cut_into_stages gen t policy query context = Ret p ->
  tree_towards_root p.
Proof.
  intros Hs Hr Hp. unfold tree_towards_root. destruct (cut_returned p Hs Hr Hp) as [i r x f w _ _ _ _ _ _].
  rewrite r in *. rewrite i. split; [f_equal; lia|]. done.
Qed.

(** The inputs of every stage are its incoming exchanges: the exchange
    ids it reads are, in order, those of the edges that lead to it. *)
Theorem cut_inputs_are_edges p :
  shaped t = true -> Z.of_nat (S (count_below t)) < u32_modulus ->
  cut_into_stages gen t policy query context = Ret p ->
  inputs_are_edges p.
Proof. intros Hs Hr Hp. apply (ok_inputs t p). by apply cut_returned. Qed.

(** It reads each of them from the table named after the exchange. *)
Theorem cut_inputs_are_named p :
  shaped t = true -> Z.of_nat (S (count_below t)) < u32_modulus ->
  cut_into_stages gen t policy query context = Ret p ->
  inputs_are_named p.
Proof. intros Hs Hr Hp. apply (ok_named t p). by apply cut_returned. Qed.

(** A stage that feeds a hash exchange partitions its output on that
    exchange's keys into that exchange's number of partitions; a stage that
    feeds a gather or a broadcast, and the root, stream. *)
Theorem cut_outputs_match_exchanges p :
  shaped t = true -> Z.of_nat (S (count_below t)) < u32_modulus ->
  cut_into_stages gen t policy query context = Ret p ->
  outputs_match p.
Proof.
  unfold outputs_match. intros Hs Hr Hp. destruct (cut_returned p Hs Hr Hp) as [i _ _ _ _ o r _ _ _ _].
  rewrite !Forall_forall in *. split; [|done]. intros e s He Hin Heq.
  destruct (o e He) as (s' & Hs' & Hid' & <-). f_equal.
  apply (NoDup_map_inj stage_id (stages p)); [|done|done|congruence].
  rewrite i. apply NoDup_seqZ.
Qed.

(** Every stage runs where its data is: on the workers of the
    distribution before the exchange above it, sorted and without
    duplicates, or on the coordinator when that distribution has none. *)
Theorem cut_stage_workers p :
  shaped t = true -> Z.of_nat (S (count_below t)) < u32_modulus ->
  cut_into_stages gen t policy query context = Ret p ->
  map target_workers (stages p) =
    map (workers_for (pol_coordinator policy)) (annotations_below t ++ [stage_annotation t]) /\
  forall s, s ∈ stages p ->
    target_workers s <> [] /\ NoDup (target_workers s) /\ StronglySorted String.le (target_workers s).
Proof.
  intros Hs Hr Hp. destruct (cut_into_stages_ok gen t policy query context Hs Hr)
    as (p' & Hp' & Hok & _ & Hco). assert (p' = p) as -> by congruence.
  rewrite <- Hco. split; [apply Hok|]. intros s Hin.
  assert (Hw : target_workers s ∈ map target_workers (stages p)) by by apply list_elem_of_fmap_2.
  rewrite (ok_workers t p Hok) in Hw. apply list_elem_of_In, in_map_iff in Hw as (a & <- & _).
  split; [apply workers_for_nonempty|]. unfold workers_for.
  destruct (sort_dedup _) eqn:Hd; [split; [apply NoDup_singleton|repeat constructor]|].
  rewrite <- Hd. split; [apply sort_dedup_NoDup|apply sort_dedup_sorted].
Qed.

(** The partition map of a hash exchange covers every partition and
    sends partition [i] to worker [i mod n] of the receiving stage. *)
Theorem cut_partition_map p :
  shaped t = true -> Z.of_nat (S (count_below t)) < u32_modulus ->
  cut_into_stages gen t policy query context = Ret p ->
  Forall (edge_assigned (stages p)) (edges p).
Proof. intros Hs Hr Hp. apply (ok_partitions t p). by apply cut_returned. Qed.

(** The executor's topological order of a cut plan exists, runs every
    stage exactly once, and runs the source of every exchange first. *)
Theorem cut_plan_is_ordered p :
  shaped t = true -> Z.of_nat (S (count_below t)) < u32_modulus ->
  cut_into_stages gen t policy query context = Ret p ->
  exists order, topological_order p = Ret order /\ runs_in_order p order.
Proof.
  intros Hs Hr Hp. destruct (cut_returned p Hs Hr Hp) as [i r _ _ f _ _ _ _ _ _].
  rewrite Forall_forall in f.
  destruct (topological_order_all p Z.to_nat) as (l & Hl & Hnd & Hids & Hprec).
  - intros e He. specialize (f e He). simpl in f. unfold ids. rewrite i, elem_of_seqZ. lia.
  - exists l. split; [done|]. split; [|done]. apply NoDup_Permutation; [done| |done].
    rewrite i. apply NoDup_seqZ.
Qed.
End properties.

(** ** Concrete plans *)

(** SQL that names the scanned tables. *)
Definition demo_sql (p : LogicalPlan) (_ : PlanContext) : string := String.concat "," (collect_scan_names p).

#[local] Existing Instance demo_display.
#[local] Existing Instance InMemory.metadata.

Definition demo_cut : LdpPlan :=
  match cut_into_stages demo_sql demo_annotated demo_policy "q1" PlanContext_default with
  | Ret p => p
  | _ => LdpPlan_new "" ""
  end.

Lemma demo_cut_eq : cut_into_stages demo_sql demo_annotated demo_policy "q1" PlanContext_default = Ret demo_cut.
Proof. vm_compute. reflexivity. Qed.

(** Customers are broadcast to the join on the workers of orders, and the join
    is shuffled to the grouping. *)
Example demo_cut_stages :
  map (fun s => (stage_id s, target_workers s, inputs s)) (stages demo_cut) =
    [(0, ["w1"; "w2"], [LocalCatalog]);
     (1, ["w1"; "w2"], [ExchangeInput 0 "__exchange_0"; LocalCatalog]);
     (2, ["w1"; "w2"], [ExchangeInput 1 "__exchange_1"])] /\
  map (fun e => (from_stage e, to_stage e, length (partition_to_worker e))) (edges demo_cut) =
    [(0, 1, 0%nat); (1, 2, 16%nat)].
Proof. vm_compute. done. Qed.


Lemma cut_plan_is_a_tree_witness :
  tree_towards_root demo_cut.
Proof.
  apply (cut_plan_is_a_tree demo_sql demo_annotated demo_policy "q1" PlanContext_default demo_cut).
  - vm_compute. reflexivity.
  - vm_compute. reflexivity.
  - exact demo_cut_eq.
Defined.

Lemma cut_inputs_are_edges_witness :
  inputs_are_edges demo_cut.
Proof.
  apply (cut_inputs_are_edges demo_sql demo_annotated demo_policy "q1" PlanContext_default demo_cut).
  - vm_compute. reflexivity.
  - vm_compute. reflexivity.
  - exact demo_cut_eq.
Defined.

Lemma cut_outputs_match_exchanges_witness :
  outputs_match demo_cut.
Proof.
  apply (cut_outputs_match_exchanges demo_sql demo_annotated demo_policy "q1" PlanContext_default demo_cut).
  - vm_compute. reflexivity.
  - vm_compute. reflexivity.
  - exact demo_cut_eq.
Defined.

Lemma cut_stage_workers_witness :
  map target_workers (stages demo_cut) =
    map (workers_for "w0") (annotations_below demo_annotated ++ [stage_annotation demo_annotated]).
Proof.
  apply (cut_stage_workers demo_sql demo_annotated demo_policy "q1" PlanContext_default demo_cut).
  - vm_compute. reflexivity.
  - vm_compute. reflexivity.
  - exact demo_cut_eq.
Defined.

Lemma cut_partition_map_witness : Forall (edge_assigned (stages demo_cut)) (edges demo_cut).
Proof.
  apply (cut_partition_map demo_sql demo_annotated demo_policy "q1" PlanContext_default demo_cut).
  - vm_compute. reflexivity.
  - vm_compute. reflexivity.
  - exact demo_cut_eq.
Defined.

Lemma cut_plan_is_ordered_witness :
  exists order, topological_order demo_cut = Ret order /\ runs_in_order demo_cut order.
Proof.
  apply (cut_plan_is_ordered demo_sql demo_annotated demo_policy "q1" PlanContext_default demo_cut).
  - vm_compute. reflexivity.
  - vm_compute. reflexivity.
  - exact demo_cut_eq.
Defined.

(** ** Where cutting falls short *)

Definition column (s : string) : Expr := Identifier (Ident_new s).
Definition order_by_column (s : string) : OrderByExpr := {| ob_expr := column s; ob_options := "" |}.
Definition select_columns (cs : list string) (t : string) : LogicalPlan :=
  Project (scan t) (map (fun c => SelUnnamedExpr (column c)) cs).

(** The plan of [SELECT a, b FROM orders UNION ALL SELECT a, b FROM customers
    ORDER BY a]. *)
Definition union_query : LogicalPlan :=
  Sort (SetOp (select_columns ["a"; "b"] "orders") (select_columns ["a"; "b"] "customers") SetUnion SQAll)
       [order_by_column "a"].

Definition planned (metadata : InMemory.t) (policy : PlannerPolicy) (plan : LogicalPlan) : outcome LdpPlan :=
  match annotate_logical_plan metadata policy plan with
  | Ok t => cut_into_stages demo_sql t policy "q1" PlanContext_default
  | Err _ => Panic
  end.

(** ORDER BY over a distributed UNION ALL loses the second input: the
    gathered SetOp is wrapped in a Project for the ORDER BY column, the rebuilt
    Project keeps the first child only, and no stage scans the second table. *)
Theorem order_by_over_union_drops_input :
  match planned demo_metadata demo_policy union_query with
  | Ret p => map stage_sql (stages p) = ["orders"; ""] /\ map inputs (stages p) = [[LocalCatalog]; [ExchangeInput 0 "__exchange_0"]]
  | _ => False
  end.
Proof. vm_compute. done. Qed.

(** Sorting a table that lives on one worker other than the coordinator
    needs no gather, and the stage is placed on the coordinator, whose catalog
    does not have the table. *)
Theorem sort_stage_on_wrong_worker :
  let metadata := InMemory.add_epoch InMemory.new "e1" "t" (EpochStats_exact 10 1000) "w1" in
  ts_workers (get_table_scan_stats metadata "t") = ["w1"] /\
  match planned metadata demo_policy (Sort (select_columns ["a"] "t") [order_by_column "a"]) with
  | Ret p => map (fun s => (target_workers s, inputs s)) (stages p) = [(["w0"], [LocalCatalog])]
  | _ => False
  end.
Proof. vm_compute. done. Qed.

(** An ORDER BY directly over a distributed scan panics: the scan is wrapped in
    a Project, which then finds no child. *)
Example sort_over_scan_panics :
  planned demo_metadata demo_policy (Sort (scan "orders") [order_by_column "a"]) = Panic.
Proof. vm_compute. reflexivity. Qed.
