(* ===== verification/CutSql.v ===== *)
(** * The SQL of cut stages (ldp/planner/cut.rs with sql/stage_sql_gen.rs)

    Cutting and SQL generation composed: a stage's SQL is generated from the
    plan its inputs were collected from, so it reads every exchange the
    executor materializes for it. *)

From S2P Require Import Prelude SqlAst LogicalPlan PlanBuilder StageSqlGen LdpTypes Policy Annotate Enforce OrderByColumns Cut CutShape CutCorrect CutPlan.

#[local] Open Scope Z_scope.

Lemma in_order_sublist (ks ls : list string) (text : string) :
  sublist ks ls -> in_order ls text -> in_order ks text.
Proof.
  intros Hs. revert text. induction Hs as [|x ks ls Hs IH|x ks ls Hs IH]; intros text; simpl; [done| |].
  - intros (b & a & -> & Ho). exists b, a. auto.
  - intros (b & a & -> & Ho). apply in_order_pre, in_order_pre. auto.
Qed.

(** The tables of the exchange inputs, in order. *)
Definition input_tables (s : Stage) : list string :=
  omap (fun i => match i with ExchangeInput _ table => Some table | LocalCatalog => None end) (inputs s).

Section reads.
Context `{SqlDisplay} (gen : LogicalPlan -> PlanContext -> string).

(** A stage and the plan it was generated from. *)
Definition stage_of_plan (s : Stage) : Prop :=
  exists plan context, inputs s = stage_inputs plan /\ stage_sql s = gen plan context.

Definition stages_of_plans (st : CutState) : Prop := Forall stage_of_plan (stages (st_plan st)).

Lemma finish_stage_of_plan t columns ps P st id st' :
  finish_stage gen t columns ps P st = Ret (id, st') -> stages_of_plans st -> stages_of_plans st'.
Proof.
  unfold finish_stage. intros Hf Hs. inv_bind Hf. injection Hf as _ <-. unfold stages_of_plans. simpl.
  apply Forall_app. split; [exact Hs|]. repeat constructor. by eexists _, _.
Qed.

Lemma cut_children_of_plan step cs st r :
  (forall c st p P st', c ∈ cs -> step c st = Ret (p, P, st') -> stages_of_plans st -> stages_of_plans st') ->
  cut_children step cs st = Ret r -> stages_of_plans st -> stages_of_plans (snd r).
Proof.
  revert st r. induction cs as [|c cs IH]; intros st r Hstep Hc Hs; simpl in Hc; [by injection Hc as <-|].
  inv_bind Hc. destruct a as [[p P] st1]. inv_bind Hc. destruct a as [[ps Ps] st2]. injection Hc as <-. simpl.
  apply (IH st1 (ps, Ps, st2)); [intros; eapply Hstep; eauto; by right|done|]. eapply Hstep; [left|done..].
Qed.

Lemma cut_child_of_plan cut extract f g c st p P st' :
  (forall t st r, cut t st = Ret r -> stages_of_plans st -> stages_of_plans (snd r)) ->
  (forall t st r, extract t st = Ret r -> stages_of_plans st -> stages_of_plans (snd r)) ->
  cut_child cut extract f g c st = Ret (p, P, st') -> stages_of_plans st -> stages_of_plans st'.
Proof.
  intros Hcut Hext Hc Hs. unfold cut_child in Hc. destruct (exchange_before c).
  - inv_bind Hc. destruct a as [from st1]. injection Hc as _ _ <-. apply Hcut in E; [|done]. exact E.
  - by apply Hext in Hc.
Qed.

Lemma cut_recursive_of_plan (fuel : nat) :
  (forall t st r, cut_recursive gen fuel t st = Ret r -> stages_of_plans st -> stages_of_plans (snd r)) /\
  (forall t st r, extract_stage_plan gen fuel t st = Ret r -> stages_of_plans st -> stages_of_plans (snd r)).
Proof.
  induction fuel as [|fuel [IHc IHe]]; [done|]. split; intros t st r Hr Hs.
  - rewrite cut_recursive_S in Hr. cbv zeta in Hr. inv_bind Hr. destruct a as [[ps P] st1].
    destruct r as [id st']. eapply finish_stage_of_plan; [done|].
    apply (cut_children_of_plan _ _ _ (ps, P, st1)) in E; [done| |done].
    intros c st2 p P' st'' _ Hc. eapply cut_child_of_plan; eauto.
  - rewrite extract_stage_plan_S in Hr. destruct (ap_children t) as [|c cs] eqn:Ec.
    { by injection Hr as <-. }
    inv_bind Hr. destruct a as [[ps P] st1]. inv_bind Hr. injection Hr as <-. simpl.
    apply (cut_children_of_plan _ _ _ (ps, P, st1)) in E; [done| |done].
    intros c' st2 p P' st'' _ Hc. eapply cut_child_of_plan; eauto.
Qed.

Lemma set_root_stream_of_plan root ss : Forall stage_of_plan ss -> Forall stage_of_plan (set_root_stream root ss).
Proof.
  induction 1 as [|s ss Hs Hss IH]; simpl; [done|]. destruct (stage_id s =? root); constructor; auto.
Qed.

Lemma cut_stages_of_plans root policy query context p :
  cut_into_stages gen root policy query context = Ret p -> Forall stage_of_plan (stages p).
Proof.
  unfold cut_into_stages. intros Hc. inv_bind Hc. destruct a as [id st]. inv_bind Hc. injection Hc as <-. simpl.
  apply (proj1 (cut_recursive_of_plan _)) in E; [|constructor]. simpl in E.
  unfold assign_stage_workers in E0. inv_bind E0. injection E0 as <-. simpl.
  apply set_root_stream_of_plan, Forall_map. eapply Forall_impl; [exact E|].
  intros s (plan & c & Hi & Hq). exists plan, c. unfold assign_stage_worker. by destruct (target_workers s).
Qed.
End reads.

Lemma stage_inputs_tables plan id ws out sql lim :
  input_tables (mkStage id ws (stage_inputs plan) out sql lim) = map snd (collect_exchange_reads plan).
Proof.
  unfold input_tables, stage_inputs. simpl. rewrite omap_app.
  replace (omap _ (if has_local_scan plan then [LocalCatalog] else [])) with (@nil string)
    by (by destruct (has_local_scan plan)).
  rewrite app_nil_r. induction (collect_exchange_reads plan) as [|[x t] l IH]; [done|].
  simpl. f_equal. exact IH.
Qed.

Lemma exchange_reads_are_leaves `{SqlDisplay} plan :
  sublist (map snd (collect_exchange_reads plan)) (leaf_texts plan).
Proof.
  induction plan; simpl; rewrite ?map_app; auto using sublist_nil_l, sublist_app.
Qed.

Lemma cut_sql_reads `{SqlDisplay} root policy query context p :
  cut_into_stages generate_stage_sql root policy query context = Ret p ->
  Forall (fun s => in_order (input_tables s) (stage_sql s)) (stages p).
Proof.
  intros Hc%cut_stages_of_plans. eapply Forall_impl; [exact Hc|]. intros s (plan & c & Hi & Hq).
  assert (Ht : input_tables s = map snd (collect_exchange_reads plan)).
  { rewrite <- (stage_inputs_tables plan 0 [] Stream "" StageLimits_default). unfold input_tables. by rewrite Hi. }
  rewrite Ht, Hq. eapply in_order_sublist; [apply exchange_reads_are_leaves|].
  apply in_order_pre. apply generate_in_order.
Qed.

(** C10: the SQL of every stage of a cut plan reads the stage's exchange inputs:
    their table names occur in the text, in the order of the inputs. *)
Theorem cut_stage_sql_reads_inputs `{SqlDisplay} root policy query context p :
  cut_into_stages generate_stage_sql root policy query context = Ret p ->
  Forall (fun s => in_order (input_tables s) (stage_sql s)) (stages p).
Proof. apply cut_sql_reads. Qed.

#[local] Existing Instance demo_display.

Definition demo_sql_cut : LdpPlan :=
  match cut_into_stages generate_stage_sql demo_annotated demo_policy "q1" PlanContext_default with
  | Ret p => p
  | _ => LdpPlan_new "" ""
  end.

Lemma cut_stage_sql_reads_inputs_witness :
  map input_tables (stages demo_sql_cut) <> [] /\
  Forall (fun s => in_order (input_tables s) (stage_sql s)) (stages demo_sql_cut).
Proof.
  split; [vm_compute; discriminate|].
  apply (cut_stage_sql_reads_inputs demo_annotated demo_policy "q1" PlanContext_default).
  vm_compute. reflexivity.
Defined.
