(* ===== verification/BuiltPlans.v ===== *)
(** * Plans of the builder that can be cut

    The contract between sql/plan_builder.rs and ldp/planner/cut.rs: stage
    cutting needs plans without exchange reads whose sorts are not directly
    over a join, a scan or a set operation.  The builder only makes such a
    plan when an ORDER BY by columns is over a SELECT, whose plan ends in a
    projection, an aggregation or a window. *)

From S2P Require Import Prelude SqlAst LogicalPlan PlanBuilder PlanMeaning OrderByColumns CutShape CutPlan.

(** Every ORDER BY by columns, in the query, its definitions and its derived
    tables, is over a SELECT. *)
Definition sorted_body (q : Query) : bool :=
  match query_order_by q with
  | Some (OrderByExpressions exprs) =>
      match extract_order_by_columns exprs with
      | [] => true
      | _ => match query_body q with SESelect _ => true | _ => false end
      end
  | _ => true
  end.

Fixpoint sorts_selects (q : Query) : bool :=
  match q with
  | mkQuery w body _ _ _ _ =>
      sorted_body q && set_sorts_selects body &&
      match w with
      | Some (mkWith _ ctes) => forallb (fun c => match c with mkCte _ cq _ => sorts_selects cq end) ctes
      | None => true
      end
  end
with set_sorts_selects (s : SetExpr) : bool :=
  match s with
  | SESelect s => select_sorts_selects s
  | SEQuery q => sorts_selects q
  | SESetOperation _ _ l r => set_sorts_selects l && set_sorts_selects r
  | _ => true
  end
with select_sorts_selects (s : Select) : bool :=
  match s with mkSelect _ _ from _ _ _ _ => forallb twj_sorts_selects from end
with twj_sorts_selects (t : TableWithJoins) : bool :=
  match t with
  | mkTableWithJoins r joins =>
      factor_sorts_selects r && forallb (fun j => match j with mkJoin r _ => factor_sorts_selects r end) joins
  end
with factor_sorts_selects (f : TableFactor) : bool :=
  match f with
  | TFDerived _ q _ => sorts_selects q
  | TFNestedJoin t _ => twj_sorts_selects t
  | _ => true
  end.

(** ** Results that satisfy a predicate *)
Definition returns {A E} (P : A -> Prop) (o : outcome (result A E)) : Prop :=
  match o with Ret (Ok a) => P a | _ => True end.

Lemma returns_bind {A B E} (P : A -> Prop) (Q : B -> Prop) (o : outcome (result A E)) k :
  returns P o -> (forall a, P a -> returns Q (k a)) -> returns Q (run_bind o k).
Proof. destruct o as [[a|e]| |]; simpl; auto. Qed.

Lemma returns_fold {A B E} (P : A -> Prop) (f : A -> B -> outcome (result A E)) (l : list B) (a : A) :
  P a -> (forall a b, b ∈ l -> P a -> returns P (f a b)) -> returns P (fold_run f l a).
Proof.
  revert a. induction l as [|b l IH]; intros a Ha Hf; simpl; [done|].
  apply (returns_bind P); [apply Hf; [left|done]|]. intros a' Ha'. apply IH; [done|].
  intros a2 b2 Hin. apply Hf. by right.
Qed.

Section built.
Context `{SqlDisplay} `{SqlDebug} (to_lowercase : string -> string).

Abbreviation is_cuttable := (fun p => cuttable p = true).

Definition definitions_sorted (m : gmap string Query) : Prop := map_Forall (fun _ q => sorts_selects q = true) m.

Lemma select_plan_cuttable (s : Select) (p : LogicalPlan) :
  cuttable p = true -> cuttable (select_plan s p) = true /\ wraps (select_plan s p) = false.
Proof.
  intros Hp. unfold select_plan.
  destruct (sel_selection s), (has_group_by (sel_group_by s) || _), (existsb select_item_has_window (sel_projection s)); simpl; by rewrite ?Hp.
Qed.

Lemma query_plan_cuttable (q : Query) (p : LogicalPlan) :
  sorted_body q = true -> cuttable p = true ->
  (match query_body q with SESelect _ => wraps p = false | _ => True end) ->
  cuttable (limit_plan q (order_plan q p)) = true.
Proof.
  unfold sorted_body, limit_plan, order_plan. intros Hs Hp Hw.
  assert (Ho : cuttable (order_plan q p) = true).
  { unfold order_plan. destruct (query_order_by q) as [[[|e es]|]|]; [done| |by simpl..].
    cbn [cuttable]. destruct (extract_order_by_columns (e :: es)); [by rewrite Hp|].
    destruct (query_body q); try done. by rewrite Hw, Hp. }
  unfold order_plan in Ho. by destruct (extract_limit_offset q) as [[?|] [?|]].
Qed.

Lemma insert_ctes_sorted (ctes : list Cte) (m : gmap string Query) :
  definitions_sorted m ->
  forallb (fun c => match c with mkCte _ cq _ => sorts_selects cq end) ctes = true ->
  definitions_sorted (foldl (insert_cte to_lowercase) m ctes).
Proof.
  revert m. induction ctes as [|[a cq f] ctes IH]; intros m Hm Hs; [done|]. simpl in *. bool_hyps.
  apply IH; [|done]. by apply map_Forall_insert_2.
Qed.

(** What each function of the builder keeps, given it for the expansions. *)
Definition keeps {X} (sorts : X -> bool) (build : X -> gmap string Query -> built LogicalPlan) (x : X) : Prop :=
  forall m, definitions_sorted m -> sorts x = true -> returns is_cuttable (build x m).

Definition plan_built (resolve : Query -> gmap string Query -> built BuildResult) (q : Query) m : built LogicalPlan :=
  plan_of (build_query_step to_lowercase resolve q m).

Lemma returns_plan_of (o : built BuildResult) (k : LogicalPlan -> built LogicalPlan) :
  returns is_cuttable (plan_of o) -> (forall p, cuttable p = true -> returns is_cuttable (k p)) ->
  returns is_cuttable (let^ b := o in k (br_plan b)).
Proof. unfold plan_of. destruct o as [[b|e]| |]; simpl; auto. Qed.

Section step.
Context (resolve : Query -> gmap string Query -> built BuildResult).
Hypothesis Hresolve : forall q m, definitions_sorted m -> sorts_selects q = true ->
  returns is_cuttable (plan_of (resolve q m)).

Abbreviation query_keeps := (keeps sorts_selects (plan_built resolve)).
Abbreviation set_keeps := (keeps set_sorts_selects (build_set_expr to_lowercase resolve)).
Abbreviation select_keeps := (keeps select_sorts_selects (build_select to_lowercase resolve)).
Abbreviation twj_keeps := (keeps twj_sorts_selects (build_table_with_joins to_lowercase resolve)).
Abbreviation factor_keeps := (keeps factor_sorts_selects (build_table_factor to_lowercase resolve)).

Lemma select_not_wrapped (s : SetExpr) m :
  returns (fun p => match s with SESelect _ => wraps p = false | _ => True end)
    (build_set_expr to_lowercase resolve s m).
Proof.
  destruct s as [sel| | | | | |]; simpl; try (by destruct (run_bind _ _) as [[?|?]| |]); try done.
  destruct sel as [d proj from w g h rest]. simpl.
  match goal with |- returns _ (run_bind ?o _) => destruct o as [[p|e]| |]; simpl; try done end.
  unfold select_plan. simpl. destruct w, (has_group_by g || _), (existsb select_item_has_window proj); done.
Qed.

Lemma query_keeps_case (q : Query) : set_keeps (query_body q) -> query_keeps q.
Proof.
  destruct q as [w body o l f rest]. simpl. intros Hb m Hm Hs. unfold plan_built, plan_of. simpl in Hs |- *.
  bool_hyps. set (m' := foldl (insert_cte to_lowercase) m (with_tables w)).
  assert (Hm' : definitions_sorted m').
  { subst m'. destruct w as [[r ctes]|]; [|done]. by apply insert_ctes_sorted. }
  pose proof (Hb m' Hm' ltac:(done)) as Hc. pose proof (select_not_wrapped body m') as Hw.
  destruct (build_set_expr to_lowercase resolve body m') as [[p|e]| |]; simpl in *; try done.
  by apply query_plan_cuttable.
Qed.

Lemma select_keeps_case (s : Select) : (forall t, t ∈ sel_from s -> twj_keeps t) -> select_keeps s.
Proof.
  destruct s as [d proj from w g h rest]. simpl. intros Hf m Hm Hs. simpl in Hs |- *. rewrite forallb_forall in Hs.
  apply (returns_bind is_cuttable); [|intros p Hp; by apply select_plan_cuttable].
  assert (Ht : forall t, t ∈ from -> returns is_cuttable (build_table_with_joins to_lowercase resolve t m)).
  { intros t Hin. apply Hf; [done..|]. by apply Hs, list_elem_of_In. }
  destruct from as [|t ts]; [done|].
  apply (returns_bind is_cuttable); [apply Ht; left|]. intros p Hp. apply returns_fold; [done|].
  intros p1 t1 Hin Hp1. apply (returns_bind is_cuttable); [apply Ht; by right|].
  intros p2 Hp2. simpl. by rewrite Hp1, Hp2.
Qed.

Lemma twj_keeps_case (t : TableWithJoins) : (forall f, f ∈ twj_factors t -> factor_keeps f) -> twj_keeps t.
Proof.
  destruct t as [r joins]. unfold twj_factors. simpl. intros Hf m Hm Hs. simpl in Hs |- *. bool_hyps.
  match goal with H : forallb _ _ = true |- _ => rewrite forallb_forall in H; rename H into Hj end.
  apply (returns_bind is_cuttable); [apply Hf; [left|done..]|]. intros p Hp. apply returns_fold; [done|].
  intros p1 [r1 op] Hin Hp1. apply (returns_bind is_cuttable).
  - apply Hf; [right|done|].
    + apply list_elem_of_In, in_map_iff. exists (mkJoin r1 op). split; [done|by apply list_elem_of_In].
    + apply (Hj (mkJoin r1 op)). by apply list_elem_of_In.
  - intros p2 Hp2. unfold join_plan. destruct (extract_join_keys_from_operator _ _ _). simpl. by rewrite Hp1, Hp2.
Qed.

Lemma factor_keeps_case (f : TableFactor) :
  (forall q, q ∈ factor_queries f -> query_keeps q) -> (forall t, t ∈ factor_twjs f -> twj_keeps t) -> factor_keeps f.
Proof.
  intros Hq Ht m Hm Hs. destruct f as [name alias rest|lat q alias|lat name args alias|t alias|text]; simpl in *; try done.
  - destruct (m !! _) as [cq|] eqn:E; [|done]. destruct (query_has_from cq); [|done].
    apply (returns_plan_of _ (fun p => Ret (Ok (SubqueryScan p _)))); [|done].
    apply Hresolve; [done|]. exact (Hm _ _ E).
  - apply (returns_plan_of _ (fun p => match alias with
      | Some alias => Ret (Ok (SubqueryScan p alias))
      | None => Ret (Err (UnsupportedFeature "derived table without alias")) end)).
    + apply Hq; [left|done..].
    + intros p Hp. by destruct alias.
  - apply (returns_bind is_cuttable); [apply Ht; [left|done..]|]. intros p Hp. by destruct alias.
Qed.

Lemma step_keeps (q : Query) : query_keeps q.
Proof.
  revert q. refine (proj1 (proj2 (ast_ind (fun _ => True) query_keeps set_keeps select_keeps twj_keeps factor_keeps
    _ _ _ _ _ _ _ _ _))).
  - done.
  - intros q _ Hb _. by apply query_keeps_case.
  - intros s Hs. exact Hs.
  - intros q Hq m Hm Hs. simpl. apply (returns_plan_of _ (fun p => Ret (Ok p))); [by apply Hq|done].
  - intros op sq l r Hl Hr m Hm Hs. simpl in *. bool_hyps.
    apply (returns_bind is_cuttable); [by apply Hl|]. intros p1 Hp1.
    apply (returns_bind is_cuttable); [by apply Hr|]. intros p2 Hp2. simpl. by rewrite Hp1, Hp2.
  - intros s Hl m Hm Hs. by destruct s.
  - intros s Ht _. by apply select_keeps_case.
  - intros t Hf _. by apply twj_keeps_case.
  - intros f Hq Ht _. by apply factor_keeps_case.
Qed.
End step.

Lemma build_with_ctes_cuttable (fuel : nat) (q : Query) m : definitions_sorted m -> sorts_selects q = true ->
  returns is_cuttable (plan_of (build_from_query_with_ctes to_lowercase fuel q m)).
Proof.
  revert q m. induction fuel as [|fuel IH]; intros q m Hm Hs.
  - rewrite build_unfold. by apply step_keeps.
  - rewrite build_unfold. apply step_keeps; [exact IH|done..].
Qed.

(** The builder's plan of such a query can be cut. *)
Lemma built_cuttable (fuel : nat) (q : Query) (b : BuildResult) :
  sorts_selects q = true -> build_logical_plan to_lowercase fuel (StQuery q) = Ret (Ok b) ->
  cuttable (br_plan b) = true.
Proof.
  intros Hs Hb. pose proof (build_with_ctes_cuttable fuel q ∅ (map_Forall_empty _) Hs) as Hc.
  change (build_from_query_with_ctes to_lowercase fuel q ∅) with (build_logical_plan to_lowercase fuel (StQuery q)) in Hc.
  by rewrite Hb in Hc.
Qed.
End built.
