(* ===== verification/ProtoConvert.v ===== *)
(** * The wire format of plans (ldp/proto_convert.rs, proto/ldp.proto)

    [Proto] has the messages as prost generates them: a [oneof] or a message
    field is optional, and a plan carries no root stage.  Encoding to bytes
    (prost) and Arrow IPC are parameters. *)

From S2P Require Import Prelude SqlAst LogicalPlan LdpTypes Policy Annotate Enforce Cut CutShape CutCorrect CutPlan.

#[local] Open Scope Z_scope.

Inductive ConversionError :=
| MissingField (field : string)
| InvalidVariant (name : string)
| EncodeError (msg : string)
| DecodeError (msg : string)
| Custom (msg : string).

Definition ConversionError_display (e : ConversionError) : string :=
  match e with
  | MissingField f => "Missing required field: " +:+ f
  | InvalidVariant n => "Invalid enum variant for " +:+ n
  | EncodeError m => "Proto encoding error: " +:+ m
  | DecodeError m => "Proto decoding error: " +:+ m
  | Custom m => "Custom error: " +:+ m
  end.

Abbreviation ConversionResult A := (result A ConversionError).

(** ** Messages *)
Module Proto.
Record ColumnRef := mkColumnRef { table : option string; column : string }.

Inductive DistributionType :=
| Singleton (worker_id : string)
| HashPartitioned (column_refs : list ColumnRef) (worker_ids : list string)
| EpochPartitioned (worker_ids : list string)
| Replicated (worker_ids : list string).
Record Distribution := mkDistribution { distribution_type : option DistributionType }.

Inductive ExchangeType :=
| Gather (target_worker_id : string)
| Broadcast (target_worker_ids : list string)
| HashPartition (column_refs : list ColumnRef) (partitions : Z).
Record Exchange := mkExchange { exchange_type : option ExchangeType }.

Inductive InputType :=
| LocalCatalog
| ExchangeInput (exchange_id : Z) (table_name : string).
Record StageInput := mkStageInput { input_type : option InputType }.

Inductive OutputType :=
| Stream
| Partitioned (partitions : Z) (column_refs : list ColumnRef).
Record StageOutput := mkStageOutput { output_type : option OutputType }.

Record StageLimits := mkLimits {
  max_bytes_output : Z; max_rows_output : Z; timeout_ms : Z; memory_bytes : Z }.

Record Stage := mkStage {
  stage_id : Z; target_worker_ids : list string; inputs : list StageInput;
  output : option StageOutput; stage_sql : string; limits : option StageLimits }.

Record ExchangeEdge := mkEdge {
  exchange_id : Z; kind : option Exchange; from_stage_id : Z; to_stage_id : Z;
  partition_to_worker : list string }.

Record LdpPlan := mkPlan {
  query_id : string; coordinator_worker_id : string; stages : list Stage; edges : list ExchangeEdge }.

Record ExchangeInputRegistration := mkRegistration {
  table_name : string; arrow_ipc_stream : list Z }.

Record SubmitStageRequest := mkSubmit {
  tenant_id : string; req_query_id : string; req_stage_id : Z; req_stage_sql : string;
  req_limits : option StageLimits; exchange_inputs : list ExchangeInputRegistration }.

Record StageExecutionStats := mkStageStats {
  rows_produced : Z; bytes_produced : Z; execution_time_ms : Z }.

Record SubmitStageResponse := mkResponse {
  success : bool; error_message : string; result_ticket : list Z; stats : option StageExecutionStats }.
End Proto.

(** ** Conversions *)

Definition column_refs_to_proto (refs : list ColumnRef) : list Proto.ColumnRef :=
  map (fun cr => Proto.mkColumnRef (cr_table cr) (cr_column cr)) refs.

Definition proto_to_column_refs (refs : list Proto.ColumnRef) : list ColumnRef :=
  map (fun cr => mkColumnRef (Proto.table cr) (Proto.column cr)) refs.

Definition distribution_to_proto (d : Distribution) : Proto.Distribution :=
  Proto.mkDistribution (Some
    match d with
    | Singleton worker => Proto.Singleton worker
    | HashPartitioned column_refs ws => Proto.HashPartitioned (column_refs_to_proto column_refs) ws
    | EpochPartitioned ws => Proto.EpochPartitioned ws
    | Replicated ws => Proto.Replicated ws
    end).

Definition distribution_from_proto (p : Proto.Distribution) : ConversionResult Distribution :=
  match Proto.distribution_type p with
  | Some (Proto.Singleton w) => Ok (Singleton w)
  | Some (Proto.HashPartitioned refs ws) => Ok (HashPartitioned (proto_to_column_refs refs) ws)
  | Some (Proto.EpochPartitioned ws) => Ok (EpochPartitioned ws)
  | Some (Proto.Replicated ws) => Ok (Replicated ws)
  | None => Err (MissingField "distribution_type")
  end.

Definition exchange_to_proto (e : Exchange) : Proto.Exchange :=
  Proto.mkExchange (Some
    match e with
    | Gather target => Proto.Gather target
    | Broadcast targets => Proto.Broadcast targets
    | HashPartition column_refs partitions => Proto.HashPartition (column_refs_to_proto column_refs) partitions
    end).

Definition exchange_from_proto (p : Proto.Exchange) : ConversionResult Exchange :=
  match Proto.exchange_type p with
  | Some (Proto.Gather target) => Ok (Gather target)
  | Some (Proto.Broadcast targets) => Ok (Broadcast targets)
  | Some (Proto.HashPartition refs n) => Ok (HashPartition (proto_to_column_refs refs) n)
  | None => Err (MissingField "exchange_type")
  end.

Definition input_to_proto (i : StageInput) : Proto.StageInput :=
  Proto.mkStageInput (Some
    match i with
    | LocalCatalog => Proto.LocalCatalog
    | ExchangeInput id table_name => Proto.ExchangeInput id table_name
    end).

Definition input_from_proto (p : Proto.StageInput) : ConversionResult StageInput :=
  match Proto.input_type p with
  | Some Proto.LocalCatalog => Ok LocalCatalog
  | Some (Proto.ExchangeInput id table_name) => Ok (ExchangeInput id table_name)
  | None => Err (MissingField "input_type")
  end.

Definition output_to_proto (o : StageOutput) : Proto.StageOutput :=
  Proto.mkStageOutput (Some
    match o with
    | Stream => Proto.Stream
    | Partitioned partitions column_refs => Proto.Partitioned partitions (column_refs_to_proto column_refs)
    end).

Definition output_from_proto (p : Proto.StageOutput) : ConversionResult StageOutput :=
  match Proto.output_type p with
  | Some Proto.Stream => Ok Stream
  | Some (Proto.Partitioned n refs) => Ok (Partitioned n (proto_to_column_refs refs))
  | None => Err (MissingField "output_type")
  end.

Definition limits_to_proto (l : StageLimits) : Proto.StageLimits :=
  Proto.mkLimits (max_bytes_output l) (max_rows_output l) (timeout_ms l) (memory_bytes l).

Definition limits_from_proto (p : Proto.StageLimits) : StageLimits :=
  mkStageLimits (Proto.max_bytes_output p) (Proto.max_rows_output p) (Proto.timeout_ms p) (Proto.memory_bytes p).

Definition stage_to_proto (s : Stage) : Proto.Stage :=
  Proto.mkStage (stage_id s) (target_workers s) (map input_to_proto (inputs s))
    (Some (output_to_proto (output s))) (stage_sql s) (Some (limits_to_proto (limits s))).

(** [inputs?] is evaluated after [output], so a bad output wins. *)
Definition stage_from_proto (p : Proto.Stage) : ConversionResult Stage :=
  let ins := collect_results input_from_proto (Proto.inputs p) in
  let? out := match Proto.output p with Some o => output_from_proto o | None => Ok Stream end in
  let lim := match Proto.limits p with Some l => limits_from_proto l | None => StageLimits_default end in
  let? ins := ins in
  Ok (mkStage (Proto.stage_id p) (Proto.target_worker_ids p) ins out (Proto.stage_sql p) lim).

Definition edge_to_proto (e : ExchangeEdge) : Proto.ExchangeEdge :=
  Proto.mkEdge (exchange_id e) (Some (exchange_to_proto (kind e))) (from_stage e) (to_stage e)
    (partition_to_worker e).

Definition edge_from_proto (p : Proto.ExchangeEdge) : ConversionResult ExchangeEdge :=
  let? k := match Proto.kind p with Some k => Ok k | None => Err (MissingField "kind") end in
  let? ex := exchange_from_proto k in
  Ok (mkEdge (Proto.exchange_id p) ex (Proto.from_stage_id p) (Proto.to_stage_id p)
        (Proto.partition_to_worker p)).

Definition plan_to_proto (p : LdpPlan) : Proto.LdpPlan :=
  Proto.mkPlan (query_id p) (coordinator p) (map stage_to_proto (stages p)) (map edge_to_proto (edges p)).

Definition plan_from_proto (p : Proto.LdpPlan) : ConversionResult LdpPlan :=
  let ss := collect_results stage_from_proto (Proto.stages p) in
  let es := collect_results edge_from_proto (Proto.edges p) in
  let? ss := ss in
  let root := match last ss with Some s => stage_id s | None => 0 end in
  let? es := es in
  Ok (mkPlan (Proto.query_id p) (Proto.coordinator_worker_id p) ss es root).

(** ** Bytes *)

Section bytes.
(** prost's [encode] and [decode] for the plan message. *)
Context (encode : Proto.LdpPlan -> result (list Z) string) (decode : list Z -> result Proto.LdpPlan string).

Definition serialize_ldp_plan (p : LdpPlan) : ConversionResult (list Z) :=
  match encode (plan_to_proto p) with Ok buf => Ok buf | Err e => Err (EncodeError e) end.

Definition deserialize_ldp_plan (bytes : list Z) : ConversionResult LdpPlan :=
  match decode bytes with Ok q => plan_from_proto q | Err e => Err (DecodeError e) end.
End bytes.

Section ipc.
(** Arrow's IPC stream writer, over the schema of the first batch, and
    reader. *)
Context {RecordBatch : Type}.
Context (ipc_write : list RecordBatch -> result (list Z) string)
        (ipc_read : list Z -> result (list RecordBatch) string).

Definition register_exchange_input (table_name : string) (batches : list RecordBatch)
    : ConversionResult Proto.ExchangeInputRegistration :=
  match batches with
  | [] => Ok (Proto.mkRegistration table_name [])
  | _ =>
      match ipc_write batches with
      | Ok stream => Ok (Proto.mkRegistration table_name stream)
      | Err e => Err (Custom e)
      end
  end.

(** The request that [serialize_submit_stage_request] encodes. *)
Definition submit_stage_request (tenant_id query_id : string) (id : StageId) (sql : string)
    (lim : StageLimits) (exchange_inputs : gmap string (list RecordBatch))
    : ConversionResult Proto.SubmitStageRequest :=
  let? regs := collect_results (fun kv => register_exchange_input (fst kv) (snd kv))
                 (map_to_list exchange_inputs) in
  Ok (Proto.mkSubmit tenant_id query_id id sql (Some (limits_to_proto lim)) regs).

Definition read_registration (r : Proto.ExchangeInputRegistration) : ConversionResult (list RecordBatch) :=
  match Proto.arrow_ipc_stream r with
  | [] => Ok []
  | stream => match ipc_read stream with Ok bs => Ok bs | Err e => Err (DecodeError e) end
  end.

Fixpoint deserialize_exchange_inputs (acc : gmap string (list RecordBatch))
    (regs : list Proto.ExchangeInputRegistration) : ConversionResult (gmap string (list RecordBatch)) :=
  match regs with
  | [] => Ok acc
  | r :: regs =>
      let? batches := read_registration r in
      deserialize_exchange_inputs (<[Proto.table_name r := batches]> acc) regs
  end.

(** prost's [encode] and [decode] for the messages of a submission. *)
Context (encode_request : Proto.SubmitStageRequest -> result (list Z) string)
        (decode_request : list Z -> result Proto.SubmitStageRequest string)
        (encode_response : Proto.SubmitStageResponse -> result (list Z) string)
        (decode_response : list Z -> result Proto.SubmitStageResponse string).

Definition serialize_submit_stage_request (tenant_id query_id : string) (id : StageId) (sql : string)
    (lim : StageLimits) (exchange_inputs : gmap string (list RecordBatch)) : ConversionResult (list Z) :=
  let? request := submit_stage_request tenant_id query_id id sql lim exchange_inputs in
  match encode_request request with Ok buf => Ok buf | Err e => Err (EncodeError e) end.

Definition deserialize_submit_stage_request (bytes : list Z) : ConversionResult Proto.SubmitStageRequest :=
  match decode_request bytes with Ok r => Ok r | Err e => Err (DecodeError e) end.

Definition serialize_submit_stage_response (success : bool) (error_message : string) (result_ticket : list Z)
    (stats : option (Z * Z * Z)) : ConversionResult (list Z) :=
  let response := Proto.mkResponse success error_message result_ticket
    ((fun s => Proto.mkStageStats s.1.1 s.1.2 s.2) <$> stats) in
  match encode_response response with Ok buf => Ok buf | Err e => Err (EncodeError e) end.

Definition deserialize_submit_stage_response (bytes : list Z) : ConversionResult Proto.SubmitStageResponse :=
  match decode_response bytes with Ok r => Ok r | Err e => Err (DecodeError e) end.
End ipc.

(** ** Facts *)

Lemma column_refs_roundtrip refs : proto_to_column_refs (column_refs_to_proto refs) = refs.
Proof. induction refs as [|[t c] refs IH]; simpl; f_equal; auto. Qed.

Lemma column_refs_proto_roundtrip refs : column_refs_to_proto (proto_to_column_refs refs) = refs.
Proof. induction refs as [|[t c] refs IH]; simpl; f_equal; auto. Qed.

Lemma exchange_roundtrip e : exchange_from_proto (exchange_to_proto e) = Ok e.
Proof. destruct e; unfold exchange_from_proto; simpl; by rewrite ?column_refs_roundtrip. Qed.

Lemma input_roundtrip i : input_from_proto (input_to_proto i) = Ok i.
Proof. by destruct i. Qed.

Lemma output_roundtrip o : output_from_proto (output_to_proto o) = Ok o.
Proof. destruct o; unfold output_from_proto; simpl; by rewrite ?column_refs_roundtrip. Qed.

Lemma limits_roundtrip l : limits_from_proto (limits_to_proto l) = l.
Proof. by destruct l. Qed.

Lemma stage_roundtrip s : stage_from_proto (stage_to_proto s) = Ok s.
Proof.
  unfold stage_from_proto. simpl. rewrite output_roundtrip. cbn [result_bind].
  rewrite (collect_results_map input_from_proto input_to_proto id) by apply input_roundtrip.
  rewrite map_id, limits_roundtrip. by destruct s.
Qed.

Lemma edge_roundtrip e : edge_from_proto (edge_to_proto e) = Ok e.
Proof. unfold edge_from_proto. simpl. rewrite exchange_roundtrip. by destruct e. Qed.

Definition last_stage_id (p : LdpPlan) : StageId :=
  match last (stages p) with Some s => stage_id s | None => 0 end.

Lemma plan_roundtrip_root p :
  plan_from_proto (plan_to_proto p) =
  Ok (mkPlan (query_id p) (coordinator p) (stages p) (edges p) (last_stage_id p)).
Proof.
  unfold plan_from_proto. simpl.
  rewrite (collect_results_map stage_from_proto stage_to_proto id) by apply stage_roundtrip.
  rewrite (collect_results_map edge_from_proto edge_to_proto id) by apply edge_roundtrip.
  cbn [result_bind]. by rewrite !map_id.
Qed.

(** A cut plan is rooted at its last stage. *)
Lemma cut_plan_ok_roundtrip t p : cut_plan_ok t p -> plan_from_proto (plan_to_proto p) = Ok p.
Proof.
  intros [i r _ _ _ _ _ _ _ _ _].
  rewrite plan_roundtrip_root. destruct p as [q c ss es root]. simpl in *. f_equal. f_equal.
  unfold last_stage_id. simpl. rewrite seqZ_S in i.
  apply (f_equal last) in i. rewrite last_snoc in i. change (map ?f ?l) with (f <$> l) in i.
  rewrite fmap_last in i. destruct (last ss) as [s|]; [|done]. injection i as ->. lia.
Qed.

(** ** The properties *)

(** A distribution survives the wire. *)
Theorem distribution_roundtrip d : distribution_from_proto (distribution_to_proto d) = Ok d.
Proof. destruct d; unfold distribution_from_proto; simpl; by rewrite ?column_refs_roundtrip. Qed.

(** A plan survives the wire exactly when its root is its last stage (or
    stage 0 in a plan without stages): the message does not carry the root. *)
Theorem plan_roundtrip p :
  plan_from_proto (plan_to_proto p) = Ok p <-> root_stage p = last_stage_id p.
Proof.
  rewrite plan_roundtrip_root. destruct p as [q c ss es r]. simpl. split; [by intros [= Hr]|].
  intros Hr. unfold last_stage_id in *. simpl in *. by rewrite <- Hr.
Qed.

(** Every plan that cutting produces survives the wire. *)
Theorem cut_plan_roundtrip `{SqlDisplay} gen t policy query context p :
  shaped t = true -> Z.of_nat (S (count_below t)) < u32_modulus ->
  cut_into_stages gen t policy query context = Ret p ->
  plan_from_proto (plan_to_proto p) = Ok p.
Proof.
  intros Hs Hr Hp. apply cut_plan_ok_roundtrip with t.
  by apply (cut_returned gen t policy query context).
Qed.

(** The parts of a message that a conversion needs. *)
Definition stage_complete (s : Proto.Stage) : bool :=
  (match Proto.output s with Some o => bool_decide (is_Some (Proto.output_type o)) | None => true end)
  && forallb (fun i => bool_decide (is_Some (Proto.input_type i))) (Proto.inputs s).

Definition edge_complete (e : Proto.ExchangeEdge) : bool :=
  match Proto.kind e with Some k => bool_decide (is_Some (Proto.exchange_type k)) | None => false end.

Definition message_complete (p : Proto.LdpPlan) : bool :=
  forallb stage_complete (Proto.stages p) && forallb edge_complete (Proto.edges p).

Definition missing_field (e : ConversionError) : Prop := exists f, e = MissingField f.

Lemma collect_results_total {A B E} (f : A -> result B E) (ok : A -> bool) (bad : E -> Prop) l :
  (forall a, if ok a then exists b, f a = Ok b else exists e, f a = Err e /\ bad e) ->
  if forallb ok l then exists bs, collect_results f l = Ok bs
  else exists e, collect_results f l = Err e /\ bad e.
Proof.
  intros Hf. induction l as [|a l IH]; simpl; [eauto|].
  specialize (Hf a). destruct (ok a); simpl.
  - destruct Hf as [b ->]. simpl. destruct (forallb ok l).
    + destruct IH as [bs ->]. simpl. eauto.
    + destruct IH as (e & -> & ?). simpl. eauto.
  - destruct Hf as (e & -> & ?). simpl. eauto.
Qed.

Lemma stage_from_proto_total s :
  if stage_complete s then exists s', stage_from_proto s = Ok s'
  else exists e, stage_from_proto s = Err e /\ missing_field e.
Proof.
  pose proof (collect_results_total input_from_proto (fun i => bool_decide (is_Some (Proto.input_type i)))
    missing_field (Proto.inputs s)) as Hin.
  unfold stage_complete, stage_from_proto, output_from_proto.
  destruct (forallb _ (Proto.inputs s)).
  - destruct Hin as [ins ->].
    { intros [[[]|]]; unfold input_from_proto; simpl; eauto. by eexists; split; [|eexists]. }
    destruct (Proto.output s) as [[[[]|]]|]; simpl; eauto. by eexists; split; [|eexists].
  - destruct Hin as (e & -> & ?).
    { intros [[[]|]]; unfold input_from_proto; simpl; eauto. by eexists; split; [|eexists]. }
    destruct (Proto.output s) as [[[[]|]]|]; simpl; eauto. by eexists; split; [|eexists].
Qed.

Lemma edge_from_proto_total e :
  if edge_complete e then exists e', edge_from_proto e = Ok e'
  else exists err, edge_from_proto e = Err err /\ missing_field err.
Proof.
  unfold edge_complete, edge_from_proto. destruct (Proto.kind e) as [[[[]|]]|]; simpl; eauto;
    by eexists; split; [|eexists].
Qed.

(** A message decodes to a plan exactly when every [oneof] and every edge
    kind is present (a missing stage output or limits take the defaults);
    otherwise it is refused with the name of a missing field. *)
Theorem plan_from_proto_total q :
  if message_complete q then exists p, plan_from_proto q = Ok p
  else exists e, plan_from_proto q = Err e /\ missing_field e.
Proof.
  pose proof (collect_results_total _ _ _ (Proto.stages q) stage_from_proto_total) as Hs.
  pose proof (collect_results_total _ _ _ (Proto.edges q) edge_from_proto_total) as He.
  unfold message_complete, plan_from_proto.
  destruct (forallb stage_complete _); simpl.
  - destruct Hs as [ss ->]. simpl. destruct (forallb edge_complete _).
    + destruct He as [es ->]. simpl. eauto.
    + destruct He as (e & -> & ?). simpl. eauto.
  - destruct Hs as (e & -> & ?). simpl. eauto.
Qed.

(** Over a codec that decodes what it encodes, deserializing the bytes of
    a plan rooted at its last stage gives the plan back. *)
Theorem ldp_plan_bytes_roundtrip encode decode p bytes :
  (forall q buf, encode q = Ok buf -> decode buf = Ok q) ->
  root_stage p = last_stage_id p ->
  serialize_ldp_plan encode p = Ok bytes ->
  deserialize_ldp_plan decode bytes = Ok p.
Proof.
  intros Hcodec Hroot. unfold serialize_ldp_plan, deserialize_ldp_plan.
  destruct (encode (plan_to_proto p)) eqn:He; [|done]. intros [= <-].
  rewrite (Hcodec _ _ He), plan_roundtrip_root, <- Hroot. by destruct p.
Qed.

Lemma deserialize_registrations {B} (w : list B -> result (list Z) string) r l acc regs :
  (forall bs stream, bs <> [] -> w bs = Ok stream -> stream <> [] /\ r stream = Ok bs) ->
  collect_results (fun kv => register_exchange_input w (fst kv) (snd kv)) l = Ok regs ->
  deserialize_exchange_inputs r acc regs = Ok (foldl (fun m kv => <[fst kv := snd kv]> m) acc l).
Proof.
  intros Hipc. revert acc regs. induction l as [|[k bs] l IH]; intros acc regs; simpl; [by intros [= <-]|].
  destruct (register_exchange_input w k bs) as [reg|] eqn:Hreg; [|done]. simpl.
  destruct (collect_results _ l) as [regs'|]; [|done]. intros [= <-]. simpl.
  assert (Proto.table_name reg = k /\ read_registration r reg = Ok bs) as [-> ->].
  { unfold register_exchange_input in Hreg. destruct bs as [|b bs]; [by injection Hreg as <-|].
    destruct (w (b :: bs)) as [stream|] eqn:Hw; [|done]. injection Hreg as <-.
    destruct (Hipc (b :: bs) stream) as [Hne Hr]; [done|done|]. split; [done|]. unfold read_registration. simpl.
    destruct stream; [done|]. by rewrite Hr. }
  simpl. apply IH. done.
Qed.

(** The exchange inputs of a submitted stage arrive: over an Arrow codec
    that reads back what it writes, the worker rebuilds the same tables, empty
    ones included. *)
Theorem exchange_inputs_roundtrip {B} (w : list B -> result (list Z) string) r tenant query id sql lim
    (tables : gmap string (list B)) req :
  (forall bs stream, bs <> [] -> w bs = Ok stream -> stream <> [] /\ r stream = Ok bs) ->
  submit_stage_request w tenant query id sql lim tables = Ok req ->
  deserialize_exchange_inputs r ∅ (Proto.exchange_inputs req) = Ok tables.
Proof.
  intros Hipc. unfold submit_stage_request.
  destruct (collect_results _ _) as [regs|] eqn:Hregs; [|done]. simpl. intros [= <-]. simpl.
  rewrite (deserialize_registrations w r _ _ _ Hipc Hregs). f_equal.
  rewrite <- (list_to_map_to_list tables) at 2.
  assert (Hgen : forall l m, NoDup l.*1 ->
    foldl (fun (m : gmap string (list B)) kv => <[fst kv := snd kv]> m) m l = list_to_map l ∪ m).
  { induction l as [|[k v] l IH]; intros m Hnd; simpl; [by rewrite map_empty_union|].
    apply NoDup_cons in Hnd as [Hk Hnd]. rewrite IH by done.
    rewrite <- insert_union_l, insert_union_r; [done|].
    by apply not_elem_of_list_to_map. }
  rewrite Hgen by apply NoDup_fst_map_to_list. by rewrite map_union_empty.
Qed.

(** ** Witnesses *)

Lemma cut_plan_roundtrip_witness : plan_from_proto (plan_to_proto demo_cut) = Ok demo_cut.
Proof.
  apply (@cut_plan_roundtrip demo_display demo_sql Enforce.demo_annotated Enforce.demo_policy "q1"
    PlanContext_default demo_cut).
  - vm_compute. reflexivity.
  - vm_compute. reflexivity.
  - exact demo_cut_eq.
Defined.

(** A codec for plans of one unnamed streaming stage: its id and its limits. *)
Definition tiny_plan : LdpPlan := mkPlan "" "" [Stage_new 4 ""] [] 4.

Definition tiny_encode (q : Proto.LdpPlan) : result (list Z) string :=
  match q with
  | Proto.mkPlan EmptyString EmptyString
      [Proto.mkStage id [] [] (Some (Proto.mkStageOutput (Some Proto.Stream))) EmptyString
         (Some (Proto.mkLimits a b c d))] [] => Ok [id; a; b; c; d]
  | _ => Err "unsupported"
  end.

Definition tiny_decode (bytes : list Z) : result Proto.LdpPlan string :=
  match bytes with
  | [id; a; b; c; d] =>
      Ok (Proto.mkPlan "" "" [Proto.mkStage id [] [] (Some (Proto.mkStageOutput (Some Proto.Stream))) ""
            (Some (Proto.mkLimits a b c d))] [])
  | _ => Err "unsupported"
  end.

Lemma tiny_codec q buf : tiny_encode q = Ok buf -> tiny_decode buf = Ok q.
Proof. unfold tiny_encode. repeat case_match; intros; simplify_eq; reflexivity. Qed.

Lemma ldp_plan_bytes_roundtrip_witness : 
  deserialize_ldp_plan tiny_decode [4; 5368709120; 100000000; 300000; 2147483648] = Ok tiny_plan.
Proof.
  apply (ldp_plan_bytes_roundtrip tiny_encode tiny_decode tiny_plan
    [4; 5368709120; 100000000; 300000; 2147483648]).
  - exact tiny_codec.
  - reflexivity.
  - reflexivity.
Defined.

(** Batches that are numbers, written as themselves. *)
Lemma exchange_inputs_roundtrip_witness :
  deserialize_exchange_inputs (RecordBatch := Z) (fun s => Ok s) ∅
    [Proto.mkRegistration "__exchange_0" [7; 8]] = Ok {["__exchange_0" := [7; 8]]}.
Proof.
  apply (exchange_inputs_roundtrip (B := Z) (fun bs => Ok bs) (fun s => Ok s) "t" "q" 1 "select"
    StageLimits_default {["__exchange_0" := [7; 8]]}
    (Proto.mkSubmit "t" "q" 1 "select" (Some (limits_to_proto StageLimits_default))
       [Proto.mkRegistration "__exchange_0" [7; 8]])).
  - intros bs stream Hne [= <-]. done.
  - vm_compute. reflexivity.
Defined.
