(* ===== verification/ResultStore.v ===== *)
(** * The stage result cache (ldp/executor/result_store.rs)

    The cache is shared by the tasks of a worker: a [DashMap] keyed by tenant,
    query and stage.  The clock is an argument, [Instant::elapsed] saturates at
    zero.  The methods that scan and then remove are also modelled step by
    step, since other tasks run between the two. *)

From S2P Require Import Prelude.

#[local] Open Scope Z_scope.

Abbreviation Key := (string * string * Z)%type.

Section store.
Context {RecordBatch StageExecutionStats : Type}.

Record CachedStageResult := mkCached {
  batches : list RecordBatch;
  exec_stats : StageExecutionStats;
  created_at : Z;
}.

Record StageResultStore := mkStore {
  cache : gmap Key CachedStageResult;
  ttl : Z;
  cleanup_interval : Z;
}.

(** Durations in seconds. *)
Definition store_new (t : Z) : StageResultStore := mkStore ∅ t 60.
Definition store_default : StageResultStore := store_new 300.

Definition with_cache (s : StageResultStore) (c : gmap Key CachedStageResult) : StageResultStore :=
  mkStore c (ttl s) (cleanup_interval s).

Definition elapsed (now created : Z) : Z := Z.max 0 (now - created).

Definition expired (s : StageResultStore) (now : Z) (r : CachedStageResult) : bool :=
  ttl s <? elapsed now (created_at r).

Definition register_result (s : StageResultStore) (now : Z) (tenant_id query_id : string) (stage_id : Z)
    (bs : list RecordBatch) (stats : StageExecutionStats) : StageResultStore :=
  with_cache s (<[(tenant_id, query_id, stage_id) := mkCached bs stats now]> (cache s)).

Definition get_result (s : StageResultStore) (now : Z) (tenant_id query_id : string) (stage_id : Z)
    : option (list RecordBatch) :=
  match cache s !! (tenant_id, query_id, stage_id) with
  | Some r => if expired s now r then None else Some (batches r)
  | None => None
  end.

Definition remove_result (s : StageResultStore) (tenant_id query_id : string) (stage_id : Z)
    : bool * StageResultStore :=
  let key := (tenant_id, query_id, stage_id) in
  (bool_decide (is_Some (cache s !! key)), with_cache s (delete key (cache s))).

(** The scan of [remove_query_results] and of [cleanup_expired]: the keys to
    remove, in the order of the map. *)
Definition query_keys (s : StageResultStore) (tenant_id query_id : string) : list Key :=
  map fst (filter (fun e : Key * CachedStageResult => e.1.1.1 = tenant_id /\ e.1.1.2 = query_id)
             (map_to_list (cache s))).

Definition expired_keys (s : StageResultStore) (now : Z) : list Key :=
  map fst (filter (fun e : Key * CachedStageResult => expired s now e.2 = true) (map_to_list (cache s))).

Definition remove_keys (s : StageResultStore) (ks : list Key) : StageResultStore :=
  foldl (fun s k => with_cache s (delete k (cache s))) s ks.

Definition remove_query_results (s : StageResultStore) (tenant_id query_id : string)
    : Z * StageResultStore :=
  let ks := query_keys s tenant_id query_id in
  (wrap32 (Z.of_nat (length ks)), remove_keys s ks).

Definition cleanup_expired (s : StageResultStore) (now : Z) : Z * StageResultStore :=
  let ks := expired_keys s now in
  (wrap32 (Z.of_nat (length ks)), remove_keys s ks).

Record StageResultStoreStats := mkStats { total_entries : Z; valid_entries : Z; expired_entries : Z }.

Definition stats (s : StageResultStore) (now : Z) : StageResultStoreStats :=
  let es := map_to_list (cache s) in
  mkStats (Z.of_nat (size (cache s)))
    (Z.of_nat (length (filter (fun e : Key * CachedStageResult => expired s now e.2 = false) es)))
    (Z.of_nat (length (filter (fun e : Key * CachedStageResult => expired s now e.2 = true) es))).

(** ** Interleaving

    The cleanup task between its scan and its removals ([background_step],
    with the passage of time), beside the other tasks of the worker. *)
Record World := mkWorld { store : StageResultStore; clock : Z; removing : list Key }.

Inductive background_step : World -> World -> Prop :=
| step_tick w dt : 0 <= dt -> background_step w (mkWorld (store w) (clock w + dt) (removing w))
| step_scan w : removing w = [] ->
    background_step w (mkWorld (store w) (clock w) (expired_keys (store w) (clock w)))
| step_sweep w k ks : removing w = k :: ks ->
    background_step w (mkWorld (with_cache (store w) (delete k (cache (store w)))) (clock w) ks).

Inductive world_step : World -> World -> Prop :=
| step_background w w' : background_step w w' -> world_step w w'
| step_register w tenant query stage bs st :
    world_step w (mkWorld (register_result (store w) (clock w) tenant query stage bs st) (clock w) (removing w))
| step_remove w tenant query stage :
    world_step w (mkWorld (snd (remove_result (store w) tenant query stage)) (clock w) (removing w)).
End store.

Arguments CachedStageResult : clear implicits.
Arguments StageResultStore : clear implicits.
Arguments World : clear implicits.

(** ** Facts *)

Section facts.
Context {R S : Type}.
Implicit Types (s : StageResultStore R S) (k : Key).

Lemma remove_keys_cache s ks :
  ttl (remove_keys s ks) = ttl s /\
  forall k, cache (remove_keys s ks) !! k = if bool_decide (k ∈ ks) then None else cache s !! k.
Proof.
  revert s. induction ks as [|k ks IH]; intros s; [done|]. simpl. destruct (IH (with_cache s (delete k (cache s)))) as [-> H].
  split; [done|]. intros k'. rewrite H. simpl.
  destruct (decide (k' = k)) as [->|Hne].
  - rewrite lookup_delete_eq, (bool_decide_eq_true_2 (k ∈ k :: ks)) by left. by destruct (bool_decide _).
  - rewrite lookup_delete_ne by done.
    rewrite (bool_decide_ext (k' ∈ k :: ks) (k' ∈ ks)); [done|]. rewrite elem_of_cons. naive_solver.
Qed.

Lemma elem_of_query_keys s tenant query k :
  k ∈ query_keys s tenant query <-> is_Some (cache s !! k) /\ k.1.1 = tenant /\ k.1.2 = query.
Proof.
  unfold query_keys. change (map fst ?l) with (fst <$> l). rewrite list_elem_of_fmap. split.
  - intros ([k' r] & -> & Hf). apply list_elem_of_filter in Hf as [? Hm].
    apply elem_of_map_to_list in Hm. simpl in *. eauto.
  - intros ([r Hr] & Ht & Hq). exists (k, r). split; [done|].
    apply list_elem_of_filter. split; [done|]. by apply elem_of_map_to_list.
Qed.

Lemma elem_of_expired_keys s now k :
  k ∈ expired_keys s now <-> exists r, cache s !! k = Some r /\ expired s now r = true.
Proof.
  unfold expired_keys. change (map fst ?l) with (fst <$> l). rewrite list_elem_of_fmap. split.
  - intros ([k' r] & -> & Hf). apply list_elem_of_filter in Hf as [? Hm].
    apply elem_of_map_to_list in Hm. simpl in *. eauto.
  - intros (r & Hr & He). exists (k, r). split; [done|].
    apply list_elem_of_filter. split; [done|]. by apply elem_of_map_to_list.
Qed.

Lemma expired_later s now now' (r : CachedStageResult R S) :
  now <= now' -> expired s now r = true -> expired s now' r = true.
Proof. unfold expired, elapsed. rewrite !Z.ltb_lt. lia. Qed.

Lemma get_result_ext s s' now tenant query stage :
  ttl s' = ttl s -> cache s' !! (tenant, query, stage) = cache s !! (tenant, query, stage) ->
  get_result s' now tenant query stage = get_result s now tenant query stage.
Proof. unfold get_result, expired. by intros -> ->. Qed.

Lemma get_after_register s t0 tenant query stage bs (st : S) now tenant' query' stage' :
  get_result (register_result s t0 tenant query stage bs st) now tenant' query' stage' =
  if bool_decide ((tenant', query', stage') = (tenant, query, stage))
  then (if ttl s <? elapsed now t0 then None else Some bs)
  else get_result s now tenant' query' stage'.
Proof.
  unfold get_result, register_result. simpl. case_bool_decide as Hk.
  - by rewrite Hk, lookup_insert_eq.
  - by rewrite lookup_insert_ne by congruence.
Qed.

Lemma get_after_remove s tenant query stage now tenant' query' stage' :
  get_result (snd (remove_result s tenant query stage)) now tenant' query' stage' =
  if bool_decide ((tenant', query', stage') = (tenant, query, stage)) then None
  else get_result s now tenant' query' stage'.
Proof.
  unfold get_result, remove_result. simpl. case_bool_decide as Hk.
  - by rewrite Hk, lookup_delete_eq.
  - by rewrite lookup_delete_ne by congruence.
Qed.

Lemma get_after_remove_query s tenant query now tenant' query' stage' :
  get_result (snd (remove_query_results s tenant query)) now tenant' query' stage' =
  if bool_decide (tenant' = tenant /\ query' = query) then None
  else get_result s now tenant' query' stage'.
Proof.
  simpl. destruct (remove_keys_cache s (query_keys s tenant query)) as [Ht Hc].
  case_bool_decide as Hk.
  - unfold get_result. rewrite Hc. case_bool_decide as Hin; [done|].
    rewrite elem_of_query_keys in Hin. simpl in Hin.
    destruct (cache s !! _); [|done]. destruct Hin. naive_solver.
  - apply get_result_ext; [done|]. rewrite Hc. case_bool_decide as Hin; [|done].
    apply elem_of_query_keys in Hin. simpl in Hin. naive_solver.
Qed.

Lemma get_after_cleanup s now now' tenant query stage :
  now <= now' ->
  get_result (snd (cleanup_expired s now)) now' tenant query stage = get_result s now' tenant query stage.
Proof.
  intros Hle. simpl. destruct (remove_keys_cache s (expired_keys s now)) as [Ht Hc].
  unfold get_result, expired. rewrite Ht, Hc. case_bool_decide as Hin; [|done].
  apply elem_of_expired_keys in Hin as (r & -> & He).
  pose proof (expired_later s now now' r Hle He) as He'. unfold expired in He'. by rewrite He'.
Qed.
End facts.

(** ** The specification: a log of the operations

    What a reader may see is the last registration of the key that no removal
    followed, while it is young enough. *)
Section log.
Context {R S : Type}.

Inductive Op :=
| ORegister (tenant query : string) (stage : Z) (bs : list R) (st : S)
| ORemove (tenant query : string) (stage : Z)
| ORemoveQuery (tenant query : string)
| OCleanup.

Definition run_op (s : StageResultStore R S) (e : Z * Op) : StageResultStore R S :=
  match snd e with
  | ORegister tenant query stage bs st => register_result s (fst e) tenant query stage bs st
  | ORemove tenant query stage => snd (remove_result s tenant query stage)
  | ORemoveQuery tenant query => snd (remove_query_results s tenant query)
  | OCleanup => snd (cleanup_expired s (fst e))
  end.

(** The log, latest first. *)
Fixpoint last_write (log : list (Z * Op)) (tenant query : string) (stage : Z) : option (Z * list R) :=
  match log with
  | [] => None
  | (t, ORegister te qu sg bs _) :: log =>
      if bool_decide ((tenant, query, stage) = (te, qu, sg)) then Some (t, bs)
      else last_write log tenant query stage
  | (_, ORemove te qu sg) :: log =>
      if bool_decide ((tenant, query, stage) = (te, qu, sg)) then None
      else last_write log tenant query stage
  | (_, ORemoveQuery te qu) :: log =>
      if bool_decide (tenant = te /\ query = qu) then None else last_write log tenant query stage
  | (_, OCleanup) :: log => last_write log tenant query stage
  end.

Definition log_read (t : Z) (log : list (Z * Op)) (now : Z) (tenant query : string) (stage : Z)
    : option (list R) :=
  match last_write log tenant query stage with
  | Some (t0, bs) => if t <? elapsed now t0 then None else Some bs
  | None => None
  end.
End log.
Arguments Op : clear implicits.

Lemma run_op_ttl {R S} (s : StageResultStore R S) e : ttl (run_op s e) = ttl s.
Proof. destruct e as [t []]; try done; simpl; apply remove_keys_cache. Qed.

Lemma run_log_ttl {R S} (s : StageResultStore R S) log : ttl (foldr (fun e s => run_op s e) s log) = ttl s.
Proof. induction log as [|e l IH]; simpl; [done|]. by rewrite run_op_ttl. Qed.

(** ** The properties *)

(** A registered result is served until its time to live has passed, and
    not after, whatever was cached under the key before. *)
Theorem register_then_get {R S} (s : StageResultStore R S) t0 tenant query stage bs st now :
  get_result (register_result s t0 tenant query stage bs st) now tenant query stage =
  if ttl s <? Z.max 0 (now - t0) then None else Some bs.
Proof. by rewrite get_after_register, bool_decide_eq_true_2. Qed.

(** Removing the results of a query removes exactly them: every result of
    that tenant and query is gone, every other result is served as before, and
    the count is the number of entries removed. *)
Theorem remove_query_exact {R S} (s : StageResultStore R S) tenant query now tenant' query' stage' :
  let '(n, s') := remove_query_results s tenant query in
  get_result s' now tenant' query' stage' =
    (if bool_decide (tenant' = tenant /\ query' = query) then None
     else get_result s now tenant' query' stage') /\
  n = wrap32 (Z.of_nat (length (query_keys s tenant query))).
Proof. split; [apply get_after_remove_query|done]. Qed.

(** Cleanup is invisible to readers: no result served now or later changes
    when the expired entries are removed, and a second cleanup at the same time
    finds nothing. *)
Theorem cleanup_invisible {R S} (s : StageResultStore R S) now now' tenant query stage :
  now <= now' ->
  get_result (snd (cleanup_expired s now)) now' tenant query stage = get_result s now' tenant query stage /\
  fst (cleanup_expired (snd (cleanup_expired s now)) now) = 0.
Proof.
  intros Hle. split; [by apply get_after_cleanup|]. simpl.
  destruct (remove_keys_cache s (expired_keys s now)) as [Ht Hc].
  assert (expired_keys (remove_keys s (expired_keys s now)) now = []) as ->; [|done].
  apply elem_of_nil_inv. intros k Hk. apply elem_of_expired_keys in Hk as (r & Hr & He).
  rewrite Hc in Hr. case_bool_decide as Hin; [done|]. apply Hin, elem_of_expired_keys.
  exists r. split; [done|]. revert He. unfold expired. by rewrite Ht.
Qed.

(** The counters of [stats] add up to the number of entries, and the
    expired entries are those cleanup would remove. *)
Theorem stats_add_up {R S} (s : StageResultStore R S) now :
  total_entries (stats s now) = valid_entries (stats s now) + expired_entries (stats s now) /\
  expired_entries (stats s now) = Z.of_nat (length (expired_keys s now)).
Proof.
  unfold stats, expired_keys. simpl. rewrite length_map. split; [|done].
  rewrite <- length_map_to_list. induction (map_to_list (cache s)) as [|e l IH]; [done|].
  rewrite !filter_cons. destruct (expired s now e.2); simpl; lia.
Qed.


Lemma background_keeps {R S} (w w' : World R S) k r :
  background_step w w' -> k ∉ removing w -> cache (store w) !! k = Some r ->
  expired (store w') (clock w') r = false ->
  (k ∉ removing w') /\ cache (store w') !! k = Some r /\ ttl (store w') = ttl (store w).
Proof.
  intros Hstep Hk Hr. destruct Hstep as [w dt|w Hn|w k' ks Hn]; simpl; intros He.
  - done.
  - split; [|done]. rewrite elem_of_expired_keys. intros (r' & Hr' & He'). congruence.
  - rewrite Hn, not_elem_of_cons in Hk. destruct Hk as [Hne Hks]. split; [done|].
    by rewrite lookup_delete_ne.
Qed.

Lemma background_clock {R S} (w w' : World R S) :
  background_step w w' -> clock w <= clock w' /\ ttl (store w') = ttl (store w).
Proof. destruct 1; simpl; split; try done; lia. Qed.

(** In any interleaving of the clock with the scans and removals of the
    cleanup task, a result that is still within its time to live at the end is
    still there, unless the task had already picked its key. *)
Theorem cleanup_task_keeps_valid {R S} (w w' : World R S) k r :
  rtc background_step w w' -> k ∉ removing w -> cache (store w) !! k = Some r ->
  expired (store w') (clock w') r = false -> cache (store w') !! k = Some r.
Proof.
  intros Hsteps. induction Hsteps as [w|w w1 w' Hstep Hsteps IH]; intros Hk Hr He; [done|].
  assert (Hlater : clock w1 <= clock w' /\ ttl (store w') = ttl (store w1)).
  { clear -Hsteps. induction Hsteps as [w|w w1 w' Hstep _ [IH1 IH2]]; [split; [lia|done]|].
    apply background_clock in Hstep as [? <-]. split; [lia|done]. }
  destruct (background_keeps w w1 k r Hstep Hk Hr) as (Hk1 & Hr1 & _).
  { revert He. unfold expired, elapsed. rewrite !Z.ltb_ge, (proj2 Hlater). lia. }
  by apply IH.
Qed.

(** ** Witnesses *)

Definition demo_store : StageResultStore Z unit :=
  register_result store_default 0 "t" "q" 1 [7] ().

Lemma cleanup_invisible_witness :
  get_result (snd (cleanup_expired demo_store 200)) 250 "t" "q" 1 = Some [7].
Proof. rewrite (proj1 (cleanup_invisible demo_store 200 250 "t" "q" 1 ltac:(lia))). reflexivity. Defined.


Lemma cleanup_task_keeps_valid_witness :
  cache (store (mkWorld demo_store 100 [])) !! ("t", "q", 1) = Some (mkCached [7] () 0).
Proof.
  apply (cleanup_task_keeps_valid (mkWorld demo_store 0 []) (mkWorld demo_store 100 []) ("t", "q", 1)
    (mkCached [7] () 0)).
  - apply rtc_once. apply (step_tick (mkWorld demo_store 0 []) 100). lia.
  - apply not_elem_of_nil.
  - vm_compute. reflexivity.
  - vm_compute. reflexivity.
Defined.

(** The cleanup task can delete a fresh result: a stage registered again
    between the scan that found its old result expired and the removal loses
    its new result, although that has just been created. *)
Theorem cleanup_race_deletes_fresh :
  exists w : World Z unit,
    rtc world_step (mkWorld demo_store 0 []) w /\
    (exists w1, world_step w1 w /\ clock w1 = clock w /\
       get_result (store w1) (clock w1) "t" "q" 1 = Some [8]) /\
    get_result (store w) (clock w) "t" "q" 1 = None.
Proof.
  set (fresh := register_result demo_store 301 "t" "q" 1 [8] ()).
  set (w1 := mkWorld fresh 301 [("t", "q", 1)]).
  set (w2 := mkWorld (with_cache fresh (delete ("t", "q", 1) (cache fresh))) 301 []).
  assert (Hsweep : world_step w1 w2) by (apply step_background, (step_sweep w1 _ []); done).
  exists w2. split; [|split; [exists w1; split; [done|]; vm_compute; done|vm_compute; done]].
  eapply rtc_l; [apply step_background, (step_tick (mkWorld demo_store 0 []) 301); lia|].
  eapply rtc_l; [apply step_background, step_scan; done|].
  eapply rtc_l; [apply (step_register _ "t" "q" 1 [8] ())|].
  apply rtc_once. exact Hsweep.
Qed.
