(* ===== verification/Pipeline.v ===== *)
(** * The planning pipeline (ldp/planner/pipeline.rs, inspect.rs)

    Parsing, plan building, annotation and cutting composed.  [plan_ldp] takes
    the bound on the expansion of common table expressions that
    [build_logical_plan] needs. *)

From S2P Require Import Prelude Float64 SqlAst LogicalPlan PlanBuilder PlanMeaning StageSqlGen Discovery LdpTypes TopoOrder Policy Metadata Annotate Enforce OrderByColumns Cut CutShape CutCorrect CutPlan CutSql BuiltPlans ProtoConvert.

#[local] Open Scope Z_scope.

Inductive PipelineError :=
| Parse (e : SqlTransformError)
| PlanBuild (e : PlanBuildError)
| Planning (e : PlanningError).

Section pipeline.
Context `{SqlDisplay} (generate_stage_sql : LogicalPlan -> PlanContext -> string).
Context {M : Type} `{Metadata M}.

Definition plan_with_context (logical_plan : LogicalPlan) (context : PlanContext) (metadata : M)
    (policy : PlannerPolicy) (query : string) : outcome (result LdpPlan PipelineError) :=
  match annotate_logical_plan metadata policy logical_plan with
  | Err e => Ret (Err (Planning e))
  | Ok annotated =>
      let! p := cut_into_stages generate_stage_sql annotated policy query context in Ret (Ok p)
  end.

Definition plan_ldp_from_logical_plan (logical_plan : LogicalPlan) (metadata : M)
    (policy : PlannerPolicy) (query : string) : outcome (result LdpPlan PipelineError) :=
  plan_with_context logical_plan PlanContext_default metadata policy query.

Definition plan_ldp `{SqlParser} `{SqlDebug} (to_lowercase : string -> string) (fuel : nat)
    (sql : string) (metadata : M) (policy : PlannerPolicy) (query : string)
    : outcome (result LdpPlan PipelineError) :=
  match parse_sql sql with
  | Err e => Ret (Err (Parse e))
  | Ok stmt =>
      match build_logical_plan to_lowercase fuel stmt with
      | Ret (Ok b) => plan_with_context (br_plan b) (br_context b) metadata policy query
      | Ret (Err e) => Ret (Err (PlanBuild e))
      | Panic => Panic
      | OutOfFuel => OutOfFuel
      end
  end.
End pipeline.

(** ** Inspection *)

Definition exchange_name (e : Exchange) : string :=
  match e with
  | Gather _ => "Gather"
  | Broadcast _ => "Broadcast"
  | HashPartition _ _ => "HashPartition"
  end.

Definition count_plan_exchanges (p : LdpPlan) : gmap string Z :=
  foldl (fun m e => <[exchange_name (kind e) := default 0 (m !! exchange_name (kind e)) + 1]> m)
    ∅ (edges p).

Definition stage_count (p : LdpPlan) : Z := Z.of_nat (length (stages p)).

Definition has_exchange_type (p : LdpPlan) (name : string) : bool :=
  0 <? default 0 (count_plan_exchanges p !! name).

Definition estimate_data_movement (p : LdpPlan) : Z := Z.of_nat (length (edges p)).

Lemma count_plan_exchanges_spec p name :
  default 0 (count_plan_exchanges p !! name) =
  Z.of_nat (length (List.filter (fun e => bool_decide (exchange_name (kind e) = name)) (edges p))).
Proof.
  unfold count_plan_exchanges.
  assert (Hgen : forall es (m : gmap string Z), default 0 (foldl (fun m e =>
      <[exchange_name (kind e) := default 0 (m !! exchange_name (kind e)) + 1]> m) m es !! name) =
    default 0 (m !! name) + Z.of_nat (length (List.filter (fun e => bool_decide (exchange_name (kind e) = name)) es))).
  { induction es as [|e es IH]; intros m; simpl; [lia|]. rewrite IH. case_bool_decide as Hn.
    - rewrite Hn, lookup_insert_eq. simpl. lia.
    - by rewrite lookup_insert_ne. }
  rewrite Hgen, lookup_empty. simpl. lia.
Qed.

(** ** The properties *)

(** The metadata's statistics are machine integers. *)
Definition machine_stats {M} `{Metadata M} (metadata : M) : Prop :=
  forall table, in_u64 (ts_rows (get_table_scan_stats metadata table)) /\
                in_u64 (ts_bytes (get_table_scan_stats metadata table)).

(** The annotated plan has fewer exchanges than there are stage ids. *)
Definition stages_fit {M} `{Metadata M} (metadata : M) (policy : PlannerPolicy) (plan : LogicalPlan) : Prop :=
  forall t, annotate_logical_plan metadata policy plan = Ok t -> Z.of_nat (S (count_below t)) < u32_modulus.

Lemma planned `{SqlDisplay} gen {M} `{Metadata M} (metadata : M) policy plan context query :
  machine_stats metadata -> unlimited policy -> cuttable plan = true -> stages_fit metadata policy plan ->
  exists p t, annotate_logical_plan metadata policy plan = Ok t /\
    cut_into_stages gen t policy query context = Ret p /\
    plan_with_context gen plan context metadata policy query = Ret (Ok p) /\
    query_id p = query /\ coordinator p = pol_coordinator policy /\
    plan_from_proto (plan_to_proto p) = Ok p.
Proof.
  intros Hstats Hu Hc Hroom. unfold plan_with_context.
  destruct (annotate_recursive_total metadata policy [] Hstats plan Hu) as (t & Ht & _).
  change (annotate_recursive metadata policy [] plan) with (annotate_logical_plan metadata policy plan) in Ht.
  rewrite Ht. pose proof (Hroom t Ht) as Hr. pose proof Ht as Ht'.
  apply annotate_recursive_enforced in Ht as (Hp & _ & He).
  assert (Hs : shaped t = true) by (eapply enforced_shaped; [done|congruence]).
  destruct (cut_into_stages_ok gen t policy query context Hs Hr) as (p & Hcut & Hok & Hq & Hco).
  exists p, t. rewrite Hcut. split_and!; try done. by apply cut_plan_ok_roundtrip with t.
Qed.

(** Planning is total under a policy without data movement limits: every
    plan without exchange reads whose ORDER BY clauses are over projections,
    aggregates or windows is turned into stages, for any metadata of
    machine-width statistics, and what reaches the executor through the wire
    is the same plan. *)
Theorem planning_total `{SqlDisplay} gen {M} `{Metadata M} (metadata : M) policy plan query :
  machine_stats metadata -> unlimited policy -> cuttable plan = true -> stages_fit metadata policy plan ->
  exists p, plan_ldp_from_logical_plan gen plan metadata policy query = Ret (Ok p) /\
    query_id p = query /\ coordinator p = pol_coordinator policy /\
    plan_from_proto (plan_to_proto p) = Ok p.
Proof.
  intros Hstats Hu Hc Hroom.
  destruct (planned gen metadata policy plan PlanContext_default query Hstats Hu Hc Hroom)
    as (p & t & _ & _ & Hp & Hq & Hco & Hw).
  by exists p.
Qed.


(** [PlanInspector] reports an exchange type exactly when an edge has it. *)
Theorem has_exchange_type_correct p name :
  has_exchange_type p name = true <-> exists e, e ∈ edges p /\ exchange_name (kind e) = name.
Proof.
  unfold has_exchange_type. rewrite count_plan_exchanges_spec, Z.ltb_lt. split.
  - destruct (List.filter _ (edges p)) as [|e l] eqn:Hf; simpl; [lia|]. intros _.
    assert (Hin : In e (List.filter (fun e => bool_decide (exchange_name (kind e) = name)) (edges p)))
      by (rewrite Hf; by left).
    apply filter_In in Hin as [Hin Hn]. bool_hyps. exists e. split; [by apply list_elem_of_In|done].
  - intros (e & Hin & Hn). apply list_elem_of_In in Hin.
    assert (Hf : In e (List.filter (fun e => bool_decide (exchange_name (kind e) = name)) (edges p)))
      by (apply filter_In; split; [done|by apply bool_decide_eq_true_2]).
    destruct (List.filter _ (edges p)); [done|]. simpl. lia.
Qed.

(** ** Witness *)

#[local] Existing Instance InMemory.metadata.
#[local] Existing Instance demo_display.

Lemma planning_total_witness :
  exists p, plan_ldp_from_logical_plan demo_sql demo_plan InMemory.new conservative "q1" = Ret (Ok p) /\
    query_id p = "q1" /\ coordinator p = "" /\ plan_from_proto (plan_to_proto p) = Ok p.
Proof.
  apply (planning_total demo_sql InMemory.new conservative demo_plan "q1").
  - exact empty_metadata_in_u64.
  - repeat split; vm_compute; discriminate.
  - reflexivity.
  - intros t Ht. vm_compute in Ht. injection Ht as <-. vm_compute. reflexivity.
Defined.

(** WITH recent AS (SELECT * FROM sales WHERE flag) SELECT r.id FROM Recent r
    JOIN items i ON r.item = i.id, as the only statement of any text. *)
#[local] Instance one_query_parser : SqlParser := {|
  parse_statements _ := Ok [StQuery recent_query];
  display_statement _ := "";
|}.
#[local] Existing Instance demo_debug.
#[local] Existing Instance term_algebra.

