(* ===== verification/Arrow.v ===== *)
(** * Record batches and hashers, as the executor uses them

    The executor moves Arrow record batches.  The [arrow] crate is used through
    a type class: a batch has a schema and rows, [new_empty] and
    [filter_record_batch] build batches, and the laws are what the crate
    documents of them.  [Table] is the instance the witnesses run on.

    Rust's [DefaultHasher] sees the bytes written to it; its algorithm is left
    open by the standard library, so [finish] is a parameter too.  [SipHash13]
    is the function the current standard library runs. *)

From S2P Require Import Prelude.

#[local] Open Scope Z_scope.

(** ** Types and values *)

Inductive TimeUnit := Second | Millisecond | Microsecond | Nanosecond.

(** [arrow::datatypes::DataType]: the types the executor tells apart; the
    others carry their debug form. *)
Inductive DataType :=
| Int8 | Int16 | Int32 | Int64 | UInt8 | UInt16 | UInt32 | UInt64
| Float32 | Float64 | Utf8 | LargeUtf8 | Date32 | Date64
| Timestamp (unit : TimeUnit) (tz : option string)
| Decimal128 (precision scale : Z) | Decimal256 (precision scale : Z)
| Boolean | Binary | LargeBinary | FixedSizeBinary (size : Z)
| Dictionary (key value : string)
| Time32 (unit : TimeUnit) | Time64 (unit : TimeUnit)
| ListOf (item : string) | StructOf (members : string)
| OtherType (debug : string).

#[export] Instance TimeUnit_eq_dec : EqDecision TimeUnit.
Proof. solve_decision. Defined.
#[export] Instance DataType_eq_dec : EqDecision DataType.
Proof. solve_decision. Defined.

(** A value of an array; a float is its bits, a string its bytes. *)
Inductive Value :=
| VInt (z : Z)
| VFloat (bits : Z)
| VStr (s : string)
| VBool (b : bool)
| VBytes (bs : list Z).

#[export] Instance Value_eq_dec : EqDecision Value.
Proof. solve_decision. Defined.

(** A row: its cell in every column, [None] where the column is null. *)
Abbreviation Row := (list (option Value)).

(** The values an array of a type holds: what [downcast_ref] relies on. *)
Definition value_typed (dt : DataType) (v : Value) : bool :=
  match dt, v with
  | (Int8 | Int16 | Int32 | Int64 | UInt8 | UInt16 | UInt32 | UInt64), VInt _ => true
  | (Date32 | Date64 | Timestamp _ _ | Decimal128 _ _ | Decimal256 _ _), VInt _ => true
  | (Float32 | Float64), VFloat _ => true
  | (Utf8 | LargeUtf8), VStr _ => true
  | Boolean, VBool _ => true
  | (Binary | LargeBinary | FixedSizeBinary _), VBytes _ => true
  | (Time32 _ | Time64 _), VInt _ => true
  | (Dictionary _ _ | ListOf _ | StructOf _ | OtherType _), _ => true
  | _, _ => false
  end.

Definition cell_typed (dt : DataType) (c : option Value) : bool :=
  match c with Some v => value_typed dt v | None => true end.

(** ** Batches *)

Class Arrow (RecordBatch Schema : Type) := {
  Schema_eq_dec :: EqDecision Schema;
  fields : Schema -> list (string * DataType);
  schema : RecordBatch -> Schema;
  rows : RecordBatch -> list Row;
  new_empty : Schema -> RecordBatch;
  filter_record_batch : RecordBatch -> list bool -> result RecordBatch string;
  concat_batches : Schema -> list RecordBatch -> result RecordBatch string;
  get_array_memory_size : RecordBatch -> Z;
}.

Definition num_rows `{Arrow RecordBatch Schema} (b : RecordBatch) : nat := length (rows b).
Definition num_columns `{Arrow RecordBatch Schema} (b : RecordBatch) : nat := length (fields (schema b)).

(** The rows a mask selects. *)
Fixpoint mask_rows {A} (l : list A) (mask : list bool) : list A :=
  match l, mask with
  | a :: l, m :: mask => if m then a :: mask_rows l mask else mask_rows l mask
  | _, _ => []
  end.

Class ArrowLaws (RecordBatch Schema : Type) `{Arrow RecordBatch Schema} := {
  new_empty_schema : forall s, schema (new_empty s) = s;
  new_empty_rows : forall s, rows (new_empty s) = [];
  filter_ok : forall b mask, length mask = num_rows b ->
    exists b', filter_record_batch b mask = Ok b' /\ schema b' = schema b /\ rows b' = mask_rows (rows b) mask;
  concat_ok : forall s bs, Forall (fun b => schema b = s) bs ->
    exists b, concat_batches s bs = Ok b /\ schema b = s /\ rows b = concat (map rows bs);
  rows_typed : forall b, Forall (Forall2 (fun f c => cell_typed f.2 c = true) (fields (schema b))) (rows b);
}.

Lemma mask_rows_filter {A} (p : A -> bool) (l : list A) :
  mask_rows l (map p l) = List.filter p l.
Proof. induction l as [|a l IH]; simpl; [done|]. by rewrite IH. Qed.

Lemma mask_rows_single {A} (l : list A) (i k : nat) :
  mask_rows l (map (fun j => bool_decide (j = (i + k)%nat)) (seq k (length l))) =
  match l !! i with Some a => [a] | None => [] end.
Proof.
  revert i k. induction l as [|a l IH]; intros i k; simpl; [done|].
  destruct i as [|i]; simpl.
  - rewrite bool_decide_eq_true_2 by lia. f_equal. clear IH.
    generalize (Nat.lt_succ_diag_r k). generalize (S k) as k'. revert a.
    induction l as [|a' l IH]; intros a k' Hk; simpl; [done|].
    rewrite bool_decide_eq_false_2 by lia. apply (IH a'). lia.
  - rewrite bool_decide_eq_false_2 by lia. rewrite <- (IH i (S k)). f_equal.
    apply map_ext. intros j. apply bool_decide_ext. lia.
Qed.

(** ** The default hasher *)

(** The bytes of an integer of [w] bytes, least significant first. *)
Fixpoint le_bytes (w : nat) (z : Z) : list Z :=
  match w with O => [] | S w => Z.land z 255 :: le_bytes w (Z.shiftr z 8) end.

Definition str_bytes (s : string) : list Z :=
  map (fun c => Z.of_nat (Ascii.nat_of_ascii c)) (String.list_ascii_of_string s).

(** [Hash for str] writes the bytes and 0xff, [Hash for [u8]] the length, a
    [usize], and the bytes. *)
Definition hash_str (s : string) : list Z := str_bytes s ++ [255].
Definition hash_bytes (bs : list Z) : list Z := le_bytes 8 (Z.of_nat (length bs)) ++ bs.

(** What the standard library leaves open or takes from tables: the hash
    function, Unicode lower case and the shortest decimal form of a float; and
    [arrow]'s debug form of a type. *)
Class Std := {
  finish : list Z -> Z;
  finish_range : forall bs, 0 <= finish bs;
  to_lowercase : string -> string;
  f32_to_string : Z -> string;
  f64_to_string : Z -> string;
  DataType_debug : DataType -> string;
}.

Module SipHash13.
Definition rotl (x b : Z) : Z := wrap64 (Z.lor (Z.shiftl x b) (Z.shiftr x (64 - b))).

Definition sip_round (s : Z * Z * Z * Z) : Z * Z * Z * Z :=
  let '(v0, v1, v2, v3) := s in
  let v0 := wrap64 (v0 + v1) in let v1 := Z.lxor (rotl v1 13) v0 in let v0 := rotl v0 32 in
  let v2 := wrap64 (v2 + v3) in let v3 := Z.lxor (rotl v3 16) v2 in
  let v0 := wrap64 (v0 + v3) in let v3 := Z.lxor (rotl v3 21) v0 in
  let v2 := wrap64 (v2 + v1) in let v1 := Z.lxor (rotl v1 17) v2 in let v2 := rotl v2 32 in
  (v0, v1, v2, v3).

Definition absorb (s : Z * Z * Z * Z) (m : Z) : Z * Z * Z * Z :=
  let '(v0, v1, v2, v3) := s in
  let '(v0, v1, v2, v3) := sip_round (v0, v1, v2, Z.lxor v3 m) in
  (Z.lxor v0 m, v1, v2, v3).

Definition of_le (bs : list Z) : Z := foldr (fun b acc => b + 256 * acc) 0 bs.

(** Words of eight bytes; the last one holds the length in its top byte. *)
Fixpoint absorb_all (fuel : nat) (len : Z) (s : Z * Z * Z * Z) (bs : list Z) : Z * Z * Z * Z :=
  match fuel with
  | O => s
  | S fuel =>
      if (length bs <? 8)%nat then absorb s (Z.lor (Z.shiftl (Z.land len 255) 56) (of_le bs))
      else absorb_all fuel len (absorb s (of_le (take 8 bs))) (drop 8 bs)
  end.

Definition hash (bs : list Z) : Z :=
  let s := (0x736f6d6570736575, 0x646f72616e646f6d, 0x6c7967656e657261, 0x7465646279746573) in
  let '(v0, v1, v2, v3) := absorb_all (S (length bs)) (Z.of_nat (length bs)) s bs in
  let '(v0, v1, v2, v3) := Nat.iter 3 sip_round (v0, v1, Z.lxor v2 255, v3) in
  wrap64 (Z.lxor (Z.lxor v0 v1) (Z.lxor v2 v3)).

(** The hash of nothing with zero keys. *)
Example hash_nil : hash [] = 15130871412783076140.
Proof. vm_compute. reflexivity. Qed.
End SipHash13.

(** ** Tables: the instance of the witnesses *)
Module Table.
Record t := mk { sch : list (string * DataType); content : list Row }.

Definition well_typed (s : list (string * DataType)) (r : Row) : bool :=
  bool_decide (length s = length r) &&
  forallb (fun fc : (string * DataType) * option Value => cell_typed fc.1.2 fc.2) (combine s r).

(** Only rows that fit the schema are kept, as a batch cannot hold others. *)
Definition view (b : t) : list Row := List.filter (well_typed (sch b)) (content b).

#[export] Instance arrow : Arrow t (list (string * DataType)) := {|
  Schema_eq_dec := list_eq_dec;
  fields s := s;
  schema := sch;
  rows := view;
  new_empty s := mk s [];
  filter_record_batch b mask := Ok (mk (sch b) (mask_rows (view b) mask));
  concat_batches s bs :=
    if forallb (fun b => bool_decide (sch b = s)) bs then Ok (mk s (concat (map view bs)))
    else Err "schemas differ";
  get_array_memory_size b := 8 * Z.of_nat (length (sch b) * length (view b));
|}.

Lemma well_typed_Forall2 s r :
  well_typed s r = true -> Forall2 (fun f c => cell_typed f.2 c = true) s r.
Proof.
  unfold well_typed. rewrite andb_true_iff, bool_decide_eq_true, forallb_forall. intros [Hl H].
  revert r Hl H. induction s as [|f s IH]; intros [|c r]; simpl; intros Hl H; try done; constructor.
  - exact (H (f, c) (or_introl eq_refl)).
  - apply IH; [lia|]. intros x Hx. apply H. by right.
Qed.

Lemma mask_rows_incl {A} (l : list A) mask x : x ∈ mask_rows l mask -> x ∈ l.
Proof.
  revert mask. induction l as [|a l IH]; intros [|m mask]; simpl; try (by intros []%not_elem_of_nil).
  destruct m; rewrite ?elem_of_cons; [intros [->|Hx]; eauto|eauto].
Qed.

Lemma filter_all {A} (p : A -> bool) l : Forall (fun a => p a = true) l -> List.filter p l = l.
Proof. induction 1 as [|a l Ha _ IH]; simpl; [done|]. by rewrite Ha, IH. Qed.

#[export] Instance laws : ArrowLaws t (list (string * DataType)).
Proof.
  split; try done.
  - intros b mask _. eexists. split; [reflexivity|]. split; [done|]. simpl. unfold view at 1. simpl.
    apply filter_all, Forall_forall. intros r Hr%mask_rows_incl%list_elem_of_In.
    unfold view in Hr. by apply filter_In in Hr as [_ ?].
  - intros s bs Hs. simpl.
    assert (Hall : forallb (fun b => bool_decide (sch b = s)) bs = true).
    { apply forallb_forall. intros b Hb%list_elem_of_In. apply bool_decide_eq_true.
      by apply (proj1 (Forall_forall _ _) Hs). }
    rewrite Hall. eexists. split; [reflexivity|]. split; [done|]. unfold view at 1. simpl.
    apply filter_all, Forall_forall. intros r Hr%list_elem_of_In.
    apply in_concat in Hr as (l & Hl & Hr). apply in_map_iff in Hl as (b & <- & Hb%list_elem_of_In).
    rewrite <- (proj1 (Forall_forall _ _) Hs b Hb). unfold view in Hr. by apply filter_In in Hr as [_ ?].
  - intros b. simpl. unfold view. apply Forall_forall. intros r [_ Hr]%list_elem_of_In%filter_In.
    by apply well_typed_Forall2.
Qed.
End Table.

(** Lower case of ASCII text; a float is printed as its bits. *)
Definition demo_std : Std.
Proof.
  refine {| finish := SipHash13.hash;
            to_lowercase := fix lower s := match s with
                                          | EmptyString => EmptyString
                                          | String c s => String (ascii_lower c) (lower s)
                                          end;
            f32_to_string _ := "0.0"; f64_to_string _ := "0.0"; DataType_debug _ := "Other" |}.
  intros bs. unfold SipHash13.hash.
  repeat match goal with |- context [let '(_, _) := ?x in _] => destruct x as [[[? ?] ?] ?] end.
  apply wrap64_in.
Defined.
