(* ===== verification/DuckDb.v ===== *)
(** * DuckDB, as the engine uses it (engine/duckdb/helper.rs, arrow_utils.rs)

    The texts the worker sends to DuckDB are translated: quoted identifiers,
    column types, table definitions and scan macros.  The database itself is a
    class: statements are executed on it, an appender collects batches and
    writes them with [flush].  Its laws are what DuckDB documents of tables;
    names are told apart by [table_key], since DuckDB ignores their case. *)

From stdpp Require Import pretty.
From S2P Require Import Prelude Arrow.

#[local] Open Scope Z_scope.

(** ** Identifiers *)

Definition dquote : Ascii.ascii := Ascii.ascii_of_nat 34.

Fixpoint double_quotes (s : string) : string :=
  match s with
  | EmptyString => EmptyString
  | String c s => if decide (c = dquote) then String c (String c (double_quotes s)) else String c (double_quotes s)
  end.

Definition escape_ident (name : string) : string := String dquote (double_quotes name +:+ String dquote EmptyString).

Definition quote_ident (ident : string) : string := String dquote (double_quotes ident +:+ String dquote EmptyString).

Definition squote : Ascii.ascii := Ascii.ascii_of_nat 39.

Fixpoint escape_sql_string (s : string) : string :=
  match s with
  | EmptyString => EmptyString
  | String c s => if decide (c = squote) then String c (String c (escape_sql_string s)) else String c (escape_sql_string s)
  end.

(** ** Column types *)

Definition arrow_type_to_duckdb `{Std} (arrow_type : DataType) : result string string :=
  match arrow_type with
  | Boolean => Ok "BOOLEAN"
  | Int8 => Ok "TINYINT"
  | Int16 => Ok "SMALLINT"
  | Int32 => Ok "INTEGER"
  | Int64 => Ok "BIGINT"
  | UInt8 => Ok "UTINYINT"
  | UInt16 => Ok "USMALLINT"
  | UInt32 => Ok "UINTEGER"
  | UInt64 => Ok "UBIGINT"
  | Float32 => Ok "FLOAT"
  | Float64 => Ok "DOUBLE"
  | Utf8 | LargeUtf8 => Ok "VARCHAR"
  | Binary | LargeBinary => Ok "BLOB"
  | Date32 | Date64 => Ok "DATE"
  | Timestamp _ _ => Ok "TIMESTAMP"
  | Time32 _ | Time64 _ => Ok "TIME"
  | Decimal128 p s | Decimal256 p s => Ok ("DECIMAL(" +:+ pretty p +:+ ", " +:+ pretty s +:+ ")")
  | ListOf _ | StructOf _ => Ok "JSON"
  | _ => Err ("Unsupported Arrow type: " +:+ DataType_debug arrow_type)
  end.

(** [str::split] at a character. *)
Fixpoint split_char (c : Ascii.ascii) (s : string) : list string :=
  match s with
  | EmptyString => [EmptyString]
  | String a s =>
      if decide (a = c) then EmptyString :: split_char c s
      else match split_char c s with p :: ps => String a p :: ps | [] => [String a EmptyString] end
  end.

(** [str::trim] of ASCII white space. *)
Definition is_space (c : Ascii.ascii) : bool :=
  let n := Ascii.nat_of_ascii c in (n =? 32)%nat || ((9 <=? n) && (n <=? 13))%nat.

Fixpoint trim_start (s : string) : string :=
  match s with String c s' => if is_space c then trim_start s' else s | EmptyString => EmptyString end.

Fixpoint trim_end (s : string) : string :=
  match s with
  | EmptyString => EmptyString
  | String c s' =>
      match trim_end s' with
      | EmptyString => if is_space c then EmptyString else String c EmptyString
      | t => String c t
      end
  end.

Definition trim (s : string) : string := trim_end (trim_start s).

(** [strip_suffix] of a character. *)
Fixpoint strip_suffix_char (c : Ascii.ascii) (s : string) : option string :=
  match s with
  | EmptyString => None
  | String a EmptyString => if decide (a = c) then Some EmptyString else None
  | String a s => String a <$> strip_suffix_char c s
  end.

Definition parse_u8 (s : string) : option Z :=
  match parse_u64 s with Some v => if v <=? 255 then Some v else None | None => None end.

Definition parse_i8 (s : string) : option Z :=
  match s with
  | String c s' =>
      if decide (Ascii.nat_of_ascii c = 45%nat) then
        match s' with
        | EmptyString => None
        | _ => match digits_value 0 s' with Some v => if v <=? 128 then Some (- v) else None | None => None end
        end
      else match parse_u64 s with Some v => if v <=? 127 then Some v else None | None => None end
  | EmptyString => None
  end.

Definition lparen : Ascii.ascii := Ascii.ascii_of_nat 40.
Definition rparen : Ascii.ascii := Ascii.ascii_of_nat 41.
Definition comma : Ascii.ascii := Ascii.ascii_of_nat 44.

Definition decimal_params (type_str_upper : string) : option (Z * Z) :=
  params ← strip_prefix "DECIMAL(" type_str_upper;
  params ← strip_suffix_char rparen params;
  match split_char comma params with
  | [p; s] => p ← parse_u8 (trim p); s ← parse_i8 (trim s); Some (p, s)
  | _ => None
  end.

Definition duckdb_type_str_to_arrow_type (to_uppercase : string -> string) (type_str : string)
    : result DataType string :=
  let type_str_upper := to_uppercase type_str in
  let base_type := trim (default type_str_upper (head (split_char lparen type_str_upper))) in
  let named names := bool_decide (base_type ∈ (names : list string)) in
  Ok (if named ["BOOLEAN"] then Boolean
      else if named ["TINYINT"] then Int8
      else if named ["SMALLINT"] then Int16
      else if named ["INTEGER"; "INT"] then Int32
      else if named ["BIGINT"] then Int64
      else if named ["UTINYINT"] then UInt8
      else if named ["USMALLINT"] then UInt16
      else if named ["UINTEGER"] then UInt32
      else if named ["UBIGINT"] then UInt64
      else if named ["FLOAT"; "REAL"] then Float32
      else if named ["DOUBLE"] then Float64
      else if named ["VARCHAR"; "TEXT"; "STRING"; "CHAR"] then Utf8
      else if named ["BLOB"] then Binary
      else if named ["DATE"] then Date32
      else if named ["TIME"] then Time64 Microsecond
      else if named ["TIMESTAMP"; "TIMESTAMPTZ"] then Timestamp Microsecond None
      else if named ["JSON"] then Utf8
      else if named ["DECIMAL"; "HUGEINT"] then
        match decimal_params type_str_upper with
        | Some (p, s) => Decimal128 p s
        | None => Decimal128 38 10
        end
      else Utf8).

(** ** Schemas and statements *)

Record Field := mkField { f_name : string; f_type : DataType; f_nullable : bool }.

#[export] Instance Field_eq_dec : EqDecision Field.
Proof. solve_decision. Defined.

(** [Schema::fields] and [Schema::new]. *)
Class SchemaFields (Schema : Type) := {
  schema_fields : Schema -> list Field;
  Schema_new : list Field -> Schema;
}.

(** The statements the worker executes, with their texts up to white space. *)
Inductive DbStatement :=
| CreateTable (temporary : bool) (table : string) (columns : list string)
| DropTable (table : string)
| CreateMacro (name body : string).

Definition statement_text (s : DbStatement) : string :=
  match s with
  | CreateTable temporary table columns =>
      "CREATE " +:+ (if temporary then "TEMPORARY " else "") +:+ "TABLE " +:+ escape_ident table
        +:+ " (" +:+ String.concat ", " columns +:+ ")"
  | DropTable table => "DROP TABLE IF EXISTS " +:+ escape_ident table
  | CreateMacro name body =>
      "CREATE OR REPLACE MACRO " +:+ name +:+ "(start_date, end_date) AS TABLE (" +:+ body +:+ ")"
  end.

Definition column_def `{Std} (f : Field) (duckdb_type : string) : string :=
  escape_ident (f_name f) +:+ " " +:+ duckdb_type +:+ (if f_nullable f then "" else " NOT NULL").

(** The SELECT inside a scan macro. *)
Definition empty_body : string := "SELECT * FROM (SELECT 0 AS _empty) WHERE 1=0".

Definition typed_empty_body `{Std} (fs : list Field) : string :=
  match omap (fun f => match arrow_type_to_duckdb (f_type f) with
                       | Ok t => Some ("CAST(NULL AS " +:+ t +:+ ") AS " +:+ escape_ident (f_name f))
                       | Err _ => None
                       end) fs with
  | [] => empty_body
  | columns => "SELECT " +:+ String.concat ", " columns +:+ " WHERE FALSE"
  end.

Definition union_body (date_column : string) (epoch_tables : list string) : string :=
  let union_sql := String.concat " UNION ALL " (map (fun t => "SELECT * FROM " +:+ escape_ident t) epoch_tables) in
  "SELECT * FROM (" +:+ union_sql +:+ ") WHERE CAST(" +:+ escape_ident date_column
    +:+ " AS DATE) >= CAST(start_date AS DATE) AND CAST(" +:+ escape_ident date_column
    +:+ " AS DATE) < CAST(end_date AS DATE)".

Definition macro_body `{Std} `{SchemaFields Schema} (date_column : string) (epoch_tables : list string)
    (dataset_schema : option Schema) : string :=
  match epoch_tables with
  | [] => match dataset_schema with Some schema => typed_empty_body (schema_fields schema) | None => empty_body end
  | _ => union_body date_column epoch_tables
  end.

Definition estimate_row_bytes (dt : DataType) : Z :=
  match dt with
  | Boolean => 1
  | Int8 | UInt8 => 1
  | Int16 | UInt16 => 2
  | Int32 | UInt32 | Float32 => 4
  | Int64 | UInt64 | Float64 | Date64 => 8
  | Utf8 | LargeUtf8 => 32
  | Binary | LargeBinary => 64
  | Timestamp _ _ | Date32 => 8
  | Decimal128 _ _ | Decimal256 _ _ => 16
  | _ => 16
  end.

Definition estimate_table_bytes (row_count : Z) (fs : list Field) : Z :=
  Z.min u64_max (row_count * foldl (fun acc f => wrap64 (acc + estimate_row_bytes (f_type f))) 0 fs).

(** ** The database *)

(** A query fails in [prepare], when it is run, or when its rows are read. *)
Inductive QueryFailure := PrepareFailed (e : string) | RunFailed (e : string) | RowsFailed (e : string).

Class DuckDb (Db Appender RecordBatch : Type) := {
  table_key : string -> string;
  db_execute : Db -> DbStatement -> Db * result unit string;
  db_appender : Db -> string -> result Appender string;
  append_record_batch : Appender -> RecordBatch -> Appender * result unit string;
  appender_flush : Db -> Appender -> Db * result unit string;
  appender_drop : Db -> Appender -> Db;
  db_describe : Db -> string -> result (list (string * string * string)) QueryFailure;
  db_storage_size : Db -> string -> result (option Z) QueryFailure;
}.

(** What the database promises.  [db_table] is the content of a table, by its
    catalog (the temporary one, or the main one) and the key of its name; a
    name is looked up in the temporary catalog first.  An appender has the rows
    it was given and not written. *)
Abbreviation TableId := (bool * string)%type.

Definition resolve_table (tables : TableId -> option (list Row)) (key : string) : TableId :=
  (match tables (true, key) with Some _ => true | None => false end, key).

Class DuckDbLaws (Db Appender RecordBatch : Type) {Schema} `{Arrow RecordBatch Schema}
    `{DuckDb Db Appender RecordBatch} := {
  db_table : Db -> TableId -> option (list Row);
  appender_table : Appender -> TableId;
  appender_rows : Appender -> list Row;
  create_law : forall db temp t cols, let '(db', r) := db_execute db (CreateTable temp t cols) in
    match r with
    | Ok _ => db_table db (temp, table_key t) = None /\
              forall k, db_table db' k = if decide (k = (temp, table_key t)) then Some [] else db_table db k
    | Err _ => forall k, db_table db' k = db_table db k
    end;
  drop_law : forall db t, let '(db', r) := db_execute db (DropTable t) in
    match r with
    | Ok _ => forall k, db_table db' k =
        if decide (k = resolve_table (db_table db) (table_key t)) then None else db_table db k
    | Err _ => forall k, db_table db' k = db_table db k
    end;
  macro_law : forall db n b k, db_table (db_execute db (CreateMacro n b)).1 k = db_table db k;
  appender_law : forall db t a, db_appender db t = Ok a ->
    db_table db (resolve_table (db_table db) (table_key t)) <> None /\
    appender_table a = resolve_table (db_table db) (table_key t) /\ appender_rows a = [];
  append_law : forall a b, appender_table (append_record_batch a b).1 = appender_table a /\
    ((append_record_batch a b).2 = Ok tt -> appender_rows (append_record_batch a b).1 = appender_rows a ++ rows b);
  flush_law : forall db a, let '(db', r) := appender_flush db a in
    (forall k, k <> appender_table a -> db_table db' k = db_table db k) /\
    (r = Ok tt -> db_table db' (appender_table a) = (fun old => old ++ appender_rows a) <$> db_table db (appender_table a));
  appender_drop_law : forall db a k, k <> appender_table a -> db_table (appender_drop db a) k = db_table db k;
}.

Section database.
Context `{Std} `{SchemaFields Schema} `{DuckDb Db Appender RecordBatch}.

Definition create_table_from_arrow_schema (conn : Db) (table_name : string) (schema : Schema)
    : Db * result unit string :=
  match collect_results (fun f => match arrow_type_to_duckdb (f_type f) with
                                  | Ok t => Ok (column_def f t)
                                  | Err e => Err ("Unsupported type for '" +:+ f_name f +:+ "': " +:+ e)
                                  end) (schema_fields schema) with
  | Err e => (conn, Err e)
  | Ok columns =>
      match db_execute conn (CreateTable false table_name columns) with
      | (conn, Ok _) => (conn, Ok tt)
      | (conn, Err _) => (conn, Err ("Failed to create table " +:+ table_name +:+ " with schema"))
      end
  end.

(** [DESCRIBE], row by row. *)
Definition query_table_schema (to_uppercase : string -> string) (conn : Db) (table_name : string)
    : result Schema string :=
  match db_describe conn table_name with
  | Err (PrepareFailed _) => Err ("Failed to prepare DESCRIBE query for " +:+ table_name)
  | Err (RunFailed _) => Err ("Failed to execute DESCRIBE query for " +:+ table_name)
  | Err (RowsFailed e) => Err e
  | Ok described =>
      let? fs := collect_results (fun row : string * string * string =>
        let '(name, type_str, null_str) := row in
        let? data_type := duckdb_type_str_to_arrow_type to_uppercase type_str in
        Ok (mkField name data_type (bool_decide (null_str = "YES")))) described in
      Ok (Schema_new fs)
  end.

(** The sizes of the columns are an [i64], read as [u64]. *)
Definition query_table_size (conn : Db) (table_name : string) : result Z string :=
  match db_storage_size conn table_name with
  | Err (PrepareFailed _) => Err ("Failed to prepare size query for " +:+ table_name)
  | Err (RunFailed e) | Err (RowsFailed e) => Err ("Failed to execute size query for " +:+ table_name +:+ ": " +:+ e)
  | Ok None => Err ("No size information available for " +:+ table_name)
  | Ok (Some v) => Ok (wrap64 v)
  end.

Definition create_or_update_dataset_macro (conn : Db) (dataset_id date_column : string)
    (epoch_tables : list string) (dataset_schema : option Schema) : Db * result unit string :=
  let macro_name := "scan_" +:+ dataset_id in
  match db_execute conn (CreateMacro macro_name (macro_body date_column epoch_tables dataset_schema)) with
  | (conn, Ok _) => (conn, Ok tt)
  | (conn, Err _) =>
      (conn, Err match epoch_tables with
                 | [] => "Failed to create empty macro " +:+ macro_name
                 | _ => "Failed to create macro " +:+ macro_name +:+ " with "
                          +:+ pretty (Z.of_nat (length epoch_tables)) +:+ " tables"
                 end)
  end.

(** [for batch in batches { appender.append_record_batch(batch)?; }]. *)
Fixpoint append_each (a : Appender) (batches : list RecordBatch) : Appender * result unit string :=
  match batches with
  | [] => (a, Ok tt)
  | b :: batches =>
      match append_record_batch a b with
      | (a, Ok _) => append_each a batches
      | (a, Err e) => (a, Err e)
      end
  end.

(** Opens an appender, appends and flushes; an appender that is given up is
    dropped.  The errors are those of the three steps; the callers replace
    them by a context of their own. *)
Definition append_and_flush (conn : Db) (table_name : string) (batches : list RecordBatch)
    (open_error append_error flush_error : string) : Db * result unit string :=
  match db_appender conn table_name with
  | Err _ => (conn, Err open_error)
  | Ok a =>
      match append_each a batches with
      | (a, Err _) => (appender_drop conn a, Err append_error)
      | (a, Ok _) =>
          match appender_flush conn a with
          | (conn, Ok _) => (conn, Ok tt)
          | (conn, Err _) => (appender_drop conn a, Err flush_error)
          end
      end
  end.
End database.

Section register.
Context `{Std} `{Arrow RecordBatch Schema} `{!SchemaFields Schema} `{!DuckDb Db Appender RecordBatch}.

Definition build_create_table_sql (table_name : string) (schema : Schema) (temporary : bool)
    : result DbStatement string :=
  let? columns := collect_results (fun f => let? t := arrow_type_to_duckdb (f_type f) in Ok (column_def f t))
    (schema_fields schema) in
  Ok (CreateTable temporary table_name columns).

Definition append_arrow_batches (conn : Db) (table_name : string) (batches : list RecordBatch)
    : Db * result unit string :=
  append_and_flush conn table_name (List.filter (fun b => negb (bool_decide (num_rows b = 0%nat))) batches)
    ("Failed to create appender for '" +:+ table_name +:+ "'")
    ("Failed to append batch to '" +:+ table_name +:+ "'")
    "Failed to flush appender to DuckDB".

Definition register_arrow_batches_with_options (conn : Db) (table_name : string) (batches : list RecordBatch)
    (temporary replace_if_exists : bool) : Db * result unit string :=
  match batches with
  | [] => (conn, Ok tt)
  | first :: _ =>
      let '(conn, dropped) := if replace_if_exists then db_execute conn (DropTable table_name) else (conn, Ok tt) in
      match dropped with
      | Err _ => (conn, Err ("Failed to drop existing table '" +:+ table_name +:+ "'"))
      | Ok _ =>
          match build_create_table_sql table_name (schema first) temporary with
          | Err e => (conn, Err e)
          | Ok stmt =>
              match db_execute conn stmt with
              | (conn, Err _) =>
                  (conn, Err ("Failed to create " +:+ (if temporary then "temp " else "") +:+ "table '"
                                +:+ table_name +:+ "' for arrow data"))
              | (conn, Ok _) =>
                  match append_arrow_batches conn table_name batches with
                  | (conn, Ok _) => (conn, Ok tt)
                  | (conn, Err _) => (conn, Err ("Failed to append arrow data into table '" +:+ table_name +:+ "'"))
                  end
              end
          end
      end
  end.

Definition register_arrow_batches (conn : Db) (table_name : string) (batches : list RecordBatch)
    : Db * result unit string :=
  register_arrow_batches_with_options conn table_name batches true true.

Definition register_arrow_batches_persistent (conn : Db) (table_name : string) (batches : list RecordBatch)
    : Db * result unit string :=
  register_arrow_batches_with_options conn table_name batches false true.

Definition drop_temp_table (conn : Db) (table_name : string) : Db * result unit string :=
  match db_execute conn (DropTable table_name) with
  | (conn, Ok _) => (conn, Ok tt)
  | (conn, Err _) => (conn, Err "Failed to drop temp table")
  end.
End register.

(** ** Identifiers are quoted safely *)

(** How SQL reads a quoted identifier: up to the first quote that is not
    doubled. *)
Fixpoint read_quoted (s : string) : option (string * string) :=
  match s with
  | EmptyString => None
  | String c s' =>
      if decide (c = dquote) then
        match s' with
        | String c' s'' =>
            if decide (c' = dquote) then
              match read_quoted s'' with Some (n, rest) => Some (String dquote n, rest) | None => None end
            else Some (EmptyString, s')
        | EmptyString => Some (EmptyString, EmptyString)
        end
      else match read_quoted s' with Some (n, rest) => Some (String c n, rest) | None => None end
  end.

Definition read_ident (s : string) : option (string * string) :=
  match s with
  | String c s' => if decide (c = dquote) then read_quoted s' else None
  | EmptyString => None
  end.

Definition starts_with_quote (s : string) : bool :=
  match s with String c _ => bool_decide (c = dquote) | EmptyString => false end.

Lemma app_String (c : Ascii.ascii) (s t : string) : String c s +:+ t = String c (s +:+ t).
Proof. done. Qed.

Lemma read_quoted_doubled (name rest : string) :
  starts_with_quote rest = false ->
  read_quoted (double_quotes name +:+ String dquote rest) = Some (name, rest).
Proof.
  intros Hr. induction name as [|c name IH].
  - change ("" +:+ String dquote rest) with (String dquote rest). simpl.
    destruct rest as [|c rest]; [done|]. simpl in Hr. case_bool_decide; [done|]. by rewrite decide_False.
  - simpl. case_decide as Hc.
    + rewrite !app_String. subst c. cbn [read_quoted]. rewrite !decide_True by done. by rewrite IH.
    + rewrite app_String. cbn [read_quoted]. rewrite decide_False by done. by rewrite IH.
Qed.

(** a quoted identifier is read back as the name, whatever the name
    contains, and what follows it in the statement is left as it is: a name
    cannot end its quotes. *)
Theorem ident_roundtrip (name rest : string) :
  starts_with_quote rest = false ->
  read_ident (escape_ident name +:+ rest) = Some (name, rest) /\ quote_ident name = escape_ident name.
Proof.
  intros Hr. split; [|done]. unfold escape_ident. rewrite app_String. simpl read_ident.
  rewrite string_app_assoc. by apply read_quoted_doubled.
Qed.

Lemma ident_roundtrip_witness :
  read_ident (escape_ident (String dquote "; DROP TABLE t") +:+ " (x)") =
    Some (String dquote "; DROP TABLE t", " (x)") /\
  quote_ident (String dquote "; DROP TABLE t") = escape_ident (String dquote "; DROP TABLE t").
Proof. apply (ident_roundtrip (String dquote "; DROP TABLE t") " (x)"). reflexivity. Defined.

(** ** Column types survive *)

(** The Arrow type of the column that is created for a type. *)
Definition canonical_type (dt : DataType) : DataType :=
  match dt with
  | LargeUtf8 => Utf8
  | LargeBinary => Binary
  | Date64 => Date32
  | Timestamp _ _ => Timestamp Microsecond None
  | Time32 _ | Time64 _ => Time64 Microsecond
  | Decimal256 p s => Decimal128 p s
  | ListOf _ | StructOf _ => Utf8
  | dt => dt
  end.

Definition column_supported (dt : DataType) : bool :=
  match dt with FixedSizeBinary _ | Dictionary _ _ | OtherType _ => false | _ => true end.

(** The parameters of a decimal are a [u8] and an [i8]. *)
Definition decimal_in_range (dt : DataType) : bool :=
  match dt with
  | Decimal128 p s | Decimal256 p s => (0 <=? p) && (p <=? 255) && (-128 <=? s) && (s <=? 127)
  | _ => true
  end.

Fixpoint ascii_uppercase (s : string) : string :=
  match s with
  | EmptyString => EmptyString
  | String c s =>
      let n := Ascii.nat_of_ascii c in
      String (if (97 <=? n)%nat && (n <=? 122)%nat then Ascii.ascii_of_nat (n - 32) else c) (ascii_uppercase s)
  end.

Definition is_ascii (s : string) : bool :=
  forallb (fun c => (Ascii.nat_of_ascii c <? 128)%nat) (String.list_ascii_of_string s).

Definition decimal_text (p s : Z) : string := "DECIMAL(" +:+ pretty p +:+ ", " +:+ pretty s +:+ ")".

Definition no_char (c : Ascii.ascii) (s : string) : bool :=
  forallb (fun a => negb (bool_decide (a = c))) (String.list_ascii_of_string s).

Lemma split_char_none (c : Ascii.ascii) (s : string) : no_char c s = true -> split_char c s = [s].
Proof.
  induction s as [|a s IH]; [done|]. unfold no_char. simpl. intros Hs. bool_hyps.
  rewrite decide_False by done. by rewrite IH.
Qed.

Lemma split_char_app (c : Ascii.ascii) (s t : string) :
  no_char c s = true -> split_char c (s +:+ String c t) = s :: split_char c t.
Proof.
  induction s as [|a s IH]; intros Hs.
  - change ("" +:+ String c t) with (String c t). simpl. by rewrite decide_True.
  - unfold no_char in Hs. simpl in Hs. bool_hyps. rewrite app_String. simpl. rewrite decide_False by done.
    by rewrite IH.
Qed.

Lemma strip_suffix_char_app (c : Ascii.ascii) (s : string) : strip_suffix_char c (s +:+ String c "") = Some s.
Proof.
  induction s as [|a s IH]; [simpl; by rewrite decide_True|]. rewrite app_String. simpl. rewrite IH.
  by destruct (s +:+ String c "") eqn:E; [destruct s|].
Qed.

Lemma list_ascii_app (s t : string) :
  String.list_ascii_of_string (s +:+ t) = String.list_ascii_of_string s ++ String.list_ascii_of_string t.
Proof. induction s as [|a s IH]; [done|]. rewrite app_String. simpl. by rewrite IH. Qed.

Lemma is_ascii_app (s t : string) : is_ascii (s +:+ t) = is_ascii s && is_ascii t.
Proof. unfold is_ascii. by rewrite list_ascii_app, forallb_app. Qed.

Lemma ascii_uppercase_app (s t : string) : ascii_uppercase (s +:+ t) = ascii_uppercase s +:+ ascii_uppercase t.
Proof. induction s as [|a s IH]; [done|]. rewrite app_String. simpl. by rewrite IH. Qed.

(** The parameters, one by one, by computation. *)
Lemma precisions_parse :
  forallb (fun p => no_char comma (pretty p) && is_ascii (pretty p) && bool_decide (ascii_uppercase (pretty p) = pretty p)
    && bool_decide (parse_u8 (trim (pretty p)) = Some p)) (seqZ 0 256) = true.
Proof. vm_compute. reflexivity. Qed.

Lemma scales_parse :
  forallb (fun s => no_char comma (" " +:+ pretty s) && is_ascii (pretty s)
    && bool_decide (ascii_uppercase (pretty s) = pretty s)
    && bool_decide (parse_i8 (trim (" " +:+ pretty s)) = Some s)) (seqZ (-128) 256) = true.
Proof. vm_compute. reflexivity. Qed.

Lemma decimal_reads_back (p s : Z) : 0 <= p <= 255 -> -128 <= s <= 127 ->
  is_ascii (decimal_text p s) = true /\ ascii_uppercase (decimal_text p s) = decimal_text p s /\
  decimal_params (decimal_text p s) = Some (p, s).
Proof.
  intros Hp Hs. pose proof precisions_parse as Hps. pose proof scales_parse as Hss.
  rewrite forallb_forall in Hps, Hss.
  specialize (Hps p ltac:(apply list_elem_of_In, elem_of_seqZ; lia)).
  specialize (Hss s ltac:(apply list_elem_of_In, elem_of_seqZ; lia)). bool_hyps.
  unfold decimal_text. rewrite !is_ascii_app, !ascii_uppercase_app. split_and!.
  - repeat (apply andb_true_iff; split); done.
  - by repeat f_equal.
  - unfold decimal_params. rewrite strip_prefix_append. simpl.
    change (")") with (String rparen ""). rewrite <- !string_app_assoc, strip_suffix_char_app. simpl.
    rewrite string_app_assoc. change (", " +:+ pretty s) with (String comma (" " +:+ pretty s)).
    rewrite split_char_app, split_char_none by done. by repeat (match goal with H : _ = Some _ |- _ => rewrite H end; simpl).
Qed.

(** C38: the column created for an Arrow type is read back as its canonical
    type, which is stable; a type without a column is rejected when the table
    is created.  Upper case is only used on ASCII text. *)
Theorem column_type_reads_back `{Std} (to_uppercase : string -> string) (dt : DataType) :
  (forall s, is_ascii s = true -> to_uppercase s = ascii_uppercase s) -> decimal_in_range dt = true ->
  canonical_type (canonical_type dt) = canonical_type dt /\
  match arrow_type_to_duckdb dt with
  | Ok text => column_supported dt = true /\
      duckdb_type_str_to_arrow_type to_uppercase text = Ok (canonical_type dt)
  | Err _ => column_supported dt = false
  end.
Proof.
  intros Hup Hr. split; [by destruct dt|].
  assert (Hdec : forall p s, 0 <= p <= 255 -> -128 <= s <= 127 ->
    duckdb_type_str_to_arrow_type to_uppercase (decimal_text p s) = Ok (Decimal128 p s)).
  { intros p s Hp Hs. destruct (decimal_reads_back p s Hp Hs) as (Ha & Hu & Hd).
    unfold duckdb_type_str_to_arrow_type. rewrite (Hup _ Ha), Hu, Hd.
    replace (head (split_char lparen (decimal_text p s))) with (Some "DECIMAL") by reflexivity. reflexivity. }
  destruct dt; simpl in Hr |- *; bool_hyps; try done; (split; [done|]);
    first [apply Hdec; lia
          | unfold duckdb_type_str_to_arrow_type; rewrite Hup by reflexivity; vm_compute; reflexivity].
Qed.

(** [DECIMAL(255, -128)], the extreme parameters. *)
Lemma column_type_reads_back_witness :
  canonical_type (canonical_type (Decimal256 255 (-128))) = canonical_type (Decimal256 255 (-128)) /\
  match @arrow_type_to_duckdb demo_std (Decimal256 255 (-128)) with
  | Ok text => column_supported (Decimal256 255 (-128)) = true /\
      duckdb_type_str_to_arrow_type ascii_uppercase text = Ok (canonical_type (Decimal256 255 (-128)))
  | Err _ => column_supported (Decimal256 255 (-128)) = false
  end.
Proof. apply (@column_type_reads_back demo_std ascii_uppercase (Decimal256 255 (-128))); [done|reflexivity]. Defined.

(** ** Tables hold what was appended *)

Section contents.
Context `{Arrow RecordBatch Schema} `{!DuckDb Db Appender RecordBatch} `{!DuckDbLaws Db Appender RecordBatch}.

(** The rows of batches, in order. *)
Definition rows_of (batches : list RecordBatch) : list Row := concat (map rows batches).

(** The table a name stands for. *)
Definition visible (db : Db) (t : string) : option (list Row) :=
  db_table db (resolve_table (db_table db) (table_key t)).

Lemma append_each_law (a a' : Appender) (batches : list RecordBatch) (r : result unit string) :
  append_each a batches = (a', r) ->
  appender_table a' = appender_table a /\ (r = Ok tt -> appender_rows a' = appender_rows a ++ rows_of batches).
Proof.
  revert a. induction batches as [|b batches IH]; intros a Ha; simpl in Ha.
  { injection Ha as <- <-. split; [done|]. intros _. unfold rows_of. simpl. by rewrite app_nil_r. }
  pose proof (append_law a b) as [Ht Hr]. destruct (append_record_batch a b) as [a1 [[]|e]]; simpl in *.
  - apply IH in Ha as [Ht' Hr']. split; [congruence|]. intros Hok.
    rewrite (Hr' Hok), (Hr eq_refl). unfold rows_of. simpl. by rewrite app_assoc.
  - injection Ha as <- <-. by split.
Qed.

(** Appending touches one table, and on success adds the rows at its end. *)
Lemma append_and_flush_law (db db' : Db) t batches e1 e2 e3 (r : result unit string) :
  append_and_flush db t batches e1 e2 e3 = (db', r) ->
  (forall k, k <> resolve_table (db_table db) (table_key t) -> db_table db' k = db_table db k) /\
  (r = Ok tt -> db_table db' (resolve_table (db_table db) (table_key t)) =
                (fun old => old ++ rows_of batches) <$> visible db t).
Proof.
  unfold append_and_flush, visible. destruct (db_appender db t) as [a|e] eqn:Ea.
  2: { intros [= <- <-]. by split. }
  apply appender_law in Ea as (_ & Ht & Hr). destruct (append_each a batches) as [a1 r1] eqn:Eb.
  apply append_each_law in Eb as [Ht1 Hr1]. rewrite Hr, Ht in *. simpl in Hr1.
  assert (Hdrop : forall d k, k <> appender_table a1 -> db_table (appender_drop d a1) k = db_table d k)
    by (intros; by apply appender_drop_law).
  destruct r1 as [[]|e]; [|intros [= <- <-]; split; [|done]; intros k Hk; apply Hdrop; congruence].
  pose proof (flush_law db a1) as Hf. destruct (appender_flush db a1) as [db1 [[]|e]]; destruct Hf as [Hk Hv].
  - intros [= <- <-]. rewrite Ht1 in *. split; [done|]. intros _. by rewrite (Hv eq_refl), (Hr1 eq_refl).
  - intros [= <- <-]. split; [|done]. intros k Hne. rewrite Hdrop by congruence. apply Hk. congruence.
Qed.

Lemma rows_of_nonempty (batches : list RecordBatch) :
  rows_of (List.filter (fun b => negb (bool_decide (num_rows b = 0%nat))) batches) = rows_of batches.
Proof.
  induction batches as [|b batches IH]; simpl; [done|]. unfold rows_of in *. case_bool_decide as Hb; simpl.
  - unfold num_rows in Hb. destruct (rows b); [done|done].
  - by rewrite IH.
Qed.

Lemma create_in_catalog (db db' : Db) temp t columns :
  db_execute db (CreateTable temp t columns) = (db', Ok tt) ->
  db_table db' (temp, table_key t) = Some [] /\
  forall k, k <> (temp, table_key t) -> db_table db' k = db_table db k.
Proof.
  intros Hx. pose proof (create_law db temp t columns) as Hc. rewrite Hx in Hc. destruct Hc as [_ Hk].
  split; [by rewrite Hk, decide_True|]. intros k Hne. by rewrite Hk, decide_False.
Qed.
End contents.

Section registered.
Context `{Std} `{Arrow RecordBatch Schema} `{!SchemaFields Schema} `{!DuckDb Db Appender RecordBatch}
  `{!DuckDbLaws Db Appender RecordBatch}.

(** What a registration does to the catalogs: on success the temporary table
    has the rows of the batches; a main table of that name does not appear, and
    other names are left alone. *)
Lemma register_law (db db' : Db) (t : string) (b : RecordBatch) (bs : list RecordBatch) (r : result unit string) :
  register_arrow_batches db t (b :: bs) = (db', r) ->
  (r = Ok tt -> db_table db' (true, table_key t) = Some (rows_of (b :: bs))) /\
  (db_table db (false, table_key t) = None -> db_table db' (false, table_key t) = None) /\
  (forall k, k.2 <> table_key t -> db_table db' k = db_table db k).
Proof.
  unfold register_arrow_batches, register_arrow_batches_with_options.
  pose proof (drop_law db t) as Hd. destruct (db_execute db (DropTable t)) as [db1 [[]|e]].
  2: { intros [= <- <-]. split; [done|]. split; [by rewrite Hd|]. intros k _. apply Hd. }
  assert (Hk1 : forall k, k.2 <> table_key t -> db_table db1 k = db_table db k).
  { intros k Hk. rewrite Hd, decide_False; [done|]. by intros ->. }
  assert (Hm1 : db_table db (false, table_key t) = None -> db_table db1 (false, table_key t) = None).
  { intros Hm. rewrite Hd. by case_decide. }
  unfold build_create_table_sql. destruct (collect_results _ _) as [columns|e]; simpl;
    [|by intros [= <- <-]; split].
  pose proof (create_law db1 true t columns) as Hc. pose proof (create_in_catalog db1) as Hin.
  destruct (db_execute db1 (CreateTable true t columns)) as [db2 [[]|e]] eqn:Ex.
  2: { intros [= <- <-]. split; [done|]. rewrite Hc. split; [done|]. intros k Hk. rewrite Hc. by apply Hk1. }
  destruct (Hin _ _ _ _ Ex) as [Hnew Hk2].
  assert (Hres : resolve_table (db_table db2) (table_key t) = (true, table_key t)).
  { unfold resolve_table. by rewrite Hnew. }
  destruct (append_arrow_batches db2 t (b :: bs)) as [db3 r3] eqn:Ea.
  apply append_and_flush_law in Ea as [Hk3 Hv]. unfold visible in Hv. rewrite Hres in Hk3, Hv. rewrite Hnew in Hv.
  assert (Hk : forall k, k.2 <> table_key t -> db_table db3 k = db_table db k).
  { intros k Hk. rewrite Hk3, Hk2; [by apply Hk1|by intros ->..]. }
  assert (Hm : db_table db (false, table_key t) = None -> db_table db3 (false, table_key t) = None).
  { intros Hm. rewrite Hk3, Hk2 by done. by apply Hm1. }
  destruct r3 as [[]|e]; intros [= <- <-]; (split; [|by split]); [|done].
  intros _. specialize (Hv eq_refl). by rewrite rows_of_nonempty in Hv.
Qed.

(** registering the batches of an exchange gives the stage exactly their
    rows: on success the temporary table with the name of the input holds the
    rows of all batches in order, whatever had that name before, and with or
    without success the tables of other names are unchanged. *)
Theorem register_exact (db db' : Db) (t : string) (b : RecordBatch) (bs : list RecordBatch) (r : result unit string) :
  register_arrow_batches db t (b :: bs) = (db', r) ->
  (r = Ok tt -> visible db' t = Some (rows_of (b :: bs))) /\
  (forall k, k.2 <> table_key t -> db_table db' k = db_table db k).
Proof.
  intros (Hv & _ & Hk)%register_law. split; [|done]. intros Hr. unfold visible, resolve_table. by rewrite (Hv Hr), Hv.
Qed.
End registered.

(** ** A database of rows *)

#[local] Existing Instance Table.arrow.

Module MemDb.
Abbreviation db := (gmap TableId (list Row)).
Abbreviation appender := (TableId * list Row)%type.

Definition execute (d : db) (s : DbStatement) : db * result unit string :=
  match s with
  | CreateTable temp t _ =>
      match d !! (temp, ascii_lowercase t) with
      | Some _ => (d, Err ("Table " +:+ t +:+ " already exists"))
      | None => (<[(temp, ascii_lowercase t) := []]> d, Ok tt)
      end
  | DropTable t => (delete (resolve_table (fun k => d !! k) (ascii_lowercase t)) d, Ok tt)
  | CreateMacro _ _ => (d, Ok tt)
  end.

#[export] Instance duckdb : DuckDb db appender Table.t := {|
  table_key := ascii_lowercase;
  db_execute := execute;
  db_appender d t :=
    let k := resolve_table (fun k => d !! k) (ascii_lowercase t) in
    match d !! k with Some _ => Ok (k, []) | None => Err "Table does not exist" end;
  append_record_batch a b := ((a.1, a.2 ++ rows b), Ok tt);
  appender_flush d a := (<[a.1 := default [] (d !! a.1) ++ a.2]> d, match d !! a.1 with Some _ => Ok tt | None => Err "gone" end);
  appender_drop d _ := d;
  db_describe _ _ := Ok [];
  db_storage_size _ _ := Ok None;
|}.

#[export] Instance duckdb_laws : DuckDbLaws db appender Table.t.
Proof.
  refine {| db_table d k := d !! k; appender_table := fst; appender_rows := snd |}; simpl.
  - intros d temp t _. destruct (d !! _) eqn:E; [done|]. split; [done|]. intros k. case_decide as Hk.
    + by rewrite Hk, lookup_insert_eq.
    + by rewrite lookup_insert_ne.
  - intros d t k. case_decide as Hk; [by rewrite Hk, lookup_delete_eq|by rewrite lookup_delete_ne].
  - done.
  - intros d t a. destruct (d !! resolve_table _ _) eqn:E; [|done]. by intros [= <-].
  - done.
  - intros d a. split; [intros k Hk; by rewrite lookup_insert_ne|].
    destruct (d !! a.1) eqn:E; [|done]. intros _. by rewrite lookup_insert_eq.
  - done.
Defined.

#[export] Instance fields_of : SchemaFields (list (string * DataType)) := {|
  schema_fields s := map (fun f => mkField f.1 f.2 true) s;
  Schema_new fs := map (fun f => (f_name f, f_type f)) fs;
|}.
End MemDb.

#[local] Existing Instance MemDb.duckdb.
#[local] Existing Instance MemDb.duckdb_laws.
#[local] Existing Instance MemDb.fields_of.
#[local] Existing Instance demo_std.

Definition id_batch (ids : list Z) : Table.t := Table.mk [("id", Int64)] (map (fun i => [Some (VInt i)]) ids).

(** An older temporary table of that name is replaced. *)
Definition demo_db : MemDb.db := {[ (true, "__exchange_0") := [[None]]; (false, "t") := [] ]}.
Definition registered_db : MemDb.db :=
  (register_arrow_batches demo_db "__exchange_0" [id_batch [1; 2]; id_batch [3]]).1.

Lemma register_exact_witness :
  visible registered_db "__exchange_0" = Some [[Some (VInt 1)]; [Some (VInt 2)]; [Some (VInt 3)]] /\
  registered_db !! (false, "t") = Some [].
Proof.
  assert (Hr : register_arrow_batches demo_db "__exchange_0" [id_batch [1; 2]; id_batch [3]] = (registered_db, Ok tt))
    by (apply injective_projections; [reflexivity|vm_compute; reflexivity]).
  destruct (register_exact demo_db registered_db "__exchange_0" (id_batch [1; 2]) [id_batch [3]] (Ok tt) Hr) as [Hv Hk].
  split; [exact (Hv eq_refl)|]. exact (eq_trans (Hk (false, "t") ltac:(done)) eq_refl).
Defined.
