(* ===== verification/EpochEngine.v ===== *)
(** * The epoch engine (engine/duckdb/memory_duckdb_runtime.rs, storage_engine_impl.rs)

    One thread owns the database connection and handles the commands that
    loads, evictions and queries send it through a channel, one after the
    other.  A load is a start command, a command per batch and a finish
    command; loads of different epochs interleave.  The sender of a oneshot
    channel is a number, and the answers are logged in [replies] in the order
    in which they are sent.  The clock and the iteration order of the hash maps
    are arguments. *)

From stdpp Require Import pretty.
From S2P Require Import Prelude Arrow DuckDb.

#[local] Open Scope Z_scope.

(** ** Data *)

Record EpochView := mkEpochView {
  ev_epoch_id : string;
  ev_table_name : string;
  ev_time_range : Z * Z;
  ev_time_column_name : string;
  ev_time_partition_value : string;
  ev_dimension_values : gmap string string;
}.

Record TableMetadata (Schema : Type) := mkTableMetadata {
  tm_table_name : string;
  tm_total_rows : Z;
  tm_total_bytes : Z;
  tm_create_at : Z;
  tm_schema : Schema;
}.
Arguments mkTableMetadata {Schema} _ _ _ _ _.
Arguments tm_table_name {Schema} _.
Arguments tm_total_rows {Schema} _.
Arguments tm_total_bytes {Schema} _.
Arguments tm_schema {Schema} _.

Inductive StorageError :=
| InvalidArgument (msg : string)
| Backend (backend message : string)
| ShuttingDown.

Definition StorageError_display (e : StorageError) : string :=
  match e with
  | InvalidArgument msg => "Invalid argument: " +:+ msg
  | Backend backend message => "Backend error (" +:+ backend +:+ "): " +:+ message
  | ShuttingDown => "Engine shutting down"
  end.

Record EpochMemoryStats := mkEpochMemoryStats {
  ms_dataset_id : string; ms_epoch_id : string; ms_rows_count : Z; ms_approx_bytes : Z }.

Record MemoryStats := mkMemoryStats { total_storage_bytes_estimate : Z; ms_epochs : list EpochMemoryStats }.

Record EngineMetrics := mkEngineMetrics {
  total_batches_written : Z;
  total_rows_written : Z;
  total_flushes : Z;
  active_epochs : Z;
  committed_epochs : Z;
}.

Record EpochInProgress (RecordBatch : Type) := mkEpochInProgress {
  ep_dataset_id : string;
  epoch_view : EpochView;
  pending_batches : list RecordBatch;
  pending_rows : Z;
  total_rows_committed : Z;
  first_error : option string;
  ep_done : Z;
}.
Arguments mkEpochInProgress {RecordBatch} _ _ _ _ _ _ _.
Arguments ep_dataset_id {RecordBatch} _.
Arguments epoch_view {RecordBatch} _.
Arguments pending_batches {RecordBatch} _.
Arguments pending_rows {RecordBatch} _.
Arguments total_rows_committed {RecordBatch} _.
Arguments first_error {RecordBatch} _.
Arguments ep_done {RecordBatch} _.

Inductive EngineCom (Schema RecordBatch : Type) :=
| StartEpoch (dataset_id : string) (view : EpochView) (schema : Schema) (done : Z)
| IngestBatch (key : string) (batch : RecordBatch)
| FinishEpoch (key : string)
| DropEpoch (dataset_id epoch_id : string) (resp : Z)
| ListEpoch (dataset_id : string) (resp : Z)
| GetDatasetSchema (dataset_id : string) (resp : Z)
| ComMemoryStats (resp : Z)
| GetMetrics (resp : Z)
| Shutdown (resp : Z).
Arguments StartEpoch {Schema RecordBatch} _ _ _ _.
Arguments IngestBatch {Schema RecordBatch} _ _.
Arguments FinishEpoch {Schema RecordBatch} _.
Arguments DropEpoch {Schema RecordBatch} _ _ _.
Arguments ListEpoch {Schema RecordBatch} _ _.
Arguments GetDatasetSchema {Schema RecordBatch} _ _.
Arguments ComMemoryStats {Schema RecordBatch} _.
Arguments GetMetrics {Schema RecordBatch} _.
Arguments Shutdown {Schema RecordBatch} _.

(** What is sent on a oneshot channel. *)
Inductive Reply (Schema : Type) :=
| RepDone (r : result (TableMetadata Schema) string)
| RepDrop (r : result unit string)
| RepList (r : result (list EpochView) string)
| RepSchema (s : option Schema)
| RepMemory (r : result MemoryStats string)
| RepMetrics (r : result EngineMetrics string)
| RepShutdown (r : result unit string).
Arguments RepDone {Schema} r.
Arguments RepDrop {Schema} r.
Arguments RepList {Schema} r.
Arguments RepSchema {Schema} s.
Arguments RepMemory {Schema} r.
Arguments RepMetrics {Schema} r.
Arguments RepShutdown {Schema} r.

Record EngineState (Db Schema RecordBatch : Type) := mkEngineState {
  conn : Db;
  flush_rows_threshold : Z;
  committed : gmap string (EpochView * TableMetadata Schema);
  dataset_schemas : gmap string Schema;
  in_progress : gmap string (EpochInProgress RecordBatch);
  metrics : EngineMetrics;
  shutdown : bool;
  replies : list (Z * Reply Schema);
}.
Arguments mkEngineState {Db Schema RecordBatch} _ _ _ _ _ _ _ _.
Arguments conn {Db Schema RecordBatch} _.
Arguments flush_rows_threshold {Db Schema RecordBatch} _.
Arguments committed {Db Schema RecordBatch} _.
Arguments dataset_schemas {Db Schema RecordBatch} _.
Arguments in_progress {Db Schema RecordBatch} _.
Arguments metrics {Db Schema RecordBatch} _.
Arguments shutdown {Db Schema RecordBatch} _.
Arguments replies {Db Schema RecordBatch} _.

Definition epoch_key (dataset_id epoch_id : string) : string := dataset_id +:+ "__" +:+ epoch_id.

(** [key.split("__").next()]. *)
Fixpoint first_part (key : string) : string :=
  match strip_prefix "__" key with
  | Some _ => EmptyString
  | None => match key with EmptyString => EmptyString | String c rest => String c (first_part rest) end
  end.

(** ** The handlers *)
Section engine.
Context `{Std} `{Arrow RecordBatch Schema} `{!SchemaFields Schema} `{!DuckDb Db Appender RecordBatch}.
Context (to_uppercase : string -> string) (iter : forall A, gmap string A -> list (string * A)).
Abbreviation state := (EngineState Db Schema RecordBatch).
Abbreviation com := (EngineCom Schema RecordBatch).

(** [done.send(...)], [resp.send(...)]. *)
Definition send (st : state) (channel : Z) (r : Reply Schema) : state :=
  mkEngineState (conn st) (flush_rows_threshold st) (committed st) (dataset_schemas st) (in_progress st)
    (metrics st) (shutdown st) (replies st ++ [(channel, r)]).

Definition set_conn (st : state) (c : Db) (m : EngineMetrics) (ps : gmap string (EpochInProgress RecordBatch)) : state :=
  mkEngineState c (flush_rows_threshold st) (committed st) (dataset_schemas st) ps m (shutdown st) (replies st).

Definition on_start_epoch (st : state) (dataset_id : string) (view : EpochView) (schema : Schema) (done : Z) : state :=
  if shutdown st then send st done (RepDone (Err (StorageError_display ShuttingDown)))
  else
    let key := epoch_key dataset_id (ev_epoch_id view) in
    match in_progress st !! key, committed st !! key with
    | None, None =>
        match create_table_from_arrow_schema (conn st) (ev_table_name view) schema with
        | (c, Err e) => send (set_conn st c (metrics st) (in_progress st)) done (RepDone (Err e))
        | (c, Ok _) =>
            mkEngineState c (flush_rows_threshold st) (committed st)
              (<[dataset_id := schema]> (dataset_schemas st))
              (<[key := mkEpochInProgress dataset_id view [] 0 0 None done]> (in_progress st))
              (metrics st) (shutdown st) (replies st)
        end
    | _, _ =>
        send st done (RepDone (Err (StorageError_display (InvalidArgument
          ("Epoch table " +:+ ev_epoch_id view +:+ " for dataset " +:+ dataset_id +:+ " already exists.")))))
    end.

Definition flush_pending_batches (c : Db) (m : EngineMetrics) (ep : EpochInProgress RecordBatch)
    : Db * EngineMetrics * EpochInProgress RecordBatch * result unit string :=
  match pending_batches ep with
  | [] => (c, m, ep, Ok tt)
  | batches =>
      let t := ev_table_name (epoch_view ep) in
      match append_and_flush c t batches
              ("Failed to create appender for " +:+ t) ("Failed to append batch to " +:+ t)
              "Failed to flush appender to DuckDB" with
      | (c, Err e) => (c, m, ep, Err e)
      | (c, Ok _) =>
          (c,
           mkEngineMetrics (wrap64 (total_batches_written m + 1)) (wrap64 (total_rows_written m + pending_rows ep))
             (wrap64 (total_flushes m + 1)) (active_epochs m) (committed_epochs m),
           mkEpochInProgress (ep_dataset_id ep) (epoch_view ep) [] 0
             (wrap64 (total_rows_committed ep + pending_rows ep)) (first_error ep) (ep_done ep),
           Ok tt)
      end
  end.

Definition on_ingest_batch (st : state) (key : string) (batch : RecordBatch) : state :=
  match in_progress st !! key with
  | None => st
  | Some ep =>
      match first_error ep with
      | Some _ => st
      | None =>
          let ep := mkEpochInProgress (ep_dataset_id ep) (epoch_view ep) (pending_batches ep ++ [batch])
                      (wrap64 (pending_rows ep + Z.of_nat (num_rows batch))) (total_rows_committed ep) None (ep_done ep) in
          if flush_rows_threshold st <=? pending_rows ep then
            match flush_pending_batches (conn st) (metrics st) ep with
            | (c, m, ep, Ok _) => set_conn st c m (<[key := ep]> (in_progress st))
            | (c, m, ep, Err _) =>
                set_conn st c m (<[key := mkEpochInProgress (ep_dataset_id ep) (epoch_view ep) [] 0
                  (total_rows_committed ep) (Some ("Failed to flush pending batches for epoch " +:+ key)) (ep_done ep)]>
                  (in_progress st))
            end
          else set_conn st (conn st) (metrics st) (<[key := ep]> (in_progress st))
      end
  end.

Definition on_finish_epoch (now : Z) (st : state) (key : string) : state :=
  match in_progress st !! key with
  | None => st
  | Some ep =>
      let others := delete key (in_progress st) in
      match first_error ep with
      | Some e => send (set_conn st (conn st) (metrics st) others) (ep_done ep) (RepDone (Err e))
      | None =>
          match flush_pending_batches (conn st) (metrics st) ep with
          | (c, m, ep, Err _) =>
              send (set_conn st c m others) (ep_done ep)
                (RepDone (Err ("Failed to flush final batches for epoch " +:+ key)))
          | (c, m, ep, Ok _) =>
              let st := set_conn st c m others in
              if total_rows_committed ep =? 0 then
                send st (ep_done ep)
                  (RepDone (Err (StorageError_display (InvalidArgument "Arrow stream for epoch is empty"))))
              else
                let t := ev_table_name (epoch_view ep) in
                match query_table_schema to_uppercase c t with
                | Err _ => send st (ep_done ep) (RepDone (Err ("Failed to query schema for table " +:+ t)))
                | Ok schema =>
                    let approx_bytes :=
                      match query_table_size c t with
                      | Ok n => n
                      | Err _ => estimate_table_bytes (total_rows_committed ep) (schema_fields schema)
                      end in
                    let metadata := mkTableMetadata t (total_rows_committed ep) approx_bytes now schema in
                    send (mkEngineState (conn st) (flush_rows_threshold st)
                            (<[key := (epoch_view ep, metadata)]> (committed st)) (dataset_schemas st)
                            (in_progress st) (metrics st) (shutdown st) (replies st))
                      (ep_done ep) (RepDone (Ok metadata))
                end
          end
      end
  end.

Definition on_drop_epoch (st : state) (dataset_id epoch_id : string) : state * result unit string :=
  let key := epoch_key dataset_id epoch_id in
  match in_progress st !! key with
  | Some _ => (st, Err ("Cannot drop epoch " +:+ epoch_id +:+ " for dataset " +:+ dataset_id
                          +:+ " while ingestion is in progress"))
  | None =>
      match committed st !! key with
      | None => (st, Err (StorageError_display (InvalidArgument
                   ("Epoch " +:+ epoch_id +:+ " for dataset " +:+ dataset_id +:+ " not found"))))
      | Some (view, _) =>
          let '(c, r) := db_execute (conn st) (DropTable (ev_table_name view)) in
          (mkEngineState c (flush_rows_threshold st) (delete key (committed st)) (dataset_schemas st)
             (in_progress st) (metrics st) (shutdown st) (replies st),
           match r with Ok _ => Ok tt | Err _ => Err ("Failed to drop table " +:+ ev_table_name view) end)
      end
  end.

Definition on_list_epochs (st : state) (dataset_id : string) : result (list EpochView) string :=
  let prefix := dataset_id +:+ "__" in
  Ok (omap (fun e => match strip_prefix prefix (fst e) with Some _ => Some (fst (snd e)) | None => None end)
        (iter _ (committed st))).

Definition on_memory_stats (st : state) : MemoryStats :=
  let epochs := map (fun e : string * (EpochView * TableMetadata Schema) =>
    let '(key, (view, metadata)) := e in
    mkEpochMemoryStats (first_part key) (ev_epoch_id view) (tm_total_rows metadata) (tm_total_bytes metadata))
    (iter _ (committed st)) in
  mkMemoryStats (foldl (fun acc e => wrap64 (acc + ms_approx_bytes e)) 0 epochs) epochs.

(** ** The loop of [engine_main] *)

Definition update_metrics (st : state) : state :=
  mkEngineState (conn st) (flush_rows_threshold st) (committed st) (dataset_schemas st) (in_progress st)
    (mkEngineMetrics (total_batches_written (metrics st)) (total_rows_written (metrics st)) (total_flushes (metrics st))
       (Z.of_nat (size (in_progress st))) (Z.of_nat (size (committed st))))
    (shutdown st) (replies st).

Definition on_shutdown (st : state) (resp : Z) : state :=
  let st' := mkEngineState (conn st) (flush_rows_threshold st) (committed st) (dataset_schemas st) ∅
               (metrics st) true (replies st) in
  send (foldl (fun s e => send s (ep_done (snd e)) (RepDone (Err (StorageError_display ShuttingDown))))
          st' (iter _ (in_progress st))) resp (RepShutdown (Ok tt)).

Definition handle (now : Z) (st : state) (c : com) : state :=
  match c with
  | StartEpoch dataset_id view schema done => on_start_epoch st dataset_id view schema done
  | IngestBatch key batch => on_ingest_batch st key batch
  | FinishEpoch key => on_finish_epoch now st key
  | DropEpoch dataset_id epoch_id resp =>
      let '(st, r) := on_drop_epoch st dataset_id epoch_id in send st resp (RepDrop r)
  | ListEpoch dataset_id resp => send st resp (RepList (on_list_epochs st dataset_id))
  | GetDatasetSchema dataset_id resp => send st resp (RepSchema (dataset_schemas st !! dataset_id))
  | ComMemoryStats resp => send st resp (RepMemory (Ok (on_memory_stats st)))
  | GetMetrics resp => send st resp (RepMetrics (Ok (metrics st)))
  | Shutdown resp => on_shutdown st resp
  end.

(** The commands in the order of the channel, each with the time it is handled
    at; the loop ends with [Shutdown] or when the channel is closed. *)
Fixpoint engine_main (st : state) (coms : list (Z * com)) : state :=
  match coms with
  | [] => st
  | (now, Shutdown resp) :: _ => handle now st (Shutdown resp)
  | (now, c) :: coms => engine_main (update_metrics (handle now st c)) coms
  end.

Definition EngineState_new (c : Db) (threshold : Z) : state :=
  mkEngineState c threshold ∅ ∅ ∅ (mkEngineMetrics 0 0 0 0 0) false [].

(** ** The clients *)

(** [create_epoch_table]: what a load sends, and the error it gives up with
    when its stream fails. *)
Fixpoint take_batches (stream : list (result RecordBatch string)) : list RecordBatch * option string :=
  match stream with
  | [] => ([], None)
  | Err e :: _ => ([], Some e)
  | Ok b :: stream => let '(bs, e) := take_batches stream in (b :: bs, e)
  end.

Definition create_epoch_table (dataset_id : string) (epoch : EpochView) (stream : list (result RecordBatch string))
    (done : Z) : list com * option string :=
  match stream with
  | [] => ([], Some "Arrow stream is empty")
  | Err e :: _ => ([], Some e)
  | Ok first_batch :: rest =>
      let key := epoch_key dataset_id (ev_epoch_id epoch) in
      let '(batches, error) := take_batches rest in
      (StartEpoch dataset_id epoch (schema first_batch) done :: IngestBatch key first_batch ::
         map (IngestBatch key) batches ++ match error with None => [FinishEpoch key] | Some _ => [] end,
       error)
  end.

(** [get_epoch_stats] on the answer of [MemoryStats]. *)
Definition find_epoch_stats (stats : MemoryStats) (dataset_id epoch_id : string) : option (Z * Z) :=
  e ← List.find (fun e => bool_decide (ms_dataset_id e = dataset_id) && bool_decide (ms_epoch_id e = epoch_id))
        (ms_epochs stats);
  Some (ms_rows_count e, ms_approx_bytes e).

(** [update_dataset_macro]: the epochs and the schema are the answers to two
    commands, and the macro is created on a connection of the pool. *)
Definition update_dataset_macro (pool : result unit string) (c : Db) (dataset_id date_column : string)
    (epochs : result (list EpochView) string) (dataset_schema : option Schema) : Db * result unit string :=
  match epochs with
  | Err e => (c, Err e)
  | Ok epochs =>
      let epoch_tables := map ev_table_name epochs in
      match pool with
      | Err e => (c, Err e)
      | Ok _ =>
          create_or_update_dataset_macro c dataset_id date_column epoch_tables
            (match epoch_tables with [] => dataset_schema | _ => None end)
      end
  end.
End engine.

(** ** Loads do not disturb each other *)

Section load.
Context `{Std} `{Arrow RecordBatch Schema} `{!SchemaFields Schema} `{!DuckDb Db Appender RecordBatch}
  `{!DuckDbLaws Db Appender RecordBatch}.
Context (to_uppercase : string -> string) (iter : forall A, gmap string A -> list (string * A)).
Hypothesis iter_perm : forall A (m : gmap string A), iter A m ≡ₚ map_to_list m.
Abbreviation state := (EngineState Db Schema RecordBatch).
Abbreviation com := (EngineCom Schema RecordBatch).

(** What a load has been answered. *)
Definition answers (st : state) (done : Z) : list (result (TableMetadata Schema) string) :=
  omap (fun e => match snd e with
                 | RepDone r => if decide (fst e = done) then Some r else None
                 | _ => None
                 end) (replies st).

Lemma answers_send (st : state) channel r done :
  answers (send st channel r) done =
  answers st done ++ match r with RepDone r => if decide (channel = done) then [r] else [] | _ => [] end.
Proof.
  unfold answers. simpl. rewrite omap_app. f_equal. simpl. destruct r; try done. by case_decide.
Qed.

(** One load: its epoch, its table and its channel. *)
Context (dataset_id : string) (view : EpochView) (schema_ : Schema) (done : Z).
Let key := epoch_key dataset_id (ev_epoch_id view).
Let table := table_key (ev_table_name view).

(** The commands about the epoch. *)
Definition about (c : com) : bool :=
  match c with
  | StartEpoch d v _ _ => bool_decide (epoch_key d (ev_epoch_id v) = key)
  | IngestBatch k _ | FinishEpoch k => bool_decide (k = key)
  | DropEpoch d e _ => bool_decide (epoch_key d e = key)
  | _ => false
  end.

(** The other commands: they load into other tables, and do not stop the
    engine. *)
Definition apart (c : com) : Prop :=
  about c = false /\
  match c with
  | StartEpoch _ v _ d => table_key (ev_table_name v) <> table /\ d <> done
  | Shutdown _ => False
  | _ => True
  end.

(** The other epochs of the engine are apart from the load too, and the
    writer's connection has no temporary tables. *)
Record others_apart (st : state) : Prop := {
  oa_progress : forall k ep, in_progress st !! k = Some ep -> k <> key ->
    table_key (ev_table_name (epoch_view ep)) <> table /\ ep_done ep <> done;
  oa_committed : forall k e, committed st !! k = Some e -> k <> key -> table_key (ev_table_name (fst e)) <> table;
  oa_main : forall k, db_table (conn st) (true, k) = None;
}.

(** What the load sees of the engine. *)
Definition same_load (st st' : state) : Prop :=
  in_progress st' !! key = in_progress st !! key /\ committed st' !! key = committed st !! key /\
  db_table (conn st') (false, table) = db_table (conn st) (false, table) /\
  answers st' done = answers st done /\ shutdown st' = shutdown st.

Lemma main_resolves (db : Db) t : (forall k, db_table db (true, k) = None) ->
  resolve_table (db_table db) t = (false, t).
Proof. intros Hm. unfold resolve_table. by rewrite Hm. Qed.

(** Changing another table of the main catalog. *)
Lemma append_apart (db db' : Db) t batches e1 e2 e3 r :
  (forall k, db_table db (true, k) = None) -> append_and_flush db t batches e1 e2 e3 = (db', r) ->
  (forall k, db_table db' (true, k) = None) /\
  (forall k, k <> table_key t -> db_table db' (false, k) = db_table db (false, k)).
Proof.
  intros Hm Ha. apply append_and_flush_law in Ha as [Hk _]. rewrite main_resolves in Hk by done.
  split; intros k; [by rewrite Hk|]. intros Hne. apply Hk. congruence.
Qed.

Lemma create_apart (db db' : Db) t s r :
  (forall k, db_table db (true, k) = None) -> create_table_from_arrow_schema db t s = (db', r) ->
  (forall k, db_table db' (true, k) = None) /\
  (forall k, k <> table_key t -> db_table db' (false, k) = db_table db (false, k)) /\
  (r = Ok tt -> db_table db (false, table_key t) = None /\ db_table db' (false, table_key t) = Some []).
Proof.
  intros Hm. unfold create_table_from_arrow_schema.
  destruct (collect_results _ _) as [columns|e]; [|by intros [= <- <-]].
  pose proof (create_law db false t columns) as Hc.
  destruct (db_execute db (CreateTable false t columns)) as [db1 [[]|e]]; intros [= <- <-].
  - destruct Hc as [Hn Hk]. split_and!; intros.
    + rewrite Hk. by rewrite decide_False.
    + rewrite Hk. rewrite decide_False; [done|congruence].
    + split; [done|]. by rewrite Hk, decide_True.
  - split_and!; intros; try done; by rewrite Hc.
Qed.

Lemma flush_apart (c c' : Db) m m' (ep ep' : EpochInProgress RecordBatch) r :
  (forall k, db_table c (true, k) = None) -> flush_pending_batches c m ep = (c', m', ep', r) ->
  epoch_view ep' = epoch_view ep /\ ep_done ep' = ep_done ep /\
  (forall k, db_table c' (true, k) = None) /\
  (forall k, k <> table_key (ev_table_name (epoch_view ep)) -> db_table c' (false, k) = db_table c (false, k)).
Proof.
  intros Hm. unfold flush_pending_batches. destruct (pending_batches ep) as [|b bs]; [by intros [= <- _ <- _]|].
  destruct (append_and_flush _ _ _ _ _ _) as [c1 [u|e]] eqn:Ea; apply append_apart in Ea as [? ?]; try done;
    by intros [= <- _ <- _].
Qed.

(** Extending the engine by an epoch that is apart. *)
Lemma insert_apart (ps : gmap string (EpochInProgress RecordBatch)) k ep :
  (forall k' e, ps !! k' = Some e -> k' <> key -> table_key (ev_table_name (epoch_view e)) <> table /\ ep_done e <> done) ->
  table_key (ev_table_name (epoch_view ep)) <> table /\ ep_done ep <> done ->
  forall k' e, <[k := ep]> ps !! k' = Some e -> k' <> key ->
    table_key (ev_table_name (epoch_view e)) <> table /\ ep_done e <> done.
Proof. intros Hps Hep k' e [[<- <-]|[_ He]]%lookup_insert_Some Hne; [done|by eapply Hps]. Qed.

Lemma delete_apart (ps : gmap string (EpochInProgress RecordBatch)) k :
  (forall k' e, ps !! k' = Some e -> k' <> key -> table_key (ev_table_name (epoch_view e)) <> table /\ ep_done e <> done) ->
  forall k' e, delete k ps !! k' = Some e -> k' <> key ->
    table_key (ev_table_name (epoch_view e)) <> table /\ ep_done e <> done.
Proof. intros Hps k' e [_ He]%lookup_delete_Some Hne. by eapply Hps. Qed.

(** Sending an answer to someone else. *)
Lemma send_frame (st : state) channel r :
  match r with RepDone _ => channel <> done | _ => True end ->
  others_apart st -> others_apart (send st channel r) /\ same_load st (send st channel r).
Proof.
  intros Hr [Hp Hc Hm]. split; [by split|]. unfold same_load. split_and!; try done.
  rewrite answers_send. destruct r; rewrite ?app_nil_r; try done. rewrite decide_False by done. by rewrite app_nil_r.
Qed.

Lemma same_load_trans (st1 st2 st3 : state) : same_load st1 st2 -> same_load st2 st3 -> same_load st1 st3.
Proof. unfold same_load. intros (? & ? & ? & ? & ?) (? & ? & ? & ? & ?). split_and!; congruence. Qed.

Definition framed (st st' : state) : Prop := others_apart st' /\ same_load st st'.

Lemma framed_trans (st1 st2 st3 : state) : framed st1 st2 -> (others_apart st2 -> framed st2 st3) -> framed st1 st3.
Proof. intros [Ho Hs] Hn. destruct (Hn Ho) as [Ho' Hs']. split; [done|]. by eapply same_load_trans. Qed.

Lemma start_frame (st : state) d v s dn :
  apart (StartEpoch d v s dn) -> others_apart st -> framed st (on_start_epoch st d v s dn).
Proof.
  intros [Ha [Ht Hd]] Ho. simpl in Ha. bool_hyps. unfold on_start_epoch.
  destruct (shutdown st) eqn:Esh; [by apply send_frame|].
  destruct (in_progress st !! _) eqn:Ep; [by apply send_frame|].
  destruct (committed st !! _) eqn:Ec; [by apply send_frame|].
  destruct (create_table_from_arrow_schema _ _ _) as [c [[]|e]] eqn:Ecr;
    apply create_apart in Ecr as (Hm & Hk & _); try apply Ho.
  - split; [|unfold same_load; simpl; rewrite lookup_insert_ne by done; split_and!; try done; by apply Hk].
    split; simpl; [|apply Ho|done]. apply insert_apart; [apply Ho|done].
  - eapply framed_trans; [|apply send_frame; done]. split; [|unfold same_load; simpl; split_and!; try done; by apply Hk].
    split; simpl; [apply Ho..|done].
Qed.

Lemma ingest_frame (st : state) k b :
  apart (IngestBatch k b) -> others_apart st -> framed st (on_ingest_batch st k b).
Proof.
  intros [Ha _] Ho. simpl in Ha. bool_hyps. unfold on_ingest_batch.
  destruct (in_progress st !! k) as [ep|] eqn:Ep; [|split; [done|by split_and!]].
  destruct (oa_progress _ Ho _ _ Ep ltac:(done)) as [Ht Hd].
  destruct (first_error ep); [split; [done|by split_and!]|]. simpl.
  destruct (_ <=? _).
  - destruct (flush_pending_batches _ _ _) as [[[c m] ep'] r] eqn:Ef.
    apply flush_apart in Ef as (Hv & Hdn & Hm & Hk); [|apply Ho]. simpl in *.
    destruct r as [[]|e];
      (split; [split; simpl; [apply insert_apart; [apply Ho|by rewrite Hv, Hdn || done]|apply Ho|done]|];
       unfold same_load; simpl; rewrite lookup_insert_ne by done; split_and!; try done; by apply Hk).
  - split; [split; simpl; [apply insert_apart; [apply Ho|done]|apply Ho|apply Ho]|].
    unfold same_load. simpl. by rewrite lookup_insert_ne by done.
Qed.

Lemma finish_frame now (st : state) k :
  apart (FinishEpoch k) -> others_apart st -> framed st (on_finish_epoch to_uppercase now st k).
Proof.
  intros [Ha _] Ho. simpl in Ha. bool_hyps. unfold on_finish_epoch.
  destruct (in_progress st !! k) as [ep|] eqn:Ep; [|split; [done|by split_and!]].
  destruct (oa_progress _ Ho _ _ Ep ltac:(done)) as [Ht Hd].
  assert (Hset : forall c m, (forall t, db_table c (true, t) = None) ->
    db_table c (false, table) = db_table (conn st) (false, table) ->
    framed st (set_conn st c m (delete k (in_progress st)))).
  { intros c m Hm Hc. split; [split; simpl; [apply delete_apart, Ho|apply Ho|done]|].
    unfold same_load. simpl. rewrite lookup_delete_ne by done. by split_and!. }
  destruct (first_error ep) as [e|].
  { eapply framed_trans; [apply Hset; [apply Ho|done]|by apply send_frame]. }
  destruct (flush_pending_batches _ _ _) as [[[c m] ep'] r] eqn:Ef.
  apply flush_apart in Ef as (Hv & Hdn & Hm & Hk); [|apply Ho]. rewrite <- Hdn in Hd. rewrite <- Hv in Ht, Hk.
  specialize (Hset c m Hm (Hk table ltac:(done))).
  destruct r as [[]|e]; [|eapply framed_trans; [exact Hset|by apply send_frame]].
  simpl. destruct (total_rows_committed ep' =? 0); [eapply framed_trans; [exact Hset|by apply send_frame]|].
  destruct (query_table_schema _ _ _) as [s|e]; [|eapply framed_trans; [exact Hset|by apply send_frame]].
  eapply framed_trans; [|by apply send_frame]. destruct Hset as [Hoa Hsl].
  split; [split; simpl; [apply Hoa| |apply Hoa]|].
  - intros k' e [[<- <-]|[_ He]]%lookup_insert_Some Hne; [done|by eapply (oa_committed _ Ho)].
  - unfold same_load in *. simpl in *. by rewrite lookup_insert_ne.
Qed.

Lemma drop_frame (st : state) d e resp :
  apart (DropEpoch d e resp) -> others_apart st ->
  framed st (let '(st, r) := on_drop_epoch st d e in send st resp (RepDrop r)).
Proof.
  intros [Ha _] Ho. simpl in Ha. bool_hyps. unfold on_drop_epoch.
  destruct (in_progress st !! _); [by apply send_frame|].
  destruct (committed st !! _) as [[v m]|] eqn:Ec; [|by apply send_frame].
  pose proof (oa_committed _ Ho _ _ Ec ltac:(done)) as Ht. simpl in Ht.
  pose proof (drop_law (conn st) (ev_table_name v)) as Hd.
  destruct (db_execute _ _) as [c [u|er]];
    (eapply framed_trans; [|by apply send_frame]);
    (split; [split; simpl; [apply Ho|intros k' x [_ Hx]%lookup_delete_Some Hne; by eapply (oa_committed _ Ho)|]|
             unfold same_load; simpl; rewrite lookup_delete_ne by done; split_and!; try done]).
  - intros k. rewrite Hd, main_resolves by apply Ho. rewrite decide_False by done. apply Ho.
  - rewrite Hd, main_resolves by apply Ho. rewrite decide_False; [done|congruence].
  - intros k. rewrite Hd. apply Ho.
Qed.

(** The load does not see the commands that are apart from it. *)
Lemma handle_frame now (st : state) c :
  apart c -> others_apart st -> framed st (handle to_uppercase iter now st c).
Proof.
  intros Ha Ho. destruct c; simpl.
  - by apply start_frame.
  - by apply ingest_frame.
  - by apply finish_frame.
  - by eapply drop_frame.
  - by apply send_frame.
  - by apply send_frame.
  - by apply send_frame.
  - by apply send_frame.
  - by destruct Ha.
Qed.

Lemma update_metrics_frame (st : state) : others_apart st -> framed st (update_metrics st).
Proof. intros [? ? ?]. split; [by split|by split_and!]. Qed.

(** ** What a load does *)

(** The database takes what the load brings: only used to show that the load
    succeeds, never that its result is right.  [before] is the database before
    the load. *)
Context (before : Db).

Record accepts (bs : list RecordBatch) : Prop := {
  acc_fresh : db_table before (false, table) = None;
  acc_create : forall db, (forall k, db_table db (true, k) = None) -> db_table db (false, table) = None ->
    (create_table_from_arrow_schema db (ev_table_name view) schema_).2 = Ok tt;
  acc_append : forall db bs' e1 e2 e3, (forall k, db_table db (true, k) = None) -> db_table db (false, table) <> None ->
    (forall b, b ∈ bs' -> b ∈ bs) -> (append_and_flush db (ev_table_name view) bs' e1 e2 e3).2 = Ok tt;
  acc_schema : forall db, db_table db (false, table) <> None ->
    exists s, query_table_schema to_uppercase db (ev_table_name view) = Ok s;
}.

Context (bs : list RecordBatch).
Hypothesis rows_fit : Z.of_nat (length (rows_of bs)) < u64_modulus.

(** The epoch holds the batches [seen]: some are written, the rest is
    pending. *)
Record holds (st : state) (ep : EpochInProgress RecordBatch) (seen : list RecordBatch) : Prop := {
  ho_written : exists written, seen = written ++ pending_batches ep /\
    db_table (conn st) (false, table) = Some (rows_of written) /\
    total_rows_committed ep = Z.of_nat (length (rows_of written)) /\
    pending_rows ep = Z.of_nat (length (rows_of (pending_batches ep)));
}.

Definition fails_only_if_rejected (r : result (TableMetadata Schema) string) : Prop :=
  match r with Err _ => ~ accepts bs | Ok _ => True end.

(** The load in the engine, when [seen] of its batches were sent and [rest]
    are to come. *)
Inductive progress (st : state) : list RecordBatch -> list com -> Prop :=
| Waiting :
    in_progress st !! key = None -> committed st !! key = None -> answers st done = [] ->
    (accepts bs -> db_table (conn st) (false, table) = None) ->
    progress st [] (StartEpoch dataset_id view schema_ done :: map (IngestBatch key) bs ++ [FinishEpoch key])
| Loading ep seen rest :
    bs = seen ++ rest -> in_progress st !! key = Some ep -> committed st !! key = None -> answers st done = [] ->
    epoch_view ep = view -> ep_done ep = done ->
    (match first_error ep with None => holds st ep seen | Some _ => ~ accepts bs end) ->
    progress st seen (map (IngestBatch key) rest ++ [FinishEpoch key])
| Refused seen rest e :
    in_progress st !! key = None -> committed st !! key = None -> answers st done = [Err e] ->
    (rows_of bs <> [] -> ~ accepts bs) ->
    progress st seen (map (IngestBatch key) rest ++ [FinishEpoch key])
| Loaded m :
    in_progress st !! key = None -> committed st !! key = Some (view, m) -> answers st done = [Ok m] ->
    tm_total_rows m = Z.of_nat (length (rows_of bs)) -> tm_table_name m = ev_table_name view ->
    db_table (conn st) (false, table) = Some (rows_of bs) ->
    progress st bs []
| Failed e :
    in_progress st !! key = None -> committed st !! key = None -> answers st done = [Err e] ->
    (rows_of bs <> [] -> ~ accepts bs) ->
    progress st bs [].

(** Progress is about what the load sees. *)
Lemma progress_same (st st' : state) seen rest : same_load st st' -> progress st seen rest -> progress st' seen rest.
Proof.
  intros (Hp & Hc & Ht & Ha & _). destruct 1 as [| ep seen rest Hbs Hip Hcm Han Hv Hd Hh | | |].
  - apply Waiting; try congruence. intros Hacc. rewrite Ht. auto.
  - apply Loading with ep; [done|by rewrite Hp|by rewrite Hc|by rewrite Ha|done..|].
    destruct (first_error ep); [done|].
    destruct Hh as [(w & ? & ? & ? & ?)]. split. exists w. split_and!; try done. congruence.
  - eapply Refused; by rewrite ?Hp, ?Hc, ?Ha.
  - eapply Loaded; by rewrite ?Hp, ?Hc, ?Ha, ?Ht.
  - eapply Failed; by rewrite ?Hp, ?Hc, ?Ha.
Qed.

(** The engine and the load after a command about it. *)
Definition advances (st' : state) (rest : list com) : Prop :=
  others_apart st' /\ shutdown st' = false /\ exists seen, progress st' seen rest.

Lemma others_apart_send (st : state) channel r : others_apart st -> others_apart (send st channel r).
Proof. intros [? ? ?]. by split. Qed.

Lemma answers_done (st : state) r : answers st done = [] -> answers (send st done (RepDone r)) done = [r].
Proof. intros Ha. rewrite answers_send, Ha. by rewrite decide_True. Qed.

Lemma load_start (st : state) :
  others_apart st -> shutdown st = false ->
  in_progress st !! key = None -> committed st !! key = None -> answers st done = [] ->
  (accepts bs -> db_table (conn st) (false, table) = None) ->
  advances (on_start_epoch st dataset_id view schema_ done) (map (IngestBatch key) bs ++ [FinishEpoch key]).
Proof.
  intros Ho Hsh Hp Hc Ha Hacc. unfold on_start_epoch. cbv zeta. fold key. rewrite Hsh, Hp, Hc.
  destruct (create_table_from_arrow_schema _ _ _) as [c r] eqn:Ec. pose proof Ec as Ec'.
  apply create_apart in Ec' as (Hm & _ & Hnew); [|apply Ho]. destruct r as [[]|e].
  - destruct (Hnew eq_refl) as [_ Ht]. split_and!; [|done|].
    + split; simpl; [|apply Ho|done]. intros k' ep [[<- _]|[_ He]]%lookup_insert_Some Hne; [done|by eapply (oa_progress _ Ho)].
    + exists []. eapply Loading; [done|simpl; by rewrite lookup_insert_eq|done|done|done|done|].
      split. exists []. by split_and!.
  - split_and!; [|done|].
    + apply others_apart_send. split; simpl; [apply Ho..|done].
    + exists []. apply Refused with e; [done..|by apply answers_done|]. intros _ Hcc.
      pose proof (acc_create _ Hcc (conn st) (oa_main _ Ho) (Hacc Hcc)) as Hok. by rewrite Ec in Hok.
Qed.

Lemma rows_of_app (l1 l2 : list RecordBatch) : rows_of (l1 ++ l2) = rows_of l1 ++ rows_of l2.
Proof. unfold rows_of. by rewrite map_app, concat_app. Qed.

(** Row counts of a part of the load do not wrap. *)
Lemma rows_part (l1 l2 l3 : list RecordBatch) : bs = l1 ++ l2 ++ l3 ->
  wrap64 (Z.of_nat (length (rows_of l1)) + Z.of_nat (length (rows_of l2))) = Z.of_nat (length (rows_of (l1 ++ l2))).
Proof.
  intros ->. rewrite !rows_of_app, !length_app in *. rewrite Nat2Z.inj_add. apply wrap64_small. unfold in_u64. lia.
Qed.

(** A flush writes the pending batches. *)
Lemma load_flush (st : state) (ep : EpochInProgress RecordBatch) seen rest c m ep' r :
  others_apart st -> bs = seen ++ rest -> epoch_view ep = view -> holds st ep seen ->
  flush_pending_batches (conn st) (metrics st) ep = (c, m, ep', r) ->
  (forall k, db_table c (true, k) = None) /\ epoch_view ep' = view /\ ep_done ep' = ep_done ep /\
  first_error ep' = first_error ep /\
  match r with
  | Ok _ => pending_batches ep' = [] /\ pending_rows ep' = 0 /\ db_table c (false, table) = Some (rows_of seen) /\
            total_rows_committed ep' = Z.of_nat (length (rows_of seen))
  | Err _ => ~ accepts bs
  end.
Proof.
  intros Ho Hbs Hv [(w & Hseen & Ht & Hn & Hp)] Hf. unfold flush_pending_batches in Hf.
  destruct (pending_batches ep) as [|b0 p0] eqn:Epb.
  { injection Hf as <- <- <- <-. rewrite app_nil_r in Hseen. subst w. split_and!; try done; [apply Ho]. }
  rewrite Hv in Hf. destruct (append_and_flush _ _ _ _ _ _) as [c1 r1] eqn:Ea. pose proof Ea as Ea'.
  apply append_apart in Ea' as [Hm _]; [|apply Ho].
  pose proof Ea as Ea'. apply append_and_flush_law in Ea' as [_ Hrows].
  unfold visible in Hrows. rewrite main_resolves in Hrows by apply Ho.
  fold table in Hrows. rewrite Ht in Hrows. simpl in Hrows. destruct r1 as [[]|e]; injection Hf as <- <- <- <-.
  - split_and!; try done; simpl.
    + rewrite (Hrows eq_refl), Hseen, rows_of_app. done.
    + rewrite Hn, Hp, Hseen. apply (rows_part _ _ rest). by rewrite Hbs, Hseen, <- app_assoc.
  - split_and!; try done. intros Hacc.
    assert (Hok : (append_and_flush (conn st) (ev_table_name view) (b0 :: p0)
      ("Failed to create appender for " +:+ ev_table_name view) ("Failed to append batch to " +:+ ev_table_name view)
      "Failed to flush appender to DuckDB").2 = Ok tt).
    { apply (acc_append _ Hacc); [apply Ho|by rewrite Ht|]. intros b Hb. rewrite Hbs, Hseen.
      apply elem_of_app; left. apply elem_of_app. by right. }
    by rewrite Ea in Hok.
Qed.

Lemma others_apart_own (st : state) c m (ep : EpochInProgress RecordBatch) :
  others_apart st -> (forall k, db_table c (true, k) = None) ->
  others_apart (set_conn st c m (<[key := ep]> (in_progress st))).
Proof.
  intros Ho Hm. split; simpl; [|apply Ho|done].
  intros k e [[<- _]|[_ He]]%lookup_insert_Some Hne; [done|by eapply (oa_progress _ Ho)].
Qed.

Lemma load_ingest (st : state) ep seen b rest :
  others_apart st -> shutdown st = false -> bs = seen ++ b :: rest ->
  in_progress st !! key = Some ep -> committed st !! key = None -> answers st done = [] ->
  epoch_view ep = view -> ep_done ep = done ->
  (match first_error ep with None => holds st ep seen | Some _ => ~ accepts bs end) ->
  advances (on_ingest_batch st key b) (map (IngestBatch key) rest ++ [FinishEpoch key]).
Proof.
  intros Ho Hsh Hbs Hp Hc Ha Hv Hd Hh. assert (Hbs' : bs = (seen ++ [b]) ++ rest) by (by rewrite Hbs, <- app_assoc).
  unfold on_ingest_batch. rewrite Hp. destruct (first_error ep) as [e|] eqn:Efe.
  { split_and!; try done. exists (seen ++ [b]). apply Loading with ep; try done. by rewrite Efe. }
  cbv zeta. set (ep1 := mkEpochInProgress _ _ _ _ _ _ _).
  assert (Hh1 : holds st ep1 (seen ++ [b])).
  { destruct Hh as [(w & Hseen & Ht & Hn & Hpr)]. split. exists w. subst ep1. simpl. split_and!; try done.
    - by rewrite Hseen, <- app_assoc.
    - rewrite Hpr. unfold num_rows. rewrite rows_of_app, length_app, Nat2Z.inj_add.
      replace (rows_of [b]) with (rows b) by (unfold rows_of; simpl; by rewrite app_nil_r).
      apply wrap64_small. rewrite Hbs, Hseen, !rows_of_app in rows_fit. unfold rows_of at 3 in rows_fit. simpl in rows_fit.
      rewrite !length_app in rows_fit. unfold in_u64. lia. }
  destruct (flush_rows_threshold st <=? pending_rows ep1).
  - destruct (flush_pending_batches _ _ _) as [[[c m] ep'] r] eqn:Ef.
    destruct (load_flush st ep1 (seen ++ [b]) rest c m ep' r Ho Hbs' Hv Hh1 Ef) as (Hm & Hv' & Hd' & He' & Hr).
    destruct r as [[]|e]; (split_and!; [by apply others_apart_own|done|]); exists (seen ++ [b]);
      (eapply Loading; [done|simpl; by rewrite lookup_insert_eq|done|done|done|by rewrite ?Hd'|]).
    + rewrite He'. simpl. destruct Hr as (Hpb & Hpr & Ht & Hn). split. exists (seen ++ [b]).
      rewrite Hpb, app_nil_r. by split_and!.
    + exact Hr.
  - split_and!; [apply others_apart_own; [done|apply Ho]|done|]. exists (seen ++ [b]).
    eapply Loading; [done|simpl; by rewrite lookup_insert_eq|done|done|done|done|].
    simpl. destruct Hh1 as [(w & ? & ? & ? & ?)]. split. exists w. by split_and!.
Qed.

(** The engine without the epoch, which has been answered. *)
Lemma load_failed (st : state) c m e :
  others_apart st -> shutdown st = false -> committed st !! key = None -> answers st done = [] ->
  (forall k, db_table c (true, k) = None) -> (rows_of bs <> [] -> ~ accepts bs) ->
  advances (send (set_conn st c m (delete key (in_progress st))) done (RepDone (Err e))) [].
Proof.
  intros Ho Hsh Hc Ha Hm He. split_and!; [|done|].
  - apply others_apart_send. split; simpl; [apply delete_apart, Ho|apply Ho|done].
  - exists bs. apply Failed with e; try done; [simpl; by rewrite lookup_delete_eq|by apply answers_done].
Qed.

Lemma load_finish now (st : state) ep :
  others_apart st -> shutdown st = false ->
  in_progress st !! key = Some ep -> committed st !! key = None -> answers st done = [] ->
  epoch_view ep = view -> ep_done ep = done ->
  (match first_error ep with None => holds st ep bs | Some _ => ~ accepts bs end) ->
  advances (on_finish_epoch to_uppercase now st key) [].
Proof.
  intros Ho Hsh Hp Hc Ha Hv Hd Hh. unfold on_finish_epoch. rewrite Hp. cbv zeta.
  destruct (first_error ep) as [e|]; [rewrite Hd; apply load_failed; try done; apply Ho|].
  destruct (flush_pending_batches _ _ _) as [[[c m] ep'] r] eqn:Ef.
  destruct (load_flush st ep bs [] c m ep' r Ho ltac:(by rewrite app_nil_r) Hv Hh Ef) as (Hm & Hv' & Hd' & _ & Hr).
  rewrite Hd', Hd. destruct r as [[]|e]; [|by apply load_failed].
  destruct Hr as (_ & _ & Ht & Hn). destruct (Z.eqb_spec (total_rows_committed ep') 0) as [Hz|Hz].
  { apply load_failed; try done. intros Hne. destruct (rows_of bs); [done|]. simpl in Hn. lia. }
  rewrite Hv'. destruct (query_table_schema _ _ _) as [s|e] eqn:Es.
  2: { apply load_failed; try done. intros _ Hacc. destruct (acc_schema _ Hacc c) as [s Hs]; [by rewrite Ht|]. congruence. }
  split_and!; [|done|].
  - apply others_apart_send. split; simpl; [apply delete_apart, Ho| |done].
    intros k e [[<- _]|[_ He]]%lookup_insert_Some Hne; [done|by eapply (oa_committed _ Ho)].
  - exists bs. eapply Loaded; [simpl; by rewrite lookup_delete_eq|simpl; by rewrite lookup_insert_eq|by apply answers_done|done..].
Qed.

Lemma load_step now (st : state) seen c rest :
  others_apart st -> shutdown st = false -> progress st seen (c :: rest) ->
  advances (handle to_uppercase iter now st c) rest.
Proof.
  intros Ho Hsh Hp. remember (c :: rest) as l eqn:El.
  destruct Hp as [Hip Hc Ha Hacc|ep seen rest' Hbs Hip Hc Ha Hv Hd Hh|seen rest' e Hip Hc Ha Hn| |]; simplify_eq.
  - by apply load_start.
  - destruct rest' as [|b rest']; simpl in El; simplify_eq.
    + rewrite app_nil_r in Hbs. subst seen. by eapply load_finish.
    + by eapply load_ingest.
  - destruct rest' as [|b rest']; simpl in El; simplify_eq; simpl.
    + unfold on_finish_epoch. rewrite Hip. split_and!; try done. exists bs. by apply Failed with e.
    + unfold on_ingest_batch. rewrite Hip. split_and!; try done. exists seen. by apply Refused with e.
Qed.

(** A run in which every command is one of the load, in its order, or apart
    from it. *)
Lemma load_run (coms : list (Z * com)) : forall (st : state) seen rest,
  List.filter about (map snd coms) = rest ->
  Forall (fun c => about c = true \/ apart c) (map snd coms) ->
  others_apart st -> shutdown st = false -> progress st seen rest ->
  exists seen', progress (engine_main to_uppercase iter st coms) seen' [].
Proof.
  induction coms as [|[now c] coms IH]; intros st seen rest Hr Hc Ho Hsh Hp; simpl in *.
  { subst rest. by exists seen. }
  apply Forall_cons in Hc as [Hc Hcs].
  assert (Hstep : exists seen', let st' := update_metrics (handle to_uppercase iter now st c) in
    others_apart st' /\ shutdown st' = false /\ progress st' seen' (List.filter about (map snd coms)) /\
    match c with Shutdown _ => False | _ => True end).
  { destruct (about c) eqn:Ea.
    - subst rest. destruct (load_step now st seen c _ Ho Hsh Hp) as (Ho' & Hsh' & seen' & Hp').
      exists seen'. destruct (update_metrics_frame _ Ho') as [Ho2 Hs2]. split_and!; try done.
      + by eapply progress_same.
      + by destruct c.
    - destruct Hc as [?|Hap]; [done|]. destruct (handle_frame now st c Hap Ho) as [Ho' Hs'].
      destruct (update_metrics_frame _ Ho') as [Ho2 Hs2]. exists seen. split_and!; try done.
      + simpl. destruct Hs' as (_ & _ & _ & _ & ->). done.
      + eapply progress_same; [exact Hs2|]. eapply progress_same; [exact Hs'|]. by subst rest.
      + destruct Hap as [_ Hx]. by destruct c. }
  destruct Hstep as (seen' & Ho' & Hsh' & Hp' & Hns).
  destruct c; try done; exact (IH _ seen' _ eq_refl Hcs Ho' Hsh' Hp').
Qed.
End load.

Lemma take_batches_ok {RecordBatch} (bs : list RecordBatch) : take_batches (map Ok bs) = (bs, None).
Proof. induction bs as [|b bs IH]; simpl; [done|]. by rewrite IH. Qed.

(** A load whose commands are interleaved with others, from start to end. *)
Lemma epoch_load_run `{Std} `{Arrow RecordBatch Schema} `{!SchemaFields Schema}
    `{!DuckDb Db Appender RecordBatch} `{!DuckDbLaws Db Appender RecordBatch}
    (to_uppercase : string -> string) (iter : forall A, gmap string A -> list (string * A))
    (dataset_id : string) (view : EpochView) (b : RecordBatch) (bs : list RecordBatch) (done : Z)
    (st : EngineState Db Schema RecordBatch) (coms : list (Z * EngineCom Schema RecordBatch)) :
  let key := epoch_key dataset_id (ev_epoch_id view) in
  Z.of_nat (length (rows_of (b :: bs))) < u64_modulus ->
  List.filter (about dataset_id view) (map snd coms) =
    fst (create_epoch_table dataset_id view (map Ok (b :: bs)) done) ->
  Forall (fun c => about dataset_id view c = true \/ apart dataset_id view done c) (map snd coms) ->
  others_apart dataset_id view done st -> shutdown st = false ->
  in_progress st !! key = None -> committed st !! key = None -> answers st done = [] ->
  let st' := engine_main to_uppercase iter st coms in
  in_progress st' !! key = None /\
  exists r, answers st' done = [r] /\
    match r with
    | Ok m => committed st' !! key = Some (view, m) /\ tm_total_rows m = Z.of_nat (length (rows_of (b :: bs))) /\
              db_table (conn st') (false, table_key (ev_table_name view)) = Some (rows_of (b :: bs))
    | Err _ => committed st' !! key = None /\
               (rows_of (b :: bs) <> [] -> ~ accepts to_uppercase view (schema b) (conn st) (b :: bs))
    end.
Proof.
  intros key Hfit Hf Hc Ho Hsh Hp Hcm Ha. simpl in Hf. rewrite take_batches_ok in Hf. simpl in Hf.
  assert (Hstart : progress to_uppercase dataset_id view (schema b) done (conn st) (b :: bs) st []
    (StartEpoch dataset_id view (schema b) done :: map (IngestBatch key) (b :: bs) ++ [FinishEpoch key])).
  { apply Waiting; try done. intros Hacc. by apply acc_fresh in Hacc. }
  destruct (load_run to_uppercase iter dataset_id view (schema b) done (conn st) (b :: bs) Hfit coms st [] _
    Hf Hc Ho Hsh Hstart) as (seen & Hend).
  set (st' := engine_main _ _ _ _) in *. remember [] as rest eqn:Er. destruct Hend as [| | |m|e]; simplify_eq.
  - by destruct rest.
  - by destruct rest.
  - split; [done|]. exists (Ok m). by split_and!.
  - split; [done|]. exists (Err e). by split_and!.
Qed.


(** ** Invariants of the engine *)

Section invariant.
Context `{Std} `{Arrow RecordBatch Schema} `{!SchemaFields Schema} `{!DuckDb Db Appender RecordBatch}.
Context (to_uppercase : string -> string) (iter : forall A, gmap string A -> list (string * A)).
Abbreviation state := (EngineState Db Schema RecordBatch).

(** An epoch is loading or committed, not both; the counter of batches is the
    counter of flushes. *)
Record engine_ok (st : state) : Prop := {
  eo_disjoint : dom (in_progress st) ## dom (committed st);
  eo_counters : total_batches_written (metrics st) = total_flushes (metrics st);
}.

Lemma flush_counters c m (ep : EpochInProgress RecordBatch) c' m' ep' r :
  flush_pending_batches c m ep = (c', m', ep', r) ->
  total_batches_written m = total_flushes m -> total_batches_written m' = total_flushes m'.
Proof.
  unfold flush_pending_batches. intros Hf Hm. destruct (pending_batches ep); [by injection Hf as _ <- _ _|].
  destruct (append_and_flush _ _ _ _ _ _) as [c1 [u|e]]; injection Hf as _ <- _ _; [simpl; by rewrite Hm|done].
Qed.

Lemma handle_ok now (st : state) c : engine_ok st -> engine_ok (handle to_uppercase iter now st c).
Proof.
  intros [Hd Hm]. destruct c; simpl.
  - unfold on_start_epoch. destruct (shutdown st); [by split|].
    destruct (in_progress st !! _) eqn:Ep; [by split|]. destruct (committed st !! _) eqn:Ec; [by split|].
    destruct (create_table_from_arrow_schema _ _ _) as [c [u|e]]; [|by split]. split; simpl; [|done].
    apply not_elem_of_dom in Ec. set_solver.
  - unfold on_ingest_batch. destruct (in_progress st !! key) as [ep|] eqn:Ep; [|by split].
    destruct (first_error ep); [by split|]. cbv zeta. apply elem_of_dom_2 in Ep.
    destruct (_ <=? _); [|split; simpl; [set_solver|done]].
    destruct (flush_pending_batches _ _ _) as [[[c m] ep'] r] eqn:Ef. pose proof (flush_counters _ _ _ _ _ _ _ Ef Hm).
    destruct r; split; simpl; try done; set_solver.
  - unfold on_finish_epoch. destruct (in_progress st !! key) as [ep|] eqn:Ep; [|by split]. cbv zeta.
    destruct (first_error ep); [split; simpl; [set_solver|done]|].
    destruct (flush_pending_batches _ _ _) as [[[c m] ep'] r] eqn:Ef. pose proof (flush_counters _ _ _ _ _ _ _ Ef Hm).
    destruct r; [|split; simpl; [set_solver|done]].
    destruct (_ =? _); [split; simpl; [set_solver|done]|].
    destruct (query_table_schema _ _ _); split; simpl; try done; set_solver.
  - unfold on_drop_epoch. destruct (in_progress st !! _); [by split|].
    destruct (committed st !! _) as [[v m]|]; [|by split].
    destruct (db_execute _ _) as [c r]. split; simpl; [set_solver|done].
  - by split.
  - by split.
  - by split.
  - by split.
  - unfold on_shutdown. simpl.
    assert (Hf : forall (l : list (string * EpochInProgress RecordBatch)) (s : state), engine_ok s ->
      engine_ok (foldl (fun s e => send s (ep_done (snd e)) (RepDone (Err (StorageError_display ShuttingDown)))) s l)).
    { induction l as [|e l IH]; intros s Hs; simpl; [done|]. apply IH. by destruct Hs; split. }
    match goal with |- engine_ok (send ?s _ _) => assert (Hs : engine_ok s) by (apply Hf; split; simpl; [set_solver|done]) end.
    by destruct Hs; split.
Qed.

(** in every state the engine reaches, an epoch is either being loaded or
    committed, never both, and the engine reports as many written batches as
    flushes: a flush of several batches counts as one. *)
Theorem engine_invariant (c : Db) (threshold : Z) (coms : list (Z * EngineCom Schema RecordBatch)) :
  engine_ok (engine_main to_uppercase iter (EngineState_new c threshold) coms).
Proof.
  set (st0 := EngineState_new c threshold).
  assert (Hs : engine_ok st0) by (split; simpl; [set_solver|done]).
  clearbody st0. revert st0 Hs. induction coms as [|[now com] coms IH]; intros st Hs; simpl; [done|].
  assert (Hh : engine_ok (handle to_uppercase iter now st com)) by (by apply handle_ok).
  destruct com; try done; apply IH; by destruct Hh; split.
Qed.
End invariant.

(** ** Concrete runs *)

#[local] Existing Instance Table.arrow.
#[local] Existing Instance MemDb.duckdb.
#[local] Existing Instance MemDb.duckdb_laws.
#[local] Existing Instance MemDb.fields_of.
#[local] Existing Instance demo_std.

Abbreviation DemoState := (EngineState MemDb.db (list (string * DataType)) Table.t).
Abbreviation DemoCom := (EngineCom (list (string * DataType)) Table.t).

Definition demo_iter (A : Type) (m : gmap string A) : list (string * A) := map_to_list m.
Definition demo_view (epoch table : string) : EpochView := mkEpochView epoch table (0, u64_max) "dt" "" ∅.
Definition demo_engine : DemoState := EngineState_new ∅ 2.
Definition run_demo (st : DemoState) (coms : list DemoCom) : DemoState :=
  engine_main ascii_uppercase demo_iter st (map (fun c => (0, c)) coms).
Definition load (dataset epoch table : string) (stream : list (result Table.t string)) (done : Z) : list DemoCom :=
  fst (create_epoch_table dataset (demo_view epoch table) stream done).

(** Two loads that take turns. *)
Definition interleaved : list DemoCom :=
  [ StartEpoch "sales" (demo_view "e1" "sales_e1") [("id", Int64)] 1;
    StartEpoch "sales" (demo_view "e2" "sales_e2") [("id", Int64)] 2;
    IngestBatch "sales__e2" (id_batch [9]); IngestBatch "sales__e1" (id_batch [1; 2]);
    IngestBatch "sales__e2" (id_batch [8]); IngestBatch "sales__e1" (id_batch [3]);
    ListEpoch "sales" 3; FinishEpoch "sales__e2"; FinishEpoch "sales__e1" ].

Lemma demo_accepts :
  accepts ascii_uppercase (demo_view "e1" "sales_e1") [("id", Int64)] (conn demo_engine) [id_batch [1; 2]; id_batch [3]].
Proof.
  split.
  - done.
  - intros db Hm Ht. unfold create_table_from_arrow_schema. simpl. unfold MemDb.execute.
    change (db_table db) with (fun k => db !! k) in Ht. simpl in Ht. by rewrite Ht.
  - intros db bs' e1 e2 e3 Hm Ht _. unfold append_and_flush. simpl.
    change (db_table db) with (fun k => db !! k) in *. simpl in *. unfold resolve_table. rewrite Hm. simpl.
    destruct (db !! (false, _)) eqn:E; [|done]. 
    assert (Ha : forall bs a, append_each a bs = ((a.1, a.2 ++ rows_of bs), Ok tt)).
    { induction bs as [|b bs IH]; intros [k r]; simpl; [by rewrite app_nil_r|]. rewrite IH. simpl.
      unfold rows_of. simpl. by rewrite app_assoc. }
    rewrite Ha. simpl. by rewrite E.
  - intros db _. by eexists.
Qed.


(** A load of an epoch that is being loaded is refused, but its batches and
    its finish command carry the same key: they are added to the first load,
    which ends early with the rows of both; its own last batch is dropped. *)
Theorem duplicate_load_mixes_rows :
  let st := run_demo demo_engine
    (StartEpoch "sales" (demo_view "e1" "sales_e1") [("id", Int64)] 1 :: IngestBatch "sales__e1" (id_batch [1]) ::
     load "sales" "e1" "sales_e1" [Ok (id_batch [7; 8])] 2 ++
     [IngestBatch "sales__e1" (id_batch [2]); FinishEpoch "sales__e1"]) in
  conn st !! (false, "sales_e1") = Some [[Some (VInt 1)]; [Some (VInt 7)]; [Some (VInt 8)]] /\
  (exists m, answers st 1 = [Ok m] /\ tm_total_rows m = 3) /\
  answers st 2 = [Err "Invalid argument: Epoch table e1 for dataset sales already exists."].
Proof.
  split_and!; [vm_compute; reflexivity| |vm_compute; reflexivity].
  eexists. split; [vm_compute; reflexivity|]. vm_compute. reflexivity.
Qed.

(** A load that failed leaves its table behind, so every later load of the
    epoch fails, and the table cannot be dropped either. *)
Theorem failed_load_blocks_epoch :
  let st := run_demo demo_engine
    (load "sales" "e1" "sales_e1" [Ok (id_batch [])] 1 ++ load "sales" "e1" "sales_e1" [Ok (id_batch [1])] 2) in
  answers st 1 = [Err "Invalid argument: Arrow stream for epoch is empty"] /\
  answers st 2 = [Err "Failed to create table sales_e1 with schema"] /\
  (on_drop_epoch st "sales" "e1").2 = Err "Invalid argument: Epoch e1 for dataset sales not found".
Proof. split_and!; vm_compute; reflexivity. Qed.

(** A load whose stream fails sends no finish command: the epoch stays in
    progress and cannot be dropped.  A second load is refused, but its batches
    and its finish command go to the first one: the epoch is committed with the
    rows of both, and nobody is told. *)
Theorem aborted_stream_completed_by_retry :
  let aborted := run_demo demo_engine (load "sales" "e1" "sales_e1" [Ok (id_batch [1]); Err "connection reset"] 1) in
  let retried := run_demo aborted (load "sales" "e1" "sales_e1" [Ok (id_batch [1]); Ok (id_batch [2])] 2) in
  (on_drop_epoch aborted "sales" "e1").2 = Err "Cannot drop epoch e1 for dataset sales while ingestion is in progress" /\
  answers retried 2 = [Err "Invalid argument: Epoch table e1 for dataset sales already exists."] /\
  is_Some (committed retried !! "sales__e1") /\
  conn retried !! (false, "sales_e1") = Some [[Some (VInt 1)]; [Some (VInt 1)]; [Some (VInt 2)]].
Proof.
  split_and!; try (vm_compute; reflexivity). eexists. vm_compute. reflexivity.
Qed.

(** Epochs are listed by the prefix of their key: the scan macro of [a] also
    reads the tables of the dataset [a__b], and the statistics of [a__b] are
    filed under [a]. *)
Theorem epochs_listed_by_prefix :
  let st := run_demo demo_engine (load "a__b" "e" "a_b_e" [Ok (id_batch [1])] 1) in
  on_list_epochs demo_iter st "a" = Ok [demo_view "e" "a_b_e"] /\
  find_epoch_stats (on_memory_stats demo_iter st) "a__b" "e" = None.
Proof. split; vm_compute; reflexivity. Qed.
