(* ===== verification/HashPartition.v ===== *)
(** * Hash partitioning (ldp/executor/exchange.rs, ldp/executor/skew.rs)

    A hash exchange splits every batch into one batch per partition.  The
    traditional split hashes the key cells of a row with the default hasher;
    before it, [SkewHandler] looks at the distribution of the keys and takes
    another split when it finds skew.

    Column access out of range, a failed [downcast_ref(..).unwrap()] and a
    remainder by zero are panics.  The iteration order of a [HashMap] or a
    [HashSet] is its own: [HashOrder] gives it for the maps of a call, and the
    path of the call tells the calls apart. *)

From stdpp Require Import pretty.
From Stdlib Require Import SpecFloat.
From S2P Require Import Prelude Float64 LogicalPlan LdpTypes Arrow.

#[local] Open Scope Z_scope.

Inductive ExchangeError :=
| StageNotFound (id : StageId)
| ExchangeNotFound (id : ExchangeId)
| UpstreamNotReady (id : StageId)
| FetchFailed (msg : string)
| PartitionFailed (msg : string)
| NoBatches
| ConcatFailed (msg : string)
| ColumnNotFound (msg : string).

(** A computation that fails with an [ExchangeError] or panics. *)
Abbreviation exch A := (outcome (result A ExchangeError)).

(** A loop that pushes one result per element; the first failure ends it. *)
Fixpoint exch_map {A B} (f : A -> exch B) (l : list A) : exch (list B) :=
  match l with
  | [] => Ret (Ok [])
  | a :: l => let^ b := f a in let^ bs := exch_map f l in Ret (Ok (b :: bs))
  end.

(** ** Columns *)

Section columns.
Context `{Std}.

(** [Fields::find]. *)
Definition find_field (name : string) (fs : list (string * DataType)) : option Z :=
  match list_find (fun f => f.1 = name) fs with
  | Some (i, _) => Some (wrap32 (Z.of_nat i))
  | None => None
  end.

Definition qualified_name (c : ColumnRef) : string :=
  match cr_table c with
  | Some t => t +:+ "." +:+ cr_column c
  | None => cr_column c
  end.

Definition find_column_index (c : ColumnRef) (fs : list (string * DataType)) : result Z ExchangeError :=
  let qualified := match cr_table c with
                   | Some _ => find_field (qualified_name c) fs
                   | None => None
                   end in
  match qualified with
  | Some i => Ok i
  | None =>
      match find_field (cr_column c) fs with
      | Some i => Ok i
      | None =>
          match list_find (fun f => to_lowercase f.1 = to_lowercase (cr_column c)) fs with
          | Some (i, _) => Ok (wrap32 (Z.of_nat i))
          | None =>
              Err (ColumnNotFound ("Column '" +:+ qualified_name c
                     +:+ "' not found in schema. Available columns: ["
                     +:+ String.concat ", " (map fst fs) +:+ "]"))
          end
      end
  end.

Definition resolve_column_indices (refs : list ColumnRef) (fs : list (string * DataType))
    : result (list Z) ExchangeError :=
  collect_results (fun c => find_column_index c fs) refs.

(** ** Hashing *)

(** Exponent all ones and a fraction: the bits of a NaN. *)
Definition f32_is_nan (bits : Z) : bool :=
  (Z.land bits 0x7f800000 =? 0x7f800000) && negb (Z.land bits 0x7fffff =? 0).
Definition f64_is_nan (bits : Z) : bool :=
  (Z.land bits 0x7ff0000000000000 =? 0x7ff0000000000000) && negb (Z.land bits 0xfffffffffffff =? 0).

(** The [hash_primitive!] cases: the bytes a value writes. *)
Definition hash_int (w : nat) (v : Value) (h : list Z) : exch (list Z) :=
  match v with VInt z => Ret (Ok (h ++ le_bytes w z)) | _ => Panic end.

Definition hash_float (is_nan : Z -> bool) (w : nat) (v : Value) (h : list Z) : exch (list Z) :=
  match v with
  | VFloat bits => Ret (Ok (h ++ (if is_nan bits then hash_str "NaN" else le_bytes w bits)))
  | _ => Panic
  end.

Definition hash_text (v : Value) (h : list Z) : exch (list Z) :=
  match v with VStr s => Ret (Ok (h ++ hash_str s)) | _ => Panic end.

Definition hash_binary (v : Value) (h : list Z) : exch (list Z) :=
  match v with VBytes bs => Ret (Ok (h ++ hash_bytes bs)) | _ => Panic end.

Definition hash_column_value (dt : DataType) (cell : option Value) (h : list Z) : exch (list Z) :=
  match cell with
  | None => Ret (Ok (h ++ hash_str "NULL_VALUE"))
  | Some v =>
      match dt with
      | Int8 | UInt8 => hash_int 1 v h
      | Int16 | UInt16 => hash_int 2 v h
      | Int32 | UInt32 => hash_int 4 v h
      | Int64 | UInt64 => hash_int 8 v h
      | Float32 => hash_float f32_is_nan 4 v h
      | Float64 => hash_float f64_is_nan 8 v h
      | Utf8 | LargeUtf8 => hash_text v h
      | Date32 => hash_int 4 v h
      | Date64 => hash_int 8 v h
      | Timestamp _ _ => hash_int 8 v h
      | Decimal128 _ _ => hash_int 16 v h
      | Decimal256 _ _ =>
          match v with VInt z => Ret (Ok (h ++ hash_bytes (le_bytes 32 z))) | _ => Panic end
      | Boolean => match v with VBool b => Ret (Ok (h ++ [Z.b2z b])) | _ => Panic end
      | Binary | LargeBinary | FixedSizeBinary _ => hash_binary v h
      | Dictionary _ _ =>
          Ret (Err (PartitionFailed ("Dictionary type not fully supported for hash partitioning: "
                      +:+ DataType_debug dt)))
      | Time32 _ | Time64 _ | ListOf _ | StructOf _ | OtherType _ =>
          Ret (Err (PartitionFailed ("Unsupported data type for hash partitioning: "
                      +:+ DataType_debug dt)))
      end
  end.

(** [batch.column(i)] and its cell in a row. *)
Definition column_cell (fs : list (string * DataType)) (r : Row) (i : Z) : option (DataType * option Value) :=
  match fs !! Z.to_nat i, r !! Z.to_nat i with
  | Some f, Some c => Some (f.2, c)
  | _, _ => None
  end.

Fixpoint hash_row (fs : list (string * DataType)) (field_refs : list Z) (r : Row) (h : list Z) : exch (list Z) :=
  match field_refs with
  | [] => Ret (Ok h)
  | i :: field_refs =>
      match column_cell fs r i with
      | Some (dt, c) => let^ h := hash_column_value dt c h in hash_row fs field_refs r h
      | None => Panic
      end
  end.

Definition rem_partitions (x n : Z) : exch Z :=
  if n =? 0 then Panic else Ret (Ok (wrap32 (x mod n))).

Definition row_partition (fs : list (string * DataType)) (field_refs : list Z) (n : Z) (r : Row) : exch Z :=
  let^ h := hash_row fs field_refs r [] in rem_partitions (finish h) n.
End columns.

(** ** The traditional split *)

Section partition.
Context `{Std} `{Arrow RecordBatch Schema}.

Definition filter_batch (b : RecordBatch) (mask : list bool) : exch RecordBatch :=
  match filter_record_batch b mask with
  | Ok b => Ret (Ok b)
  | Err e => Ret (Err (PartitionFailed e))
  end.

Definition hash_partition_batch_traditional (b : RecordBatch) (field_refs : list Z) (n : Z)
    : exch (list RecordBatch) :=
  if (num_rows b =? 0)%nat then Ret (Ok (replicate (Z.to_nat n) b))
  else match field_refs with
  | [] =>
      match replicate (Z.to_nat n) (new_empty (schema b)) with
      | [] => Panic
      | _ :: rest => Ret (Ok (b :: rest))
      end
  | _ :: _ =>
      let^ partition_ids := exch_map (row_partition (fields (schema b)) field_refs n) (rows b) in
      exch_map (fun p => filter_batch b (map (fun id => id =? p) partition_ids)) (seqZ 0 n)
  end.
End partition.

(** ** Skew *)

(** The iteration order of the maps and sets of a call. *)
Class HashOrder := {
  map_order : list nat -> forall {A}, list A -> list A;
  set_order : list nat -> forall {A}, list A -> list A;
  map_order_perm : forall call A (l : list A), map_order call l ≡ₚ l;
  set_order_perm : forall call A (l : list A), set_order call l ≡ₚ l;
}.

Record SkewHandlingConfig := mkSkewConfig {
  skew_threshold : f64;
  top_key_percentage : f64;
  max_top_keys : Z;
  min_rows_for_skew_detection : Z;
  enable_round_robin_distribution : bool;
  small_partition_threshold : Z;
}.

Definition f64_1_5 : f64 := S754_finite false 6755399441055744 (-52).
Definition f64_0_05 : f64 := S754_finite false 7205759403792794 (-57).

Definition SkewHandlingConfig_default : SkewHandlingConfig :=
  {| skew_threshold := f64_1_5; top_key_percentage := f64_0_05; max_top_keys := 20;
     min_rows_for_skew_detection := 1000; enable_round_robin_distribution := true;
     small_partition_threshold := 10000 |}.

Definition with_skew_threshold (c : SkewHandlingConfig) (threshold : f64) : SkewHandlingConfig :=
  {| skew_threshold := threshold; top_key_percentage := top_key_percentage c;
     max_top_keys := max_top_keys c; min_rows_for_skew_detection := min_rows_for_skew_detection c;
     enable_round_robin_distribution := enable_round_robin_distribution c;
     small_partition_threshold := small_partition_threshold c |}.

(** [f64::clamp]: NaN stays. *)
Definition f64_clamp (x lo hi : f64) : f64 :=
  let x := if SFltb x lo then lo else x in if SFltb hi x then hi else x.

Definition with_top_key_percentage (c : SkewHandlingConfig) (percentage : f64) : SkewHandlingConfig :=
  {| skew_threshold := skew_threshold c;
     top_key_percentage := f64_clamp percentage (S754_zero false) f64_1_0;
     max_top_keys := max_top_keys c; min_rows_for_skew_detection := min_rows_for_skew_detection c;
     enable_round_robin_distribution := enable_round_robin_distribution c;
     small_partition_threshold := small_partition_threshold c |}.

Record SkewDetectionResult := mkSkew {
  is_skewed : bool;
  skew_coefficient : f64;
  top_keys : list (string * Z);
  distinct_keys : Z;
  total_rows : Z;
  avg_rows_per_key : f64;
}.

Definition calculate_skew_coefficient (counts : list Z) (mean : f64) : f64 :=
  if (length counts =? 0)%nat || SFeqb mean (S754_zero false) then S754_zero false
  else
    let square count := let diff := f64_sub (f64_of_u64 count) mean in f64_mul diff diff in
    let variance := f64_div (foldl (fun acc c => f64_add acc (square c)) (S754_zero false) counts)
                      (f64_of_u64 (Z.of_nat (length counts))) in
    f64_div (f64_sqrt variance) mean.

Section skew.
Context `{Std}.

(** [format!("{:?}", bytes)]. *)
Definition bytes_debug (bs : list Z) : string := "[" +:+ String.concat ", " (map pretty bs) +:+ "]".

(** A cell as text.  [None]: the array is not of the type it says. *)
Definition value_to_string (dt : DataType) (v : Value) : option string :=
  match dt, v with
  | (Int8 | Int16 | Int32 | Int64 | UInt8 | UInt16 | UInt32 | UInt64), VInt z => Some (pretty z)
  | (Date32 | Date64 | Timestamp _ _ | Decimal128 _ _ | Decimal256 _ _), VInt z => Some (pretty z)
  | Float32, VFloat bits => Some (f32_to_string bits)
  | Float64, VFloat bits => Some (f64_to_string bits)
  | (Utf8 | LargeUtf8), VStr s => Some s
  | Boolean, VBool b => Some (if b then "true" else "false")
  | (Binary | LargeBinary | FixedSizeBinary _), VBytes bs => Some (bytes_debug bs)
  | (Dictionary _ _ | Time32 _ | Time64 _ | ListOf _ | StructOf _ | OtherType _), _ => Some "other"
  | _, _ => None
  end.

Definition array_name (dt : DataType) : string :=
  match dt with
  | Int8 => "Int8Array" | Int16 => "Int16Array" | Int32 => "Int32Array" | Int64 => "Int64Array"
  | UInt8 => "UInt8Array" | UInt16 => "UInt16Array" | UInt32 => "UInt32Array" | UInt64 => "UInt64Array"
  | Float32 => "Float32Array" | Float64 => "Float64Array"
  | Utf8 => "StringArray" | LargeUtf8 => "LargeStringArray"
  | Date32 => "Date32Array" | Date64 => "Date64Array"
  | Timestamp _ _ => "Timestamp array"
  | Decimal128 _ _ => "Decimal128Array" | Decimal256 _ _ => "Decimal256Array"
  | Boolean => "BooleanArray" | Binary => "BinaryArray" | LargeBinary => "LargeBinaryArray"
  | FixedSizeBinary _ => "FixedSizeBinaryArray"
  | Dictionary _ _ | Time32 _ | Time64 _ | ListOf _ | StructOf _ | OtherType _ => EmptyString
  end.

Definition get_row_value_as_string (dt : DataType) (c : option Value) : result string ExchangeError :=
  match c with
  | None => Ok "NULL"
  | Some v =>
      match value_to_string dt v with
      | Some s => Ok s
      | None => Err (PartitionFailed ("Failed to cast to " +:+ array_name dt))
      end
  end.

Definition counted_value (dt : DataType) (c : option Value) : string :=
  match c with
  | None => "NULL"
  | Some v => default "unsupported" (value_to_string dt v)
  end.

Definition counted_key (fs : list (string * DataType)) (field_refs : list Z) (r : Row) : exch string :=
  let^ key_parts := exch_map (fun i => match column_cell fs r i with
                                       | Some (dt, c) => Ret (Ok (counted_value dt c))
                                       | None => Panic
                                       end) field_refs in
  Ret (Ok (String.concat "|" key_parts)).

Definition composite_key (fs : list (string * DataType)) (field_refs : list Z) (r : Row) : exch string :=
  let^ key_parts := exch_map (fun i => match column_cell fs r i with
                                       | Some (dt, c) => Ret (get_row_value_as_string dt c)
                                       | None => Panic
                                       end) field_refs in
  Ret (Ok (String.concat "|" key_parts)).

Definition count_key (counts : gmap string Z) (key : string) : gmap string Z :=
  <[key := default 0 (counts !! key) + 1]> counts.

Definition compute_hash_partition (key : string) (n : Z) : exch Z := rem_partitions (finish (hash_str key)) n.
End skew.

Section handler.
Context `{Std} `{Arrow RecordBatch Schema} `{HashOrder} (config : SkewHandlingConfig).

Definition analyze_key_distribution (b : RecordBatch) (field_refs : list Z) : exch (gmap string Z) :=
  let^ keys := exch_map (counted_key (fields (schema b)) field_refs) (rows b) in
  Ret (Ok (foldl count_key ∅ keys)).

Definition detect_skew (call : list nat) (b : RecordBatch) (field_refs : list Z) : exch SkewDetectionResult :=
  let n := Z.of_nat (num_rows b) in
  if n <? min_rows_for_skew_detection config then
    Ret (Ok (mkSkew false (S754_zero false) [] n n f64_1_0))
  else
    let^ key_counts := analyze_key_distribution b field_refs in
    let distinct := Z.of_nat (size key_counts) in
    if distinct =? 0 then Ret (Ok (mkSkew false (S754_zero false) [] 0 n (S754_zero false)))
    else
      let entries := map_order call (map_to_list key_counts) in
      let avg := f64_div (f64_of_u64 n) (f64_of_u64 distinct) in
      let coefficient := calculate_skew_coefficient (map snd entries) avg in
      let sorted_keys := sort_by_key (fun e : string * Z => - e.2) entries in
      let top_key_count := Z.min (max_top_keys config) (f64_scale distinct (top_key_percentage config)) in
      Ret (Ok (mkSkew (SFltb (skew_threshold config) coefficient) coefficient
                 (take (Z.to_nat top_key_count) sorted_keys) distinct n avg)).

Definition create_single_row_mask (total_rows row_idx : nat) : list bool :=
  map (fun i => bool_decide (i = row_idx)) (seq 0 total_rows).

(** Returns the second batch when both have rows. *)
Definition concatenate_batches_with_schema (batch1 batch2 : RecordBatch) : result RecordBatch ExchangeError :=
  if decide (schema batch1 = schema batch2) then
    if (num_rows batch1 =? 0)%nat then Ok batch2
    else if (num_rows batch2 =? 0)%nat then Ok batch1
    else Ok batch2
  else Err (ConcatFailed "Schemas do not match").

Definition position (key : string) (keys : list string) : option nat :=
  fst <$> list_find (fun k => k = key) keys.

Definition skewed_partition_id (top_key_set : list string) (key : string) (n : Z) : exch Z :=
  if bool_decide (key ∈ top_key_set) then
    if enable_round_robin_distribution config then
      rem_partitions (Z.of_nat (default 0%nat (position key top_key_set))) n
    else compute_hash_partition key n
  else compute_hash_partition key n.

(** One turn of the loop over the rows. *)
Definition place_row (b : RecordBatch) (field_refs : list Z) (n : Z) (top_key_set : list string)
    (partitions : list RecordBatch) (row_idx : nat) (r : Row) : exch (list RecordBatch) :=
  let^ key := composite_key (fields (schema b)) field_refs r in
  let^ p := skewed_partition_id top_key_set key n in
  let^ single := filter_batch b (create_single_row_mask (num_rows b) row_idx) in
  match partitions !! Z.to_nat p with
  | None => Panic
  | Some old =>
      if (num_rows old =? 0)%nat then Ret (Ok (<[Z.to_nat p := single]> partitions))
      else let^ new := Ret (concatenate_batches_with_schema old single) in
           Ret (Ok (<[Z.to_nat p := new]> partitions))
  end.

Fixpoint place_rows (b : RecordBatch) (field_refs : list Z) (n : Z) (top_key_set : list string)
    (partitions : list RecordBatch) (row_idx : nat) (rs : list Row) : exch (list RecordBatch) :=
  match rs with
  | [] => Ret (Ok partitions)
  | r :: rs =>
      let^ partitions := place_row b field_refs n top_key_set partitions row_idx r in
      place_rows b field_refs n top_key_set partitions (S row_idx) rs
  end.

Definition handle_skewed_partitioning (call : list nat) (b : RecordBatch) (field_refs : list Z) (n : Z)
    (skew_result : SkewDetectionResult) : exch (list RecordBatch) :=
  place_rows b field_refs n (set_order call (map fst (top_keys skew_result)))
    (replicate (Z.to_nat n) (new_empty (schema b))) 0 (rows b).

(** [hash_partition_batch_with_skew_handling(.., false)] is the traditional
    split. *)
Definition skew_aware_hash_partition (call : list nat) (b : RecordBatch) (field_refs : list Z) (n : Z)
    : exch (list RecordBatch) :=
  let^ skew_result := detect_skew call b field_refs in
  if negb (is_skewed skew_result) then hash_partition_batch_traditional b field_refs n
  else handle_skewed_partitioning call b field_refs n skew_result.
End handler.

Section batch.
Context `{Std} `{Arrow RecordBatch Schema} `{HashOrder}.

Definition hash_partition_batch_with_skew_handling (call : list nat) (b : RecordBatch) (field_refs : list Z)
    (n : Z) (enable_skew_handling : bool) : exch (list RecordBatch) :=
  if enable_skew_handling
  then skew_aware_hash_partition SkewHandlingConfig_default call b field_refs n
  else hash_partition_batch_traditional b field_refs n.

Definition hash_partition_batch (call : list nat) (b : RecordBatch) (field_refs : list Z) (n : Z)
    : exch (list RecordBatch) :=
  hash_partition_batch_with_skew_handling call b field_refs n true.
End batch.

(** ** Rows and partitions *)

Lemma exch_map_ok {A B} (f : A -> exch B) (l : list A) (bs : list B) :
  exch_map f l = Ret (Ok bs) <-> Forall2 (fun a b => f a = Ret (Ok b)) l bs.
Proof.
  split.
  - revert bs. induction l as [|a l IH]; intros bs; simpl; [by intros [= <-]|].
    destruct (f a) as [[b|]| |] eqn:Hf; try done. simpl.
    destruct (exch_map f l) as [[bs'|]| |]; try done. simpl. intros [= <-]. constructor; auto.
  - induction 1 as [|a b l bs Hf _ IH]; simpl; [done|]. by rewrite Hf, IH.
Qed.

Lemma exch_map_total {A B} (f : A -> exch B) (Q : A -> B -> Prop) (l : list A) :
  Forall (fun a => exists b, f a = Ret (Ok b) /\ Q a b) l ->
  exists bs, exch_map f l = Ret (Ok bs) /\ Forall2 Q l bs.
Proof.
  induction 1 as [|a l (b & Hb & HQ) _ (bs & Hbs & H2)]; [by exists []|].
  exists (b :: bs). simpl. rewrite Hb. simpl. rewrite Hbs. auto.
Qed.

(** Rows told apart by a key are the rows of every key, put together. *)
Lemma split_by_key_perm {A K} `{EqDecision K} (f : A -> option K) (ks : list K) (l : list A) :
  NoDup ks -> Forall (fun a => exists k, k ∈ ks /\ f a = Some k) l ->
  concat (map (fun k => List.filter (fun a => bool_decide (f a = Some k)) l) ks) ≡ₚ l.
Proof.
  intros Hnd. induction 1 as [|a l (k & Hk & Ha) _ IH]; simpl.
  { clear. induction ks; simpl; auto. }
  etrans; [|apply perm_skip, IH]. clear IH.
  assert (Hmiss : forall ks', k ∉ ks' ->
    map (fun k => if bool_decide (f a = Some k) then a :: List.filter (fun a => bool_decide (f a = Some k)) l
                  else List.filter (fun a => bool_decide (f a = Some k)) l) ks' =
    map (fun k => List.filter (fun a => bool_decide (f a = Some k)) l) ks').
  { intros ks' Hni. apply map_ext_in. intros k' Hk'%list_elem_of_In.
    rewrite bool_decide_eq_false_2; [done|]. congruence. }
  apply list_elem_of_split in Hk as (ks1 & ks2 & ->).
  apply NoDup_app in Hnd as (_ & Hd & [Hn2 _]%NoDup_cons).
  assert (Hn1 : k ∉ ks1) by (intros Hi; apply (Hd k Hi); left).
  rewrite !map_app, !concat_app. simpl. rewrite (Hmiss ks1 Hn1), (Hmiss ks2 Hn2).
  rewrite bool_decide_eq_true_2 by done. simpl. symmetry. apply Permutation_middle.
Qed.

Section exact.
Context `{Std} `{ArrowLaws RecordBatch Schema}.
Implicit Types b : RecordBatch.

(** The partition of a row: a function of its key cells. *)
Definition route (fs : list (string * DataType)) (field_refs : list Z) (n : Z) (r : Row) : option nat :=
  match field_refs with
  | [] => Some 0%nat
  | _ => match row_partition fs field_refs n r with Ret (Ok p) => Some (Z.to_nat p) | _ => None end
  end.

Definition key_cells (field_refs : list Z) (r : Row) : list (option (option Value)) :=
  map (fun i => r !! Z.to_nat i) field_refs.

Definition hash_supported (dt : DataType) : bool :=
  match dt with Dictionary _ _ | Time32 _ | Time64 _ | ListOf _ | StructOf _ | OtherType _ => false | _ => true end.

(** The key columns exist and their types can be hashed. *)
Definition hashable (fs : list (string * DataType)) (field_refs : list Z) : bool :=
  forallb (fun i => match fs !! Z.to_nat i with Some f => hash_supported f.2 | None => false end) field_refs.

Lemma hash_row_key fs field_refs r r' h :
  key_cells field_refs r = key_cells field_refs r' -> hash_row fs field_refs r h = hash_row fs field_refs r' h.
Proof.
  revert h. induction field_refs as [|i refs IH]; intros h; simpl; [done|]. intros [= Hc Hk].
  unfold column_cell. rewrite Hc. destruct (fs !! _), (r' !! _); try done.
  destruct (hash_column_value _ _ _) as [[]| |]; simpl; auto.
Qed.

Lemma route_key fs field_refs n r r' :
  key_cells field_refs r = key_cells field_refs r' -> route fs field_refs n r = route fs field_refs n r'.
Proof.
  intros Hk. unfold route, row_partition. destruct field_refs; [done|].
  by rewrite (hash_row_key _ _ _ _ _ Hk).
Qed.

Lemma hash_column_value_total dt c h :
  hash_supported dt = true -> cell_typed dt c = true -> exists h', hash_column_value dt c h = Ret (Ok h').
Proof.
  intros Hs Hc. destruct c as [v|]; simpl; [|eauto].
  destruct dt, v; simpl in *; try done; unfold hash_float; simpl; eauto.
Qed.

Lemma column_cell_typed fs field_refs i (r : Row) :
  hashable fs field_refs = true -> Forall2 (fun f c => cell_typed f.2 c = true) fs r -> i ∈ field_refs ->
  exists dt c, column_cell fs r i = Some (dt, c) /\ hash_supported dt = true /\ cell_typed dt c = true.
Proof.
  unfold hashable. rewrite forallb_forall. intros Hh Hr Hi%list_elem_of_In. specialize (Hh i Hi).
  unfold column_cell. destruct (fs !! Z.to_nat i) as [f|] eqn:Hf; [|done].
  destruct (Forall2_lookup_l _ _ _ _ _ Hr Hf) as (c & Hc & Ht). rewrite Hc. eauto.
Qed.

Lemma hash_row_total fs field_refs r h :
  hashable fs field_refs = true -> Forall2 (fun f c => cell_typed f.2 c = true) fs r ->
  exists h', hash_row fs field_refs r h = Ret (Ok h').
Proof.
  intros Hh Hr. pose proof (fun i => column_cell_typed fs field_refs i r Hh Hr) as Hc. clear Hh. revert h.
  induction field_refs as [|i refs IH]; intros h; simpl; [eauto|].
  destruct (Hc i) as (dt & c & -> & Hs & Ht); [left|].
  destruct (hash_column_value_total dt c h Hs Ht) as (h' & ->). simpl. apply IH. intros j Hj. apply Hc. by right.
Qed.

Lemma rem_partitions_ok x n :
  0 <= x -> 0 < n < u32_modulus -> rem_partitions x n = Ret (Ok (x mod n)) /\ 0 <= x mod n < n.
Proof.
  intros Hx Hn. pose proof (Z.mod_pos_bound x n ltac:(lia)) as Hb. split; [|done].
  unfold rem_partitions. destruct (Z.eqb_spec n 0); [lia|]. unfold wrap32.
  rewrite (Z.mod_small (x mod n) u32_modulus); [done|lia].
Qed.

(** Every row of a batch has a partition. *)
Lemma row_partition_total fs field_refs n r :
  hashable fs field_refs = true -> 0 < n < u32_modulus ->
  Forall2 (fun f c => cell_typed f.2 c = true) fs r ->
  exists p, row_partition fs field_refs n r = Ret (Ok p) /\ 0 <= p < n.
Proof.
  intros Hh Hn Hr. destruct (hash_row_total fs field_refs r [] Hh Hr) as (h & Hrow).
  unfold row_partition. rewrite Hrow. simpl.
  destruct (rem_partitions_ok (finish h) n (finish_range h) Hn) as [-> ?]. eauto.
Qed.

Lemma route_total fs field_refs n r :
  hashable fs field_refs = true -> 0 < n < u32_modulus ->
  Forall2 (fun f c => cell_typed f.2 c = true) fs r ->
  exists p, route fs field_refs n r = Some p /\ (p < Z.to_nat n)%nat.
Proof.
  intros Hh Hn Hr. unfold route. destruct field_refs as [|i refs]; [exists 0%nat; split; [done|lia]|].
  destruct (row_partition_total fs (i :: refs) n r Hh Hn Hr) as (p & -> & ?).
  exists (Z.to_nat p). split; [done|lia].
Qed.

(** The split a hash exchange asks for. *)
Definition split_by_route (b : RecordBatch) (field_refs : list Z) (n : Z) (ps : list RecordBatch) : Prop :=
  length ps = Z.to_nat n /\
  forall p b', ps !! p = Some b' ->
    schema b' = schema b /\
    rows b' = List.filter (fun r => bool_decide (route (fields (schema b)) field_refs n r = Some p)) (rows b).

Lemma filter_batch_ok b mask :
  length mask = num_rows b ->
  exists b', filter_batch b mask = Ret (Ok b') /\ schema b' = schema b /\ rows b' = mask_rows (rows b) mask.
Proof.
  intros Hl. destruct (filter_ok b mask Hl) as (b' & Hb' & ?). exists b'. unfold filter_batch. by rewrite Hb'.
Qed.

Lemma mask_ids_filter fs field_refs n p (rs : list Row) ids :
  field_refs <> [] ->
  Forall2 (fun r id => row_partition fs field_refs n r = Ret (Ok id) /\ 0 <= id) rs ids ->
  mask_rows rs (map (fun id => id =? Z.of_nat p) ids) =
  List.filter (fun r => bool_decide (route fs field_refs n r = Some p)) rs.
Proof.
  intros Hne. induction 1 as [|r id rs ids [Hr Hid] _ IH]; simpl; [done|].
  assert (Hroute : route fs field_refs n r = Some (Z.to_nat id)).
  { unfold route. destruct field_refs; [done|]. by rewrite Hr. }
  rewrite IH, Hroute.
  destruct (Z.eqb_spec id (Z.of_nat p)) as [->|Hp].
  - by rewrite bool_decide_eq_true_2 by (by rewrite Nat2Z.id).
  - rewrite bool_decide_eq_false_2; [done|]. intros [= <-]. lia.
Qed.

Lemma traditional_empty b field_refs n :
  num_rows b = 0%nat -> split_by_route b field_refs n (replicate (Z.to_nat n) b).
Proof.
  intros Hn. split; [apply length_replicate|]. intros p b' [-> _]%lookup_replicate. split; [done|].
  unfold num_rows in Hn. by destruct (rows b).
Qed.

Lemma traditional_unkeyed b n m :
  Z.to_nat n = S m -> split_by_route b [] n (b :: replicate m (new_empty (schema b))).
Proof.
  intros Hm. split; [simpl; by rewrite length_replicate|]. intros [|p] b'; simpl.
  - intros [= <-]. split; [done|]. symmetry. apply Table.filter_all, Forall_true. by intros r.
  - intros [-> _]%lookup_replicate. rewrite new_empty_schema, new_empty_rows. split; [done|].
    induction (rows b); simpl; done.
Qed.

Lemma traditional_ok b field_refs n :
  hashable (fields (schema b)) field_refs = true -> 0 < n < u32_modulus ->
  exists ps, hash_partition_batch_traditional b field_refs n = Ret (Ok ps) /\ split_by_route b field_refs n ps.
Proof.
  intros Hh Hn. unfold hash_partition_batch_traditional. destruct (Nat.eqb_spec (num_rows b) 0) as [Hz|Hz].
  { eexists. split; [done|]. by apply traditional_empty. }
  destruct field_refs as [|i refs] eqn:Hr; rewrite <- ?Hr in *.
  { subst. destruct (Z.to_nat n) as [|m] eqn:Hm; [lia|]. eexists. split; [done|]. by apply traditional_unkeyed. }
  destruct (exch_map_total (row_partition (fields (schema b)) field_refs n)
              (fun r id => row_partition (fields (schema b)) field_refs n r = Ret (Ok id) /\ 0 <= id) (rows b))
    as (ids & -> & Hids).
  { eapply Forall_impl; [exact (rows_typed b)|]. intros r Ht.
    destruct (row_partition_total _ field_refs n r Hh Hn Ht) as (p & Hp & ?). exists p. auto with lia. }
  simpl. destruct (exch_map_total (fun p => filter_batch b (map (fun id => id =? p) ids))
    (fun p b' => schema b' = schema b /\ rows b' = mask_rows (rows b) (map (fun id => id =? p) ids)) (seqZ 0 n))
    as (ps & -> & Hps).
  { apply Forall_forall. intros p _. apply filter_batch_ok. rewrite length_map.
    symmetry. exact (Forall2_length _ _ _ Hids). }
  exists ps. split; [done|]. split.
  { rewrite <- (Forall2_length _ _ _ Hps). apply length_seqZ. }
  intros p b' Hp. destruct (Forall2_lookup_r _ _ _ _ _ Hps Hp) as (z & Hseq & Hs & Hrs).
  apply lookup_seqZ in Hseq as [-> _]. split; [done|]. rewrite Hrs. apply mask_ids_filter; [by subst|done].
Qed.
End exact.

(** ** Batches with and without skew *)

Section skewed.
Context `{Std} `{ArrowLaws RecordBatch Schema} `{HashOrder}.
Implicit Types b : RecordBatch.

Definition unskewed (call : list nat) (b : RecordBatch) (field_refs : list Z) : bool :=
  match detect_skew SkewHandlingConfig_default call b field_refs with
  | Ret (Ok s) => negb (is_skewed s)
  | _ => false
  end.

Definition skewed (call : list nat) (b : RecordBatch) (field_refs : list Z) : bool :=
  match detect_skew SkewHandlingConfig_default call b field_refs with
  | Ret (Ok s) => is_skewed s
  | _ => false
  end.

Lemma small_unskewed call b field_refs : Z.of_nat (num_rows b) < 1000 -> unskewed call b field_refs = true.
Proof.
  intros Hn. unfold unskewed, detect_skew. simpl.
  by destruct (Z.ltb_spec (Z.of_nat (num_rows b)) 1000); [|lia].
Qed.

Lemma hash_partition_batch_unskewed call b field_refs n :
  unskewed call b field_refs = true ->
  hash_partition_batch call b field_refs n = hash_partition_batch_traditional b field_refs n.
Proof.
  unfold unskewed, hash_partition_batch, hash_partition_batch_with_skew_handling, skew_aware_hash_partition.
  destruct (detect_skew _ _ _ _) as [[s|]| |]; try done. simpl. by intros ->.
Qed.

Lemma hash_partition_batch_ok call b field_refs n :
  unskewed call b field_refs = true -> hashable (fields (schema b)) field_refs = true -> 0 < n < u32_modulus ->
  exists ps, hash_partition_batch call b field_refs n = Ret (Ok ps) /\ split_by_route b field_refs n ps.
Proof. intros Hu. rewrite hash_partition_batch_unskewed by done. apply traditional_ok. Qed.

Lemma split_rows_perm b field_refs n ps :
  hashable (fields (schema b)) field_refs = true -> 0 < n < u32_modulus ->
  split_by_route b field_refs n ps -> concat (map rows ps) ≡ₚ rows b.
Proof.
  intros Hh Hn [Hl Hps].
  rewrite <- (split_by_key_perm (route (fields (schema b)) field_refs n) (seq 0 (Z.to_nat n)) (rows b)) at 1.
  - apply reflexive_eq. f_equal. apply list_eq. intros p. change (map ?f ?l) with (f <$> l).
    rewrite !list_lookup_fmap. destruct (ps !! p) as [b'|] eqn:Hp; simpl.
    + rewrite lookup_seq_lt by (rewrite <- Hl; by eapply lookup_lt_Some). simpl. f_equal. by apply Hps.
    + apply lookup_ge_None in Hp. by rewrite lookup_seq_ge by lia.
  - apply NoDup_seq.
  - eapply Forall_impl; [exact (rows_typed b)|]. intros r Hr.
    destruct (route_total _ field_refs n r Hh Hn Hr) as (p & Hp & Hlt). exists p. split; [|done].
    apply elem_of_seq. lia.
Qed.

(** C34: A batch without skew is split exactly: every row lands in one
    partition, in the order of the batch; the partition is a function of the
    key cells, so that rows with equal keys land together; no row is lost or
    made up, and every partition has the batch's schema. *)
Theorem hash_partition_exact call b field_refs n :
  unskewed call b field_refs = true -> hashable (fields (schema b)) field_refs = true -> 0 < n < u32_modulus ->
  exists ps, hash_partition_batch call b field_refs n = Ret (Ok ps) /\
    split_by_route b field_refs n ps /\ concat (map rows ps) ≡ₚ rows b /\
    forall p1 p2 b1 b2 r1 r2, ps !! p1 = Some b1 -> ps !! p2 = Some b2 -> r1 ∈ rows b1 -> r2 ∈ rows b2 ->
      key_cells field_refs r1 = key_cells field_refs r2 -> p1 = p2.
Proof.
  intros Hu Hh Hn. destruct (hash_partition_batch_ok call b field_refs n Hu Hh Hn) as (ps & Hps & Hsplit).
  exists ps. split; [done|]. split; [done|]. split; [by eapply split_rows_perm|].
  intros p1 p2 b1 b2 r1 r2 Hp1 Hp2 Hr1 Hr2 Hk. destruct Hsplit as [_ Hs].
  destruct (Hs p1 b1 Hp1) as [_ E1], (Hs p2 b2 Hp2) as [_ E2]. rewrite E1 in Hr1. rewrite E2 in Hr2.
  apply list_elem_of_In, filter_In in Hr1 as [_ ?%bool_decide_eq_true].
  apply list_elem_of_In, filter_In in Hr2 as [_ ?%bool_decide_eq_true].
  pose proof (route_key (fields (schema b)) field_refs n r1 r2 Hk). congruence.
Qed.

(** What the loop over the rows of a skewed batch keeps. *)
Definition one_row_each (b : RecordBatch) (n : Z) (ps : list RecordBatch) : Prop :=
  length ps = Z.to_nat n /\ Forall (fun b' => schema b' = schema b /\ (num_rows b' <= 1)%nat) ps.

Lemma composite_key_total fs field_refs r :
  hashable fs field_refs = true -> Forall2 (fun f c => cell_typed f.2 c = true) fs r ->
  exists key, composite_key fs field_refs r = Ret (Ok key).
Proof.
  intros Hh Hr. unfold composite_key.
  destruct (exch_map_total (fun i => match column_cell fs r i with
      | Some (dt, c) => Ret (get_row_value_as_string dt c) | None => Panic end) (fun _ _ => True) field_refs)
    as (parts & -> & _); [|eexists; reflexivity].
  apply Forall_forall. intros i Hi. destruct (column_cell_typed fs field_refs i r Hh Hr Hi) as (dt & c & -> & Hs & Ht).
  destruct c as [v|]; [|by exists "NULL"]. destruct dt, v; try done; eexists; split; done.
Qed.

Lemma skewed_partition_id_total config keys key n :
  0 < n < u32_modulus -> exists p, skewed_partition_id config keys key n = Ret (Ok p) /\ 0 <= p < n.
Proof.
  intros Hn. unfold skewed_partition_id, compute_hash_partition.
  destruct (rem_partitions_ok _ n (finish_range (hash_str key)) Hn) as [-> ?].
  destruct (rem_partitions_ok (Z.of_nat (default 0%nat (position key keys))) n ltac:(lia) Hn) as [-> ?].
  repeat case_match; eauto.
Qed.

Lemma single_row_batch b i r :
  rows b !! i = Some r ->
  exists b', filter_batch b (create_single_row_mask (num_rows b) i) = Ret (Ok b') /\
    schema b' = schema b /\ rows b' = [r].
Proof.
  intros Hr. destruct (filter_batch_ok b (create_single_row_mask (num_rows b) i)) as (b' & Hb & Hs & Hrs).
  { unfold create_single_row_mask. by rewrite length_map, length_seq. }
  exists b'. repeat split; [done|done|]. rewrite Hrs. unfold create_single_row_mask, num_rows.
  pose proof (mask_rows_single (rows b) i 0) as Hm. rewrite Nat.add_0_r, Hr in Hm. exact Hm.
Qed.

Lemma place_row_total config b field_refs n keys ps i r :
  hashable (fields (schema b)) field_refs = true -> 0 < n < u32_modulus -> rows b !! i = Some r ->
  one_row_each b n ps ->
  exists ps', place_row config b field_refs n keys ps i r = Ret (Ok ps') /\ one_row_each b n ps'.
Proof.
  intros Hh Hn Hr [Hl Hps]. unfold place_row.
  destruct (composite_key_total (fields (schema b)) field_refs r Hh) as (key & ->).
  { exact (proj1 (Forall_lookup _ _) (rows_typed b) i r Hr). }
  simpl. destruct (skewed_partition_id_total config keys key n Hn) as (p & -> & Hp). simpl.
  destruct (single_row_batch b i r Hr) as (single & -> & Hs & Hrs). simpl.
  destruct (lookup_lt_is_Some_2 ps (Z.to_nat p)) as [old Hold]; [lia|]. rewrite Hold.
  pose proof (proj1 (Forall_lookup _ _) Hps _ _ Hold) as [Hos Hon].
  assert (Hnew : one_row_each b n (<[Z.to_nat p:=single]> ps)).
  { split; [by rewrite length_insert|]. apply Forall_insert; [done|]. split; [done|].
    unfold num_rows. by rewrite Hrs. }
  destruct (Nat.eqb_spec (num_rows old) 0); [by eauto|].
  unfold concatenate_batches_with_schema. rewrite decide_True by congruence.
  destruct (Nat.eqb_spec (num_rows old) 0); [done|].
  destruct (Nat.eqb_spec (num_rows single) 0) as [Hz|]; [unfold num_rows in Hz; by rewrite Hrs in Hz|].
  simpl. eauto.
Qed.

Lemma place_rows_total config b field_refs n keys ps k rs :
  hashable (fields (schema b)) field_refs = true -> 0 < n < u32_modulus ->
  drop k (rows b) = rs -> one_row_each b n ps ->
  exists ps', place_rows config b field_refs n keys ps k rs = Ret (Ok ps') /\ one_row_each b n ps'.
Proof.
  intros Hh Hn. revert k ps. induction rs as [|r rs IH]; intros k ps Hk Hps; simpl; [eauto|].
  assert (Hr : rows b !! k = Some r) by (rewrite <- (Nat.add_0_r k), <- lookup_drop, Hk; done).
  destruct (place_row_total config b field_refs n keys ps k r Hh Hn Hr Hps) as (ps' & -> & Hps'). simpl.
  apply IH; [|done]. by rewrite <- Nat.add_1_r, <- drop_drop, Hk.
Qed.

(** When skew is detected the split keeps at most one row per partition:
    the routine that should append a row to a partition replaces what the
    partition holds.  A skewed batch has a thousand rows or more, and at most
    as many of them as there are partitions reach the next stage. *)
Theorem skewed_split_drops_rows call b field_refs n :
  skewed call b field_refs = true -> hashable (fields (schema b)) field_refs = true -> 0 < n < u32_modulus ->
  exists ps, hash_partition_batch call b field_refs n = Ret (Ok ps) /\
    length ps = Z.to_nat n /\ Forall (fun b' => (num_rows b' <= 1)%nat) ps /\ (1000 <= num_rows b)%nat.
Proof.
  intros Hs Hh Hn. unfold hash_partition_batch, hash_partition_batch_with_skew_handling, skew_aware_hash_partition.
  unfold skewed in Hs. destruct (detect_skew _ call b field_refs) as [[s|]| |] eqn:Hd; try done. simpl. rewrite Hs. simpl.
  unfold handle_skewed_partitioning.
  destruct (place_rows_total SkewHandlingConfig_default b field_refs n (set_order call (map fst (top_keys s)))
    (replicate (Z.to_nat n) (new_empty (schema b))) 0 (rows b) Hh Hn eq_refl) as (ps & Hps & Hl & Hone).
  { split; [apply length_replicate|]. apply Forall_replicate. unfold num_rows.
    rewrite new_empty_schema, new_empty_rows. split; [done|simpl; lia]. }
  exists ps. repeat split; [done|done| |].
  - eapply Forall_impl; [exact Hone|]. by intros b' [_ ?].
  - unfold detect_skew in Hd. simpl in Hd.
    destruct (Z.ltb_spec (Z.of_nat (num_rows b)) 1000); [|lia]. injection Hd as <-. done.
Qed.
End skewed.

(** ** Concrete batches *)

(** Maps and sets that iterate in the order of insertion. *)
Definition demo_order : HashOrder.
Proof.
  refine {| map_order _ _ l := l; set_order _ _ l := l |}; done.
Defined.

#[local] Existing Instance demo_std.
#[local] Existing Instance demo_order.
#[local] Existing Instance Table.arrow.
#[local] Existing Instance Table.laws.

Definition demo_schema : list (string * DataType) := [("k", Int64); ("v", Utf8)].
Definition demo_row (k : Z) (v : string) : Row := [Some (VInt k); Some (VStr v)].

Definition demo_small : Table.t :=
  Table.mk demo_schema [demo_row 7 "a"; demo_row 8 "b"; demo_row 7 "c"; [None; Some (VStr "d")]].

(** 960 rows with the key 1 and 40 rows with keys of their own. *)
Definition demo_skewed : Table.t :=
  Table.mk demo_schema (replicate 960 (demo_row 1 "x") ++ map (fun i => demo_row (100 + Z.of_nat i) "y") (seq 0 40)).

Lemma hash_partition_exact_witness :
  exists ps, hash_partition_batch [] demo_small [0] 3 = Ret (Ok ps) /\
    split_by_route demo_small [0] 3 ps /\ concat (map rows ps) ≡ₚ rows demo_small /\
    forall p1 p2 b1 b2 r1 r2, ps !! p1 = Some b1 -> ps !! p2 = Some b2 -> r1 ∈ rows b1 -> r2 ∈ rows b2 ->
      key_cells [0] r1 = key_cells [0] r2 -> p1 = p2.
Proof. apply (hash_partition_exact [] demo_small [0] 3); [vm_compute; reflexivity..|split; reflexivity]. Defined.

Lemma skewed_split_drops_rows_witness :
  exists ps, hash_partition_batch [] demo_skewed [0] 4 = Ret (Ok ps) /\
    length ps = Z.to_nat 4 /\ Forall (fun b' => (num_rows b' <= 1)%nat) ps /\ (1000 <= num_rows demo_skewed)%nat.
Proof. apply (skewed_split_drops_rows [] demo_skewed [0] 4); [vm_compute; reflexivity..|split; reflexivity]. Defined.

(** The partition [place_row] puts a row of a skewed batch in. *)
Definition skewed_place (call : list nat) (b : Table.t) (field_refs : list Z) (n : Z) (r : Row) : exch Z :=
  let^ s := detect_skew SkewHandlingConfig_default call b field_refs in
  let^ key := composite_key (fields (schema b)) field_refs r in
  skewed_partition_id SkewHandlingConfig_default (set_order call (map fst (top_keys s))) key n.

(** A skewed batch hashes the text of the key, a batch without skew the value:
    rows with the same key from two batches, or from the two sides of a join,
    go to different partitions. *)
Theorem skew_separates_equal_keys :
  skewed [] demo_skewed [0] = true /\ demo_row 1 "x" ∈ rows demo_skewed /\
  skewed_place [] demo_skewed [0] 4 (demo_row 1 "x") = Ret (Ok 0) /\
  route demo_schema [0] 4 (demo_row 1 "z") = Some 1%nat.
Proof.
  split; [vm_compute; reflexivity|]. split.
  { apply (bool_decide_eq_true_1 (demo_row 1 "x" ∈ rows demo_skewed)). vm_compute. reflexivity. }
  split; vm_compute; reflexivity.
Qed.
