(* ===== verification/ExchangeRuntime.v ===== *)
(** * The local exchange runtime (ldp/executor/exchange.rs, ldp/executor/stage.rs)

    A finished stage leaves tickets; an exchange fetches what is behind them
    and hands it to the workers of the next stage: everything to everyone for
    a gather and a broadcast, the partitions a worker owns for a hash exchange.
    [StageExecutor::fetch_output] is the interface to the executor. *)

From stdpp Require Import pretty.
From S2P Require Import Prelude LogicalPlan LdpTypes Arrow HashPartition.

#[local] Open Scope Z_scope.

(** ** Tickets *)

Record StageTicket := mkTicket {
  tk_query_id : string;
  tk_stage_id : StageId;
  tk_worker_id : WorkerId;
  tk_partition : option Z;
  ticket_id : string;
  flight_ticket_bytes : option (list Z);
}.

Definition StageTicket_new (query : string) (id : StageId) (w : WorkerId) : StageTicket :=
  mkTicket query id w None ("stage_" +:+ pretty id +:+ "_worker_" +:+ w) None.

Definition StageTicket_partitioned (query : string) (id : StageId) (w : WorkerId) (p : Z) : StageTicket :=
  mkTicket query id w (Some p) ("stage_" +:+ pretty id +:+ "_worker_" +:+ w +:+ "_p" +:+ pretty p) None.

(** [StageTickets] is a vector of tickets. *)
Abbreviation StageTickets := (list StageTicket).

Definition for_worker (ts : StageTickets) (w : WorkerId) : StageTickets :=
  List.filter (fun t => bool_decide (tk_worker_id t = w)) ts.

Definition for_partition (ts : StageTickets) (p : Z) : StageTickets :=
  List.filter (fun t => bool_decide (tk_partition t = Some p)) ts.

Inductive StageExecutionError :=
| SE_StageNotFound (id : StageId)
| WorkerUnavailable (worker_id : WorkerId) (detail : string)
| ExecutionFailed (msg : string)
| LimitsExceeded (limit_type : string) (actual limit : Z)
| InputNotReady (name : string).

(** The texts of [#[error(..)]]. *)
Definition StageExecutionError_display (e : StageExecutionError) : string :=
  match e with
  | SE_StageNotFound id => "Stage " +:+ pretty id +:+ " not found"
  | WorkerUnavailable w d => "Worker " +:+ w +:+ " unavailable: " +:+ d
  | ExecutionFailed m => "Execution failed: " +:+ m
  | LimitsExceeded t a l => t +:+ " limit exceeded: " +:+ pretty a +:+ " > " +:+ pretty l
  | InputNotReady n => "Input " +:+ n +:+ " not ready"
  end.

Section runtime.
Context `{Std} `{Arrow RecordBatch Schema} `{HashOrder}.
Context (fetch_output : StageTicket -> result (list RecordBatch) StageExecutionError).

(** ** Fetching *)

Definition note_schema (last_schema : option Schema) (b : RecordBatch) : option Schema :=
  if (0 <? num_columns b)%nat then Some (schema b) else last_schema.

(** The loop over the upstream tickets, the same in every exchange. *)
Fixpoint fetch_tickets (ts : StageTickets) (all_batches : list RecordBatch) (last_schema : option Schema)
    : result (list RecordBatch * option Schema) ExchangeError :=
  match ts with
  | [] => Ok (all_batches, last_schema)
  | t :: ts =>
      match fetch_output t with
      | Err e => Err (FetchFailed ("Failed to fetch " +:+ ticket_id t +:+ ": " +:+ StageExecutionError_display e))
      | Ok bs => fetch_tickets ts (all_batches ++ bs) (foldl note_schema last_schema bs)
      end
  end.

Definition execute_gather (upstream : StageTickets) (target : WorkerId) : exch (list RecordBatch) :=
  let^ fetched := Ret (fetch_tickets upstream [] None) in
  match fetched with
  | ([], Some s) => Ret (Ok [new_empty s])
  | (all_batches, _) => Ret (Ok all_batches)
  end.

Definition execute_broadcast (upstream : StageTickets) (targets : list WorkerId) : exch (list RecordBatch) :=
  let^ fetched := Ret (fetch_tickets upstream [] None) in
  match fetched with
  | ([], Some s) => Ret (Ok [new_empty s])
  | (all_batches, _) => Ret (Ok all_batches)
  end.

(** ** Hash exchange *)

Definition nonempty (b : RecordBatch) : bool := (0 <? num_rows b)%nat.

(** Batch after batch, each a call of its own. *)
Fixpoint partition_each (call : list nat) (k : nat) (bs : list RecordBatch) (field_refs : list Z) (n : Z)
    : exch (list (list RecordBatch)) :=
  match bs with
  | [] => Ret (Ok [])
  | b :: bs =>
      let^ ps := hash_partition_batch (k :: call) b field_refs n in
      let^ rest := partition_each call (S k) bs field_refs n in
      Ret (Ok (ps :: rest))
  end.

Definition execute_hash_partition_all (call : list nat) (upstream : StageTickets) (column_refs : list ColumnRef)
    (n : Z) : exch (list RecordBatch) :=
  let^ fetched := Ret (fetch_tickets upstream [] None) in
  match fetched with
  | ([], Some s) => Ret (Ok [new_empty s])
  | ([], None) => Ret (Ok [])
  | ((first :: _) as all_batches, _) =>
      let^ field_refs := Ret (resolve_column_indices column_refs (fields (schema first))) in
      let^ parts := partition_each call 0 all_batches field_refs n in
      match List.filter nonempty (concat parts) with
      | [] => Ret (Ok [new_empty (schema first)])
      | result => Ret (Ok result)
      end
  end.

(** The partitions a worker owns, [enumerate().filter_map(..)]. *)
Fixpoint owned_partitions (i : nat) (partition_to_worker : list WorkerId) (w : WorkerId) : list nat :=
  match partition_to_worker with
  | [] => []
  | w' :: rest => if decide (w' = w) then i :: owned_partitions (S i) rest w else owned_partitions (S i) rest w
  end.

(** The inner loop: every partition with rows is pushed to its slot. *)
Fixpoint push_partitions (pid : nat) (slots : list (list RecordBatch)) (ps : list RecordBatch)
    : exch (list (list RecordBatch)) :=
  match ps with
  | [] => Ret (Ok slots)
  | p :: ps =>
      if nonempty p then
        match slots !! pid with
        | None => Panic
        | Some slot => push_partitions (S pid) (<[pid := slot ++ [p]]> slots) ps
        end
      else push_partitions (S pid) slots ps
  end.

Fixpoint fill_slots (call : list nat) (k : nat) (slots : list (list RecordBatch)) (bs : list RecordBatch)
    (field_refs : list Z) (n : Z) : exch (list (list RecordBatch)) :=
  match bs with
  | [] => Ret (Ok slots)
  | b :: bs =>
      let^ ps := hash_partition_batch (k :: call) b field_refs n in
      let^ slots := push_partitions 0 slots ps in
      fill_slots call (S k) slots bs field_refs n
  end.

Definition take_slots (slots : list (list RecordBatch)) (local : list nat) : exch (list (list RecordBatch)) :=
  exch_map (fun p => match slots !! p with Some slot => Ret (Ok slot) | None => Panic end) local.

Definition execute_hash_partition_for_worker (call : list nat) (upstream : StageTickets)
    (column_refs : list ColumnRef) (n : Z) (partition_to_worker : list WorkerId) (w : WorkerId)
    : exch (list RecordBatch) :=
  let^ fetched := Ret (fetch_tickets upstream [] None) in
  match fetched with
  | ([], Some s) => Ret (Ok [new_empty s])
  | ([], None) => Ret (Ok [])
  | ((first :: _) as all_batches, _) =>
      let^ field_refs := Ret (resolve_column_indices column_refs (fields (schema first))) in
      match owned_partitions 0 partition_to_worker w with
      | [] => Ret (Ok [new_empty (schema first)])
      | local =>
          let^ slots := fill_slots call 0 (replicate (Z.to_nat n) []) all_batches field_refs n in
          let^ taken := take_slots slots local in
          match concat taken with
          | [] => Ret (Ok [new_empty (schema first)])
          | result => Ret (Ok result)
          end
      end
  end.

(** ** Resolving the inputs of a stage *)

Definition execute_exchange (call : list nat) (edge : ExchangeEdge) (upstream : StageTickets)
    (target_workers : list WorkerId) : exch (list RecordBatch) :=
  match kind edge with
  | Gather target => execute_gather upstream target
  | Broadcast targets => execute_broadcast upstream targets
  | HashPartition column_refs partitions => execute_hash_partition_all call upstream column_refs partitions
  end.

Definition execute_exchange_for_worker (call : list nat) (edge : ExchangeEdge) (upstream : StageTickets)
    (w : WorkerId) : exch (list RecordBatch) :=
  match kind edge with
  | Gather target => execute_gather upstream target
  | Broadcast _ => execute_broadcast upstream [w]
  | HashPartition column_refs partitions =>
      execute_hash_partition_for_worker call upstream column_refs partitions (partition_to_worker edge) w
  end.

(** The loop over the inputs of a stage, with the exchange to run for each. *)
Fixpoint resolve_each (run : list nat -> ExchangeEdge -> StageTickets -> exch (list RecordBatch))
    (call : list nat) (k : nat) (plan : LdpPlan) (stage_outputs : gmap StageId StageTickets)
    (ins : list StageInput) (acc : gmap string (list RecordBatch)) : exch (gmap string (list RecordBatch)) :=
  match ins with
  | [] => Ret (Ok acc)
  | LocalCatalog :: ins => resolve_each run call (S k) plan stage_outputs ins acc
  | ExchangeInput x table_name :: ins =>
      match List.find (fun e => exchange_id e =? x) (edges plan) with
      | None => Ret (Err (ExchangeNotFound x))
      | Some edge =>
          match stage_outputs !! from_stage edge with
          | None => Ret (Err (UpstreamNotReady (from_stage edge)))
          | Some upstream =>
              let^ batches := run (k :: call) edge upstream in
              resolve_each run call (S k) plan stage_outputs ins (<[table_name := batches]> acc)
          end
      end
  end.

Definition resolve_inputs (call : list nat) (plan : LdpPlan) (id : StageId)
    (stage_outputs : gmap StageId StageTickets) : exch (gmap string (list RecordBatch)) :=
  match get_stage plan id with
  | None => Ret (Err (StageNotFound id))
  | Some stage =>
      resolve_each (fun call e ts => execute_exchange call e ts (target_workers stage))
        call 0 plan stage_outputs (inputs stage) ∅
  end.

Definition resolve_inputs_for_worker (call : list nat) (plan : LdpPlan) (id : StageId) (w : WorkerId)
    (stage_outputs : gmap StageId StageTickets) : exch (gmap string (list RecordBatch)) :=
  match get_stage plan id with
  | None => Ret (Err (StageNotFound id))
  | Some stage =>
      resolve_each (fun call e ts => execute_exchange_for_worker call e ts w)
        call 0 plan stage_outputs (inputs stage) ∅
  end.
End runtime.

Definition concat_record_batches `{Arrow RecordBatch Schema} (bs : list RecordBatch)
    : result RecordBatch ExchangeError :=
  match bs with
  | [] => Err NoBatches
  | b :: _ => match concat_batches (schema b) bs with Ok r => Ok r | Err e => Err (ConcatFailed e) end
  end.

(** ** What an exchange delivers *)

Section delivery.
Context `{Std} `{ArrowLaws RecordBatch Schema} `{HashOrder}.
Context (fetch_output : StageTicket -> result (list RecordBatch) StageExecutionError).
Implicit Types bs ps : list RecordBatch.

Definition rows_in (bs : list RecordBatch) : list Row := concat (map rows bs).

Lemma rows_in_app bs bs' : rows_in (bs ++ bs') = rows_in bs ++ rows_in bs'.
Proof. unfold rows_in. by rewrite map_app, concat_app. Qed.

Lemma rows_in_concat (bss : list (list RecordBatch)) : rows_in (concat bss) = concat (map rows_in bss).
Proof. induction bss as [|bs bss IH]; simpl; [done|]. by rewrite rows_in_app, IH. Qed.

Lemma rows_in_nonempty bs : rows_in (List.filter nonempty bs) = rows_in bs.
Proof.
  induction bs as [|b bs IH]; [done|]. simpl. unfold nonempty at 1, num_rows.
  change (rows_in (b :: bs)) with (rows b ++ rows_in bs). destruct (rows b) eqn:Hb; simpl; [done|].
  change (rows_in (b :: ?l)) with (rows b ++ rows_in l). by rewrite Hb, IH.
Qed.

Lemma rows_in_empty (s : Schema) : rows_in [new_empty s] = [].
Proof. unfold rows_in. simpl. by rewrite new_empty_rows. Qed.

(** Every upstream ticket can be fetched. *)
Definition fetches (ts : StageTickets) (bss : list (list RecordBatch)) : Prop :=
  Forall2 (fun t bs => fetch_output t = Ok bs) ts bss.

Lemma fetch_tickets_ok ts bss acc sch :
  fetches ts bss ->
  fetch_tickets fetch_output ts acc sch = Ok (acc ++ concat bss, foldl note_schema sch (concat bss)).
Proof.
  intros Hf. revert acc sch. induction Hf as [|t bs ts bss Ht _ IH]; intros acc sch; simpl.
  - by rewrite app_nil_r.
  - by rewrite Ht, IH, <- app_assoc, foldl_app.
Qed.

Lemma fetch_tickets_err ts1 bss t e ts2 acc sch :
  fetches ts1 bss -> fetch_output t = Err e ->
  fetch_tickets fetch_output (ts1 ++ t :: ts2) acc sch =
  Err (FetchFailed ("Failed to fetch " +:+ ticket_id t +:+ ": " +:+ StageExecutionError_display e)).
Proof.
  intros Hf He. revert acc sch. induction Hf as [|t' bs ts bss Ht _ IH]; intros acc sch; simpl.
  - by rewrite He.
  - by rewrite Ht, IH.
Qed.

(** A gather hands over everything: when every upstream ticket can be
    fetched it returns the batches of all of them in order, and when one
    cannot it fails with the first such ticket instead of answering with part
    of the data.  A broadcast returns the same. *)
Theorem gather_is_complete ts target targets :
  (forall bss, fetches ts bss ->
     execute_gather fetch_output ts target = Ret (Ok (concat bss)) /\
     execute_broadcast fetch_output ts targets = Ret (Ok (concat bss))) /\
  (forall ts1 bss t e ts2, ts = ts1 ++ t :: ts2 -> fetches ts1 bss -> fetch_output t = Err e ->
     exists msg, execute_gather fetch_output ts target = Ret (Err (FetchFailed msg)) /\
       execute_broadcast fetch_output ts targets = Ret (Err (FetchFailed msg))).
Proof.
  split.
  - intros bss Hf. unfold execute_gather, execute_broadcast. rewrite (fetch_tickets_ok _ _ _ _ Hf). simpl.
    by destruct (concat bss).
  - intros ts1 bss t e ts2 -> Hf He. eexists. unfold execute_gather, execute_broadcast.
    by rewrite (fetch_tickets_err _ _ _ _ _ _ _ Hf He).
Qed.

(** ** Partitions and their owners *)

Lemma owned_partitions_spec i ptw w p :
  p ∈ owned_partitions i ptw w <-> (i <= p)%nat /\ ptw !! (p - i)%nat = Some w.
Proof.
  revert i. induction ptw as [|w' ptw IH]; intros i; simpl.
  { rewrite lookup_nil. split; [by intros ?%not_elem_of_nil|by intros [_ ?]]. }
  assert (Hrest : p ∈ owned_partitions (S i) ptw w <-> (i < p)%nat /\ (w' :: ptw) !! (p - i)%nat = Some w).
  { rewrite IH. split; intros [Hle Hl]; (split; [lia|]).
    - replace (p - i)%nat with (S (p - S i)) by lia. done.
    - replace (p - i)%nat with (S (p - S i)) in Hl by lia. done. }
  destruct (decide (w' = w)) as [->|Hne]; rewrite ?elem_of_cons, Hrest.
  - destruct (decide (p = i)) as [->|]; [rewrite Nat.sub_diag; simpl|]; intuition (auto with lia).
  - destruct (decide (p = i)) as [->|]; [rewrite Nat.sub_diag; simpl|]; intuition (auto with lia; congruence).
Qed.

Lemma owned_partitions_NoDup i ptw w : NoDup (owned_partitions i ptw w).
Proof.
  revert i. induction ptw as [|w' ptw IH]; intros i; simpl; [constructor|].
  case_decide; [|done]. constructor; [|done]. rewrite owned_partitions_spec. lia.
Qed.

(** The worker a row belongs to. *)
Definition owner (fs : list (string * DataType)) (field_refs : list Z) (n : Z) (ptw : list WorkerId) (r : Row)
    : option WorkerId :=
  p ← route fs field_refs n r; ptw !! p.

Lemma filter_filter {A} (p q : A -> bool) (l : list A) :
  List.filter p (List.filter q l) = List.filter (fun a => q a && p a) l.
Proof. induction l as [|a l IH]; simpl; [done|]. destruct (q a); simpl; by rewrite IH. Qed.

Lemma filter_all_true {A} (p q : A -> bool) (l : list A) :
  (forall a, p a = q a) -> List.filter p l = List.filter q l.
Proof. intros Hpq. induction l as [|a l IH]; simpl; [done|]. by rewrite Hpq, IH. Qed.

(** The rows of the partitions a worker owns are the rows it owns. *)
Lemma owned_rows fs field_refs n ptw w (l : list Row) :
  concat (map (fun p => List.filter (fun r => bool_decide (route fs field_refs n r = Some p)) l)
            (owned_partitions 0 ptw w)) ≡ₚ
  List.filter (fun r => bool_decide (owner fs field_refs n ptw r = Some w)) l.
Proof.
  rewrite <- (split_by_key_perm (route fs field_refs n) (owned_partitions 0 ptw w)
                (List.filter (fun r => bool_decide (owner fs field_refs n ptw r = Some w)) l)).
  - apply reflexive_eq. f_equal. apply map_ext_in. intros p Hp%list_elem_of_In.
    apply owned_partitions_spec in Hp as [_ Hp]. rewrite Nat.sub_0_r in Hp.
    rewrite filter_filter. apply filter_all_true. intros r. unfold owner.
    case_bool_decide as E; [|by rewrite andb_false_r].
    rewrite E. simpl. by rewrite bool_decide_eq_true_2.
  - apply owned_partitions_NoDup.
  - apply Forall_forall. intros r [_ Hr%bool_decide_eq_true]%list_elem_of_In%filter_In. unfold owner in Hr.
    destruct (route fs field_refs n r) as [p|] eqn:E; simpl in Hr; [|done].
    exists p. split; [|done]. apply owned_partitions_spec. rewrite Nat.sub_0_r. split; [lia|done].
Qed.

(** ** Slots *)

Lemma push_partitions_ok done_ slots ps :
  length slots = length ps ->
  push_partitions (length done_) (done_ ++ slots) ps =
  Ret (Ok (done_ ++ zip_with (fun l p => if nonempty p then l ++ [p] else l) slots ps)).
Proof.
  revert done_ slots. induction ps as [|p ps IH]; intros done_ [|slot slots]; simpl; intros Hl; try done.
  assert (Hnext : forall slot', push_partitions (S (length done_)) (done_ ++ slot' :: slots) ps =
    Ret (Ok (done_ ++ slot' :: zip_with (fun l p => if nonempty p then l ++ [p] else l) slots ps))).
  { intros slot'. specialize (IH (done_ ++ [slot']) slots ltac:(lia)).
    rewrite length_app, <- !app_assoc, Nat.add_1_r in IH. exact IH. }
  destruct (nonempty p); [|apply Hnext].
  rewrite list_lookup_middle by done. rewrite insert_app_r_alt, Nat.sub_diag by lia. apply Hnext.
Qed.

(** The slots hold the rows of their partitions. *)
Definition slots_hold (fs : list (string * DataType)) (field_refs : list Z) (n : Z)
    (slots : list (list RecordBatch)) (l : list Row) : Prop :=
  length slots = Z.to_nat n /\
  forall p slot, slots !! p = Some slot ->
    rows_in slot = List.filter (fun r => bool_decide (route fs field_refs n r = Some p)) l.

Lemma push_slots_hold fs field_refs n slots l b ps :
  fields (schema b) = fs -> slots_hold fs field_refs n slots l -> split_by_route b field_refs n ps ->
  exists slots', push_partitions 0 slots ps = Ret (Ok slots') /\ slots_hold fs field_refs n slots' (l ++ rows b).
Proof.
  intros Hfs [Hl Hs] [Hpl Hps]. pose proof (push_partitions_ok [] slots ps ltac:(congruence)) as Hp.
  simpl in Hp. rewrite Hp. clear Hp.
  eexists. split; [done|]. split; [rewrite length_zip_with; lia|]. simpl.
  intros p slot (old & b' & -> & Hold & Hb')%lookup_zip_with_Some.
  destruct (Hps p b' Hb') as [_ Hrows]. rewrite Hfs in Hrows.
  rewrite List.filter_app, <- (Hs p old Hold), <- Hrows. unfold nonempty, num_rows.
  destruct (rows b') eqn:E; simpl; [by rewrite app_nil_r|].
  rewrite rows_in_app. f_equal. unfold rows_in. simpl. by rewrite E, app_nil_r.
Qed.

(** The batches of an exchange that the exact split applies to. *)
Definition splittable (call : list nat) (k : nat) (fs : list (string * DataType)) (field_refs : list Z) bs : Prop :=
  forall i b, bs !! i = Some b -> fields (schema b) = fs /\ unskewed ((k + i)%nat :: call) b field_refs = true.

Lemma splittable_cons call k fs field_refs b bs :
  splittable call k fs field_refs (b :: bs) ->
  fields (schema b) = fs /\ unskewed (k :: call) b field_refs = true /\ splittable call (S k) fs field_refs bs.
Proof.
  intros Hs. destruct (Hs 0%nat b eq_refl) as [Hf Hu]. rewrite Nat.add_0_r in Hu. repeat split; [done|done| |].
  all: intros; destruct (Hs (S i) b0 ltac:(done)) as [? Hu']; rewrite <- ?Nat.add_succ_comm in Hu'; done.
Qed.

Lemma fill_slots_hold call k fs field_refs n bs slots l :
  hashable fs field_refs = true -> 0 < n < u32_modulus -> splittable call k fs field_refs bs ->
  slots_hold fs field_refs n slots l ->
  exists slots', fill_slots call k slots bs field_refs n = Ret (Ok slots') /\
    slots_hold fs field_refs n slots' (l ++ rows_in bs).
Proof.
  intros Hh Hn. revert k slots l. induction bs as [|b bs IH]; intros k slots l Hs Hold; simpl.
  { exists slots. split; [done|]. unfold rows_in. simpl. by rewrite app_nil_r. }
  apply splittable_cons in Hs as (Hf & Hu & Hs).
  destruct (hash_partition_batch_ok (k :: call) b field_refs n Hu ltac:(by rewrite Hf) Hn) as (ps & -> & Hps). simpl.
  destruct (push_slots_hold fs field_refs n slots l b ps Hf Hold Hps) as (slots1 & -> & H1'). simpl.
  destruct (IH (S k) slots1 _ Hs H1') as (slots2 & -> & H2'). exists slots2. split; [done|].
  by rewrite <- app_assoc in H2'.
Qed.

Lemma take_slots_ok fs field_refs n slots l local :
  slots_hold fs field_refs n slots l -> Forall (fun p => (p < Z.to_nat n)%nat) local ->
  exists taken, take_slots slots local = Ret (Ok taken) /\
    rows_in (concat taken) =
    concat (map (fun p => List.filter (fun r => bool_decide (route fs field_refs n r = Some p)) l) local).
Proof.
  intros [Hl Hs] Hlt.
  destruct (exch_map_total (fun p => match slots !! p with Some slot => Ret (Ok slot) | None => Panic end)
    (fun p slot => rows_in slot = List.filter (fun r => bool_decide (route fs field_refs n r = Some p)) l) local)
    as (taken & Ht & H2').
  { eapply Forall_impl; [exact Hlt|]. intros p Hp. simpl in Hp. destruct (lookup_lt_is_Some_2 slots p) as [slot E]; [lia|].
    exists slot. rewrite E. auto. }
  exists taken. split; [done|]. rewrite rows_in_concat. f_equal. clear Ht.
  induction H2'; simpl; [done|]. apply Forall_cons in Hlt as [_ Hlt]. by f_equal; auto.
Qed.

(** ** The hash exchange as a whole *)

Section hash_exchange.
Context (call : list nat) (ts : StageTickets) (column_refs : list ColumnRef) (n : Z) (ptw : list WorkerId).
Context (bss : list (list RecordBatch)) (fs : list (string * DataType)) (field_refs : list Z).

(** The upstream tickets can be fetched; their batches have the same columns,
    none of them is skewed; the key columns exist and can be hashed; every
    partition has a worker. *)
Record hash_exchange_ready : Prop := {
  ready_fetch : fetches ts bss;
  ready_split : splittable call 0 fs field_refs (concat bss);
  ready_columns : resolve_column_indices column_refs fs = Ok field_refs;
  ready_hashable : hashable fs field_refs = true;
  ready_range : 0 < n < u32_modulus;
  ready_owners : length ptw = Z.to_nat n;
}.

Lemma hash_exchange_to_worker w :
  hash_exchange_ready ->
  exists outs, execute_hash_partition_for_worker fetch_output call ts column_refs n ptw w = Ret (Ok outs) /\
    rows_in outs ≡ₚ List.filter (fun r => bool_decide (owner fs field_refs n ptw r = Some w)) (rows_in (concat bss)).
Proof.
  intros [Hf Hs Hc Hh Hn Ho]. unfold execute_hash_partition_for_worker. rewrite (fetch_tickets_ok _ _ _ _ Hf). simpl.
  destruct (concat bss) as [|first rest] eqn:Hb; [by eexists|]. simpl.
  destruct (Hs 0%nat first eq_refl) as [Hfs _]. rewrite Hfs, Hc. simpl.
  pose proof (owned_rows fs field_refs n ptw w (rows_in (first :: rest))) as Hown.
  destruct (owned_partitions 0 ptw w) as [|p0 local0] eqn:Hlocal.
  { eexists. split; [done|]. rewrite rows_in_empty. exact Hown. }
  rewrite <- Hlocal in *. clear p0 local0 Hlocal.
  destruct (fill_slots_hold call 0 fs field_refs n (first :: rest) (replicate (Z.to_nat n) []) [] Hh Hn Hs)
    as (slots & Hfill & Hslots).
  { split; [apply length_replicate|]. by intros p slot [-> _]%lookup_replicate. }
  rewrite app_nil_l in Hslots. simpl in Hfill. rewrite Hfill. simpl.
  destruct (take_slots_ok fs field_refs n slots _ (owned_partitions 0 ptw w) Hslots) as (taken & -> & Hrows).
  { apply Forall_forall. intros p [_ Hp]%owned_partitions_spec. rewrite Nat.sub_0_r in Hp.
    apply lookup_lt_Some in Hp. lia. }
  simpl. rewrite <- Hrows in Hown. destruct (concat taken) as [|b bs]; eexists; (split; [done|]); [|done].
  rewrite rows_in_empty. exact Hown.
Qed.

Lemma row_has_owner r :
  hash_exchange_ready -> r ∈ rows_in (concat bss) ->
  exists w, owner fs field_refs n ptw r = Some w /\ w ∈ ptw.
Proof.
  intros [_ Hs _ Hh Hn Ho] Hr. unfold rows_in in Hr. apply list_elem_of_In, in_concat in Hr as (l & Hl & Hr).
  apply in_map_iff in Hl as (b & <- & Hb%list_elem_of_In). apply list_elem_of_lookup in Hb as (i & Hi).
  destruct (Hs i b Hi) as [Hfs _]. pose proof (rows_typed b) as Ht. rewrite Hfs in Ht.
  pose proof (proj1 (Forall_forall _ _) Ht r ltac:(by apply list_elem_of_In)) as Hrow. simpl in Hrow.
  destruct (route_total fs field_refs n r Hh Hn Hrow) as (p & Hp & Hlt).
  destruct (lookup_lt_is_Some_2 ptw p) as [w Hw]; [lia|]. exists w. unfold owner. rewrite Hp. simpl.
  split; [done|]. by eapply list_elem_of_lookup_2.
Qed.

(** What a worker receives. *)
Definition delivered (w : WorkerId) : list RecordBatch :=
  match execute_hash_partition_for_worker fetch_output call ts column_refs n ptw w with
  | Ret (Ok outs) => outs
  | _ => []
  end.

(** C32: A hash exchange over batches without skew delivers every upstream row
    to exactly one worker: it succeeds for every worker, the rows received by
    the workers of the partition map are together a permutation of the
    upstream rows, and rows with equal keys are received by the same worker. *)
Theorem hash_exchange_exact :
  hash_exchange_ready ->
  (forall w, execute_hash_partition_for_worker fetch_output call ts column_refs n ptw w = Ret (Ok (delivered w))) /\
  concat (map (fun w => rows_in (delivered w)) (remove_dups ptw)) ≡ₚ rows_in (concat bss) /\
  forall w1 w2 r1 r2, r1 ∈ rows_in (delivered w1) -> r2 ∈ rows_in (delivered w2) ->
    key_cells field_refs r1 = key_cells field_refs r2 -> w1 = w2.
Proof.
  intros Hready.
  assert (Hw : forall w, execute_hash_partition_for_worker fetch_output call ts column_refs n ptw w
                 = Ret (Ok (delivered w)) /\
    rows_in (delivered w) ≡ₚ
    List.filter (fun r => bool_decide (owner fs field_refs n ptw r = Some w)) (rows_in (concat bss))).
  { intros w. unfold delivered. destruct (hash_exchange_to_worker w Hready) as (outs & -> & ?). done. }
  split; [intros w; apply Hw|]. split.
  - rewrite <- (split_by_key_perm (owner fs field_refs n ptw) (remove_dups ptw) (rows_in (concat bss))).
    + induction (remove_dups ptw) as [|w l IH]; simpl; [done|]. by rewrite (proj2 (Hw w)), IH.
    + apply NoDup_remove_dups.
    + apply Forall_forall. intros r Hr. destruct (row_has_owner r Hready Hr) as (w & Hown & Hin).
      exists w. by rewrite elem_of_remove_dups.
  - intros w1 w2 r1 r2 Hr1 Hr2 Hk. rewrite (proj2 (Hw w1)) in Hr1. rewrite (proj2 (Hw w2)) in Hr2.
    apply list_elem_of_In, filter_In in Hr1 as [_ Hr1%bool_decide_eq_true].
    apply list_elem_of_In, filter_In in Hr2 as [_ Hr2%bool_decide_eq_true].
    unfold owner in *. rewrite (route_key fs field_refs n r1 r2 Hk) in Hr1. congruence.
Qed.
End hash_exchange.
End delivery.

(** ** The inputs of a stage *)

Section resolving.
Context `{Std} `{Arrow RecordBatch Schema} `{HashOrder}.
Context (fetch_output : StageTicket -> result (list RecordBatch) StageExecutionError).

(** The tables the exchange inputs of a stage are registered under. *)
Definition input_tables (ins : list StageInput) : list string :=
  omap (fun i => match i with ExchangeInput _ name => Some name | LocalCatalog => None end) ins.

(** An input is resolved: its edge was found, its upstream stage was ready,
    its exchange ran and the table holds what it returned. *)
Definition input_resolved (run : list nat -> ExchangeEdge -> StageTickets -> exch (list RecordBatch))
    (call : list nat) (plan : LdpPlan) (outs : gmap StageId StageTickets)
    (m : gmap string (list RecordBatch)) (i : nat) (x : ExchangeId) (name : string) : Prop :=
  exists edge upstream bs,
    List.find (fun e => exchange_id e =? x) (edges plan) = Some edge /\
    outs !! from_stage edge = Some upstream /\
    run (i :: call) edge upstream = Ret (Ok bs) /\ m !! name = Some bs.

Lemma resolve_each_ok run call k plan outs ins acc m :
  NoDup (input_tables ins) -> resolve_each run call k plan outs ins acc = Ret (Ok m) ->
  (forall i x name, ins !! i = Some (ExchangeInput x name) ->
     input_resolved run call plan outs m (k + i) x name) /\
  (forall name, name ∉ input_tables ins -> m !! name = acc !! name).
Proof.
  revert k acc. induction ins as [|[|x name] ins IH]; intros k acc; simpl.
  - intros _ [= ->]. split; [|done]. by intros i x name; rewrite lookup_nil.
  - intros Hnd Hrun. destruct (IH (S k) acc Hnd Hrun) as [Hres Hother]. split; [|done].
    intros [|i] x name; simpl; [done|]. rewrite <- Nat.add_succ_comm. apply Hres.
  - intros [Hni Hnd]%NoDup_cons.
    destruct (List.find _ _) as [edge|] eqn:He; [|done].
    destruct (outs !! from_stage edge) as [upstream|] eqn:Hu; [|done].
    destruct (run (k :: call) edge upstream) as [[bs|]| |] eqn:Hr; try done. simpl. intros Hrun.
    destruct (IH (S k) _ Hnd Hrun) as [Hres Hother]. split.
    + intros [|i] x' name'; simpl.
      * intros [= <- <-]. rewrite Nat.add_0_r. exists edge, upstream, bs. repeat split; try done.
        rewrite (Hother name Hni). apply lookup_insert_eq.
      * rewrite <- Nat.add_succ_comm. apply Hres.
    + intros name' [Hne Hn']%not_elem_of_cons. rewrite (Hother name' Hn'). by apply lookup_insert_ne.
Qed.

(** When the inputs of a stage are resolved for a worker, the table of
    every exchange input holds exactly what its exchange delivers to that
    worker, and there are no other tables. *)
Theorem resolve_inputs_exact call plan id stage w outs m :
  get_stage plan id = Some stage -> NoDup (input_tables (inputs stage)) ->
  resolve_inputs_for_worker fetch_output call plan id w outs = Ret (Ok m) ->
  (forall i x name, inputs stage !! i = Some (ExchangeInput x name) ->
     input_resolved (fun call e ts => execute_exchange_for_worker fetch_output call e ts w)
       call plan outs m i x name) /\
  (forall name, is_Some (m !! name) -> name ∈ input_tables (inputs stage)).
Proof.
  intros Hs Hnd. unfold resolve_inputs_for_worker. rewrite Hs. intros Hrun.
  destruct (resolve_each_ok _ _ _ _ _ _ _ _ Hnd Hrun) as [Hres Hother]. split; [exact Hres|].
  intros name Hsome. destruct (decide (name ∈ input_tables (inputs stage))) as [|Hn]; [done|].
  rewrite (Hother name Hn), lookup_empty in Hsome. by destruct Hsome.
Qed.
End resolving.

(** ** Concrete exchanges *)

#[local] Existing Instance demo_std.
#[local] Existing Instance demo_order.
#[local] Existing Instance Table.arrow.
#[local] Existing Instance Table.laws.

(** Two upstream workers; the second holds two batches. *)
Definition demo_ticket (w : WorkerId) : StageTicket := StageTicket_new "q" 0 w.
Definition demo_tickets : StageTickets := [demo_ticket "w1"; demo_ticket "w2"].

Definition demo_other : Table.t :=
  Table.mk demo_schema [demo_row 9 "e"; demo_row 8 "f"; demo_row 12 "g"].

Definition demo_fetch (t : StageTicket) : result (list Table.t) StageExecutionError :=
  if decide (tk_worker_id t = "w1") then Ok [demo_small]
  else if decide (tk_worker_id t = "w2") then Ok [demo_other; demo_small]
  else Err (InputNotReady (ticket_id t)).

Definition demo_edge : ExchangeEdge :=
  mkEdge 0 (HashPartition [mkColumnRef None "K"] 3) 0 1 ["w1"; "w2"; "w1"].

Definition demo_exec_plan : LdpPlan :=
  mkPlan "q" "w1" [Stage_new 0 "SELECT k, v FROM t";
                   mkStage 1 ["w1"; "w2"] [ExchangeInput 0 "__exchange_0"] Stream "SELECT * FROM __exchange_0"
                     StageLimits_default] [demo_edge] 1.

Lemma demo_ready :
  hash_exchange_ready demo_fetch [] demo_tickets [mkColumnRef None "K"] 3 ["w1"; "w2"; "w1"]
    [[demo_small]; [demo_other; demo_small]] demo_schema [0].
Proof.
  split; try reflexivity.
  - repeat constructor.
  - intros [|[|[|i]]] b; simpl; intros [= <-]; split; vm_compute; reflexivity.
  - split; reflexivity.
Qed.

(** The key column is found without regard to case, the rows with the keys 7,
    8 and null of both workers meet. *)
Example demo_delivery :
  map (fun w => rows_in (delivered demo_fetch [] demo_tickets [mkColumnRef None "K"] 3 ["w1"; "w2"; "w1"] w))
    ["w1"; "w2"; "w3"] =
  [[demo_row 8 "b"; demo_row 8 "f"; demo_row 8 "b"; demo_row 12 "g"];
   [demo_row 7 "a"; demo_row 7 "c"; [None; Some (VStr "d")]; demo_row 9 "e";
    demo_row 7 "a"; demo_row 7 "c"; [None; Some (VStr "d")]]; []].
Proof. vm_compute. reflexivity. Qed.

Lemma gather_is_complete_witness :
  execute_gather demo_fetch demo_tickets "w1" = Ret (Ok [demo_small; demo_other; demo_small]) /\
  exists msg, execute_gather demo_fetch [demo_ticket "w1"; demo_ticket "w9"; demo_ticket "w2"] "w1"
    = Ret (Err (FetchFailed msg)).
Proof.
  split.
  - apply (proj1 (gather_is_complete demo_fetch demo_tickets "w1" []) [[demo_small]; [demo_other; demo_small]]).
    repeat constructor.
  - assert (Hw1 : fetches demo_fetch [demo_ticket "w1"] [[demo_small]]) by repeat constructor.
    destruct (proj2 (gather_is_complete demo_fetch [demo_ticket "w1"; demo_ticket "w9"; demo_ticket "w2"] "w1" [])
      [demo_ticket "w1"] [[demo_small]] (demo_ticket "w9") _ [demo_ticket "w2"] eq_refl Hw1 eq_refl) as (msg & H & _).
    exists msg. exact H.
Defined.

Lemma hash_exchange_exact_witness :
  (forall w, execute_hash_partition_for_worker demo_fetch [] demo_tickets [mkColumnRef None "K"] 3 ["w1"; "w2"; "w1"] w
     = Ret (Ok (delivered demo_fetch [] demo_tickets [mkColumnRef None "K"] 3 ["w1"; "w2"; "w1"] w))) /\
  concat (map (fun w => rows_in (delivered demo_fetch [] demo_tickets [mkColumnRef None "K"] 3 ["w1"; "w2"; "w1"] w))
    (remove_dups ["w1"; "w2"; "w1"])) ≡ₚ rows_in (concat [[demo_small]; [demo_other; demo_small]]) /\
  forall w1 w2 r1 r2,
    r1 ∈ rows_in (delivered demo_fetch [] demo_tickets [mkColumnRef None "K"] 3 ["w1"; "w2"; "w1"] w1) ->
    r2 ∈ rows_in (delivered demo_fetch [] demo_tickets [mkColumnRef None "K"] 3 ["w1"; "w2"; "w1"] w2) ->
    key_cells [0] r1 = key_cells [0] r2 -> w1 = w2.
Proof.
  exact (hash_exchange_exact demo_fetch [] demo_tickets [mkColumnRef None "K"] 3 ["w1"; "w2"; "w1"]
           [[demo_small]; [demo_other; demo_small]] demo_schema [0] demo_ready).
Defined.

Lemma resolve_inputs_exact_witness :
  exists m, resolve_inputs_for_worker demo_fetch [] demo_exec_plan 1 "w1" {[ 0 := demo_tickets ]} = Ret (Ok m) /\
    (forall i x name, [ExchangeInput 0 "__exchange_0"] !! i = Some (ExchangeInput x name) ->
       input_resolved (fun call e ts => execute_exchange_for_worker demo_fetch call e ts "w1")
         [] demo_exec_plan {[ 0 := demo_tickets ]} m i x name) /\
    (forall name, is_Some (m !! name) -> name ∈ ["__exchange_0"]).
Proof.
  assert (Hok : match resolve_inputs_for_worker demo_fetch [] demo_exec_plan 1 "w1" {[ 0 := demo_tickets ]} with
                | Ret (Ok _) => true | _ => false end = true) by (vm_compute; reflexivity).
  destruct (resolve_inputs_for_worker demo_fetch [] demo_exec_plan 1 "w1" {[ 0 := demo_tickets ]})
    as [[m|]| |] eqn:E; [|discriminate Hok..].
  exists m. split; [reflexivity|].
  refine (resolve_inputs_exact demo_fetch [] demo_exec_plan 1 _ "w1" {[ 0 := demo_tickets ]} m eq_refl _ E).
  apply NoDup_singleton.
Defined.
