(* ===== verification/StageExec.v ===== *)
(** * Running a stage (ldp/executor/stage.rs, ldp/executor/monitor.rs)

    The local executor runs a stage's SQL on every target worker, checks what
    it produced against the stage's limits, stores the output under a ticket
    per worker, or per worker and partition, and serves it by ticket.  DuckDB
    is a parameter: [run_sql] is what a database, or a fresh in-memory
    connection when the worker has none, answers to a query over the exchange
    inputs.  The clock is an argument, one reading per worker, in
    nanoseconds. *)

From stdpp Require Import pretty.
From S2P Require Import Prelude LogicalPlan LdpTypes Arrow HashPartition ExchangeRuntime.

#[local] Open Scope Z_scope.

(** ** The execution monitor *)

Inductive LimitExceededError :=
| Timeout (elapsed limit : Z)
| Memory (used limit : Z)
| RowsScan (scanned limit : Z)
| RowsOutput (produced limit : Z)
| BytesOutput (produced limit : Z).

Record StageExecutionMonitor := mkMonitor {
  start_time : Z;
  mon_limits : StageLimits;
  rows_scanned : Z;
  rows_produced : Z;
  bytes_produced : Z;
  cancelled : bool;
}.

Definition monitor_new (now : Z) (l : StageLimits) : StageExecutionMonitor := mkMonitor now l 0 0 0 false.

Definition increment_rows_scanned (m : StageExecutionMonitor) (count : Z) : StageExecutionMonitor :=
  mkMonitor (start_time m) (mon_limits m) (u64_add (rows_scanned m) count) (rows_produced m)
    (bytes_produced m) (cancelled m).

Definition increment_rows_produced (m : StageExecutionMonitor) (count : Z) : StageExecutionMonitor :=
  mkMonitor (start_time m) (mon_limits m) (rows_scanned m) (u64_add (rows_produced m) count)
    (bytes_produced m) (cancelled m).

Definition increment_bytes_produced (m : StageExecutionMonitor) (count : Z) : StageExecutionMonitor :=
  mkMonitor (start_time m) (mon_limits m) (rows_scanned m) (rows_produced m)
    (u64_add (bytes_produced m) count) (cancelled m).

Definition cancel (m : StageExecutionMonitor) : StageExecutionMonitor :=
  mkMonitor (start_time m) (mon_limits m) (rows_scanned m) (rows_produced m) (bytes_produced m) true.

Definition mon_elapsed (m : StageExecutionMonitor) (now : Z) : Z := Z.max 0 (now - start_time m).

(** [Duration::from_millis]. *)
Definition from_millis (ms : Z) : Z := ms * 1000000.

Definition check_limits (m : StageExecutionMonitor) (now : Z) : result unit LimitExceededError :=
  let l := mon_limits m in
  let timeout_duration := from_millis (timeout_ms l) in
  if cancelled m then Err (Timeout (mon_elapsed m now) 0)
  else if timeout_duration <? mon_elapsed m now then Err (Timeout (mon_elapsed m now) timeout_duration)
  else if max_rows_output l <? rows_scanned m then Err (RowsScan (rows_scanned m) (max_rows_output l))
  else if max_rows_output l <? rows_produced m then Err (RowsOutput (rows_produced m) (max_rows_output l))
  else if max_bytes_output l <? bytes_produced m then Err (BytesOutput (bytes_produced m) (max_bytes_output l))
  else Ok tt.

(** [duration_debug] prints a [Duration], given in nanoseconds. *)
Definition LimitExceededError_display (duration_debug : Z -> string) (e : LimitExceededError) : string :=
  match e with
  | Timeout e l => "Query timeout exceeded: " +:+ duration_debug e +:+ " > " +:+ duration_debug l
  | Memory u l => "Memory limit exceeded: " +:+ pretty u +:+ " bytes > " +:+ pretty l +:+ " bytes"
  | RowsScan s l => "Rows scan limit exceeded: " +:+ pretty s +:+ " > " +:+ pretty l
  | RowsOutput p l => "Output rows limit exceeded: " +:+ pretty p +:+ " > " +:+ pretty l
  | BytesOutput p l => "Output bytes limit exceeded: " +:+ pretty p +:+ " > " +:+ pretty l
  end.

(** The texts of [ExchangeError]. *)
Definition ExchangeError_display (e : ExchangeError) : string :=
  match e with
  | StageNotFound id => "Stage " +:+ pretty id +:+ " not found"
  | ExchangeNotFound id => "Exchange " +:+ pretty id +:+ " not found"
  | UpstreamNotReady id => "Upstream stage " +:+ pretty id +:+ " not ready"
  | FetchFailed m => "Fetch failed: " +:+ m
  | PartitionFailed m => "Partition failed: " +:+ m
  | NoBatches => "No batches to process"
  | ConcatFailed m => "Concat failed: " +:+ m
  | ColumnNotFound m => "Column not found: " +:+ m
  end.

(** ** The local executor *)

Section executor.
Context `{Std} `{Arrow RecordBatch Schema} `{HashOrder} {Database : Type}.
Context (run_sql : option Database -> string -> gmap string (list RecordBatch) ->
                   result (list RecordBatch) StageExecutionError).
Context (duration_debug : Z -> string).

Record LocalStageExecutor := mkLocal {
  outputs : gmap string (list RecordBatch);
  worker_databases : gmap WorkerId Database;
}.

Definition with_databases (dbs : gmap WorkerId Database) : LocalStageExecutor := mkLocal ∅ dbs.

Definition total_rows_of (bs : list RecordBatch) : Z :=
  foldl (fun acc b => u64_add acc (Z.of_nat (num_rows b))) 0 bs.
Definition total_bytes_of (bs : list RecordBatch) : Z :=
  foldl (fun acc b => u64_add acc (get_array_memory_size b)) 0 bs.

(** The database the query runs on: never another worker's. *)
Definition answer (ex : LocalStageExecutor) (w : WorkerId) (sql : string) (ins : gmap string (list RecordBatch))
    (requires_local_catalog : bool) : result (list RecordBatch) StageExecutionError :=
  match worker_databases ex !! w with
  | Some db => run_sql (Some db) sql ins
  | None =>
      if requires_local_catalog then
        Err (ExecutionFailed ("Missing worker database for '" +:+ w
               +:+ "' while stage requires local catalog access"))
      else run_sql None sql ins
  end.

Definition execute_sql_with_monitor (ex : LocalStageExecutor) (now : Z) (w : WorkerId) (sql : string)
    (ins : gmap string (list RecordBatch)) (requires_local_catalog : bool) (m : StageExecutionMonitor)
    : result (list RecordBatch) StageExecutionError * StageExecutionMonitor :=
  if bool_decide (sql = EmptyString) then (Ok [], m)
  else
    match answer ex w sql ins requires_local_catalog with
    | Err e => (Err e, m)
    | Ok bs =>
        let m := increment_bytes_produced (increment_rows_produced m (total_rows_of bs)) (total_bytes_of bs) in
        match check_limits m now with
        | Err e => (Err (ExecutionFailed ("Limit exceeded during execution: "
                           +:+ LimitExceededError_display duration_debug e)), m)
        | Ok _ => (Ok bs, m)
        end
    end.

Definition check_output_limits (bs : list RecordBatch) (l : StageLimits) : result unit StageExecutionError :=
  if max_rows_output l <? total_rows_of bs then
    Err (LimitsExceeded "rows" (total_rows_of bs) (max_rows_output l))
  else if max_bytes_output l <? total_bytes_of bs then
    Err (LimitsExceeded "bytes" (total_bytes_of bs) (max_bytes_output l))
  else Ok tt.

(** [map_err] on a computation that may panic. *)
Definition exch_to_stage {A} (prefix : string) (m : exch A) : outcome (result A StageExecutionError) :=
  match m with
  | Ret (Ok a) => Ret (Ok a)
  | Ret (Err e) => Ret (Err (ExecutionFailed (prefix +:+ ExchangeError_display e)))
  | Panic => Panic
  | OutOfFuel => OutOfFuel
  end.

Definition combine_batches (s : Schema) (bs : list RecordBatch) : result RecordBatch StageExecutionError :=
  match bs with
  | [b] => Ok b
  | _ => match concat_batches s bs with
         | Ok b => Ok b
         | Err e => Err (ExecutionFailed ("Failed to concatenate batches for partitioning: " +:+ e))
         end
  end.

Definition partition_batches (call : list nat) (bs : list RecordBatch) (n : Z) (column_refs : list ColumnRef)
    : outcome (result (list (list RecordBatch)) StageExecutionError) :=
  match bs with
  | [] => Ret (Ok (replicate (Z.to_nat n) []))
  | first :: _ =>
      match combine_batches (schema first) bs with
      | Err e => Ret (Err e)
      | Ok combined =>
          if (num_rows combined =? 0)%nat then Ret (Ok (replicate (Z.to_nat n) []))
          else
            match resolve_column_indices column_refs (fields (schema first)) with
            | Err e => Ret (Err (ExecutionFailed ("Failed to resolve column references: "
                                   +:+ ExchangeError_display e)))
            | Ok field_indices =>
                match exch_to_stage "Partitioning failed: " (hash_partition_batch call combined field_indices n) with
                | Ret (Ok ps) => Ret (Ok (map (fun b => if nonempty b then [b] else []) ps))
                | Ret (Err e) => Ret (Err e)
                | Panic => Panic
                | OutOfFuel => OutOfFuel
                end
            end
      end
  end.

Definition store_output (ex : LocalStageExecutor) (t : StageTicket) (bs : list RecordBatch) : LocalStageExecutor :=
  mkLocal (<[ticket_id t := bs]> (outputs ex)) (worker_databases ex).

(** A ticket per partition, in order. *)
Fixpoint store_partitions (ex : LocalStageExecutor) (query : string) (id : StageId) (w : WorkerId) (p : Z)
    (pss : list (list RecordBatch)) : StageTickets * LocalStageExecutor :=
  match pss with
  | [] => ([], ex)
  | bs :: pss =>
      let t := StageTicket_partitioned query id w p in
      let r := store_partitions (store_output ex t bs) query id w (wrap32 (p + 1)) pss in
      (t :: fst r, snd r)
  end.

Definition requires_local_catalog (stage : Stage) : bool :=
  existsb (fun i => match i with LocalCatalog => true | _ => false end) (inputs stage).

(** One worker's share: run, check, store. *)
Definition submit_on_worker (call : list nat) (ex : LocalStageExecutor) (now : Z) (query : string) (stage : Stage)
    (ins : gmap string (list RecordBatch)) (m : StageExecutionMonitor) (w : WorkerId)
    : outcome (result StageTickets StageExecutionError * LocalStageExecutor * StageExecutionMonitor) :=
  match execute_sql_with_monitor ex now w (stage_sql stage) ins (requires_local_catalog stage) m with
  | (Err e, m) => Ret (Err e, ex, m)
  | (Ok out, m) =>
      match check_output_limits out (limits stage) with
      | Err e => Ret (Err e, ex, m)
      | Ok _ =>
          match output stage with
          | Stream =>
              let t := StageTicket_new query (stage_id stage) w in Ret (Ok [t], store_output ex t out, m)
          | Partitioned n column_refs =>
              match partition_batches call out n column_refs with
              | Ret (Ok pss) =>
                  let r := store_partitions ex query (stage_id stage) w 0 pss in Ret (Ok (fst r), snd r, m)
              | Ret (Err e) => Ret (Err e, ex, m)
              | Panic => Panic
              | OutOfFuel => OutOfFuel
              end
          end
      end
  end.

Fixpoint submit_on_workers (call : list nat) (k : nat) (ex : LocalStageExecutor) (now : nat -> Z) (query : string)
    (stage : Stage) (ins : gmap string (list RecordBatch)) (m : StageExecutionMonitor) (ws : list WorkerId)
    (tickets : StageTickets) : outcome (result StageTickets StageExecutionError * LocalStageExecutor) :=
  match ws with
  | [] => Ret (Ok tickets, ex)
  | w :: ws =>
      match submit_on_worker (k :: call) ex (now k) query stage ins m w with
      | Ret (Ok ts, ex, m) => submit_on_workers call (S k) ex now query stage ins m ws (tickets ++ ts)
      | Ret (Err e, ex, _) => Ret (Err e, ex)
      | Panic => Panic
      | OutOfFuel => OutOfFuel
      end
  end.

(** The monitor is made once for all the workers of the stage. *)
Definition submit_stage (call : list nat) (ex : LocalStageExecutor) (start : Z) (now : nat -> Z) (query : string)
    (stage : Stage) (ins : gmap string (list RecordBatch))
    : outcome (result StageTickets StageExecutionError * LocalStageExecutor) :=
  submit_on_workers call 0 ex now query stage ins (monitor_new start (limits stage)) (target_workers stage) [].

Definition fetch_output (ex : LocalStageExecutor) (t : StageTicket) : result (list RecordBatch) StageExecutionError :=
  match outputs ex !! ticket_id t with
  | Some bs => Ok bs
  | None => Err (InputNotReady (ticket_id t))
  end.
End executor.

(** ** Tickets are told apart by their identifiers *)

Fixpoint no_underscore (s : string) : bool :=
  match s with
  | EmptyString => true
  | String c s => negb (bool_decide (c = Ascii.ascii_of_nat 95)) && no_underscore s
  end.

Lemma pretty_N_char_no_underscore (x : N) : bool_decide (pretty_N_char x = Ascii.ascii_of_nat 95) = false.
Proof. unfold pretty_N_char. by repeat case_match. Qed.

Lemma pretty_N_go_no_underscore (x : N) (s : string) :
  no_underscore s = true -> no_underscore (pretty_N_go x s) = true.
Proof.
  revert s. induction (N.lt_wf_0 x) as [x _ IH]. intros s Hs. destruct (decide (x = 0%N)) as [->|Hx].
  { by rewrite pretty_N_go_0. }
  rewrite pretty_N_go_step by lia. apply IH; [apply N.div_lt; lia|].
  simpl. rewrite pretty_N_char_no_underscore. done.
Qed.

Lemma pretty_no_underscore (z : Z) : no_underscore (pretty z) = true.
Proof.
  assert (HN : forall x : N, no_underscore (pretty x) = true).
  { intros x. unfold pretty, pretty_N. case_decide; [done|]. by apply pretty_N_go_no_underscore. }
  destruct z as [|p|p]; [done|exact (HN (Npos p))|].
  change (no_underscore (String (Ascii.ascii_of_nat 45) (pretty (Npos p))) = true). simpl. apply HN.
Qed.

(** A text with the separator inside is not the text of a number. *)
Lemma underscore_inside (w d : string) : no_underscore (w +:+ "_p" +:+ d) = false.
Proof.
  induction w as [|c w IH]; [done|]. change (String c w +:+ ?t) with (String c (w +:+ t)). simpl.
  rewrite IH. apply andb_false_r.
Qed.

Lemma partition_suffix_prefix (w d d' : string) :
  no_underscore d = true -> "_p" +:+ d = w +:+ "_p" +:+ d' -> w = EmptyString.
Proof.
  intros Hd. destruct w as [|c [|c1 w]]; [done| |].
  - intros E. by cbn in E.
  - intros E. cbn in E. injection E as _ _ E.
    change (d = w +:+ "_p" +:+ d') in E. rewrite E, underscore_inside in Hd. done.
Qed.

Lemma partition_suffix_inj (w w' d d' : string) :
  no_underscore d = true -> no_underscore d' = true ->
  w +:+ "_p" +:+ d = w' +:+ "_p" +:+ d' -> w = w' /\ d = d'.
Proof.
  intros Hd Hd'. revert w'. induction w as [|c w IH]; intros w' E.
  - change (EmptyString +:+ ?t) with t in E. pose proof (partition_suffix_prefix _ _ _ Hd E) as ->.
    change (EmptyString +:+ ?t) with t in E. split; [done|]. by apply (inj (String.app "_p")) in E.
  - destruct w' as [|c' w'].
    { change (EmptyString +:+ ?t) with t in E. symmetry in E. by apply (partition_suffix_prefix _ _ _ Hd') in E. }
    change (String c (w +:+ "_p" +:+ d) = String c' (w' +:+ "_p" +:+ d')) in E. injection E as -> E.
    destruct (IH w' E) as [-> ->]. done.
Qed.

Lemma ticket_id_new_inj q id w w' :
  ticket_id (StageTicket_new q id w) = ticket_id (StageTicket_new q id w') -> w = w'.
Proof. simpl. intros E. by repeat apply (inj (String.app _)) in E. Qed.

Lemma ticket_id_partitioned_inj q id w w' p p' :
  ticket_id (StageTicket_partitioned q id w p) = ticket_id (StageTicket_partitioned q id w' p') -> w = w' /\ p = p'.
Proof.
  cbn [StageTicket_partitioned ticket_id]. intros E. do 3 apply (inj (String.app _)) in E.
  apply partition_suffix_inj in E as [-> E]; [|apply pretty_no_underscore..]. split; [done|]. by apply (inj pretty) in E.
Qed.

(** ** What is stored is what is fetched *)

Section roundtrip.
Context `{Std} `{ArrowLaws RecordBatch Schema} `{HashOrder} {Database : Type}.
Context (run_sql : option Database -> string -> gmap string (list RecordBatch) ->
                   result (list RecordBatch) StageExecutionError).
Context (duration_debug : Z -> string).
Implicit Types ex : LocalStageExecutor (RecordBatch := RecordBatch) (Database := Database).

Lemma place_row_length config b field_refs n keys ps i r ps' :
  place_row config b field_refs n keys ps i r = Ret (Ok ps') -> length ps' = length ps.
Proof.
  unfold place_row. destruct (composite_key _ _ _) as [[]| |]; try done. simpl.
  destruct (skewed_partition_id _ _ _ _) as [[]| |]; try done. simpl.
  destruct (filter_batch _ _) as [[]| |]; try done. simpl. destruct (ps !! _); [|done].
  destruct (_ =? 0)%nat; [intros [= <-]; apply length_insert|].
  destruct (concatenate_batches_with_schema _ _); [|done]. simpl. intros [= <-]. apply length_insert.
Qed.

Lemma place_rows_length config b field_refs n keys ps i rs ps' :
  place_rows config b field_refs n keys ps i rs = Ret (Ok ps') -> length ps' = length ps.
Proof.
  revert i ps. induction rs as [|r rs IH]; intros i ps; simpl; [by intros [= ->]|].
  destruct (place_row _ _ _ _ _ _ _ _) as [[ps1|]| |] eqn:E; try done. simpl.
  intros Hrun%IH. by rewrite Hrun, (place_row_length _ _ _ _ _ _ _ _ _ E).
Qed.

Lemma hash_partition_batch_length call b field_refs n ps :
  hash_partition_batch call b field_refs n = Ret (Ok ps) -> length ps = Z.to_nat n.
Proof.
  unfold hash_partition_batch, hash_partition_batch_with_skew_handling, skew_aware_hash_partition.
  destruct (detect_skew _ _ _ _) as [[s|]| |]; try done. simpl. destruct (is_skewed s); simpl.
  - intros Hrun%place_rows_length. by rewrite Hrun, length_replicate.
  - unfold hash_partition_batch_traditional. destruct (_ =? 0)%nat; [intros [= <-]; apply length_replicate|].
    destruct field_refs.
    + destruct (Z.to_nat n); simpl; [done|]. intros [= <-]. simpl. by rewrite length_replicate.
    + destruct (exch_map _ (rows b)) as [[ids|]| |]; try done. simpl. intros Hm%exch_map_ok.
      rewrite <- (Forall2_length _ _ _ Hm). apply length_seqZ.
Qed.

Lemma partition_batches_length call bs n column_refs pss :
  partition_batches call bs n column_refs = Ret (Ok pss) -> length pss = Z.to_nat n.
Proof.
  unfold partition_batches. destruct bs as [|b bs]; [intros [= <-]; apply length_replicate|].
  destruct (combine_batches _ _) as [c|]; [|done].
  destruct (_ =? 0)%nat; [intros [= <-]; apply length_replicate|].
  destruct (resolve_column_indices _ _); [|done].
  destruct (hash_partition_batch _ _ _ _) as [[ps|]| |] eqn:E; try done. simpl. intros [= <-].
  rewrite length_map. by eapply hash_partition_batch_length.
Qed.

(** What a worker answers to the stage. *)
Definition worker_output ex (stage : Stage) (ins : gmap string (list RecordBatch)) (w : WorkerId)
    : result (list RecordBatch) StageExecutionError :=
  if bool_decide (stage_sql stage = EmptyString) then Ok []
  else answer run_sql ex w (stage_sql stage) ins (requires_local_catalog stage).

(** The tickets of a worker with what they give. *)
Definition worker_entries (call : list nat) (query : string) (stage : Stage) (w : WorkerId) (out : list RecordBatch)
    (kvs : list (StageTicket * list RecordBatch)) : Prop :=
  match output stage with
  | Stream => kvs = [(StageTicket_new query (stage_id stage) w, out)]
  | Partitioned n column_refs =>
      exists pss, partition_batches call out n column_refs = Ret (Ok pss) /\
        kvs = imap (fun p bs => (StageTicket_partitioned query (stage_id stage) w (Z.of_nat p), bs)) pss
  end.

(** The outcome of a stage on one worker. *)
Definition worker_ran (call : list nat) ex (query : string) (stage : Stage) (ins : gmap string (list RecordBatch))
    (w : WorkerId) (kvs : list (StageTicket * list RecordBatch)) : Prop :=
  exists k out, worker_output ex stage ins w = Ok out /\ check_output_limits out (limits stage) = Ok tt /\
    worker_entries (k :: call) query stage w out kvs.

Definition store_all ex (kvs : list (StageTicket * list RecordBatch)) :=
  foldl (fun ex kv => store_output ex kv.1 kv.2) ex kvs.

Lemma store_all_databases ex kvs : worker_databases (store_all ex kvs) = worker_databases ex.
Proof. revert ex. induction kvs as [|kv kvs IH]; intros ex; simpl; [done|]. apply (IH (store_output ex kv.1 kv.2)). Qed.

Lemma store_all_lookup_ne ex kvs i :
  i ∉ map (fun kv => ticket_id kv.1) kvs -> outputs (store_all ex kvs) !! i = outputs ex !! i.
Proof.
  revert ex. induction kvs as [|kv kvs IH]; intros ex; simpl; [done|]. intros [Hne Hni]%not_elem_of_cons.
  change (store_all ex (kv :: kvs)) with (store_all (store_output ex kv.1 kv.2) kvs).
  rewrite (IH (store_output ex kv.1 kv.2) Hni). simpl. by apply lookup_insert_ne.
Qed.

Lemma store_all_lookup ex kvs t bs :
  NoDup (map (fun kv => ticket_id kv.1) kvs) -> (t, bs) ∈ kvs -> fetch_output (store_all ex kvs) t = Ok bs.
Proof.
  revert ex. induction kvs as [|kv kvs IH]; intros ex; simpl; [by intros _ ?%not_elem_of_nil|].
  intros [Hni Hnd]%NoDup_cons [<-|Hin]%elem_of_cons.
  - change (store_all ex ((t, bs) :: kvs)) with (store_all (store_output ex t bs) kvs).
    unfold fetch_output. pose proof (store_all_lookup_ne (store_output ex t bs) kvs (ticket_id t) Hni) as E.
    simpl in E. rewrite lookup_insert_eq in E. simpl. by rewrite E.
  - apply (IH (store_output ex kv.1 kv.2) Hnd Hin).
Qed.

Lemma store_partitions_all ex query id w p pss :
  0 <= p -> p + Z.of_nat (length pss) <= u32_modulus ->
  let kvs := imap (fun i bs => (StageTicket_partitioned query id w (p + Z.of_nat i), bs)) pss in
  store_partitions ex query id w p pss = (map fst kvs, store_all ex kvs).
Proof.
  revert ex p. induction pss as [|bs pss IH]; intros ex p Hp Hl; [done|]. simpl length in Hl.
  destruct pss as [|bs' pss']; [by cbn; rewrite Z.add_0_r|]. set (pss := bs' :: pss') in *.
  assert (Hw : wrap32 (p + 1) = p + 1).
  { unfold wrap32. apply Z.mod_small. subst pss. simpl length in Hl. lia. }
  cbn [store_partitions]. rewrite Hw, IH by lia. cbn [fst snd]. rewrite imap_cons, Z.add_0_r.
  assert (E : imap (fun i bs => (StageTicket_partitioned query id w (p + 1 + Z.of_nat i), bs)) pss =
              imap ((fun i bs => (StageTicket_partitioned query id w (p + Z.of_nat i), bs)) ∘ S) pss).
  { apply imap_ext. intros i x _. simpl. do 2 f_equal. lia. }
  rewrite E. done.
Qed.

Lemma execute_sql_output ex now w stage ins m out m' :
  execute_sql_with_monitor run_sql duration_debug ex now w (stage_sql stage) ins (requires_local_catalog stage) m
    = (Ok out, m') -> worker_output ex stage ins w = Ok out.
Proof.
  unfold execute_sql_with_monitor, worker_output. case_bool_decide; [by intros [= <- _]|].
  destruct (answer _ _ _ _ _ _); [|done]. destruct (check_limits _ _); [|done]. by intros [= <- _].
Qed.

Lemma submit_on_worker_ok call k ex now query stage ins m w ts ex' m' :
  (forall n refs, output stage = Partitioned n refs -> n <= u32_modulus) ->
  submit_on_worker run_sql duration_debug (k :: call) ex now query stage ins m w = Ret (Ok ts, ex', m') ->
  exists kvs, worker_ran call ex query stage ins w kvs /\ ts = map fst kvs /\ ex' = store_all ex kvs.
Proof.
  intros Hn. unfold submit_on_worker. destruct (execute_sql_with_monitor _ _ _ _ _ _ _ _ _) as [[out|] m1] eqn:Hx; [|done].
  apply execute_sql_output in Hx. destruct (check_output_limits out (limits stage)) as [[]|] eqn:Hl; [|done].
  destruct (output stage) as [|n refs] eqn:Ho.
  - intros [= <- <- _]. exists [(StageTicket_new query (stage_id stage) w, out)]. split; [|done].
    exists k, out. repeat split; [done|done|]. unfold worker_entries. by rewrite Ho.
  - destruct (partition_batches _ _ _ _) as [[pss|]| |] eqn:Hp; try done.
    rewrite (store_partitions_all ex query (stage_id stage) w 0 pss).
    + intros [= <- <- _].
      exists (imap (fun p bs => (StageTicket_partitioned query (stage_id stage) w (Z.of_nat p), bs)) pss).
      split; [|done]. exists k, out. repeat split; [done|done|].
      unfold worker_entries. rewrite Ho. by exists pss.
    + lia.
    + rewrite (partition_batches_length _ _ _ _ _ Hp). specialize (Hn n refs eq_refl). unfold u32_modulus in *. lia.
Qed.

Lemma worker_ran_databases call ex ex' query stage ins w kvs :
  worker_databases ex' = worker_databases ex ->
  worker_ran call ex' query stage ins w kvs -> worker_ran call ex query stage ins w kvs.
Proof.
  intros Hdb (k & out & Ho & Hr). exists k, out. split; [|done]. rewrite <- Ho. unfold worker_output, answer.
  by rewrite Hdb.
Qed.

Lemma submit_on_workers_ok call k ex now query stage ins m ws tickets ts ex' :
  (forall n refs, output stage = Partitioned n refs -> n <= u32_modulus) ->
  submit_on_workers run_sql duration_debug call k ex now query stage ins m ws tickets = Ret (Ok ts, ex') ->
  exists kvss, Forall2 (worker_ran call ex query stage ins) ws kvss /\
    ts = tickets ++ map fst (concat kvss) /\ ex' = store_all ex (concat kvss).
Proof.
  intros Hn. revert k ex m tickets. induction ws as [|w ws IH]; intros k ex m tickets; simpl.
  { intros [= <- <-]. exists []. simpl. by rewrite app_nil_r. }
  destruct (submit_on_worker _ _ _ _ _ _ _ _ _ _) as [[[[ts1|] ex1] m1]| |] eqn:E; try done.
  apply (submit_on_worker_ok _ _ _ _ _ _ _ _ _ _ _ _ Hn) in E as (kvs & Hw & -> & ->).
  intros (kvss & H2' & -> & ->)%IH. exists (kvs :: kvss). repeat split.
  - constructor; [done|]. eapply Forall2_impl; [exact H2'|]. intros w' kvs'.
    apply worker_ran_databases, store_all_databases.
  - simpl. by rewrite map_app, app_assoc.
  - simpl. unfold store_all. by rewrite foldl_app.
Qed.
(** The tickets of a worker name that worker. *)
Definition ticket_of (stage : Stage) (query : string) (w : WorkerId) (t : StageTicket) : Prop :=
  match output stage with
  | Stream => t = StageTicket_new query (stage_id stage) w
  | Partitioned _ _ => exists p, t = StageTicket_partitioned query (stage_id stage) w p
  end.

Lemma worker_ran_tickets call ex query stage ins w kvs :
  worker_ran call ex query stage ins w kvs ->
  NoDup (map (fun kv => ticket_id kv.1) kvs) /\ Forall (fun kv => ticket_of stage query w kv.1) kvs.
Proof.
  intros (k & out & _ & _ & He). unfold worker_entries, ticket_of in *. destruct (output stage) as [|n refs].
  - subst kvs. split; [apply NoDup_singleton|by repeat constructor].
  - destruct He as (pss & _ & ->). split.
    + apply NoDup_alt. intros i j x. change (map ?f ?l) with (f <$> l). rewrite !list_lookup_fmap, !list_lookup_imap.
      destruct (pss !! i) as [a|], (pss !! j) as [b|]; cbn [fmap option_fmap option_map fst]; try done.
      intros [= Hi] [= Hj]. rewrite <- Hi in Hj. symmetry in Hj.
      apply (ticket_id_partitioned_inj query) in Hj as [_ ?]. lia.
    + apply Forall_lookup. intros i kv. rewrite list_lookup_imap. destruct (pss !! i); [|done].
      intros [= <-]. by eexists.
Qed.

Lemma ticket_of_id stage query w w' t t' :
  ticket_of stage query w t -> ticket_of stage query w' t' -> ticket_id t = ticket_id t' -> w = w'.
Proof.
  unfold ticket_of. destruct (output stage).
  - intros -> ->. apply (ticket_id_new_inj query).
  - intros [p ->] [p' ->] E. apply (ticket_id_partitioned_inj query) in E as [? _]. done.
Qed.

Lemma all_tickets_NoDup call ex query stage ins ws kvss :
  NoDup ws -> Forall2 (worker_ran call ex query stage ins) ws kvss ->
  NoDup (map (fun kv => ticket_id kv.1) (concat kvss)) /\
  Forall (fun kv => exists w, w ∈ ws /\ ticket_of stage query w kv.1) (concat kvss).
Proof.
  intros Hnd. induction 1 as [|w kvs ws kvss Hw _ IH]; [split; constructor|].
  apply NoDup_cons in Hnd as [Hni Hnd]. destruct (IH Hnd) as [Hr Hrt], (worker_ran_tickets _ _ _ _ _ _ _ Hw) as [Hk Hkt].
  simpl. split.
  - rewrite map_app. apply NoDup_app. split; [done|]. split; [|done]. intros x Hx Hx'.
    apply list_elem_of_fmap in Hx as (kv & -> & Hkv). apply list_elem_of_fmap in Hx' as (kv' & Heq & Hkv').
    destruct (proj1 (Forall_forall _ _) Hrt kv' Hkv') as (w' & Hw' & Ht').
    pose proof (proj1 (Forall_forall _ _) Hkt kv Hkv) as Ht. simpl in Ht.
    pose proof (ticket_of_id _ _ _ _ _ _ Ht Ht' Heq). by subst.
  - apply Forall_app. split.
    + eapply Forall_impl; [exact Hkt|]. intros kv Hkv. exists w. split; [left|done].
    + eapply Forall_impl; [exact Hrt|]. intros kv (w' & ? & ?). exists w'. split; [by right|done].
Qed.

(** What a stage leaves behind for a worker. *)
Definition output_served call ex ex' query stage (ins : gmap string (list RecordBatch)) (ts : StageTickets) w : Prop :=
  exists out, worker_output ex stage ins w = Ok out /\ check_output_limits out (limits stage) = Ok tt /\
    match output stage with
    | Stream =>
        let t := StageTicket_new query (stage_id stage) w in t ∈ ts /\ fetch_output ex' t = Ok out
    | Partitioned n column_refs =>
        exists k pss, partition_batches (k :: call) out n column_refs = Ret (Ok pss) /\ length pss = Z.to_nat n /\
          forall p bs, pss !! p = Some bs ->
            let t := StageTicket_partitioned query (stage_id stage) w (Z.of_nat p) in
            t ∈ ts /\ fetch_output ex' t = Ok bs
    end.

End roundtrip.

(** ** Partitioned outputs *)

Section partitioned.
Context `{Std} `{ArrowLaws RecordBatch Schema} `{HashOrder}.
Implicit Types bs : list RecordBatch.

Lemma combine_batches_ok s bs :
  bs <> [] -> Forall (fun b => schema b = s) bs ->
  exists c, combine_batches s bs = Ok c /\ schema c = s /\ rows c = rows_in bs.
Proof.
  intros Hne Hs. unfold combine_batches. destruct bs as [|b [|b' bs]]; [done| |].
  - exists b. split; [done|]. apply Forall_cons in Hs as [? _]. split; [done|]. unfold rows_in. simpl. by rewrite app_nil_r.
  - destruct (concat_ok s (b :: b' :: bs) Hs) as (c & -> & ? & ?). by exists c.
Qed.

(** A stage with a partitioned output splits what it produced by the hash
    of the key columns: partition [p] holds exactly the rows whose keys hash
    to [p], in order. *)
Theorem stage_partitions_exact call bs first rest column_refs field_refs n :
  bs = first :: rest -> Forall (fun b => schema b = schema first) bs ->
  resolve_column_indices column_refs (fields (schema first)) = Ok field_refs ->
  hashable (fields (schema first)) field_refs = true -> 0 < n < u32_modulus ->
  (forall c, combine_batches (schema first) bs = Ok c -> unskewed call c field_refs = true) ->
  exists pss, partition_batches call bs n column_refs = Ret (Ok pss) /\ length pss = Z.to_nat n /\
    forall p part, pss !! p = Some part ->
      rows_in part =
      List.filter (fun r => bool_decide (route (fields (schema first)) field_refs n r = Some p)) (rows_in bs).
Proof.
  intros Hbs Hs Hc Hh Hn Hu.
  destruct (combine_batches_ok (schema first) bs) as (c & Hcomb & Hcs & Hcr); [by subst|done|].
  assert (Hp : exists pss, partition_batches call bs n column_refs = Ret (Ok pss) /\
    forall p part, pss !! p = Some part -> rows_in part =
      List.filter (fun r => bool_decide (route (fields (schema first)) field_refs n r = Some p)) (rows_in bs)).
  { rewrite Hbs. unfold partition_batches. rewrite <- Hbs, Hcomb. destruct (Nat.eqb_spec (num_rows c) 0) as [Hz|Hz].
    - eexists. split; [done|]. intros p part [-> _]%lookup_replicate. rewrite <- Hcr. unfold num_rows in Hz.
      by destruct (rows c).
    - rewrite Hc. destruct (hash_partition_batch_ok call c field_refs n (Hu c Hcomb) ltac:(by rewrite Hcs) Hn)
        as (ps & -> & _ & Hps). simpl. eexists. split; [done|]. intros p part.
      change (map ?f ?l) with (f <$> l). rewrite list_lookup_fmap. destruct (ps !! p) as [b|] eqn:E; [|done].
      simpl. intros [= <-]. destruct (Hps p b E) as [_ Hr]. rewrite Hcs, Hcr in Hr. rewrite <- Hr.
      unfold nonempty, num_rows, rows_in. destruct (rows b) eqn:Hb; simpl; [done|]. by rewrite Hb, app_nil_r. }
  destruct Hp as (pss & Hpss & Hrows). exists pss. repeat split; [done| |done]. by eapply partition_batches_length.
Qed.

(** A partitioned stage that produces no rows stores partitions without any
    batch, so the hash exchange that reads them has no schema to hand on: it
    returns no batch at all instead of an empty one with the right columns,
    and the table is missing for the next stage. *)
Theorem empty_stage_loses_schema call bs first rest column_refs n fetch ts ptw w :
  bs = first :: rest -> Forall (fun b => schema b = schema first) bs -> rows_in bs = [] ->
  Forall (fun t => fetch t = Ok []) ts ->
  partition_batches call bs n column_refs = Ret (Ok (replicate (Z.to_nat n) [])) /\
  execute_hash_partition_for_worker fetch call ts column_refs n ptw w = Ret (Ok []).
Proof.
  intros Hbs Hs Hr Hf. split.
  - destruct (combine_batches_ok (schema first) bs) as (c & Hcomb & _ & Hcr); [by subst|done|].
    rewrite Hbs. unfold partition_batches. rewrite <- Hbs, Hcomb. unfold num_rows. by rewrite Hcr, Hr.
  - unfold execute_hash_partition_for_worker.
    rewrite (fetch_tickets_ok fetch ts (map (fun _ => []) ts)).
    + assert (E : concat (map (fun _ : StageTicket => @nil RecordBatch) ts) = []) by (clear; by induction ts).
      by rewrite E.
    + clear -Hf. induction Hf; constructor; auto.
Qed.
End partitioned.

(** ** A concrete stage *)

#[local] Existing Instance demo_std.
#[local] Existing Instance demo_order.
#[local] Existing Instance Table.arrow.
#[local] Existing Instance Table.laws.

(** The databases answer every query with their content. *)
Definition demo_run_sql (db : option (list Table.t)) (sql : string) (ins : gmap string (list Table.t))
    : result (list Table.t) StageExecutionError := Ok (default [] db).

Definition demo_executor := with_databases (RecordBatch := Table.t)
  (<["w1" := [demo_small]]> {[ "w2" := [demo_other; demo_small] ]} : gmap WorkerId (list Table.t)).

Definition demo_stage : Stage :=
  mkStage 0 ["w1"; "w2"] [LocalCatalog] (Partitioned 3 [mkColumnRef (Some "t") "k"]) "SELECT k, v FROM t"
    StageLimits_default.


Lemma stage_partitions_exact_witness :
  exists pss, partition_batches [] [demo_other; demo_small] 3 [mkColumnRef (Some "t") "k"] = Ret (Ok pss) /\
    length pss = Z.to_nat 3 /\
    forall p part, pss !! p = Some part ->
      rows_in part =
      List.filter (fun r => bool_decide (route demo_schema [0] 3 r = Some p)) (rows_in [demo_other; demo_small]).
Proof.
  refine (stage_partitions_exact [] [demo_other; demo_small] demo_other [demo_small] [mkColumnRef (Some "t") "k"] [0] 3
            eq_refl _ eq_refl eq_refl _ _).
  - repeat constructor.
  - split; reflexivity.
  - intros c Hc. vm_compute in Hc. injection Hc as <-. vm_compute. reflexivity.
Defined.
