(* ===== verification/StageSql.v ===== *)
(** * Running the SQL of a stage on DuckDB
    (ldp/executor/stage.rs: run_sql_with_inputs, execute_stage_batches;
    worker-flight/src/service.rs: the blocking part of
    execute_stage_with_duckdb)

    The inputs of the stage become temporary tables of the connection, the SQL
    is prepared and run, and the tables are dropped again.  The SQL of a stage
    is a query: it reads the database and leaves it as it is. *)

From S2P Require Import Prelude LdpTypes Arrow DuckDb HashPartition ExchangeRuntime.

#[local] Open Scope Z_scope.

(** Preparing a query and running it with Arrow results. *)
Class DuckQuery (Db RecordBatch Schema : Type) := {
  db_prepare : Db -> string -> result unit string;
  db_query_arrow : Db -> string -> result (Schema * list RecordBatch) string;
}.

Section run.
Context `{Std} `{Arrow RecordBatch Schema} `{HashOrder} `{!SchemaFields Schema} `{!DuckDb Db Appender RecordBatch}
  `{!DuckQuery Db RecordBatch Schema}.

(** The loop over the inputs; it stops at the first table that cannot be
    registered. *)
Fixpoint register_inputs {E} (failed : string -> string -> E) (conn : Db) (registered : list string)
    (ins : list (string * list RecordBatch)) : Db * result (list string) E :=
  match ins with
  | [] => (conn, Ok registered)
  | (_, []) :: ins => register_inputs failed conn registered ins
  | (table_name, batches) :: ins =>
      match register_arrow_batches conn table_name batches with
      | (conn, Ok _) => register_inputs failed conn (registered ++ [table_name]) ins
      | (conn, Err e) => (conn, Err (failed table_name e))
      end
  end.

(** The closure that runs the SQL. *)
Definition query_stage {E} (err : string -> E) (conn : Db) (sql : string) : result (Schema * list RecordBatch) E :=
  match db_prepare conn sql with
  | Err e => Err (err ("Failed to prepare SQL: " +:+ e))
  | Ok _ =>
      match db_query_arrow conn sql with
      | Err e => Err (err ("Failed to execute SQL: " +:+ e))
      | Ok r => Ok r
      end
  end.

(** [for table_name in &registered_tables { let _ = drop_temp_table(..); }]. *)
Definition drop_inputs (conn : Db) (registered : list string) : Db :=
  foldl (fun conn t => (drop_temp_table conn t).1) conn registered.

(** A result without batches keeps the schema of the query.  [with_causes]
    is anyhow's alternate form of an error, which appends its causes. *)
Definition run_sql_with_inputs (with_causes : string -> string) (call : list nat) (conn : Db) (stage_sql : string)
    (ins : gmap string (list RecordBatch)) : Db * result (list RecordBatch) StageExecutionError :=
  match register_inputs (fun t e => ExecutionFailed ("Failed to register table '" +:+ t +:+ "': " +:+ with_causes e))
          conn [] (map_order call (map_to_list ins)) with
  | (conn, Err e) => (conn, Err e)
  | (conn, Ok registered) =>
      let result := query_stage ExecutionFailed conn stage_sql in
      (drop_inputs conn registered,
       let? r := result in Ok (match r.2 with [] => [new_empty r.1] | batches => batches end))
  end.

(** The streaming variant runs on a database of its own, which is empty. *)
Definition execute_stage_batches (with_causes : string -> string) (call : list nat) (open_in_memory : result Db string)
    (stage : Stage) (ins : gmap string (list RecordBatch)) : result (list RecordBatch) StageExecutionError :=
  if bool_decide (stage_sql stage = EmptyString) then Ok []
  else
    match open_in_memory with
    | Err e => Err (ExecutionFailed ("Failed to open DuckDB: " +:+ e))
    | Ok conn => (run_sql_with_inputs with_causes call conn (stage_sql stage) ins).2
    end.

(** The Flight service: an empty result has no batch at all. *)
Definition flight_run_sql (call : list nat) (conn : Db) (stage_sql : string) (ins : gmap string (list RecordBatch))
    : Db * result (list RecordBatch) string :=
  match register_inputs (fun t e => "Failed to register table '" +:+ t +:+ "': " +:+ e)
          conn [] (map_order call (map_to_list ins)) with
  | (conn, Err e) => (conn, Err e)
  | (conn, Ok registered) =>
      let result := query_stage (fun e => e) conn stage_sql in
      (drop_inputs conn registered,
       match result with Ok r => Ok r.2 | Err e => Err ("Stage SQL execution failed: " +:+ e) end)
  end.
End run.

(** ** What the SQL sees, and what it leaves *)

Section exact.
Context `{Std} `{Arrow RecordBatch Schema} `{HashOrder} `{!SchemaFields Schema} `{!DuckDb Db Appender RecordBatch}
  `{!DuckDbLaws Db Appender RecordBatch} `{!DuckQuery Db RecordBatch Schema}.

(** The names of the inputs, as the database tells them apart. *)
Definition input_keys (ins : gmap string (list RecordBatch)) : list string := map table_key (map fst (map_to_list ins)).

(** Inputs are named apart, and no table of the main catalog has such a name. *)
Definition inputs_apart (db : Db) (ins : gmap string (list RecordBatch)) : Prop :=
  NoDup (input_keys ins) /\ forall t, t ∈ input_keys ins -> db_table db (false, t) = None.

(** [seen] has exactly the inputs in addition to the tables of [db]. *)
Definition shows_inputs (db seen : Db) (ins : gmap string (list RecordBatch)) : Prop :=
  (forall t bs, ins !! t = Some bs -> bs <> [] -> visible seen t = Some (rows_of bs)) /\
  (forall k, k.2 ∉ input_keys ins -> db_table seen k = db_table db k).

Lemma register_inputs_law {E} (failed : string -> string -> E) l : forall db db' registered r,
  register_inputs failed db registered l = (db', r) ->
  NoDup (map table_key (map fst l)) -> (forall t, t ∈ map table_key (map fst l) -> db_table db (false, t) = None) ->
  (forall k, k.2 ∉ map table_key (map fst l) -> db_table db' k = db_table db k) /\
  (forall t, t ∈ map table_key (map fst l) -> db_table db' (false, t) = None) /\
  (forall ts, r = Ok ts -> ts = registered ++ map fst (List.filter (fun e => negb (bool_decide (length e.2 = 0%nat))) l) /\
    forall t bs, (t, bs) ∈ l -> bs <> [] -> db_table db' (true, table_key t) = Some (rows_of bs)).
Proof.
  induction l as [|[t bs] l IH]; intros db db' registered r Hr Hnd Hm; simpl in *.
  { injection Hr as <- <-. split_and!; [done|done|]. intros ts [= <-]. rewrite app_nil_r. split; [done|]. by intros ? ? ?%not_elem_of_nil. }
  apply NoDup_cons in Hnd as [Ht Hnd]. destruct bs as [|b bs].
  { apply IH in Hr as (Hk & Hmain & Hok); [|done|intros t' Ht'; apply Hm; by right]. split_and!.
    - intros k Hk'. apply Hk. intros Hin. apply Hk'. by right.
    - intros t' [->|Ht']%elem_of_cons; [|by apply Hmain]. rewrite Hk; [apply Hm; by left|done].
    - intros ts Hts. apply Hok in Hts as [-> Hin]. split; [done|]. intros t' bs' [[= -> ->]|Hin']%elem_of_cons Hne; [done|by apply Hin]. }
  destruct (register_arrow_batches db t (b :: bs)) as [db1 [[]|e]] eqn:E1; apply register_law in E1 as (Hv & Hm1 & Hk1).
  - apply IH in Hr as (Hk & Hmain & Hok); [|done|].
    2: { intros t' Ht'. rewrite Hk1; [apply Hm; by right|]. simpl. by intros ->. }
    split_and!.
    + intros k Hk'. rewrite Hk; [apply Hk1|]; intros Hin; apply Hk'; [rewrite Hin; by left|by right].
    + intros t' [->|Ht']%elem_of_cons; [|by apply Hmain]. rewrite Hk by done. apply Hm1, Hm. by left.
    + intros ts Hts. apply Hok in Hts as [-> Hin]. split; [by rewrite <- app_assoc|].
      intros t' bs' [[= -> ->]|Hin']%elem_of_cons Hne; [|by apply Hin]. rewrite Hk by done. by apply Hv.
  - injection Hr as <- <-. split_and!; [| |done].
    + intros k Hk'. apply Hk1. intros Hin. apply Hk'. rewrite Hin. by left.
    + intros t' [->|Ht']%elem_of_cons; [apply Hm1, Hm; by left|]. rewrite Hk1; [apply Hm; by right|]. simpl. by intros ->.
Qed.

Lemma drop_temp_law db t :
  let db' := (drop_temp_table db t).1 in
  (forall k, k.2 <> table_key t -> db_table db' k = db_table db k) /\
  (forall t', db_table db (false, t') = None -> db_table db' (false, t') = None).
Proof.
  assert (E : (drop_temp_table db t).1 = (db_execute db (DropTable t)).1)
    by (unfold drop_temp_table; by destruct (db_execute _ _) as [? [|]]).
  simpl. rewrite E. pose proof (drop_law db t) as Hd. destruct (db_execute db (DropTable t)) as [db1 [[]|e]]; simpl.
  - split; [intros k Hk|intros t' Ht']; rewrite Hd; [|by case_decide]. rewrite decide_False; [done|]. by intros ->.
  - split; [intros k _; apply Hd|]. intros t' Ht'. by rewrite Hd.
Qed.

Lemma drop_inputs_law ts : forall db,
  (forall k, k.2 ∉ map table_key ts -> db_table (drop_inputs db ts) k = db_table db k) /\
  (forall t, db_table db (false, t) = None -> db_table (drop_inputs db ts) (false, t) = None).
Proof.
  induction ts as [|t ts IH]; intros db; simpl; [done|]. destruct (drop_temp_law db t) as [Hk Hn].
  destruct (IH (drop_temp_table db t).1) as [Hk1 Hn1]. split.
  - intros k Hk'. rewrite Hk1; [apply Hk|]; intros Hin; apply Hk'; [rewrite Hin; by left|by right].
  - intros t' Ht'. by apply Hn1, Hn.
Qed.

Lemma input_keys_order call (ins : gmap string (list RecordBatch)) :
  map table_key (map fst (map_order call (map_to_list ins))) ≡ₚ input_keys ins.
Proof. unfold input_keys. by rewrite map_order_perm. Qed.

Lemma registered_keys (l : list (string * list RecordBatch)) (p : string * list RecordBatch -> bool) t :
  t ∈ map table_key (map fst (List.filter p l)) -> t ∈ map table_key (map fst l).
Proof.
  rewrite !map_map, !list_elem_of_In, !in_map_iff. intros (x & <- & [Hx _]%filter_In). by exists x.
Qed.

(** Registering the inputs of a stage in the order of the map. *)
Lemma register_all {E} (failed : string -> string -> E) call (db db' : Db) (ins : gmap string (list RecordBatch)) r :
  inputs_apart db ins ->
  register_inputs failed db [] (map_order call (map_to_list ins)) = (db', r) ->
  (forall k, k.2 ∉ input_keys ins -> db_table db' k = db_table db k) /\
  (forall t, t ∈ input_keys ins -> db_table db' (false, t) = None) /\
  (forall ts, r = Ok ts -> shows_inputs db db' ins /\ forall t, t ∈ map table_key ts -> t ∈ input_keys ins).
Proof.
  intros [Hnd Hm] Hr. pose proof (input_keys_order call ins) as Hp.
  apply register_inputs_law in Hr as (Hk & Hmain & Hok).
  2: { by rewrite Hp. }
  2: { intros t Ht. apply Hm. by rewrite <- Hp. }
  setoid_rewrite Hp in Hk. setoid_rewrite Hp in Hmain. split_and!; [done|done|].
  intros ts Hts. apply Hok in Hts as [-> Hin]. split; [split; [|done]|].
  - intros t bs Ht Hne. unfold visible, resolve_table.
    assert (Hv : db_table db' (true, table_key t) = Some (rows_of bs)).
    { apply Hin; [|done]. rewrite map_order_perm. by apply elem_of_map_to_list. }
    by rewrite Hv, Hv.
  - intros t Ht%registered_keys. by rewrite <- Hp.
Qed.


(** The text of the error does not matter for the rest. *)
Lemma register_inputs_errors {E E'} (f : string -> string -> E) (g : string -> string -> E') l : forall conn registered,
  (register_inputs f conn registered l).1 = (register_inputs g conn registered l).1 /\
  match (register_inputs f conn registered l).2 with
  | Ok ts => (register_inputs g conn registered l).2 = Ok ts
  | Err _ => exists e, (register_inputs g conn registered l).2 = Err e
  end.
Proof.
  induction l as [|[t [|b bs]] l IH]; intros conn registered; cbn [register_inputs]; [done|apply IH|].
  destruct (register_arrow_batches conn t (b :: bs)) as [conn1 [[]|e]]; [apply IH|]. split; [done|by eexists].
Qed.

(** The Flight service answers the same, except for a result without batches:
    it has none, where the local executor has an empty batch. *)
Theorem flight_answers_locally (with_causes : string -> string) call (db : Db) sql (ins : gmap string (list RecordBatch)) out :
  (run_sql_with_inputs with_causes call db sql ins).2 = Ok out ->
  exists out', flight_run_sql call db sql ins = ((run_sql_with_inputs with_causes call db sql ins).1, Ok out') /\
    (out' = out \/ out' = [] /\ exists s, out = [new_empty s]).
Proof.
  unfold run_sql_with_inputs, flight_run_sql.
  destruct (register_inputs_errors (fun t e => ExecutionFailed ("Failed to register table '" +:+ t +:+ "': " +:+ with_causes e))
    (fun t e => "Failed to register table '" +:+ t +:+ "': " +:+ e) (map_order call (map_to_list ins)) db []) as [Hc Hr].
  destruct (register_inputs (fun t e => ExecutionFailed _) _ _ _) as [conn1 r1].
  destruct (register_inputs _ db _ _) as [conn2 r2]. simpl in Hc, Hr. subst conn1.
  destruct r1 as [ts|e]; [|done]. subst r2. simpl. unfold query_stage. destruct (db_prepare conn2 sql) as [[]|e]; simpl; [|done].
  destruct (db_query_arrow conn2 sql) as [[s batches]|e]; simpl; [|done]. intros [= <-]. eexists. split; [reflexivity|].
  destruct batches; [right|by left]. split; [done|by eexists].
Qed.
End exact.

(** ** Examples *)

#[local] Existing Instance Table.arrow.
#[local] Existing Instance MemDb.duckdb.
#[local] Existing Instance MemDb.duckdb_laws.
#[local] Existing Instance MemDb.fields_of.
#[local] Existing Instance demo_std.
#[local] Existing Instance demo_order.

(** The in-memory database answers a query that names a table. *)
Definition demo_table (d : MemDb.db) (sql : string) : option (list Row) :=
  t ← strip_prefix "SELECT * FROM " sql; d !! resolve_table (fun k => d !! k) (ascii_lowercase t).

#[export] Instance mem_query : DuckQuery MemDb.db Table.t (list (string * DataType)) := {|
  db_prepare d sql := match demo_table d sql with Some _ => Ok tt | None => Err "Catalog Error" end;
  db_query_arrow d sql := match demo_table d sql with
                          | Some [] => Ok ([("id", Int64)], [])
                          | Some rs => Ok ([("id", Int64)], [Table.mk [("id", Int64)] rs])
                          | None => Err "Catalog Error"
                          end;
|}.

Definition demo_inputs : gmap string (list Table.t) := {[ "__exchange_0" := [id_batch [1]; id_batch [2]] ]}.
Definition demo_main : MemDb.db := {[ (false, "sales_e1") := [[Some (VInt 7)]] ]}.

Lemma demo_apart : inputs_apart demo_main demo_inputs.
Proof.
  assert (Hk : input_keys demo_inputs = ["__exchange_0"]) by (vm_compute; reflexivity).
  unfold inputs_apart. rewrite Hk. split; [apply NoDup_singleton|].
  intros t ->%list_elem_of_singleton. vm_compute. reflexivity.
Qed.


(** When an input cannot be registered, the tables registered before stay in
    the pooled connection: the clean-up runs after the SQL only. *)
Theorem registration_failure_leaks_inputs :
  let ins : gmap string (list Table.t) :=
    {[ "__exchange_0" := [Table.mk [("v", OtherType "Null")] []]; "__exchange_1" := [id_batch [1]] ]} in
  let run := run_sql_with_inputs (fun e => e) [] demo_main "SELECT * FROM __exchange_0" ins in
  run.2 = Err (ExecutionFailed "Failed to register table '__exchange_0': Unsupported Arrow type: Other") /\
  run.1 !! (true, "__exchange_1") = Some [[Some (VInt 1)]].
Proof. split; vm_compute; reflexivity. Qed.

(** A stage without rows loses its schema in the Flight service. *)
Theorem flight_empty_result_has_no_schema :
  let db := <[(false, "empty") := []]> demo_main in
  (run_sql_with_inputs (fun e => e) [] db "SELECT * FROM empty" ∅).2 = Ok [id_batch []] /\
  (flight_run_sql [] db "SELECT * FROM empty" ∅).2 = Ok [].
Proof. split; vm_compute; reflexivity. Qed.
