(* ===== verification/Distributed.v ===== *)
(** * Exchanges between workers (ldp/executor/exchange.rs, flight.rs, coordinator.rs)

    In distributed mode a stage is submitted to its workers over Flight, the
    ticket a worker answers with is cached by the executor and registered with
    the exchange runtime, and an exchange asks the source workers for their
    tickets.  The network is a parameter: [remote_submit] is a worker's answer
    to a submitted stage, [fetch_results] its answer to a ticket, and
    [endpoints] the registered addresses.  The clock is an argument, in
    seconds. *)

From stdpp Require Import pretty.
From S2P Require Import Prelude LogicalPlan LdpTypes Arrow HashPartition ExchangeRuntime StageExec.

#[local] Open Scope Z_scope.

(** [format!("{}:{}:{}", query_id, stage_id, worker_id)], the key of both the
    executor's cache and the runtime's tickets. *)
Definition ticket_key (query : string) (id : StageId) (w : WorkerId) : string :=
  query +:+ ":" +:+ pretty id +:+ ":" +:+ w.

(** ** The Flight executor *)

Module Flight.
Section flight.
Context {RecordBatch : Type}.
Context (remote_submit : WorkerId -> string -> Stage -> gmap string (list RecordBatch) ->
                         result (list Z) StageExecutionError).
Context (do_get : WorkerId -> list Z -> result (list RecordBatch) StageExecutionError).

Definition TICKET_CACHE_TTL : Z := 300.

(** The ticket cache: ticket bytes and the time of insertion. *)
Definition ticket_cache : Type := gmap string (list Z * Z).

Definition ticket_fresh (now : Z) (e : list Z * Z) : bool := Z.max 0 (now - e.2) <? TICKET_CACHE_TTL.

Definition evict_expired_tickets (c : ticket_cache) (now : Z) : ticket_cache :=
  filter (fun ke => ticket_fresh now ke.2 = true) c.

Definition with_flight_ticket (t : StageTicket) (bytes : list Z) : StageTicket :=
  mkTicket (tk_query_id t) (tk_stage_id t) (tk_worker_id t) (tk_partition t) (ticket_id t) (Some bytes).

Definition submit_to_worker (c : ticket_cache) (now : Z) (stage : Stage) (w : WorkerId) (query : string)
    (ins : gmap string (list RecordBatch)) : result StageTicket StageExecutionError * ticket_cache :=
  match remote_submit w query stage ins with
  | Err e => (Err e, c)
  | Ok result_ticket =>
      let c := evict_expired_tickets (<[ticket_key query (stage_id stage) w := (result_ticket, now)]> c) now in
      (Ok (with_flight_ticket (StageTicket_new query (stage_id stage) w) result_ticket), c)
  end.

(** The tickets of a worker: the remote one, or one per partition made up
    here, without the remote ticket's bytes. *)
Definition worker_tickets (query : string) (stage : Stage) (w : WorkerId) (t : StageTicket) : StageTickets :=
  match output stage with
  | Stream => [t]
  | Partitioned n _ => map (fun p => StageTicket_partitioned query (stage_id stage) w p) (seqZ 0 n)
  end.

Fixpoint submit_to_workers (c : ticket_cache) (now : Z) (query : string) (stage : Stage)
    (ins : gmap string (list RecordBatch)) (ws : list WorkerId) (tickets : StageTickets)
    : result StageTickets StageExecutionError * ticket_cache :=
  match ws with
  | [] => (Ok tickets, c)
  | w :: ws =>
      match submit_to_worker c now stage w query ins with
      | (Err e, c) => (Err e, c)
      | (Ok t, c) => submit_to_workers c now query stage ins ws (tickets ++ worker_tickets query stage w t)
      end
  end.

Definition flight_submit_stage (c : ticket_cache) (now : Z) (query : string) (stage : Stage)
    (ins : gmap string (list RecordBatch)) : result StageTickets StageExecutionError * ticket_cache :=
  submit_to_workers c now query stage ins (target_workers stage) [].

Definition flight_fetch_output (c : ticket_cache) (now : Z) (t : StageTicket) : result (list RecordBatch) StageExecutionError :=
  match c !! ticket_key (tk_query_id t) (tk_stage_id t) (tk_worker_id t) with
  | Some (bytes, inserted_at) =>
      if ticket_fresh now (bytes, inserted_at) then do_get (tk_worker_id t) bytes
      else Err (InputNotReady ("No ticket cached for stage " +:+ pretty (tk_stage_id t)
                  +:+ " on worker " +:+ tk_worker_id t))
  | None => Err (InputNotReady ("No ticket cached for stage " +:+ pretty (tk_stage_id t)
                   +:+ " on worker " +:+ tk_worker_id t))
  end.
End flight.
End Flight.

(** ** The distributed exchange runtime *)

Abbreviation remote_tickets := (gmap string (list Z)).

Definition register_ticket (rt : remote_tickets) (query : string) (id : StageId) (w : WorkerId) (bytes : list Z)
    : remote_tickets := <[ticket_key query id w := bytes]> rt.

Definition get_ticket (rt : remote_tickets) (query : string) (id : StageId) (w : WorkerId) : option (list Z) :=
  rt !! ticket_key query id w.

(** What the coordinator registers of a submitted stage. *)
Definition register_stage_ticket (rt : remote_tickets) (t : StageTicket) : remote_tickets :=
  register_ticket rt (tk_query_id t) (tk_stage_id t) (tk_worker_id t)
    (default (str_bytes (ticket_id t)) (flight_ticket_bytes t)).

Definition register_stage_tickets (rt : remote_tickets) (ts : StageTickets) : remote_tickets :=
  foldl register_stage_ticket rt ts.

Section distributed.
Context `{Std} `{Arrow RecordBatch Schema} `{HashOrder}.
Context (endpoints : gmap WorkerId string).
Context (fetch_results : string -> list Z -> result (list RecordBatch) StageExecutionError).

Definition fetch_from_worker (rt : remote_tickets) (query : string) (id : StageId) (w : WorkerId)
    : result (list RecordBatch) ExchangeError :=
  match get_ticket rt query id w with
  | None => Err (FetchFailed ("No ticket for query=" +:+ query +:+ ", stage=" +:+ pretty id +:+ ", worker=" +:+ w))
  | Some bytes =>
      match endpoints !! w with
      | None => Err (FetchFailed ("No endpoint registered for worker " +:+ w))
      | Some endpoint =>
          match fetch_results endpoint bytes with
          | Ok bs => Ok bs
          | Err e => Err (FetchFailed ("Flight fetch from " +:+ w +:+ " failed: " +:+ StageExecutionError_display e))
          end
      end
  end.

(** The results of the concurrent fetches, in the order of the workers: the
    batches and schema so far, and the errors. *)
Definition collect_fetch (acc : list RecordBatch * option Schema * list string)
    (wr : WorkerId * result (list RecordBatch) ExchangeError) : list RecordBatch * option Schema * list string :=
  let '(all_batches, last_schema, errors) := acc in
  match wr.2 with
  | Ok bs => (all_batches ++ bs, foldl note_schema last_schema bs, errors)
  | Err e => (all_batches, last_schema, errors ++ [wr.1 +:+ ": " +:+ ExchangeError_display e])
  end.

Definition dist_gather (rt : remote_tickets) (query : string) (id : StageId) (sources : list WorkerId)
    : exch (list RecordBatch) :=
  let results := map (fetch_from_worker rt query id) sources in
  match foldl collect_fetch ([], None, []) (zip sources results) with
  | (all_batches, last_schema, []) =>
      match all_batches, last_schema with
      | [], Some s => Ret (Ok [new_empty s])
      | _, _ => Ret (Ok all_batches)
      end
  | (all_batches, _, errors) =>
      Ret (Err (FetchFailed (pretty (Z.of_nat (length errors)) +:+ " of "
        +:+ pretty (Z.of_nat (length sources)) +:+ " source workers failed (discarding "
        +:+ pretty (Z.of_nat (length all_batches)) +:+ " batches collected from other workers): "
        +:+ String.concat "; " errors)))
  end.

(** The metrics of a broadcast are recorded on the side. *)
Definition dist_broadcast (rt : remote_tickets) (query : string) (id : StageId) (source : WorkerId)
    : exch (list RecordBatch) := Ret (fetch_from_worker rt query id source).

(** The partitions of a batch that the worker owns and that have rows. *)
Definition local_of (ps : list RecordBatch) (local : list nat) : exch (list RecordBatch) :=
  let^ picked := exch_map (fun p => match ps !! p with Some b => Ret (Ok b) | None => Panic end) local in
  Ret (Ok (List.filter nonempty picked)).

Fixpoint local_batches (call : list nat) (k : nat) (bs : list RecordBatch) (field_refs : list Z) (n : Z)
    (local : list nat) : exch (list RecordBatch) :=
  match bs with
  | [] => Ret (Ok [])
  | b :: bs =>
      let^ ps := hash_partition_batch (k :: call) b field_refs n in
      let^ mine := local_of ps local in
      let^ rest := local_batches call (S k) bs field_refs n local in
      Ret (Ok (mine ++ rest))
  end.

Definition dist_hash_partition (call : list nat) (rt : remote_tickets) (query : string) (id : StageId)
    (sources : list WorkerId) (column_refs : list ColumnRef) (n : Z) (ptw : list WorkerId) (w : WorkerId)
    : exch (list RecordBatch) :=
  let^ all_batches := dist_gather rt query id sources in
  match all_batches with
  | [] => Ret (Ok [])
  | first :: _ =>
      let^ field_refs := Ret (resolve_column_indices column_refs (fields (schema first))) in
      let^ mine := local_batches call 0 all_batches field_refs n (owned_partitions 0 ptw w) in
      match mine with
      | [] => Ret (Ok [new_empty (schema first)])
      | _ => Ret (Ok mine)
      end
  end.

Definition dist_execute_exchange (call : list nat) (rt : remote_tickets) (query : string) (edge : ExchangeEdge)
    (sources : list WorkerId) (w : WorkerId) : exch (list RecordBatch) :=
  match kind edge with
  | Gather target => dist_gather rt query (from_stage edge) sources
  | Broadcast targets =>
      match sources with
      | [] => Ret (Err (FetchFailed "No source worker for broadcast"))
      | source :: _ => dist_broadcast rt query (from_stage edge) source
      end
  | HashPartition column_refs n =>
      dist_hash_partition call rt query (from_stage edge) sources column_refs n (partition_to_worker edge) w
  end.

(** ** The coordinator's side *)

Inductive ExecutionError :=
| Exec_StageNotFound (id : StageId)
| StageFailed (id : StageId) (msg : string)
| ExchangeFailed (msg : string)
| InvalidPlan (msg : string).

(** [map_err(|e| ExecutionError::ExchangeFailed(e.to_string()))]. *)
Definition exchange_failed {A} (m : exch A) : outcome (result A ExecutionError) :=
  match m with
  | Ret (Ok a) => Ret (Ok a)
  | Ret (Err e) => Ret (Err (ExchangeFailed (ExchangeError_display e)))
  | Panic => Panic
  | OutOfFuel => OutOfFuel
  end.

(** One edge: a worker that the exchange does not address receives nothing. *)
Definition edge_for_worker (call : list nat) (rt : remote_tickets) (query : string) (edge : ExchangeEdge)
    (sources : list WorkerId) (w : WorkerId) : outcome (result (list RecordBatch) ExecutionError) :=
  match kind edge with
  | Gather target =>
      if decide (w = target) then exchange_failed (dist_gather rt query (from_stage edge) sources) else Ret (Ok [])
  | Broadcast targets =>
      if decide (w ∈ targets) then
        match sources with
        | [] => Ret (Err (ExchangeFailed "No source worker for broadcast"))
        | source :: _ => exchange_failed (dist_broadcast rt query (from_stage edge) source)
        end
      else Ret (Ok [])
  | HashPartition column_refs n =>
      exchange_failed
        (dist_hash_partition call rt query (from_stage edge) sources column_refs n (partition_to_worker edge) w)
  end.

(** Inputs whose edge or upstream tickets are missing are skipped. *)
Fixpoint resolve_distributed (call : list nat) (k : nat) (rt : remote_tickets) (plan : LdpPlan) (w : WorkerId)
    (stage_outputs : gmap StageId StageTickets) (ins : list StageInput) (acc : gmap string (list RecordBatch))
    : outcome (result (gmap string (list RecordBatch)) ExecutionError) :=
  match ins with
  | [] => Ret (Ok acc)
  | LocalCatalog :: ins => resolve_distributed call (S k) rt plan w stage_outputs ins acc
  | ExchangeInput x table_name :: ins =>
      match List.find (fun e => exchange_id e =? x) (edges plan) with
      | None => resolve_distributed call (S k) rt plan w stage_outputs ins acc
      | Some edge =>
          match stage_outputs !! from_stage edge with
          | None => resolve_distributed call (S k) rt plan w stage_outputs ins acc
          | Some upstream =>
              let^ bs := edge_for_worker (k :: call) rt (query_id plan) edge (map tk_worker_id upstream) w in
              resolve_distributed call (S k) rt plan w stage_outputs ins (<[table_name := bs]> acc)
          end
      end
  end.

Definition resolve_distributed_inputs_for_worker (call : list nat) (rt : remote_tickets) (plan : LdpPlan)
    (id : StageId) (w : WorkerId) (stage_outputs : gmap StageId StageTickets)
    : outcome (result (gmap string (list RecordBatch)) ExecutionError) :=
  match get_stage plan id with
  | None => Ret (Err (Exec_StageNotFound id))
  | Some stage => resolve_distributed call 0 rt plan w stage_outputs (inputs stage) ∅
  end.
End distributed.

(** ** Gathering from every source *)

Section gathering.
Context `{Std} `{ArrowLaws RecordBatch Schema} `{HashOrder}.
Context (endpoints : gmap WorkerId string).
Context (fetch_results : string -> list Z -> result (list RecordBatch) StageExecutionError).
Implicit Types bs : list RecordBatch.

Definition sources_answer (rt : remote_tickets) (query : string) (id : StageId) (sources : list WorkerId)
    (bss : list (list RecordBatch)) : Prop :=
  Forall2 (fun w bs => fetch_from_worker endpoints fetch_results rt query id w = Ok bs) sources bss.

Lemma collect_answers rt query id sources bss acc sch errs :
  sources_answer rt query id sources bss ->
  foldl collect_fetch (acc, sch, errs)
    (zip sources (map (fetch_from_worker endpoints fetch_results rt query id) sources)) =
  (acc ++ concat bss, foldl note_schema sch (concat bss), errs).
Proof.
  intros Ha. revert acc sch. induction Ha as [|w bs ws bss Hw _ IH]; intros acc sch; simpl; [by rewrite app_nil_r|].
  rewrite Hw. simpl. rewrite IH, <- app_assoc, foldl_app. done.
Qed.

Lemma collect_errors_grow l acc : exists more, (foldl (collect_fetch (RecordBatch := RecordBatch)) acc l).2 = acc.2 ++ more.
Proof.
  revert acc. induction l as [|[w [bs|e]] l IH]; intros [[a s] errs]; simpl.
  - exists []. by rewrite app_nil_r.
  - apply IH.
  - destruct (IH (a, s, errs ++ [w +:+ ": " +:+ ExchangeError_display e])) as (more & ->). simpl.
    eexists. by rewrite <- app_assoc.
Qed.

(** One failed source is an error. *)
Lemma collect_failure rt query id sources w e acc :
  w ∈ sources -> fetch_from_worker endpoints fetch_results rt query id w = Err e ->
  (foldl collect_fetch acc
    (zip sources (map (fetch_from_worker endpoints fetch_results rt query id) sources))).2 <> [].
Proof.
  intros Hw He. revert acc. induction sources as [|w' ws IH]; intros [[a s] errs]; [by apply not_elem_of_nil in Hw|].
  apply elem_of_cons in Hw as [<-|Hw]; simpl.
  - rewrite He. simpl. match goal with |- (foldl _ ?acc ?l).2 <> [] => destruct (collect_errors_grow l acc) as (more & ->) end.
    simpl. destruct errs; done.
  - by apply IH.
Qed.

Lemma dist_gather_ok rt query id sources bss :
  sources_answer rt query id sources bss ->
  dist_gather endpoints fetch_results rt query id sources = Ret (Ok (concat bss)).
Proof.
  intros Ha. unfold dist_gather. rewrite (collect_answers _ _ _ _ _ _ _ _ Ha). simpl. by destruct (concat bss).
Qed.

(** The gather between workers is all or nothing: when every source
    worker answers it returns all their batches in the order of the sources,
    and when one of them fails the exchange fails, whatever the others
    returned. *)
Theorem dist_gather_all_or_nothing rt query id sources :
  (forall bss, sources_answer rt query id sources bss ->
     dist_gather endpoints fetch_results rt query id sources = Ret (Ok (concat bss))) /\
  (forall w e, w ∈ sources -> fetch_from_worker endpoints fetch_results rt query id w = Err e ->
     exists msg, dist_gather endpoints fetch_results rt query id sources = Ret (Err (FetchFailed msg))).
Proof.
  split; [apply dist_gather_ok|]. intros w e Hw He. unfold dist_gather.
  pose proof (collect_failure rt query id sources w e ([], None, []) Hw He) as Hne.
  destruct (foldl _ _ _) as [[a s] [|err errs]]; [done|]. by eexists.
Qed.

(** ** The hash exchange between workers *)

Lemma local_of_rows fs field_refs n ptw w b ps :
  fields (schema b) = fs -> length ptw = Z.to_nat n -> split_by_route b field_refs n ps ->
  exists mine, local_of ps (owned_partitions 0 ptw w) = Ret (Ok mine) /\
    rows_in mine ≡ₚ List.filter (fun r => bool_decide (owner fs field_refs n ptw r = Some w)) (rows b).
Proof.
  intros <- Ho [Hl Hps]. unfold local_of.
  destruct (exch_map_total (fun p => match ps !! p with Some b => Ret (Ok b) | None => Panic end)
    (fun p b' => rows b' = List.filter (fun r => bool_decide (route (fields (schema b)) field_refs n r = Some p)) (rows b))
    (owned_partitions 0 ptw w)) as (picked & -> & Hp).
  { apply Forall_forall. intros p [_ Hp]%owned_partitions_spec. rewrite Nat.sub_0_r in Hp. apply lookup_lt_Some in Hp.
    destruct (lookup_lt_is_Some_2 ps p) as [b' Hb']; [lia|]. exists b'. rewrite Hb'. split; [done|].
    by apply (Hps p b' Hb'). }
  simpl. eexists. split; [done|]. rewrite rows_in_nonempty, <- owned_rows. apply reflexive_eq.
  unfold rows_in. f_equal. induction Hp as [|p b' l l' Hr _ IH]; simpl; [done|]. by rewrite Hr, IH.
Qed.

Lemma local_batches_rows call k fs field_refs n ptw w bs :
  hashable fs field_refs = true -> 0 < n < u32_modulus -> length ptw = Z.to_nat n ->
  splittable call k fs field_refs bs ->
  exists mine, local_batches call k bs field_refs n (owned_partitions 0 ptw w) = Ret (Ok mine) /\
    rows_in mine ≡ₚ List.filter (fun r => bool_decide (owner fs field_refs n ptw r = Some w)) (rows_in bs).
Proof.
  intros Hh Hn Ho. revert k. induction bs as [|b bs IH]; intros k Hs; simpl; [by exists []|].
  apply splittable_cons in Hs as (Hf & Hu & Hs).
  destruct (hash_partition_batch_ok (k :: call) b field_refs n Hu ltac:(by rewrite Hf) Hn) as (ps & -> & Hps). simpl.
  destruct (local_of_rows fs field_refs n ptw w b ps Hf Ho Hps) as (mine & -> & Hmine). simpl.
  destruct (IH (S k) Hs) as (rest & -> & Hrest). simpl. eexists. split; [done|].
  change (rows_in (b :: bs)) with (rows b ++ rows_in bs).
  by rewrite rows_in_app, List.filter_app, Hmine, Hrest.
Qed.

(** The hash exchange between workers gives a worker exactly the rows
    whose partition it owns: when every source answers with batches of the
    same columns and without skew, the rows it returns are a permutation of
    the gathered rows whose key hashes to a partition of that worker. *)
Theorem dist_hash_partition_exact call rt query id sources column_refs n ptw w bss fs field_refs :
  sources_answer rt query id sources bss -> splittable call 0 fs field_refs (concat bss) ->
  resolve_column_indices column_refs fs = Ok field_refs -> hashable fs field_refs = true ->
  0 < n < u32_modulus -> length ptw = Z.to_nat n ->
  exists outs,
    dist_hash_partition endpoints fetch_results call rt query id sources column_refs n ptw w = Ret (Ok outs) /\
    rows_in outs ≡ₚ List.filter (fun r => bool_decide (owner fs field_refs n ptw r = Some w)) (rows_in (concat bss)).
Proof.
  intros Ha Hs Hc Hh Hn Ho. unfold dist_hash_partition. rewrite (dist_gather_ok _ _ _ _ _ Ha). simpl.
  destruct (local_batches_rows call 0 fs field_refs n ptw w (concat bss) Hh Hn Ho Hs) as (mine & Hmine & Hrows).
  destruct (concat bss) as [|first rest] eqn:Hb; [by eexists|]. rewrite <- Hb in *.
  destruct (Hs 0%nat first ltac:(by rewrite Hb)) as [Hfs _]. rewrite Hfs, Hc. simpl. rewrite Hmine. simpl.
  destruct mine as [|b mine]; eexists; (split; [done|]); [|done]. by rewrite rows_in_empty.
Qed.
End gathering.

(** ** Tickets of submitted stages *)

Section tickets.
Context {RecordBatch : Type}.
Context (remote_submit : WorkerId -> string -> Stage -> gmap string (list RecordBatch) ->
                         result (list Z) StageExecutionError).

Lemma ticket_key_inj query id w w' : ticket_key query id w = ticket_key query id w' -> w = w'.
Proof. unfold ticket_key. intros E. by repeat apply (inj (String.app _)) in E. Qed.

(** The tickets of a stage that was accepted by its workers. *)
Definition accepted (query : string) (stage : Stage) (ins : gmap string (list RecordBatch)) (ws : list WorkerId)
    (ts : StageTickets) : Prop :=
  exists bytes, Forall2 (fun w b => remote_submit w query stage ins = Ok b) ws bytes /\
    ts = concat (zip_with (fun w b => Flight.worker_tickets query stage w
           (Flight.with_flight_ticket (StageTicket_new query (stage_id stage) w) b)) ws bytes).

Lemma submit_to_workers_accepted c now query stage ins ws tickets ts c' :
  Flight.submit_to_workers remote_submit c now query stage ins ws tickets = (Ok ts, c') ->
  exists ts', accepted query stage ins ws ts' /\ ts = tickets ++ ts'.
Proof.
  revert c tickets. induction ws as [|w ws IH]; intros c tickets; simpl.
  { intros [= <- _]. exists []. split; [by exists []|]. by rewrite app_nil_r. }
  unfold Flight.submit_to_worker. destruct (remote_submit w query stage ins) as [b|] eqn:Hb; [|done].
  intros (ts' & (bytes & H2' & ->) & ->)%IH. eexists. split.
  - exists (b :: bytes). split; [by constructor|]. simpl. reflexivity.
  - by rewrite <- app_assoc.
Qed.

Lemma register_other rt ts query id w :
  Forall (fun t => tk_query_id t = query /\ tk_stage_id t = id /\ tk_worker_id t <> w) ts ->
  get_ticket (register_stage_tickets rt ts) query id w = get_ticket rt query id w.
Proof.
  intros Hts. revert rt. induction Hts as [|t ts (Hq & Hi & Hw) _ IH]; intros rt; simpl; [done|].
  unfold register_stage_tickets in *. simpl. rewrite IH. unfold get_ticket, register_stage_ticket, register_ticket.
  rewrite Hq, Hi. apply lookup_insert_ne. by intros ?%ticket_key_inj.
Qed.

Lemma worker_tickets_of query stage w t :
  tk_query_id t = query -> tk_stage_id t = stage_id stage -> tk_worker_id t = w ->
  Forall (fun t => tk_query_id t = query /\ tk_stage_id t = stage_id stage /\ tk_worker_id t = w)
    (Flight.worker_tickets query stage w t).
Proof.
  intros Hq Hi Hw. unfold Flight.worker_tickets. destruct (output stage); [by repeat constructor|].
  apply Forall_map, Forall_true. done.
Qed.

(** What is registered for a worker: the bytes of the last of its tickets. *)
Definition registered_bytes (query : string) (stage : Stage) (w : WorkerId) (b : list Z) : option (list Z) :=
  match last (Flight.worker_tickets query stage w (Flight.with_flight_ticket (StageTicket_new query (stage_id stage) w) b)) with
  | Some t => Some (default (str_bytes (ticket_id t)) (flight_ticket_bytes t))
  | None => None
  end.

Lemma register_worker rt ts query id w t :
  Forall (fun t => tk_query_id t = query /\ tk_stage_id t = id /\ tk_worker_id t = w) ts -> last ts = Some t ->
  get_ticket (register_stage_tickets rt ts) query id w = Some (default (str_bytes (ticket_id t)) (flight_ticket_bytes t)).
Proof.
  intros Hts Hl. apply last_Some in Hl as (l & ->). apply Forall_app in Hts as [_ [(Hq & Hi & Hw) _]%Forall_cons].
  unfold register_stage_tickets. rewrite foldl_app. simpl. unfold get_ticket, register_stage_ticket, register_ticket.
  rewrite Hq, Hi, Hw. by rewrite lookup_insert_eq.
Qed.

Lemma accepted_cons query stage ins w ws ts :
  accepted query stage ins (w :: ws) ts ->
  exists b ts', remote_submit w query stage ins = Ok b /\ accepted query stage ins ws ts' /\
    ts = Flight.worker_tickets query stage w (Flight.with_flight_ticket (StageTicket_new query (stage_id stage) w) b) ++ ts'.
Proof.
  intros (bytes & H2' & ->). inversion H2' as [|? b ? bytes' Hb H2'']; subst. exists b. eexists.
  split; [done|]. split; [by exists bytes'|]. done.
Qed.

Lemma accepted_workers query stage ins ws ts :
  accepted query stage ins ws ts ->
  Forall (fun t => tk_query_id t = query /\ tk_stage_id t = stage_id stage /\ tk_worker_id t ∈ ws) ts.
Proof.
  revert ts. induction ws as [|w ws IH]; intros ts Ha.
  { destruct Ha as (bytes & H2' & ->). inversion H2'. subst. constructor. }
  apply accepted_cons in Ha as (b & ts' & _ & Ha & ->). apply Forall_app. split.
  - eapply Forall_impl; [by apply worker_tickets_of|]. simpl. intros t (? & ? & ->). repeat split; [done|done|left].
  - eapply Forall_impl; [by apply IH|]. simpl. intros t (? & ? & ?). repeat split; [done|done|by right].
Qed.

Lemma registered_accepted rt query stage ins ws ts w :
  NoDup ws -> accepted query stage ins ws ts -> w ∈ ws ->
  exists b, remote_submit w query stage ins = Ok b /\
    (is_Some (registered_bytes query stage w b) ->
     get_ticket (register_stage_tickets rt ts) query (stage_id stage) w = registered_bytes query stage w b).
Proof.
  intros Hnd. revert rt ts. induction ws as [|w' ws IH]; intros rt ts Ha; [by intros ?%not_elem_of_nil|].
  apply NoDup_cons in Hnd as [Hni Hnd]. apply accepted_cons in Ha as (b & ts' & Hb & Ha & ->).
  unfold register_stage_tickets. rewrite foldl_app. intros [->|Hw]%elem_of_cons.
  - exists b. split; [done|]. intros Hsome. etrans; [apply register_other|].
    + eapply Forall_impl; [by eapply accepted_workers|]. simpl. intros t (? & ? & Ht). repeat split; [done|done|].
      intros E. by rewrite E in Ht.
    + unfold registered_bytes in *. destruct (last _) as [t|] eqn:Hl; [|by destruct Hsome].
      by apply register_worker; [apply worker_tickets_of|].
  - by apply (IH Hnd _ ts' Ha Hw).
Qed.
Lemma accepted_sources query stage ins ws ts :
  accepted query stage ins ws ts ->
  map tk_worker_id ts =
  concat (map (fun w => replicate (match output stage with Stream => 1 | Partitioned n _ => Z.to_nat n end) w) ws).
Proof.
  revert ts. induction ws as [|w ws IH]; intros ts Ha.
  { destruct Ha as (bytes & H2' & ->). by inversion H2'. }
  apply accepted_cons in Ha as (b & ts' & _ & Ha & ->). simpl. rewrite map_app, (IH ts' Ha). f_equal.
  unfold Flight.worker_tickets. destruct (output stage) as [|n refs]; [done|].
  rewrite map_map. simpl. clear. unfold seqZ. rewrite map_map.
  rewrite <- (length_seq (Z.to_nat n) 0) at 2. induction (seq 0 (Z.to_nat n)) as [|i l IH]; simpl; [done|]. by rewrite IH.
Qed.

(** After a stage with a stream output was submitted over Flight and its
    tickets were registered, every target worker is a source exactly once and
    the ticket registered for it is the one that worker answered with. *)
Theorem stream_stage_registered c now rt query stage ins ts c' :
  NoDup (target_workers stage) -> output stage = Stream ->
  Flight.flight_submit_stage remote_submit c now query stage ins = (Ok ts, c') ->
  map tk_worker_id ts = target_workers stage /\
  forall w, w ∈ target_workers stage ->
    exists b, remote_submit w query stage ins = Ok b /\
      get_ticket (register_stage_tickets rt ts) query (stage_id stage) w = Some b.
Proof.
  intros Hnd Ho (ts' & Ha & ->)%submit_to_workers_accepted. simpl. split.
  - rewrite (accepted_sources _ _ _ _ _ Ha), Ho. clear. induction (target_workers stage); simpl; [done|]. by f_equal.
  - intros w Hw. destruct (registered_accepted rt _ _ _ _ _ w Hnd Ha Hw) as (b & Hb & Hreg). exists b. split; [done|].
    unfold registered_bytes, Flight.worker_tickets in Hreg. rewrite Ho in Hreg. apply Hreg. by eexists.
Qed.

(** After a stage with a partitioned output was submitted over Flight, the
    ticket registered for a worker is not the one the worker answered with but
    the text of the identifier made up for its last partition, and every
    worker is listed as a source once per partition. *)
Theorem partitioned_ticket_lost c now rt query stage ins ts c' n refs :
  NoDup (target_workers stage) -> output stage = Partitioned n refs -> 0 < n ->
  Flight.flight_submit_stage remote_submit c now query stage ins = (Ok ts, c') ->
  map tk_worker_id ts = concat (map (replicate (Z.to_nat n)) (target_workers stage)) /\
  forall w, w ∈ target_workers stage ->
    get_ticket (register_stage_tickets rt ts) query (stage_id stage) w =
    Some (str_bytes (ticket_id (StageTicket_partitioned query (stage_id stage) w (n - 1)))).
Proof.
  intros Hnd Ho Hn (ts' & Ha & ->)%submit_to_workers_accepted. simpl. split.
  - by rewrite (accepted_sources _ _ _ _ _ Ha), Ho.
  - intros w Hw. destruct (registered_accepted rt _ _ _ _ _ w Hnd Ha Hw) as (b & _ & Hreg).
    assert (Hlast : registered_bytes query stage w b =
      Some (str_bytes (ticket_id (StageTicket_partitioned query (stage_id stage) w (n - 1))))).
    { unfold registered_bytes, Flight.worker_tickets. rewrite Ho.
      assert (E : seqZ 0 n = seqZ 0 (n - 1) ++ [n - 1]).
      { replace n with (n - 1 + 1) at 1 by lia. rewrite seqZ_app by lia. done. }
      rewrite E, map_app. simpl. by rewrite last_snoc. }
    rewrite Hlast in Hreg. apply Hreg. by eexists.
Qed.
End tickets.

(** ** Concrete exchanges *)

#[local] Existing Instance demo_std.
#[local] Existing Instance demo_order.
#[local] Existing Instance Table.arrow.
#[local] Existing Instance Table.laws.

(** Two workers, each with one ticket for the stage; a worker knows its own
    ticket only. *)
Definition demo_endpoints : gmap WorkerId string := <["w1" := "http://w1"]> {[ "w2" := "http://w2" ]}.
Definition demo_submit (w : WorkerId) (query : string) (stage : Stage) (ins : gmap string (list Table.t))
    : result (list Z) StageExecutionError := Ok (str_bytes ("result-of-" +:+ w)).
Definition demo_fetch_results (endpoint : string) (bytes : list Z) : result (list Table.t) StageExecutionError :=
  if decide (endpoint = "http://w1" /\ bytes = str_bytes "result-of-w1") then Ok [demo_small]
  else if decide (endpoint = "http://w2" /\ bytes = str_bytes "result-of-w2") then Ok [demo_other; demo_small]
  else Err (ExecutionFailed "unknown ticket").

Definition demo_scan_stage (o : StageOutput) : Stage :=
  mkStage 0 ["w1"; "w2"] [LocalCatalog] o "SELECT k, v FROM t" StageLimits_default.

Definition demo_stage_tickets (o : StageOutput) : StageTickets :=
  match Flight.flight_submit_stage demo_submit ∅ 0 "q" (demo_scan_stage o) ∅ with (Ok ts, _) => ts | _ => [] end.
Definition demo_runtime (o : StageOutput) : remote_tickets := register_stage_tickets ∅ (demo_stage_tickets o).

Lemma demo_sources :
  sources_answer demo_endpoints demo_fetch_results (demo_runtime Stream) "q" 0 ["w1"; "w2"]
    [[demo_small]; [demo_other; demo_small]].
Proof. repeat constructor. Qed.

Lemma dist_hash_partition_exact_witness :
  exists outs,
    dist_hash_partition demo_endpoints demo_fetch_results [] (demo_runtime Stream) "q" 0 ["w1"; "w2"]
      [mkColumnRef None "K"] 3 ["w1"; "w2"; "w1"] "w2" = Ret (Ok outs) /\
    rows_in outs ≡ₚ List.filter (fun r => bool_decide (owner demo_schema [0] 3 ["w1"; "w2"; "w1"] r = Some "w2"))
      (rows_in (concat [[demo_small]; [demo_other; demo_small]])).
Proof.
  apply (dist_hash_partition_exact demo_endpoints demo_fetch_results [] (demo_runtime Stream) "q" 0 ["w1"; "w2"]
           [mkColumnRef None "K"] 3 ["w1"; "w2"; "w1"] "w2" [[demo_small]; [demo_other; demo_small]] demo_schema [0]);
    try reflexivity.
  - exact demo_sources.
  - intros [|[|[|i]]] b; simpl; intros [= <-]; split; vm_compute; reflexivity.
  - split; reflexivity.
Defined.

Lemma dist_gather_all_or_nothing_witness :
  dist_gather demo_endpoints demo_fetch_results (demo_runtime Stream) "q" 0 ["w1"; "w2"]
    = Ret (Ok [demo_small; demo_other; demo_small]) /\
  exists msg, dist_gather demo_endpoints demo_fetch_results (demo_runtime Stream) "q" 0 ["w1"; "w3"; "w2"]
    = Ret (Err (FetchFailed msg)).
Proof.
  split.
  - apply (proj1 (dist_gather_all_or_nothing demo_endpoints demo_fetch_results (demo_runtime Stream) "q" 0 ["w1"; "w2"])
      [[demo_small]; [demo_other; demo_small]] demo_sources).
  - apply (proj2 (dist_gather_all_or_nothing demo_endpoints demo_fetch_results (demo_runtime Stream) "q" 0
      ["w1"; "w3"; "w2"]) "w3" (FetchFailed "No ticket for query=q, stage=0, worker=w3")).
    + right. left.
    + vm_compute. reflexivity.
Defined.

Lemma demo_stage_workers o : NoDup (target_workers (demo_scan_stage o)).
Proof. apply (bool_decide_eq_true_1 (NoDup ["w1"; "w2"])). reflexivity. Qed.

Lemma stream_stage_registered_witness :
  map tk_worker_id (demo_stage_tickets Stream) = ["w1"; "w2"] /\
  exists b, demo_submit "w2" "q" (demo_scan_stage Stream) ∅ = Ok b /\
    get_ticket (demo_runtime Stream) "q" 0 "w2" = Some b.
Proof.
  destruct (stream_stage_registered demo_submit ∅ 0 ∅ "q" (demo_scan_stage Stream) ∅ (demo_stage_tickets Stream) _
    (demo_stage_workers _) eq_refl eq_refl) as [Hs Hr].
  split; [exact Hs|]. apply (Hr "w2"). right. left.
Defined.

Lemma partitioned_ticket_lost_witness :
  map tk_worker_id (demo_stage_tickets (Partitioned 3 [])) = ["w1"; "w1"; "w1"; "w2"; "w2"; "w2"] /\
  get_ticket (demo_runtime (Partitioned 3 [])) "q" 0 "w2" = Some (str_bytes "stage_0_worker_w2_p2").
Proof.
  destruct (partitioned_ticket_lost demo_submit ∅ 0 ∅ "q" (demo_scan_stage (Partitioned 3 [])) ∅
    (demo_stage_tickets (Partitioned 3 [])) _ 3 [] (demo_stage_workers _) eq_refl eq_refl eq_refl) as [Hs Hr].
  split; [exact Hs|]. etrans; [apply (Hr "w2"); right; left|]. vm_compute. reflexivity.
Defined.

(** A hash exchange out of a partitioned stage asks the workers for tickets
    they never gave out. *)
Example partitioned_exchange_fails :
  exists msg, dist_hash_partition demo_endpoints demo_fetch_results [] (demo_runtime (Partitioned 3 [])) "q" 0
    (map tk_worker_id (demo_stage_tickets (Partitioned 3 []))) [mkColumnRef None "k"] 3 ["w1"; "w2"; "w1"] "w1"
  = Ret (Err (FetchFailed msg)).
Proof. eexists. vm_compute. reflexivity. Qed.

(** A broadcast reads the first source only: the rows the other workers of
    the upstream stage hold are not part of it. *)
Theorem broadcast_reads_first_source :
  edge_for_worker demo_endpoints demo_fetch_results [] (demo_runtime Stream) "q"
    (mkEdge 0 (Broadcast ["w1"; "w2"]) 0 1 []) (map tk_worker_id (demo_stage_tickets Stream)) "w2"
  = Ret (Ok [demo_small]) /\
  demo_fetch_results "http://w2" (str_bytes "result-of-w2") = Ok [demo_other; demo_small].
Proof. split; vm_compute; reflexivity. Qed.
