(* ===== verification/Coordinator.v ===== *)
(** * Scheduling the stages of a plan (ldp/executor/coordinator.rs)

    The coordinator groups the stages of a plan into levels: the stages of a
    level depend on earlier levels only and run concurrently.  A stage that
    fails with a transient error is submitted again, with a growing pause.
    The order in which a [HashMap] is iterated decides the order inside the
    first level only. *)

From stdpp Require Import pretty.
From S2P Require Import Prelude SqlAst LogicalPlan LdpTypes TopoOrder Policy Annotate Enforce Cut CutShape CutPlan Admission Pipeline.
From S2P Require Import Arrow HashPartition ExchangeRuntime StageExec Distributed.

#[local] Open Scope Z_scope.

(** The errors of the coordinator. *)
Inductive CoordinatorError :=
| AdmissionRejected (e : AdmissionError)
| CE_TransformFailed (msg : string)
| PlanningFailed (e : PipelineError)
| CE_ExecutionFailed (e : ExecutionError)
| ConnectionFailed (msg : string)
| WorkerFailed (w : WorkerId) (msg : string)
| CE_Timeout (after : Z)
| InvalidConfig (msg : string)
| CE_InvalidPlan (msg : string).

(** ** Execution levels *)

(** The counts of the edges into the stages; an edge into a stage that does
    not exist counts nothing. *)
Definition count_edge (deg : gmap StageId Z) (e : ExchangeEdge) : gmap StageId Z :=
  match deg !! to_stage e with
  | Some d => <[to_stage e := d + 1]> deg
  | None => deg
  end.

Definition initial_degrees (p : LdpPlan) : gmap StageId Z :=
  foldl count_edge (foldl (fun m s => <[stage_id s := 0]> m) ∅ (stages p)) (edges p).

(** [*degree -= 1] on a [usize], and the push at zero. *)
Definition release (st : list StageId * gmap StageId Z) (dependent : StageId) : list StageId * gmap StageId Z :=
  let '(queue, deg) := st in
  match deg !! dependent with
  | Some d =>
      let d' := wrap64 (d - 1) in
      (if d' =? 0 then queue ++ [dependent] else queue, <[dependent := d']> deg)
  | None => st
  end.

(** The loop over the edges out of a popped stage. *)
Definition release_edges (p : LdpPlan) (st : list StageId * gmap StageId Z) (id : StageId)
    : list StageId * gmap StageId Z :=
  foldl (fun st e => if from_stage e =? id then release st (to_stage e) else st) st (edges p).

(** [for _ in 0..current_level_size]: pop, note, release. *)
Fixpoint run_level (size : nat) (p : LdpPlan) (st : list StageId * gmap StageId Z) (level : list StageId)
    : list StageId * gmap StageId Z * list StageId :=
  match size with
  | O => (st, level)
  | S size =>
      match st with
      | (id :: queue, deg) => run_level size p (release_edges p (queue, deg) id) (level ++ [id])
      | ([], deg) => run_level size p ([], deg) level
      end
  end.

Fixpoint levels_loop (fuel : nat) (p : LdpPlan) (st : list StageId * gmap StageId Z) (levels : list (list StageId))
    : outcome (list (list StageId) * gmap StageId Z) :=
  match fuel with
  | O => OutOfFuel
  | S fuel =>
      match st with
      | ([], deg) => Ret (levels, deg)
      | (queue, _) =>
          let '(st, level) := run_level (length queue) p st [] in levels_loop fuel p st (levels ++ [level])
      end
  end.

(** [{:?}] of a vector of stage ids. *)
Definition stage_ids_debug (l : list StageId) : string :=
  "[" +:+ String.concat ", " (map (fun id => "StageId(" +:+ pretty id +:+ ")") l) +:+ "]".

(** Every level but the last run takes at least one stage out of the queue, a
    stage enters it once: one more than the number of stages is enough. *)
Definition compute_execution_levels `{HashOrder} (call : list nat) (p : LdpPlan)
    : outcome (result (list (list StageId)) CoordinatorError) :=
  let deg := initial_degrees p in
  let entries := map_order call (map_to_list deg) in
  let queue := map fst (List.filter (fun e : StageId * Z => e.2 =? 0) entries) in
  let! r := levels_loop (S (length (stages p))) p (queue, deg) [] in
  let '(levels, deg') := r in
  if (length (concat levels) <? length (stages p))%nat then
    let unprocessed := map fst (List.filter (fun e : StageId * Z => 0 <? e.2) (map_order call (map_to_list deg'))) in
    Ret (Err (CE_InvalidPlan ("Cycle detected in stage dependencies. Stages involved: " +:+ stage_ids_debug unprocessed)))
  else Ret (Ok levels).

(** ** Retries *)

Definition ExecutionError_display (e : ExecutionError) : string :=
  match e with
  | Exec_StageNotFound id => "Stage " +:+ pretty id +:+ " not found"
  | StageFailed id m => "Stage " +:+ pretty id +:+ " execution failed: " +:+ m
  | ExchangeFailed m => "Exchange failed: " +:+ m
  | InvalidPlan m => "Invalid plan: " +:+ m
  end.

Definition is_retryable_error `{Std} (e : ExecutionError) : bool :=
  let msg := to_lowercase (ExecutionError_display e) in
  str_contains msg "unavailable" || str_contains msg "deadline_exceeded" ||
  str_contains msg "connection refused" || str_contains msg "timed out" || str_contains msg "broken pipe".

(** The loop: [left] submissions are left, [retries] were retried; the pauses
    are returned in milliseconds. *)
Section retry.
Context `{Std} {E : Type} (submit : E -> result StageTickets StageExecutionError * E) (id : StageId) (max_stage_retries : nat).

Fixpoint retry_loop (left_ : nat) (retries : nat) (last_error : option ExecutionError) (ex : E)
    : result StageTickets ExecutionError * E * list Z :=
  match left_ with
  | O =>
      (Err (StageFailed id ("Failed after " +:+ pretty (Z.of_nat max_stage_retries) +:+ " retries: "
              +:+ match last_error with Some e => ExecutionError_display e | None => EmptyString end)), ex, [])
  | S left' =>
      match submit ex with
      | (Ok tickets, ex') => (Ok tickets, ex', [])
      | (Err e, ex') =>
          let exec_err := StageFailed id (StageExecutionError_display e) in
          if is_retryable_error exec_err then
            let pause := if (S retries <=? max_stage_retries)%nat then [wrap64 (100 * 2 ^ Z.of_nat retries)] else [] in
            let '(r, ex'', pauses) := retry_loop left' (S retries) (Some exec_err) ex' in
            (r, ex'', pause ++ pauses)
          else (Err exec_err, ex', [])
      end
  end.

Definition execute_stage_with_retry (ex : E) : result StageTickets ExecutionError * E * list Z :=
  retry_loop (S max_stage_retries) 0 None ex.
End retry.

(** ** Levels are correct *)

Lemma release_edges_downstream p st id : release_edges p st id = foldl release st (downstream_stages p id).
Proof.
  unfold release_edges, downstream_stages. revert st. induction (edges p) as [|e es IH]; intros st; simpl; [done|].
  destruct (from_stage e =? id); simpl; apply IH.
Qed.

Lemma occurrences_cons v a l : occurrences v (a :: l) = ((if decide (v = a) then 1 else 0) + occurrences v l)%nat.
Proof. unfold occurrences. simpl. destruct (Z.eqb_spec v a), (decide (v = a)); done. Qed.

(** What releasing a list of dependents does: the degrees drop by the number
    of occurrences, and the stages that reach zero are queued, once each. *)
Lemma release_all ds q deg :
  (forall v d, deg !! v = Some d -> Z.of_nat (occurrences v ds) <= d < u64_modulus) ->
  exists extra deg', foldl release (q, deg) ds = (q ++ extra, deg') /\ NoDup extra /\
    (forall v, v ∈ extra <-> v ∈ ds /\ deg !! v = Some (Z.of_nat (occurrences v ds))) /\
    (forall v, deg' !! v = (fun d => d - Z.of_nat (occurrences v ds)) <$> deg !! v).
Proof.
  revert q deg. induction ds as [|a ds IH]; intros q deg Hd; simpl.
  { exists [], deg. rewrite app_nil_r. split; [done|]. split; [constructor|]. split.
    - intros v. split; [by intros ?%not_elem_of_nil|by intros [?%not_elem_of_nil _]].
    - intros v. destruct (deg !! v); simpl; [|done]. f_equal. unfold occurrences. simpl. lia. }
  destruct (deg !! a) as [d|] eqn:Ha.
  - pose proof (Hd a d Ha) as Hda. rewrite occurrences_cons, decide_True in Hda by done.
    assert (Hw : wrap64 (d - 1) = d - 1) by (unfold wrap64; apply Z.mod_small; lia). rewrite Hw.
    destruct (IH (if d - 1 =? 0 then q ++ [a] else q) (<[a := d - 1]> deg)) as (extra & deg' & Hrun & Hnd & Hin & Hdeg).
    { intros v d'. destruct (decide (v = a)) as [->|Hne].
      - rewrite lookup_insert_eq. intros [= <-]. lia.
      - rewrite lookup_insert_ne by done. intros Hv. specialize (Hd v d' Hv).
        by rewrite occurrences_cons, decide_False in Hd. }
    exists ((if d - 1 =? 0 then [a] else []) ++ extra), deg'. split.
    { rewrite Hrun. f_equal. destruct (d - 1 =? 0); simpl; by rewrite <- ?app_assoc. }
    assert (Hae : a ∈ extra -> d - 1 = Z.of_nat (occurrences a ds) /\ 0 < d - 1).
    { intros [Hds E]%Hin. rewrite lookup_insert_eq in E. injection E as E.
      pose proof (proj2 (occurrences_pos a ds) Hds). lia. }
    split; [|split].
    + destruct (Z.eqb_spec (d - 1) 0) as [Hz|Hz]; simpl; [|done]. constructor; [|done]. intros Hx%Hae. lia.
    + intros v. rewrite elem_of_app, Hin, elem_of_cons, occurrences_cons.
      destruct (decide (v = a)) as [->|Hne]; rewrite ?lookup_insert_eq, ?lookup_insert_ne by done.
      * rewrite Ha. destruct (Z.eqb_spec (d - 1) 0) as [Hz|Hz]; rewrite ?list_elem_of_singleton, ?elem_of_nil.
        -- split; [|intros _; by left]. intros _. split; [by left|]. f_equal. lia.
        -- split; [intros [[]|[? [= ?]]]; split; [by left|f_equal; lia]|]. intros [_ [= E]]. right.
           assert (Ho : (0 < occurrences a ds)%nat) by lia. split; [by apply occurrences_pos|f_equal; lia].
      * simpl. destruct (d - 1 =? 0); rewrite ?list_elem_of_singleton, ?elem_of_nil; tauto.
    + intros v. rewrite Hdeg, occurrences_cons. destruct (decide (v = a)) as [->|Hne].
      * rewrite lookup_insert_eq, Ha. simpl. f_equal. lia.
      * by rewrite lookup_insert_ne.
  - destruct (IH q deg) as (extra & deg' & Hrun & Hnd & Hin & Hdeg).
    { intros v d Hv. pose proof (Hd v d Hv) as Hvd. rewrite occurrences_cons in Hvd. destruct (decide (v = a)); lia. }
    exists extra, deg'. rewrite Hrun. split; [done|]. split; [done|]. split.
    + intros v. rewrite Hin, elem_of_cons, occurrences_cons.
      destruct (decide (v = a)) as [->|Hne]; [rewrite Ha; split; by intros [_ ?]|]. simpl. tauto.
    + intros v. rewrite Hdeg, occurrences_cons. destruct (decide (v = a)) as [->|]; [by rewrite Ha|done].
Qed.

(** The stages that were processed, the queue and the degrees between two
    pops. *)
Record level_inv (p : LdpPlan) (vis : gset StageId) (q : list StageId) (deg : gmap StageId Z) : Prop := {
  li_degree v : deg !! v = if decide (v ∈ ids p) then Some (Z.of_nat (pending p vis v)) else None;
  li_queue v : v ∈ q <-> v ∈ ids p /\ (v ∉ vis) /\ pending p vis v = 0%nat;
  li_nodup : NoDup q;
  li_visited v : v ∈ vis -> v ∈ ids p /\ pending p vis v = 0%nat;
}.

Lemma pending_le p vis v : (pending p vis v <= length (edges p))%nat.
Proof. apply List.filter_length_le. Qed.

Lemma level_visit p vis id q deg :
  Z.of_nat (length (edges p)) < u64_modulus -> level_inv p vis (id :: q) deg ->
  exists extra deg', release_edges p (q, deg) id = (q ++ extra, deg') /\ level_inv p ({[id]} ∪ vis) (q ++ extra) deg'.
Proof.
  intros He [Hdeg Hq [Hniq Hndq]%NoDup_cons Hvis]. rewrite release_edges_downstream.
  destruct (proj1 (Hq id) ltac:(left)) as (Hid & Hnv & Hpid).
  pose proof (fun v => pending_visit p vis v id Hnv) as Hpv.
  destruct (release_all (downstream_stages p id) q deg) as (extra & deg' & Hrun & Hnd & Hin & Hdeg').
  { intros v d. rewrite Hdeg. destruct (decide _); [|done]. intros [= <-].
    pose proof (pending_le p vis v). specialize (Hpv v). lia. }
  assert (Hextra : forall v, v ∈ extra <-> v ∈ ids p /\ v ∈ downstream_stages p id /\ pending p ({[id]} ∪ vis) v = 0%nat).
  { intros v. rewrite Hin, Hdeg. specialize (Hpv v). destruct (decide (v ∈ ids p)); [|by split; [intros [_ ?]|intros [? _]]].
    split; [intros [? [= ?]]|intros (_ & ? & ?)]; [by repeat split; [..|lia]|split; [done|f_equal; lia]]. }
  assert (Hpos : forall v, v ∈ downstream_stages p id -> (0 < pending p vis v)%nat).
  { intros v Hv%occurrences_pos. specialize (Hpv v). lia. }
  exists extra, deg'. split; [done|]. split.
  - intros v. rewrite Hdeg', Hdeg. specialize (Hpv v). destruct (decide _); [|done]. simpl. f_equal. lia.
  - intros v. rewrite elem_of_app, Hextra. specialize (Hpv v). split.
    + intros [Hv|(Hv & Hds & Hz)].
      * destruct (proj1 (Hq v) ltac:(by right)) as (? & ? & ?). repeat split; [done| |lia].
        rewrite not_elem_of_union, not_elem_of_singleton. split; [|done]. by intros ->.
      * specialize (Hpos v Hds). repeat split; [done| |done]. rewrite not_elem_of_union, not_elem_of_singleton.
        split; [intros ->; lia|]. intros [_ ?]%Hvis. lia.
    + intros (Hv & [Hne Hnv']%not_elem_of_union & Hz). rewrite not_elem_of_singleton in Hne.
      destruct (decide (v ∈ downstream_stages p id)) as [|Hnd']; [by right|]. left.
      rewrite (occurrences_zero _ _ Hnd') in Hpv.
      assert (Hvq : v ∈ id :: q) by (apply Hq; repeat split; [done|done|lia]). by apply elem_of_cons in Hvq as [?|?].
  - apply NoDup_app. repeat split; [done| |done]. intros v Hv (_ & Hds & _)%Hextra.
    specialize (Hpos v Hds). destruct (proj1 (Hq v) ltac:(by right)) as (_ & _ & ?). lia.
  - intros v Hv. specialize (Hpv v). apply elem_of_union in Hv as [->%elem_of_singleton|[? ?]%Hvis]; (split; [done|lia]).
Qed.

Lemma run_level_ok p vis cur nxt deg level :
  Z.of_nat (length (edges p)) < u64_modulus -> level_inv p vis (cur ++ nxt) deg ->
  exists q' deg', run_level (length cur) p (cur ++ nxt, deg) level = (q', deg', level ++ cur) /\
    level_inv p (list_to_set cur ∪ vis) q' deg'.
Proof.
  intros He. revert vis nxt deg level. induction cur as [|id cur IH]; intros vis nxt deg level Hi; simpl.
  { exists nxt, deg. rewrite app_nil_r, (left_id_L ∅ (∪)). done. }
  destruct (level_visit p vis id (cur ++ nxt) deg He Hi) as (extra & deg' & -> & Hi'). rewrite <- app_assoc in *.
  destruct (IH _ _ _ (level ++ [id]) Hi') as (q' & deg'' & -> & Hi''). exists q', deg''. split; [by rewrite <- app_assoc|].
  by rewrite (assoc_L (∪)), (comm_L (∪) (list_to_set cur)) in Hi''.
Qed.

(** Every stage is listed after the sources of its edges, in a later level. *)
Definition upstream_earlier (p : LdpPlan) (levels : list (list StageId)) : Prop :=
  forall i level v e, levels !! i = Some level -> v ∈ level -> e ∈ edges p -> to_stage e = v ->
    from_stage e ∈ concat (take i levels).

Record levels_inv (p : LdpPlan) (levels : list (list StageId)) (q : list StageId) (deg : gmap StageId Z) : Prop := {
  lv_inv : level_inv p (list_to_set (concat levels)) q deg;
  lv_nodup : NoDup (concat levels);
  lv_earlier : upstream_earlier p levels;
  lv_nonempty : Forall (fun l => l <> []) levels;
}.

Lemma levels_inv_length p levels q deg :
  NoDup (ids p) -> levels_inv p levels q deg -> (length (concat levels) <= length (stages p))%nat.
Proof.
  intros Hnd [Hi Hc _ _]. rewrite <- (length_map stage_id). apply (submseteq_length (concat levels) (ids p)).
  apply NoDup_submseteq; [done|]. intros v Hv. apply (li_visited _ _ _ _ Hi v). by apply elem_of_list_to_set.
Qed.

Lemma levels_step p levels id q deg :
  Z.of_nat (length (edges p)) < u64_modulus -> levels_inv p levels (id :: q) deg ->
  exists q' deg', run_level (length (id :: q)) p (id :: q, deg) [] = (q', deg', id :: q) /\
    levels_inv p (levels ++ [id :: q]) q' deg'.
Proof.
  intros He [Hi Hnd Hup Hne]. destruct (run_level_ok p (list_to_set (concat levels)) (id :: q) [] deg [] He) as (q' & deg' & Hrun & Hi').
  { by rewrite app_nil_r. }
  rewrite app_nil_r in Hrun. exists q', deg'. split; [exact Hrun|].
  assert (Hcat : concat (levels ++ [id :: q]) = concat levels ++ id :: q) by (rewrite concat_app; simpl; by rewrite app_nil_r).
  pose proof (fun v => proj1 (li_queue _ _ _ _ Hi v)) as Hq.
  split.
  - rewrite Hcat, list_to_set_app_L, (comm_L (∪)). exact Hi'.
  - rewrite Hcat. apply NoDup_app. repeat split; [done| |exact (li_nodup _ _ _ _ Hi)].
    intros v Hv (_ & Hnv & _)%Hq. apply Hnv. by apply elem_of_list_to_set.
  - intros i level v e Hlv Hv Hed Hto. destruct (decide (i < length levels)%nat) as [Hlt|Hge].
    + rewrite lookup_app_l in Hlv by done. rewrite take_app_le by lia. by eapply Hup.
    + apply lookup_app_Some in Hlv as [?%lookup_lt_Some|[Hle Hlv]]; [lia|]. apply list_lookup_singleton_Some in Hlv as [Hi0 <-].
      replace i with (length levels) by lia. rewrite take_app_length.
      destruct (Hq v Hv) as (_ & _ & Hz). rewrite pending_zero in Hz.
      specialize (Hz e Hed Hto). by apply elem_of_list_to_set in Hz.
  - apply Forall_app. split; [done|]. by repeat constructor.
Qed.

Lemma levels_loop_ok p fuel levels q deg :
  Z.of_nat (length (edges p)) < u64_modulus -> NoDup (ids p) -> levels_inv p levels q deg ->
  (length (stages p) < fuel + length (concat levels))%nat ->
  exists levels' deg', levels_loop fuel p (q, deg) levels = Ret (levels', deg') /\ levels_inv p levels' [] deg'.
Proof.
  intros He Hnd. revert levels q deg. induction fuel as [|fuel IH]; intros levels q deg Hi Hf.
  { pose proof (levels_inv_length _ _ _ _ Hnd Hi). lia. }
  cbn [levels_loop]. destruct q as [|id q]; [by eauto|].
  destruct (levels_step p levels id q deg He Hi) as (q' & deg' & -> & Hi'). apply IH; [done|].
  rewrite concat_app, length_app. simpl. lia.
Qed.

Lemma initial_degrees_spec p v :
  initial_degrees p !! v = if decide (v ∈ ids p) then Some (Z.of_nat (pending p ∅ v)) else None.
Proof.
  assert (Hs : forall l m, foldl (fun m s => <[stage_id s := 0]> m) m l !! v =
    if decide (v ∈ map stage_id l) then Some 0 else (m : gmap StageId Z) !! v).
  { induction l as [|s l IH]; intros m.
    { rewrite decide_False by apply not_elem_of_nil. done. }
    cbn [foldl map]. rewrite IH. destruct (decide (v ∈ map stage_id l)) as [Hv|Hv].
    - by rewrite decide_True by (by right).
    - destruct (decide (v = stage_id s)) as [->|Hne].
      + by rewrite lookup_insert_eq, decide_True by left.
      + rewrite lookup_insert_ne by done. rewrite decide_False; [done|]. by rewrite elem_of_cons; intros [?|?]. }
  assert (Hc : forall es m, foldl count_edge m es !! v =
    (fun d => d + Z.of_nat (length (List.filter (fun e => to_stage e =? v) es))) <$> m !! v).
  { induction es as [|e es IH]; intros m; simpl; [destruct (m !! v); simpl; [f_equal; lia|done]|].
    rewrite IH. unfold count_edge. destruct (Z.eqb_spec (to_stage e) v) as [->|Hne].
    - destruct (m !! v) as [d|] eqn:E; [rewrite lookup_insert_eq|rewrite E; done]. simpl. f_equal. lia.
    - destruct (m !! to_stage e); [|done]. by rewrite lookup_insert_ne. }
  unfold initial_degrees. rewrite Hc, Hs, lookup_empty. fold (ids p). rewrite pending_empty. unfold upstream_stages.
  rewrite length_map. by destruct (decide (v ∈ ids p)).
Qed.

Lemma initial_level_inv `{HashOrder} call p :
  level_inv p ∅ (map fst (List.filter (fun e : StageId * Z => e.2 =? 0) (map_order call (map_to_list (initial_degrees p)))))
    (initial_degrees p).
Proof.
  assert (Hin : forall v, v ∈ map fst (List.filter (fun e : StageId * Z => e.2 =? 0)
      (map_order call (map_to_list (initial_degrees p)))) <-> initial_degrees p !! v = Some 0).
  { intros v. rewrite <- elem_of_map_to_list, list_elem_of_fmap. split.
    - intros ([v' d] & -> & [Hv Hz]%list_elem_of_In%filter_In). simpl in *. apply Z.eqb_eq in Hz as ->.
      apply list_elem_of_In in Hv. by rewrite (map_order_perm call _ (map_to_list (initial_degrees p))) in Hv.
    - intros Hv. exists (v, 0). split; [done|]. apply list_elem_of_In, filter_In. split; [|done].
      apply list_elem_of_In. by rewrite (map_order_perm call _ (map_to_list (initial_degrees p))). }
  split.
  - apply initial_degrees_spec.
  - intros v. rewrite Hin, initial_degrees_spec. destruct (decide (v ∈ ids p)); [|by split; [|intros [? _]]].
    split; [intros [= ?]; repeat split; [done|set_solver|lia]|]. intros (_ & _ & ->). done.
  - assert (Hnd : NoDup (map fst (map_order call (map_to_list (initial_degrees p))))).
    { change (map fst ?l) with (fst <$> l). rewrite (map_order_perm call _ (map_to_list (initial_degrees p))).
      apply NoDup_fst_map_to_list. }
    clear Hin. induction (map_order call (map_to_list (initial_degrees p))) as [|e l IH]; simpl; [constructor|].
    apply NoDup_cons in Hnd as [Hni Hnd]. destruct (e.2 =? 0); simpl; [|by apply IH].
    constructor; [|by apply IH]. intros (e' & E & [Hi _]%list_elem_of_In%filter_In)%list_elem_of_fmap.
    apply Hni, list_elem_of_fmap. exists e'. split; [done|]. by apply list_elem_of_In.
  - intros v Hv. set_solver.
Qed.

(** Stages that wait for each other, or for a stage that does not exist. *)
Definition waiting_forever (p : LdpPlan) (stuck : list StageId) : Prop :=
  stuck <> [] /\ (forall v, v ∈ stuck -> v ∈ ids p) /\
  forall v, v ∈ stuck -> exists e, e ∈ edges p /\ to_stage e = v /\ (from_stage e ∈ stuck \/ from_stage e ∉ ids p).

Lemma pending_pos p vis v :
  pending p vis v <> 0%nat -> exists e, e ∈ edges p /\ to_stage e = v /\ from_stage e ∉ vis.
Proof.
  unfold pending. intros Hz. destruct (List.filter _ (edges p)) as [|e l] eqn:Hf; [done|].
  assert (Hin : In e (List.filter (fun e => (to_stage e =? v) && bool_decide (from_stage e ∉ vis)) (edges p)))
    by (rewrite Hf; by left).
  apply filter_In in Hin as [Hed Hb]. bool_hyps. exists e. split; [by apply list_elem_of_In|]. done.
Qed.

Lemma unfinished_stuck p levels deg :
  NoDup (ids p) -> levels_inv p levels [] deg -> (length (concat levels) < length (stages p))%nat ->
  waiting_forever p (List.filter (fun v => bool_decide (v ∉ concat levels)) (ids p)).
Proof.
  intros Hnd [Hi Hc _ _] Hlt.
  assert (Hst : forall v, v ∈ List.filter (fun v => bool_decide (v ∉ concat levels)) (ids p) <->
    v ∈ ids p /\ (v ∉ concat levels)).
  { intros v. rewrite list_elem_of_In, filter_In, <- list_elem_of_In, bool_decide_eq_true. done. }
  split; [|split].
  - intros Hnil. assert (Hsub : ids p ⊆+ concat levels).
    { apply NoDup_submseteq; [done|]. intros v Hv. destruct (decide (v ∈ concat levels)) as [|Hn]; [done|].
      assert (Hx : v ∈ @nil StageId) by (rewrite <- Hnil; by apply Hst). by apply not_elem_of_nil in Hx. }
    apply submseteq_length in Hsub. unfold ids in Hsub. rewrite length_map in Hsub. lia.
  - by intros v [? _]%Hst.
  - intros v [Hv Hn]%Hst. destruct (pending_pos p (list_to_set (concat levels)) v) as (e & He & Hto & Hfrom).
    { intros Hz. assert (Hx : v ∈ @nil StageId).
      { apply (li_queue _ _ _ _ Hi). repeat split; [done| |done]. by rewrite elem_of_list_to_set. }
      by apply not_elem_of_nil in Hx. }
    exists e. repeat split; [done|done|]. destruct (decide (from_stage e ∈ ids p)) as [Hf|Hf]; [left|by right].
    apply Hst. split; [done|]. by rewrite elem_of_list_to_set in Hfrom.
Qed.

Lemma execution_levels_run `{HashOrder} call p :
  Z.of_nat (length (edges p)) < u64_modulus -> NoDup (ids p) ->
  exists r, compute_execution_levels call p = Ret r /\
    match r with
    | Ok levels => concat levels ≡ₚ ids p /\ upstream_earlier p levels /\ Forall (fun l => l <> []) levels
    | Err _ => exists stuck, waiting_forever p stuck
    end.
Proof.
  intros He Hnd. unfold compute_execution_levels. pose proof (initial_level_inv call p) as H0. cbv zeta.
  destruct (levels_loop_ok p (S (length (stages p))) []
    (map fst (List.filter (fun e : StageId * Z => e.2 =? 0) (map_order call (map_to_list (initial_degrees p)))))
    (initial_degrees p) He Hnd) as (levels & deg & -> & Hi).
  { split; [exact H0|constructor|by intros i level v e; rewrite lookup_nil|constructor]. }
  { simpl. lia. }
  cbn [outcome_bind]. pose proof (levels_inv_length _ _ _ _ Hnd Hi) as Hlen.
  destruct (Nat.ltb_spec (length (concat levels)) (length (stages p))) as [Hlt|Hge]; eexists; (split; [done|]); simpl.
  - eexists. by eapply unfinished_stuck.
  - destruct Hi as [Hi Hc Hup Hne]. split; [|done].
    apply submseteq_length_Permutation; [|unfold ids; rewrite length_map; lia].
    apply NoDup_submseteq; [done|]. intros v Hv. apply (li_visited _ _ _ _ Hi v). by apply elem_of_list_to_set.
Qed.

(** The execution levels of a plan.  When the coordinator returns levels,
    they hold every stage exactly once, no level is empty, and the sources of
    a stage's exchanges are all in earlier levels, so that the stages of a
    level can run side by side.  It fails only when some stages wait for each
    other, or for a stage that does not exist; the loop always ends. *)
Theorem execution_levels_correct `{HashOrder} call p :
  Z.of_nat (length (edges p)) < u64_modulus -> NoDup (ids p) ->
  exists r, compute_execution_levels call p = Ret r /\
    match r with
    | Ok levels => concat levels ≡ₚ ids p /\ upstream_earlier p levels /\ Forall (fun l => l <> []) levels
    | Err _ => exists stuck, waiting_forever p stuck
    end.
Proof. exact (execution_levels_run call p). Qed.

(** Stages whose edges lead from lower to higher ranks never wait forever. *)
Lemma ranked_not_waiting p (rank : StageId -> nat) stuck :
  (forall e, e ∈ edges p -> from_stage e ∈ ids p /\ (rank (from_stage e) < rank (to_stage e))%nat) ->
  waiting_forever p stuck -> False.
Proof.
  intros Hr (Hne & Hids & Hst). destruct stuck as [|v0 stuck]; [done|].
  assert (Hno : forall m v, (rank v <= m)%nat -> v ∉ v0 :: stuck).
  { induction m as [|m IH]; intros v Hm Hv; destruct (Hst v Hv) as (e & He & Hto & Hfrom);
      destruct (Hr e He) as [Hin Hlt]; subst v; [lia|]. destruct Hfrom as [Hf|Hf]; [|done].
    by apply (IH (from_stage e)); [lia|]. }
  apply (Hno (rank v0) v0); [lia|left].
Qed.

Section cut.
Context `{SqlDisplay} `{HashOrder} (gen : LogicalPlan -> PlanContext -> string).
Context (t : AnnotatedPlan) (policy : PlannerPolicy) (query : QueryId) (context : PlanContext).

(** C33: A plan cut from an annotated query can always be scheduled: its
    levels are computed, hold every stage once, and every stage comes after
    all the stages it reads from. *)
Theorem cut_plan_schedules call p :
  shaped t = true -> Z.of_nat (S (count_below t)) < u32_modulus ->
  cut_into_stages gen t policy query context = Ret p ->
  exists levels, compute_execution_levels call p = Ret (Ok levels) /\ concat levels ≡ₚ ids p /\
    upstream_earlier p levels.
Proof.
  intros Hs Hr Hp. destruct (cut_returned gen t policy query context p Hs Hr Hp) as [Hi Hroot Hx _ Hf _ _ _ _ _].
  assert (He : Z.of_nat (length (edges p)) < u64_modulus).
  { apply Permutation_length in Hx. rewrite length_map, length_seqZ in Hx. unfold u64_modulus, u32_modulus in *. lia. }
  assert (Hnd : NoDup (ids p)) by (unfold ids; rewrite Hi; apply NoDup_seqZ).
  destruct (execution_levels_run call p He Hnd) as ([levels|e] & Hrun & Hok).
  { exists levels. split; [done|]. by destruct Hok as (? & ? & _). }
  destruct Hok as (stuck & Hst). exfalso. apply (ranked_not_waiting p Z.to_nat stuck); [|done].
  intros e' He'. pose proof (proj1 (Forall_forall _ _) Hf e' He') as Hfe. simpl in Hfe. split; [|lia].
  unfold ids. rewrite Hi. apply elem_of_seqZ. lia.
Qed.
End cut.

(** ** Retries are bounded *)

Section retries.
Context `{Std} {E : Type} (submit : E -> result StageTickets StageExecutionError * E) (id : StageId).

(** [k] submissions one after the other: their errors and the state after. *)
Fixpoint failures (k : nat) (ex : E) : option (list ExecutionError * E) :=
  match k with
  | O => Some ([], ex)
  | S k =>
      match submit ex with
      | (Ok _, _) => None
      | (Err e, ex') => (fun r => (StageFailed id (StageExecutionError_display e) :: r.1, r.2)) <$> failures k ex'
      end
  end.

(** How a loop of [left_] submissions ends: after [k] transient failures with
    a success or a lasting error, or after as many as were allowed. *)
Definition retry_ends (max left_ : nat) (last_error : option ExecutionError) (ex : E)
    (r : result StageTickets ExecutionError) (ex' : E) (k : nat) : Prop :=
  exists errs ex0, failures k ex = Some (errs, ex0) /\ Forall (fun e => is_retryable_error e = true) errs /\
    ((k < left_)%nat /\ match submit ex0 with
                        | (Ok ts, ex1) => r = Ok ts /\ ex' = ex1
                        | (Err e, ex1) => let err := StageFailed id (StageExecutionError_display e) in
                            is_retryable_error err = false /\ r = Err err /\ ex' = ex1
                        end \/
     k = left_ /\ ex' = ex0 /\
     r = Err (StageFailed id ("Failed after " +:+ pretty (Z.of_nat max) +:+ " retries: "
           +:+ match last (option_list last_error ++ errs) with Some e => ExecutionError_display e | None => EmptyString end))).

Definition pause (max retries : nat) : list Z :=
  if (S retries <=? max)%nat then [wrap64 (100 * 2 ^ Z.of_nat retries)] else [].

Lemma retry_loop_ends max left_ retries last_error ex r ex' pauses :
  retry_loop submit id max left_ retries last_error ex = (r, ex', pauses) ->
  exists k, retry_ends max left_ last_error ex r ex' k /\ pauses = concat (map (pause max) (seq retries k)).
Proof.
  revert retries last_error ex pauses. induction left_ as [|n IH]; intros retries last_error ex pauses; simpl.
  { intros [= <- <- <-]. exists 0%nat. split; [|done]. exists [], ex. split; [done|]. split; [constructor|]. right.
    split; [done|]. split; [done|]. rewrite app_nil_r. by destruct last_error. }
  destruct (submit ex) as [[ts|e] ex1] eqn:Hs.
  { intros [= <- <- <-]. exists 0%nat. split; [|done]. exists [], ex. split; [done|]. split; [constructor|]. left.
    split; [lia|]. by rewrite Hs. }
  destruct (is_retryable_error (StageFailed id (StageExecutionError_display e))) eqn:Hre.
  - destruct (retry_loop submit id max n (S retries) _ ex1) as [[r' ex''] ps] eqn:Hl. intros [= <- <- <-].
    apply IH in Hl as (k & (errs & ex0 & Hf & Hall & Hend) & ->). exists (S k). split; [|done].
    exists (StageFailed id (StageExecutionError_display e) :: errs), ex0. split; [simpl; by rewrite Hs, Hf|].
    split; [by constructor|]. destruct Hend as [[Hk Hend]|(-> & -> & ->)]; [left; split; [lia|done]|right].
    split; [done|]. split; [done|]. rewrite last_app_cons. done.
  - intros [= <- <- <-]. exists 0%nat. split; [|done]. exists [], ex. split; [done|]. split; [constructor|]. left.
    split; [lia|]. by rewrite Hs.
Qed.

Lemma pauses_all max k s :
  (s + k <= max)%nat ->
  concat (map (fun i => if (S i <=? max)%nat then [wrap64 (100 * 2 ^ Z.of_nat i)] else []) (seq s k)) =
  map (fun i => wrap64 (100 * 2 ^ Z.of_nat i)) (seq s k).
Proof.
  revert s. induction k as [|k IH]; intros s Hs; [done|]. cbn [seq map concat].
  rewrite (proj2 (Nat.leb_le (S s) max)) by lia. cbn [app]. by rewrite IH by lia.
Qed.

(** Retries are bounded and honest: a stage is submitted at most one more
    time than the configured retries; every submission but the last failed
    with a transient error; the answer is the first success or the first
    lasting error, and only when all of them failed with transient errors it
    is the error that says so; between two submissions the pause doubles. *)
Theorem retries_bounded max ex r ex' pauses :
  execute_stage_with_retry submit id max ex = (r, ex', pauses) ->
  exists k, (k <= S max)%nat /\ retry_ends max (S max) None ex r ex' k /\
    pauses = map (fun i => wrap64 (100 * 2 ^ Z.of_nat i)) (seq 0 (min k max)).
Proof.
  intros (k & Hends & ->)%retry_loop_ends. exists k.
  assert (Hk : (k <= S max)%nat) by (destruct Hends as (errs & ex0 & _ & _ & [[? _]|[? _]]); lia).
  split; [done|]. split; [done|]. clear -Hk. unfold pause.
  destruct (decide (k = S max)) as [->|Hne].
  - rewrite seq_S, map_app, concat_app. cbn [map concat].
    rewrite (proj2 (Nat.leb_gt (S (0 + max)) max)) by lia. rewrite !app_nil_r. replace (min (S max) max) with max by lia. apply pauses_all. lia.
  - replace (min k max) with k by lia. apply pauses_all. lia.
Qed.
End retries.

(** ** Concrete schedules *)

#[local] Existing Instance demo_std.
#[local] Existing Instance demo_order.
#[local] Existing Instance demo_display.

Example diamond_levels : compute_execution_levels [] diamond = Ret (Ok [[0]; [1; 2]; [3]]).
Proof. vm_compute. reflexivity. Qed.

(** Two stages that wait for each other. *)
Definition knot : LdpPlan :=
  mkPlan "q" "c" [Stage_new 0 EmptyString; Stage_new 1 EmptyString; Stage_new 2 EmptyString]
    [mkEdge 0 (Gather "c") 0 1 []; mkEdge 1 (Gather "c") 1 2 []; mkEdge 2 (Gather "c") 2 1 []] 2.

Lemma execution_levels_correct_witness :
  (exists levels, compute_execution_levels [] diamond = Ret (Ok levels) /\ concat levels ≡ₚ ids diamond /\
     upstream_earlier diamond levels) /\
  exists e stuck, compute_execution_levels [] knot = Ret (Err e) /\ waiting_forever knot stuck.
Proof.
  split.
  - destruct (execution_levels_correct [] diamond) as ([levels|e] & Hr & Hok).
    + reflexivity.
    + apply (bool_decide_eq_true_1 (NoDup (ids diamond))). reflexivity.
    + destruct Hok as (Hp & Hu & _). exists levels. repeat split; [exact Hr|exact Hp|exact Hu].
    + vm_compute in Hr. discriminate Hr.
  - destruct (execution_levels_correct [] knot) as ([levels|e] & Hr & Hok).
    + reflexivity.
    + apply (bool_decide_eq_true_1 (NoDup (ids knot))). reflexivity.
    + vm_compute in Hr. discriminate Hr.
    + destruct Hok as (stuck & Hst). exists e, stuck. split; [exact Hr|exact Hst].
Defined.

Lemma cut_plan_schedules_witness :
  exists levels, compute_execution_levels [] demo_cut = Ret (Ok levels) /\ concat levels ≡ₚ ids demo_cut /\
    upstream_earlier demo_cut levels.
Proof.
  apply (cut_plan_schedules demo_sql demo_annotated demo_policy "q1" PlanContext_default [] demo_cut).
  - vm_compute. reflexivity.
  - vm_compute. reflexivity.
  - exact demo_cut_eq.
Defined.

(** A worker that answers the third time. *)
Definition flaky (n : nat) : result StageTickets StageExecutionError * nat :=
  ((if (n <? 2)%nat then Err (WorkerUnavailable "w1" "Connection refused") else Ok [demo_ticket "w1"]), S n).

Lemma retries_bounded_witness :
  execute_stage_with_retry flaky 0 3 0%nat = (Ok [demo_ticket "w1"], 3%nat, [100; 200]) /\
  exists k, (k <= 4)%nat /\ retry_ends flaky 0 3 4 None 0%nat (Ok [demo_ticket "w1"]) 3%nat k /\
    [100; 200] = map (fun i => wrap64 (100 * 2 ^ Z.of_nat i)) (seq 0 (min k 3)).
Proof.
  assert (Hrun : execute_stage_with_retry flaky 0 3 0%nat = (Ok [demo_ticket "w1"], 3%nat, [100; 200]))
    by (vm_compute; reflexivity).
  split; [exact Hrun|]. exact (retries_bounded flaky 0 3 0%nat _ _ _ Hrun).
Defined.
