(* ===== verification/CoordinatorRun.v ===== *)
(** * Running the levels of a plan
    (ldp/executor/coordinator.rs: configuration, execute_local,
    execute_distributed, status and cancellation; ldp/executor/mod.rs:
    LdpExecutor)

    The stages of a level run concurrently.  A stage goes through its units of
    work one after the other: the inputs of a unit are resolved, then the unit
    is submitted, again after a transient error.  The futures of a level share
    the executor; their interleaving is a list of actions.  What the local and
    the Flight executor offer the coordinator is the class [Backend]. *)

From stdpp Require Import pretty.
From S2P Require Import Prelude SqlAst LogicalPlan LdpTypes TopoOrder Policy Arrow HashPartition ExchangeRuntime StageExec.
From S2P Require Import Distributed Coordinator.

#[local] Open Scope Z_scope.

(** ** Configuration *)

Record CoordinatorConfig := mkCoordinatorConfig {
  cc_tenant_id : string; cc_query_timeout : Z; cc_max_concurrent_stages : Z; cc_max_stage_retries : nat;
  cc_planner_policy : PlannerPolicy; cc_distributed : bool;
}.

Definition CoordinatorConfig_default : CoordinatorConfig :=
  mkCoordinatorConfig "default" 300 16 3 policy_default false.

Definition CoordinatorConfig_new (tenant_id : string) : CoordinatorConfig :=
  mkCoordinatorConfig tenant_id 300 16 3 policy_default false.

Definition cc_with_distributed (c : CoordinatorConfig) (enabled : bool) : CoordinatorConfig :=
  mkCoordinatorConfig (cc_tenant_id c) (cc_query_timeout c) (cc_max_concurrent_stages c) (cc_max_stage_retries c)
    (cc_planner_policy c) enabled.

Definition cc_with_timeout (c : CoordinatorConfig) (timeout : Z) : CoordinatorConfig :=
  mkCoordinatorConfig (cc_tenant_id c) timeout (cc_max_concurrent_stages c) (cc_max_stage_retries c)
    (cc_planner_policy c) (cc_distributed c).

Definition cc_with_policy (c : CoordinatorConfig) (policy : PlannerPolicy) : CoordinatorConfig :=
  mkCoordinatorConfig (cc_tenant_id c) (cc_query_timeout c) (cc_max_concurrent_stages c) (cc_max_stage_retries c)
    policy (cc_distributed c).

Definition cc_with_retries (c : CoordinatorConfig) (max_retries : nat) : CoordinatorConfig :=
  mkCoordinatorConfig (cc_tenant_id c) (cc_query_timeout c) (cc_max_concurrent_stages c) max_retries
    (cc_planner_policy c) (cc_distributed c).

(** ** Status and cancellation *)

Inductive StageStatus :=
| Pending
| Running (started_at : Z)
| Completed (tickets : StageTickets) (duration : Z)
| Failed (error : string) (retries : Z).

(** [cancel_actions] are the queries whose cancellation was sent to all the
    workers, once for every stage in flight. *)
Record CoordState := mkCoord {
  stage_status : gmap (string * StageId) StageStatus;
  stage_monitors : gmap (string * StageId) StageExecutionMonitor;
  cancel_actions : list string;
}.

Definition LdpCoordinator_new : CoordState := mkCoord ∅ ∅ [].

Definition set_stage_status (c : CoordState) (query : string) (id : StageId) (s : StageStatus) : CoordState :=
  mkCoord (<[(query, id) := s]> (stage_status c)) (stage_monitors c) (cancel_actions c).

Definition register_stage_monitor (c : CoordState) (query : string) (id : StageId) (m : StageExecutionMonitor) : CoordState :=
  mkCoord (stage_status c) (<[(query, id) := m]> (stage_monitors c)) (cancel_actions c).

Definition unregister_stage_monitor (c : CoordState) (query : string) (id : StageId) : CoordState :=
  mkCoord (stage_status c) (delete (query, id) (stage_monitors c)) (cancel_actions c).

Definition get_stage_status (c : CoordState) (query : string) (id : StageId) : option StageStatus :=
  stage_status c !! (query, id).

Definition is_running (s : StageStatus) : bool := match s with Running _ => true | _ => false end.

Definition in_flight_stages (c : CoordState) (query : string) : list StageId :=
  map (fun e : (string * StageId) * StageStatus => e.1.2)
    (List.filter (fun e : (string * StageId) * StageStatus => bool_decide (e.1.1 = query) && is_running e.2)
       (map_to_list (stage_status c))).

Definition cancel_stage (distributed : bool) (query : string) (c : CoordState) (id : StageId) : CoordState :=
  if distributed then mkCoord (stage_status c) (stage_monitors c) (cancel_actions c ++ [query])
  else mkCoord (stage_status c) (alter cancel (query, id) (stage_monitors c)) (cancel_actions c).

Definition clear_query_status (c : CoordState) (query : string) : CoordState :=
  mkCoord (filter (fun e => e.1.1 <> query) (stage_status c)) (filter (fun e => e.1.1 <> query) (stage_monitors c))
    (cancel_actions c).

Record CancellationResult := mkCancellation { cn_query_id : string; stages_cancelled : nat; cleanup_completed : bool }.

Definition cancel_query (distributed : bool) (c : CoordState) (query : string) : CancellationResult * CoordState :=
  let stages := in_flight_stages c query in
  (mkCancellation query (length stages) true,
   clear_query_status (foldl (cancel_stage distributed query) c stages) query).

(** ** What an executor offers *)

(** A unit of a stage: one worker, or all of them at once. *)
Abbreviation WorkUnit := (option WorkerId).

(** [Stage { target_workers: vec![worker_id.clone()], .. }]. *)
Definition unit_stage (s : Stage) (u : WorkUnit) : Stage :=
  match u with
  | Some w => mkStage (stage_id s) [w] (inputs s) (output s) (stage_sql s) (limits s)
  | None => s
  end.

(** [bk_marks_running]: a stage that starts is noted as running. *)
Class Backend (E RecordBatch : Type) := {
  bk_marks_running : bool;
  bk_units : Stage -> list WorkUnit;
  bk_resolve : list nat -> E -> LdpPlan -> StageId -> WorkUnit -> gmap StageId StageTickets ->
    outcome (result (gmap string (list RecordBatch)) ExecutionError);
  bk_submit : list nat -> Z -> (nat -> Z) -> E -> string -> Stage -> gmap string (list RecordBatch) ->
    outcome (result StageTickets StageExecutionError * E);
  bk_register : E -> StageTickets -> E;
  bk_fetch : Z -> E -> StageTicket -> result (list RecordBatch) StageExecutionError;
}.

Section local.
Context `{Std} `{Arrow RecordBatch Schema} `{HashOrder} {Database : Type}.
Context (run_sql : option Database -> string -> gmap string (list RecordBatch) ->
                   result (list RecordBatch) StageExecutionError).
Context (duration_debug : Z -> string).

(** Workers one by one when the stage has exchange inputs. *)
Definition local_backend : Backend (LocalStageExecutor (RecordBatch := RecordBatch) (Database := Database)) RecordBatch := {|
  bk_marks_running := false;
  bk_units s := if has_exchange_inputs s then map Some (target_workers s) else [None];
  bk_resolve call ex plan id u outs :=
    exchange_failed (match u with
                     | Some w => resolve_inputs_for_worker (fetch_output ex) call plan id w outs
                     | None => resolve_inputs (fetch_output ex) call plan id outs
                     end);
  bk_submit call start now ex query s ins := submit_stage run_sql duration_debug call ex start now query s ins;
  bk_register ex _ := ex;
  bk_fetch _ ex t := fetch_output ex t;
|}.
End local.

Section remote.
Context `{Std} `{Arrow RecordBatch Schema} `{HashOrder}.
Context (endpoints : gmap WorkerId string).
Context (fetch_results : string -> list Z -> result (list RecordBatch) StageExecutionError).
Context (remote_submit : WorkerId -> string -> Stage -> gmap string (list RecordBatch) ->
                         result (list Z) StageExecutionError).
Context (do_get : WorkerId -> list Z -> result (list RecordBatch) StageExecutionError).

(** The ticket cache of the Flight executor and the tickets of the exchange
    runtime; every worker on its own. *)
Definition flight_backend : Backend (Flight.ticket_cache * remote_tickets) RecordBatch := {|
  bk_marks_running := true;
  bk_units s := map Some (target_workers s);
  bk_resolve call e plan id u outs :=
    match u with
    | Some w => resolve_distributed_inputs_for_worker endpoints fetch_results call e.2 plan id w outs
    | None => Ret (Ok ∅)
    end;
  bk_submit _ start _ e query s ins :=
    let '(r, cache) := Flight.flight_submit_stage remote_submit e.1 start query s ins in Ret (r, (cache, e.2));
  bk_register e ts := (e.1, register_stage_tickets e.2 ts);
  bk_fetch now e t := Flight.flight_fetch_output do_get e.1 now t;
|}.
End remote.

(** ** A stage, step by step *)

Section run.
Context `{Std} `{Backend E RecordBatch}.
Context (max_stage_retries : nat) (plan : LdpPlan) (query : string) (distributed : bool).

Inductive TaskPc :=
| NotStarted
| Resolving (s : Stage) (todo : list WorkUnit)
| Submitting (s : Stage) (u : WorkUnit) (todo : list WorkUnit) (ins : gmap string (list RecordBatch)) (retries : nat)
| Finished (r : result StageTickets CoordinatorError).

Record Task := mkTask { task_id : StageId; task_pc : TaskPc; task_tickets : StageTickets }.

Inductive TaskAction :=
| StartStage (now : Z)
| ResolveInputs (call : list nat)
| SubmitOnce (call : list nat) (start : Z) (now : nat -> Z).

(** After a unit: the next one, or the end. *)
Definition next_unit (id : StageId) (s : Stage) (todo : list WorkUnit) (tickets : StageTickets) : Task :=
  mkTask id (match todo with [] => Finished (Ok tickets) | _ => Resolving s todo end) tickets.

Definition failed (t : Task) (e : ExecutionError) : Task :=
  mkTask (task_id t) (Finished (Err (CE_ExecutionFailed e))) (task_tickets t).

(** [execute_stage_with_retry] after an error: [None] is another try. *)
Definition retries_exhausted (id : StageId) (retries : nat) (e : StageExecutionError) : option ExecutionError :=
  let exec_err := StageFailed id (StageExecutionError_display e) in
  if is_retryable_error exec_err then
    if (S retries <=? max_stage_retries)%nat then None
    else Some (StageFailed id ("Failed after " +:+ pretty (Z.of_nat max_stage_retries) +:+ " retries: "
           +:+ ExecutionError_display exec_err))
  else Some exec_err.

(** One step of the future of a stage: the executor, the coordinator and the
    task after it. *)
Definition task_step (outs : gmap StageId StageTickets) (e : E) (c : CoordState) (t : Task) (a : TaskAction)
    : option (outcome (E * CoordState * Task)) :=
  match a, task_pc t with
  | StartStage now, NotStarted =>
      match get_stage plan (task_id t) with
      | None => Some (Ret (e, c, failed t (Exec_StageNotFound (task_id t))))
      | Some s =>
          let c := if bk_marks_running then set_stage_status c query (task_id t) (Running now) else c in
          Some (Ret (e, c, next_unit (task_id t) s (bk_units s) []))
      end
  | ResolveInputs call, Resolving s (u :: todo) =>
      Some (match bk_resolve call e plan (task_id t) u outs with
            | Ret (Ok ins) => Ret (e, c, mkTask (task_id t) (Submitting s u todo ins 0) (task_tickets t))
            | Ret (Err x) => Ret (e, c, failed t x)
            | Panic => Panic
            | OutOfFuel => OutOfFuel
            end)
  | SubmitOnce call start now, Submitting s u todo ins retries =>
      Some (match bk_submit call start now e query (unit_stage s u) ins with
            | Ret (Ok ts, e) => Ret (bk_register e ts, c, next_unit (task_id t) s todo (task_tickets t ++ ts))
            | Ret (Err x, e) =>
                match retries_exhausted (stage_id s) retries x with
                | None => Ret (e, c, mkTask (task_id t) (Submitting s u todo ins (S retries)) (task_tickets t))
                | Some x => Ret (e, c, failed t x)
                end
            | Panic => Panic
            | OutOfFuel => OutOfFuel
            end)
  | _, _ => None
  end.

(** ** A level *)

(** A stage moves, or a query is cancelled from outside. *)
Inductive LevelAction :=
| OnTask (i : nat) (a : TaskAction)
| CancelFromOutside (q : string).

Abbreviation LevelState := (E * CoordState * list Task)%type.

Definition level_step (outs : gmap StageId StageTickets) (st : LevelState) (a : LevelAction) : option (outcome LevelState) :=
  let '(e, c, tasks) := st in
  match a with
  | CancelFromOutside q => Some (Ret (e, (cancel_query distributed c q).2, tasks))
  | OnTask i a =>
      t ← tasks !! i;
      r ← task_step outs e c t a;
      Some (let! s := r in let '(e, c, t) := s in Ret (e, c, <[i := t]> tasks))
  end.

Fixpoint level_run (outs : gmap StageId StageTickets) (st : LevelState) (l : list LevelAction) : option (outcome LevelState) :=
  match l with
  | [] => Some (Ret st)
  | a :: l =>
      match level_step outs st a with
      | Some (Ret st) => level_run outs st l
      | Some Panic => Some Panic
      | Some OutOfFuel => Some OutOfFuel
      | None => None
      end
  end.

Definition new_task (id : StageId) : Task := mkTask id NotStarted [].

(** The results of a level; [None] while a future is pending. *)
Definition level_results (tasks : list Task) : option (list (StageId * result StageTickets CoordinatorError)) :=
  mapM (fun t => match task_pc t with Finished r => Some (task_id t, r) | _ => None end) tasks.

Definition note_worker (ws : list WorkerId) (w : WorkerId) : list WorkerId :=
  if bool_decide (w ∈ ws) then ws else ws ++ [w].

Record Progress := mkProgress {
  pr_outputs : gmap StageId StageTickets; pr_workers : list WorkerId; pr_coord : CoordState;
}.

(** The loop over the results of a level; the first error cancels the query. *)
Fixpoint collect_level (p : Progress) (results : list (StageId * result StageTickets CoordinatorError))
    : result Progress CoordinatorError * CoordState :=
  match results with
  | [] => (Ok p, pr_coord p)
  | (id, Err e) :: _ => (Err e, (cancel_query distributed (pr_coord p) query).2)
  | (id, Ok tickets) :: results =>
      collect_level (mkProgress (<[id := tickets]> (pr_outputs p))
                       (foldl note_worker (pr_workers p) (map tk_worker_id tickets))
                       (set_stage_status (pr_coord p) query id (Completed tickets 0))) results
  end.

(** A level per schedule; the answer is the progress, or the first error. *)
Fixpoint run_levels (levels : list (list StageId)) (schedules : list (list LevelAction)) (e : E) (p : Progress)
    : option (outcome (result Progress CoordinatorError * E * CoordState)) :=
  match levels, schedules with
  | [], _ => Some (Ret (Ok p, e, pr_coord p))
  | _, [] => None
  | level :: levels, schedule :: schedules =>
      match level_run (pr_outputs p) (e, pr_coord p, map new_task level) schedule with
      | None => None
      | Some Panic => Some Panic
      | Some OutOfFuel => Some OutOfFuel
      | Some (Ret (e, c, tasks)) =>
          results ← level_results tasks;
          match collect_level (mkProgress (pr_outputs p) (pr_workers p) c) results with
          | (Err x, c) => Some (Ret (Err x, e, c))
          | (Ok p, _) => run_levels levels schedules e p
          end
      end
  end.

Fixpoint fetch_final (now : Z) (e : E) (root : StageId) (ts : StageTickets) (acc : list RecordBatch)
    : result (list RecordBatch) ExecutionError :=
  match ts with
  | [] => Ok acc
  | t :: ts =>
      match bk_fetch now e t with
      | Err x => Err (StageFailed root (StageExecutionError_display x))
      | Ok bs => fetch_final now e root ts (acc ++ bs)
      end
  end.

(** [execute_local] and [execute_distributed], over the backend. *)
Definition execute_levels `{HashOrder} (call : list nat) (schedules : list (list LevelAction)) (now : Z) (e : E) (c : CoordState)
    : option (outcome (result (list RecordBatch * list WorkerId) CoordinatorError * E * CoordState)) :=
  match compute_execution_levels call plan with
  | Panic => Some Panic
  | OutOfFuel => Some OutOfFuel
  | Ret (Err x) => Some (Ret (Err x, e, c))
  | Ret (Ok levels) =>
      r ← run_levels levels schedules e (mkProgress ∅ [] c);
      Some (let! s := r in
            match s with
            | (Err x, e, c) => Ret (Err x, e, c)
            | (Ok p, e, c) =>
                match pr_outputs p !! root_stage plan with
                | None => Ret (Err (CE_ExecutionFailed (Exec_StageNotFound (root_stage plan))), e, c)
                | Some ts =>
                    match fetch_final now e (root_stage plan) ts [] with
                    | Err x => Ret (Err (CE_ExecutionFailed x), e, c)
                    | Ok bs => Ret (Ok (bs, pr_workers p), e, c)
                    end
                end
            end)
  end.
End run.

(** ** [LdpExecutor]: one stage after the other *)

Section ldp_executor.
Context `{Std} `{Arrow RecordBatch Schema} `{HashOrder} {Database : Type}.
Context (run_sql : option Database -> string -> gmap string (list RecordBatch) ->
                   result (list RecordBatch) StageExecutionError).
Context (duration_debug : Z -> string).
Abbreviation executor := (LocalStageExecutor (RecordBatch := RecordBatch) (Database := Database)).

(** [clock] has the start of every stage and the times of its checks. *)
Fixpoint ldp_stages (clock : nat -> Z * (nat -> Z)) (k : nat) (plan : LdpPlan) (order : list StageId) (ex : executor)
    (outs : gmap StageId StageTickets) : outcome (result (gmap StageId StageTickets) ExecutionError * executor) :=
  match order with
  | [] => Ret (Ok outs, ex)
  | id :: order =>
      match get_stage plan id with
      | None => Ret (Err (Exec_StageNotFound id), ex)
      | Some stage =>
          match exchange_failed (resolve_inputs (fetch_output ex) [k] plan id outs) with
          | Ret (Err e) => Ret (Err e, ex)
          | Ret (Ok ins) =>
              match submit_stage run_sql duration_debug [k] ex (clock k).1 (clock k).2 (query_id plan) stage ins with
              | Ret (Ok tickets, ex) => ldp_stages clock (S k) plan order ex (<[id := tickets]> outs)
              | Ret (Err e, ex) => Ret (Err (StageFailed id (StageExecutionError_display e)), ex)
              | Panic => Panic
              | OutOfFuel => OutOfFuel
              end
          | Panic => Panic
          | OutOfFuel => OutOfFuel
          end
      end
  end.

Fixpoint ldp_fetch (ex : executor) (root : StageId) (ts : StageTickets) (acc : list RecordBatch)
    : result (list RecordBatch) ExecutionError :=
  match ts with
  | [] => Ok acc
  | t :: ts =>
      match fetch_output ex t with
      | Err e => Err (StageFailed root (StageExecutionError_display e))
      | Ok bs => ldp_fetch ex root ts (acc ++ bs)
      end
  end.

(** [LdpExecutor::execute]. *)
Definition ldp_execute (clock : nat -> Z * (nat -> Z)) (plan : LdpPlan) (ex : executor)
    : outcome (result (list RecordBatch) ExecutionError * executor) :=
  let! order := topological_order plan in
  let! r := ldp_stages clock 0 plan order ex ∅ in
  match r with
  | (Err e, ex) => Ret (Err e, ex)
  | (Ok outs, ex) =>
      match outs !! root_stage plan with
      | None => Ret (Err (Exec_StageNotFound (root_stage plan)), ex)
      | Some ts => Ret (ldp_fetch ex (root_stage plan) ts [], ex)
      end
  end.

(** [LdpExecutor::execute_stage]. *)
Definition ldp_execute_stage (call : list nat) (start : Z) (now : nat -> Z) (plan : LdpPlan) (id : StageId)
    (ins : gmap string (list RecordBatch)) (ex : executor) : outcome (result StageTickets ExecutionError * executor) :=
  match get_stage plan id with
  | None => Ret (Err (Exec_StageNotFound id), ex)
  | Some stage =>
      let! r := submit_stage run_sql duration_debug call ex start now (query_id plan) stage ins in
      Ret (match r.1 with Ok ts => Ok ts | Err e => Err (StageFailed id (StageExecutionError_display e)) end, r.2)
  end.
End ldp_executor.

(** ** Futures end, and cancellation leaves them alone *)

Section futures.
Context `{Std} `{Backend E RecordBatch}.
Context (max_stage_retries : nat) (plan : LdpPlan) (query : string) (distributed : bool).
Abbreviation task := (@Task RecordBatch).
Abbreviation step := (task_step max_stage_retries plan query).
Abbreviation level_run := (level_run max_stage_retries plan query distributed).

(** The steps a stage has left at most. *)
Definition task_steps (t : task) : nat :=
  match task_pc t with
  | NotStarted => S (match get_stage plan (task_id t) with Some s => length (bk_units s) * (max_stage_retries + 2) | None => 0 end)
  | Resolving s todo => length todo * (max_stage_retries + 2)
  | Submitting s u todo ins k => length todo * (max_stage_retries + 2) + S (max_stage_retries - k)
  | Finished _ => 0
  end.

Definition level_steps (tasks : list task) : nat := sum_list_with task_steps tasks.

Definition is_task_action (a : LevelAction) : bool := match a with OnTask _ _ => true | CancelFromOutside _ => false end.

Lemma next_unit_steps id s todo ts : task_steps (next_unit id s todo ts) = (length todo * (max_stage_retries + 2))%nat.
Proof. by destruct todo. Qed.

Lemma task_step_decreases outs e c t a e' c' t' :
  step outs e c t a = Some (Ret (e', c', t')) -> (task_steps t' < task_steps t)%nat.
Proof.
  unfold task_step. destruct t as [id pc ts]. unfold task_steps at 2. cbn [task_pc task_id task_tickets].
  destruct a as [now|call|call start now], pc as [|s [|u todo]|s u todo ins k|r]; try done.
  - destruct (get_stage plan id) as [s|]; intros [= _ _ <-]; [rewrite next_unit_steps; lia|unfold task_steps; simpl; lia].
  - destruct (bk_resolve _ _ _ _ _ _) as [[ins|x]| |]; try done; intros [= _ _ <-]; unfold task_steps; simpl; lia.
  - destruct (bk_submit _ _ _ _ _ _ _) as [[[ts1|x] e1]| |]; try done; [intros [= _ _ <-]; rewrite next_unit_steps; lia|].
    unfold retries_exhausted. destruct (is_retryable_error _); [destruct (Nat.leb_spec (S k) max_stage_retries)|];
      intros [= _ _ <-]; unfold task_steps; simpl; lia.
Qed.

Lemma level_steps_insert (tasks : list task) i t t' :
  tasks !! i = Some t -> (level_steps (<[i := t']> tasks) + task_steps t = level_steps tasks + task_steps t')%nat.
Proof.
  revert i. induction tasks as [|t0 tasks IH]; intros [|i]; simpl; [done|done|intros [= ->]; unfold level_steps; simpl; lia|].
  intros Hi. specialize (IH _ Hi). unfold level_steps in *. simpl. lia.
Qed.

(** A stage between two units has one left. *)
Definition has_unit (t : task) : Prop := forall s, task_pc t <> Resolving s [].

Lemma task_step_has_unit outs e c t a e' c' t' : step outs e c t a = Some (Ret (e', c', t')) -> has_unit t'.
Proof.
  assert (Hn : forall id s todo ts, has_unit (next_unit id s todo ts)) by (intros id s [|u todo] ts s'; done).
  unfold task_step. destruct a as [now|call|call start now], (task_pc t) as [|s [|u todo]|s u todo ins k|r]; try done.
  - destruct (get_stage plan (task_id t)); intros [= _ _ <-]; [apply Hn|done].
  - destruct (bk_resolve _ _ _ _ _ _) as [[ins|x]| |]; try done; by intros [= _ _ <-].
  - destruct (bk_submit _ _ _ _ _ _ _) as [[[ts1|x] e1]| |]; try done; [intros [= _ _ <-]; apply Hn|].
    destruct (retries_exhausted _ _ _ _); by intros [= _ _ <-].
Qed.

Lemma level_run_has_unit outs l : forall e c (tasks : list task) e' c' tasks',
  Forall has_unit tasks -> level_run outs (e, c, tasks) l = Some (Ret (e', c', tasks')) -> Forall has_unit tasks'.
Proof.
  induction l as [|a l IH]; intros e c tasks e' c' tasks' Hu; simpl; [by intros [= _ _ <-]|].
  destruct a as [i a|q]; simpl; [|by apply IH]. destruct (tasks !! i) as [t|] eqn:Hi; simpl; [|done].
  destruct (step outs e c t a) as [[[[e1 c1] t1]| |]|] eqn:Es; simpl; try done. apply IH.
  apply task_step_has_unit in Es. by apply Forall_insert.
Qed.

(** In every run of a level a stage that has not finished has a next step, and
    every step of a stage brings the level nearer to its end: the steps are
    bounded by the workers and the retries, whatever the interleaving. *)
Theorem stage_futures_end (outs : gmap StageId StageTickets) level l e c e' c' tasks' :
  level_run outs (e, c, map new_task level) l = Some (Ret (e', c', tasks')) ->
  (length (List.filter is_task_action l) + level_steps tasks' <= level_steps (map (new_task : StageId -> task) level))%nat /\
  forall i t, tasks' !! i = Some t -> (forall r, task_pc t <> Finished r) ->
    exists a, is_Some (level_step max_stage_retries plan query distributed outs (e', c', tasks') (OnTask i a)).
Proof.
  intros Hrun. split.
  - revert Hrun. generalize (map (new_task : StageId -> task) level) as tasks. intros tasks. revert e c tasks.
    induction l as [|a l IH]; intros e c tasks; simpl; [intros [= _ _ <-]; simpl; lia|].
    destruct a as [i a|q]; simpl; [|apply IH].
    destruct (tasks !! i) as [t|] eqn:Hi; simpl; [|done].
    destruct (step outs e c t a) as [[[[e1 c1] t1]| |]|] eqn:Es; simpl; try done.
    intros Hr%IH. apply task_step_decreases in Es. pose proof (level_steps_insert tasks i t t1 Hi). lia.
  - intros i t Hi Hp. apply level_run_has_unit in Hrun.
    2: { apply Forall_forall. intros t' (id & -> & _)%list_elem_of_fmap. done. }
    pose proof (Forall_lookup_1 _ _ _ _ Hrun Hi) as Hu. unfold level_step. rewrite Hi. simpl.
    destruct t as [id pc ts]. unfold task_step. cbn [task_pc task_id task_tickets] in *.
    destruct pc as [|s [|u todo]|s u todo ins k|r].
    + exists (StartStage 0). destruct (get_stage plan id); by eexists.
    + by destruct (Hu s).
    + exists (ResolveInputs []). by eexists.
    + exists (SubmitOnce [] 0 (fun _ => 0)). by eexists.
    + by destruct (Hp r).
Qed.

Lemma task_step_coord outs e c t a e' c' t' :
  step outs e c t a = Some (Ret (e', c', t')) -> forall c0, exists c0', step outs e c0 t a = Some (Ret (e', c0', t')).
Proof.
  unfold task_step. destruct a as [now|call|call start now], (task_pc t) as [|s [|u todo]|s u todo ins k|r]; try done.
  - destruct (get_stage plan (task_id t)); intros [= <- _ <-] c0; by eexists.
  - destruct (bk_resolve _ _ _ _ _ _) as [[ins|x]| |]; try done; intros [= <- _ <-] c0; by eexists.
  - destruct (bk_submit _ _ _ _ _ _ _) as [[[ts1|x] e1]| |]; try done; [intros [= <- _ <-] c0; by eexists|].
    destruct (retries_exhausted _ _ _ _); intros [= <- _ <-] c0; by eexists.
Qed.

(** Cancelling a query through the coordinator changes nothing in a run: the
    same stages do the same without the cancellations. *)
Theorem cancellations_change_nothing (outs : gmap StageId StageTickets) l : forall e c c0 (tasks : list task) e' c' tasks',
  level_run outs (e, c, tasks) l = Some (Ret (e', c', tasks')) ->
  exists c0', level_run outs (e, c0, tasks) (List.filter is_task_action l) = Some (Ret (e', c0', tasks')).
Proof.
  induction l as [|a l IH]; intros e c c0 tasks e' c' tasks'; simpl; [intros [= <- _ <-]; by exists c0|].
  destruct a as [i a|q]; simpl; [|apply IH].
  destruct (tasks !! i) as [t|] eqn:Hi; simpl; [|done].
  destruct (step outs e c t a) as [[[[e1 c1] t1]| |]|] eqn:Es; simpl; try done. intros Hr.
  destruct (task_step_coord _ _ _ _ _ _ _ _ Es c0) as (c01 & ->). simpl. by eapply IH.
Qed.

Lemma clear_query_gone c id : get_stage_status (clear_query_status c query) query id = None.
Proof. unfold get_stage_status, clear_query_status. simpl. apply map_lookup_filter_None. right. intros s _ Hne. by apply Hne. Qed.

Lemma collect_level_failed results : forall (p : Progress) x c,
  collect_level query distributed p results = (Err x, c) -> forall id, get_stage_status c query id = None.
Proof.
  induction results as [|[id [ts|e]] results IH]; intros p x c; simpl; [done|apply IH|].
  intros [= _ <-] id'. apply clear_query_gone.
Qed.

(** A stage that fails ends the query: no status of the query is left. *)
Theorem failure_clears_status levels : forall schedules e (p : Progress) x e' c,
  run_levels max_stage_retries plan query distributed levels schedules e p = Some (Ret (Err x, e', c)) ->
  forall id, get_stage_status c query id = None.
Proof.
  induction levels as [|level levels IH]; intros [|l schedules] e p x e' c; simpl; try done.
  destruct (CoordinatorRun.level_run _ _ _ _ _ _ l) as [[[[e1 c1] tasks]| |]|]; try done.
  destruct (level_results tasks) as [results|]; simpl; [|done].
  destruct (collect_level _ _ _ results) as [[p1|x1] c2] eqn:Ec; [apply IH|]. intros [= <- _ <-].
  by eapply collect_level_failed.
Qed.

Lemma in_flight_none c q :
  in_flight_stages c q = [] <-> forall id s, stage_status c !! (q, id) = Some s -> is_running s = false.
Proof.
  unfold in_flight_stages. split.
  - intros Hn id s Hs. destruct (is_running s) eqn:Hr; [|done]. apply map_eq_nil in Hn.
    assert (Hin : ((q, id), s) ∈ List.filter (fun e : (string * StageId) * StageStatus => bool_decide (e.1.1 = q) && is_running e.2)
      (map_to_list (stage_status c))); [|rewrite Hn in Hin; by apply not_elem_of_nil in Hin].
    apply list_elem_of_In, filter_In. split; [by apply list_elem_of_In, elem_of_map_to_list|]. simpl. by rewrite bool_decide_true.
  - intros Hall. destruct (List.filter _ _) as [|[[q' id] s] l] eqn:Hf; [done|].
    assert (Hin : In ((q', id), s) (List.filter (fun e : (string * StageId) * StageStatus => bool_decide (e.1.1 = q) && is_running e.2)
      (map_to_list (stage_status c)))) by (rewrite Hf; by left).
    apply filter_In in Hin as [Hin [Hq Hr]%andb_true_iff]. simpl in *. apply bool_decide_eq_true in Hq as ->.
    apply list_elem_of_In, elem_of_map_to_list in Hin. by rewrite (Hall id s Hin) in Hr.
Qed.

Lemma cancel_keeps_idle c q q' : in_flight_stages c q = [] -> in_flight_stages (cancel_query distributed c q').2 q = [].
Proof.
  rewrite !in_flight_none. intros Hall id s. unfold cancel_query, clear_query_status. cbn [snd stage_status].
  assert (Hf : forall l c, stage_status (foldl (cancel_stage distributed q') c l) = stage_status c).
  { induction l as [|x l IH]; intros c1; simpl; [done|]. rewrite IH. unfold cancel_stage. by destruct distributed. }
  rewrite Hf. intros [Hs _]%map_lookup_filter_Some. by eapply Hall.
Qed.

(** A run whose stages are not noted as running has none in flight: a
    cancellation finds nothing to cancel. *)
Theorem unmarked_run_not_cancelled outs l : forall e c (tasks : list task) e' c' tasks' q,
  bk_marks_running = false -> in_flight_stages c q = [] ->
  level_run outs (e, c, tasks) l = Some (Ret (e', c', tasks')) ->
  stages_cancelled (cancel_query distributed c' q).1 = 0%nat.
Proof.
  induction l as [|a l IH]; intros e c tasks e' c' tasks' q Hm Hc; simpl; [intros [= _ <- _]; by rewrite Hc|].
  destruct a as [i a|q']; simpl.
  2: { apply IH; [done|]. by apply cancel_keeps_idle. }
  destruct (tasks !! i) as [t|] eqn:Hi; simpl; [|done].
  destruct (step outs e c t a) as [[[[e1 c1] t1]| |]|] eqn:Es; simpl; try done. apply IH; [done|].
  enough (c1 = c) as -> by done. revert Es. unfold task_step. rewrite Hm.
  destruct a as [now|call|call start now], (task_pc t) as [|s [|u todo]|s u todo ins k|r]; try done.
  - destruct (get_stage plan (task_id t)); by intros [= _ <- _].
  - destruct (bk_resolve _ _ _ _ _ _) as [[ins|x]| |]; try done; by intros [= _ <- _].
  - destruct (bk_submit _ _ _ _ _ _ _) as [[[ts1|x] e2]| |]; try done; [by intros [= _ <- _]|].
    destruct (retries_exhausted _ _ _ _); by intros [= _ <- _].
Qed.
End futures.
