(* ===== verification/LocalRun.v ===== *)
(** * What a local run of a plan computes

    The specification is a system of equations: every stage, on every worker,
    answers its SQL on the inputs its exchanges deliver from the answers of the
    stages it reads.  A run of [execute_local], in whatever order its stages
    interleave and however often they are submitted again, ends in a store that
    solves the equations. *)

From stdpp Require Import pretty.
From S2P Require Import Prelude SqlAst LogicalPlan LdpTypes TopoOrder Policy Arrow HashPartition ExchangeRuntime StageExec.
From S2P Require Import Distributed Coordinator CoordinatorRun.

#[local] Open Scope Z_scope.

(** ** Tickets of different stages *)

Lemma underscore_prefix (a b x y : string) :
  no_underscore a = true -> no_underscore b = true -> a +:+ "_" +:+ x = b +:+ "_" +:+ y -> a = b.
Proof.
  revert b. induction a as [|c a IH]; intros [|d b] Ha Hb E; [done| | |].
  - exfalso. cbn in E. injection E as <- E. by cbn in Hb.
  - exfalso. cbn in E. injection E as -> E. by cbn in Ha.
  - cbn in Ha, Hb. apply andb_true_iff in Ha as [_ Ha], Hb as [_ Hb]. cbn in E. injection E as -> E.
    f_equal. by apply (IH b Ha Hb).
Qed.

(** The ticket of a stage, for some worker. *)
Definition ticket_at (query : string) (id : StageId) (t : StageTicket) : Prop :=
  exists w, t = StageTicket_new query id w \/ exists p, t = StageTicket_partitioned query id w p.

Lemma ticket_at_text query id t : ticket_at query id t -> exists rest, ticket_id t = "stage_" +:+ pretty id +:+ "_" +:+ rest.
Proof.
  intros (w & [->|(p & ->)]); simpl.
  - exists ("worker_" +:+ w). done.
  - exists ("worker_" +:+ w +:+ "_p" +:+ pretty p). done.
Qed.

Lemma ticket_at_inj query id id' t t' :
  ticket_at query id t -> ticket_at query id' t' -> ticket_id t = ticket_id t' -> id = id'.
Proof.
  intros (r & E)%ticket_at_text (r' & E')%ticket_at_text Heq. rewrite E, E' in Heq.
  apply (inj (String.app "stage_")) in Heq. apply underscore_prefix in Heq; [|apply pretty_no_underscore..].
  by apply (inj pretty) in Heq.
Qed.

Lemma ticket_of_at stage query w t : ticket_of stage query w t -> ticket_at query (stage_id stage) t.
Proof. unfold ticket_of. intros Ht. exists w. destruct (output stage); [by left|by right]. Qed.

(** ** Reading depends on the tickets only *)

Section agree.
Context `{Std} `{ArrowLaws RecordBatch Schema} `{HashOrder}.
Context (f g : StageTicket -> result (list RecordBatch) StageExecutionError).

Lemma fetch_tickets_agree ts acc sch :
  (forall t, t ∈ ts -> f t = g t) -> fetch_tickets (Schema := Schema) f ts acc sch = fetch_tickets g ts acc sch.
Proof.
  revert acc sch. induction ts as [|t ts IH]; intros acc sch Hfg; simpl; [done|].
  rewrite (Hfg t) by left. destruct (g t); [|done]. apply IH. intros t' Ht'. apply Hfg. by right.
Qed.

Lemma execute_exchange_agree call e ts ws :
  (forall t, t ∈ ts -> f t = g t) -> execute_exchange f call e ts ws = execute_exchange g call e ts ws.
Proof.
  intros Hfg. unfold execute_exchange, execute_gather, execute_broadcast, execute_hash_partition_all.
  by rewrite (fetch_tickets_agree ts [] None Hfg).
Qed.

Lemma execute_exchange_for_worker_agree call e ts w :
  (forall t, t ∈ ts -> f t = g t) -> execute_exchange_for_worker f call e ts w = execute_exchange_for_worker g call e ts w.
Proof.
  intros Hfg. unfold execute_exchange_for_worker, execute_gather, execute_broadcast, execute_hash_partition_for_worker.
  by rewrite (fetch_tickets_agree ts [] None Hfg).
Qed.

(** More outputs change nothing for inputs that were resolved. *)
Lemma resolve_each_grows run run' call k plan (outs outs' : gmap StageId StageTickets) ins acc (m : gmap string (list RecordBatch)) :
  (forall c e ts id, outs !! id = Some ts -> run c e ts = run' c e ts) -> outs ⊆ outs' ->
  resolve_each run call k plan outs ins acc = Ret (Ok m) -> resolve_each run' call k plan outs' ins acc = Ret (Ok m).
Proof.
  intros Hrun Hsub. revert k acc. induction ins as [|[|x name] ins IH]; intros k acc; simpl; [done|apply IH|].
  destruct (List.find _ _) as [edge|]; [|done]. destruct (outs !! from_stage edge) as [ts|] eqn:E; [|done].
  rewrite (lookup_weaken _ _ _ _ E Hsub), <- (Hrun _ _ _ _ E).
  destruct (run (k :: call) edge ts) as [[bs|]| |]; simpl; try done. apply IH.
Qed.
End agree.

Section solves.
Context `{Std} `{ArrowLaws RecordBatch Schema} `{HashOrder} {Database : Type}.
Context (run_sql : option Database -> string -> gmap string (list RecordBatch) ->
                   result (list RecordBatch) StageExecutionError).
Context (duration_debug : Z -> string).
Context (plan : LdpPlan) (query : string) (distributed : bool) (max_stage_retries : nat).

Abbreviation executor := (LocalStageExecutor (RecordBatch := RecordBatch) (Database := Database)).
Abbreviation Outs := (gmap StageId StageTickets).
#[local] Instance backend : Backend executor RecordBatch := local_backend run_sql duration_debug.

Lemma bk_resolve_grows call (ex ex' : executor) id u (outs outs' : Outs) m :
  (forall s ts t, outs !! s = Some ts -> t ∈ ts -> fetch_output ex' t = fetch_output ex t) -> outs ⊆ outs' ->
  bk_resolve call ex plan id u outs = Ret (Ok m) -> bk_resolve call ex' plan id u outs' = Ret (Ok m).
Proof.
  intros Hf Hsub. simpl.
  assert (Hgo : forall run run', (forall c e ts id, outs !! id = Some ts -> run c e ts = run' c e ts) -> forall s,
    exchange_failed (resolve_each run call 0 plan outs (inputs s) ∅) = Ret (Ok m) ->
    exchange_failed (resolve_each run' call 0 plan outs' (inputs s) ∅) = Ret (Ok m)).
  { intros run run' Hrun s. unfold exchange_failed.
    destruct (resolve_each run call 0 plan outs (inputs s) ∅) as [[m'|e]| |] eqn:E; try done. intros [= ->].
    by rewrite (resolve_each_grows run run' call 0 plan outs outs' (inputs s) ∅ m Hrun Hsub E). }
  destruct u as [w|]; unfold resolve_inputs_for_worker, resolve_inputs; destruct (get_stage plan id) as [s|]; try done;
    apply Hgo; intros c e ts id' Hid.
  - apply execute_exchange_for_worker_agree. intros t Ht. symmetry. by apply (Hf id' ts).
  - apply execute_exchange_agree. intros t Ht. symmetry. by apply (Hf id' ts).
Qed.

(** ** What a submission touches *)

(** No ticket of the submitted stage has the name of [t]. *)
Definition foreign (s : Stage) (t : StageTicket) : Prop :=
  forall w t', w ∈ target_workers s -> ticket_of s query w t' -> ticket_id t' <> ticket_id t.

Definition framed (s : Stage) (ex ex' : executor) : Prop :=
  worker_databases ex' = worker_databases ex /\ forall t, foreign s t -> fetch_output ex' t = fetch_output ex t.

Lemma framed_refl s ex : framed s ex ex.
Proof. done. Qed.

Lemma store_partitions_frame (ex : executor) id w p pss :
  worker_databases (store_partitions ex query id w p pss).2 = worker_databases ex /\
  forall t, (forall p, ticket_id (StageTicket_partitioned query id w p) <> ticket_id t) ->
    fetch_output (RecordBatch := RecordBatch) (Database := Database) (store_partitions ex query id w p pss).2 t = fetch_output ex t.
Proof.
  revert ex p. induction pss as [|bs pss IH]; intros ex p; simpl; [done|].
  destruct (IH (store_output ex (StageTicket_partitioned query id w p) bs) (wrap32 (p + 1))) as [Hd Hf].
  split; [exact Hd|]. intros t Ht. rewrite Hf by done. unfold fetch_output, store_output. simpl outputs.
  by rewrite lookup_insert_ne by apply Ht.
Qed.

Lemma submit_on_worker_frame call (ex ex' : executor) now s ins m m' w r :
  w ∈ target_workers s ->
  submit_on_worker run_sql duration_debug call ex now query s ins m w = Ret (r, ex', m') -> framed s ex ex'.
Proof.
  intros Hw. unfold submit_on_worker. destruct (execute_sql_with_monitor _ _ _ _ _ _ _ _ _) as [[out|] m1]; [|by intros [= _ <- _]].
  destruct (check_output_limits _ _); [|by intros [= _ <- _]]. destruct (output s) as [|n refs] eqn:Ho.
  - intros [= _ <- _]. split; [done|]. intros t Ht. unfold fetch_output, store_output. simpl outputs.
    rewrite lookup_insert_ne; [done|]. apply (Ht w (StageTicket_new query (stage_id s) w)); [done|]. unfold ticket_of. by rewrite Ho.
  - destruct (partition_batches _ _ _ _) as [[pss|]| |]; try done; intros [= _ <- _]; [|done].
    destruct (store_partitions_frame ex (stage_id s) w 0 pss) as [Hd Hf]. split; [done|]. intros t Ht. apply Hf.
    intros p. apply (Ht w (StageTicket_partitioned query (stage_id s) w p)); [done|]. unfold ticket_of. rewrite Ho. by exists p.
Qed.

Lemma submit_stage_frame call (ex ex' : executor) start now s ins r :
  submit_stage run_sql duration_debug call ex start now query s ins = Ret (r, ex') -> framed s ex ex'.
Proof.
  unfold submit_stage. generalize 0%nat, (monitor_new start (limits s)), (@nil StageTicket) as tickets.
  assert (Hsub : target_workers s ⊆ target_workers s) by done. revert Hsub. generalize (target_workers s) at 1 3 as ws.
  intros ws. revert ex. induction ws as [|w ws IH]; intros ex Hsub k m tickets; simpl; [by intros [= _ <-]|].
  destruct (submit_on_worker _ _ _ _ _ _ _ _ _ _) as [[[[ts|e] ex1] m1]| |] eqn:E; try done;
    apply submit_on_worker_frame in E as [Hd Hf]; try (apply Hsub; left).
  - intros [Hd' Hf']%IH; [|intros x Hx; apply Hsub; by right]. split; [congruence|]. intros t Ht. by rewrite Hf', Hf.
  - by intros [= _ <-].
Qed.

(** ** Units that are done *)

(** A unit is done: its inputs were resolved from the outputs, every worker of
    it answered, and its tickets serve the answers. *)
Definition unit_done (outs : Outs) (ex : executor) (s : Stage) (u : WorkUnit) (ts : StageTickets) : Prop :=
  exists call call' ins kvss, bk_resolve call ex plan (stage_id s) u outs = Ret (Ok ins) /\
    Forall2 (worker_ran run_sql call' ex query (unit_stage s u) ins) (target_workers (unit_stage s u)) kvss /\
    ts = map fst (concat kvss) /\ forall t bs, (t, bs) ∈ concat kvss -> fetch_output ex t = Ok bs.

Definition units_done (outs : Outs) (ex : executor) (s : Stage) (us : list WorkUnit) (ts : StageTickets) : Prop :=
  exists tss, Forall2 (unit_done outs ex s) us tss /\ ts = concat tss.

(** The tickets of the outputs are served the same. *)
Definition same_outputs (outs : Outs) (ex ex' : executor) : Prop :=
  worker_databases ex' = worker_databases ex /\
  forall id ts t, outs !! id = Some ts -> t ∈ ts -> fetch_output ex' t = fetch_output ex t.

Lemma unit_done_grows (outs outs' : Outs) (ex ex' : executor) s u ts :
  same_outputs outs ex ex' -> outs ⊆ outs' -> (forall t, t ∈ ts -> fetch_output ex' t = fetch_output ex t) ->
  unit_done outs ex s u ts -> unit_done outs' ex' s u ts.
Proof.
  intros [Hdb Ho] Hsub Hts (call & call' & ins & kvss & Hr & Hran & -> & Hf). exists call, call', ins, kvss. split_and!.
  - by eapply bk_resolve_grows.
  - eapply Forall2_impl; [exact Hran|]. intros w kvs. by apply worker_ran_databases.
  - done.
  - intros t bs Hin. rewrite Hts; [by apply Hf|]. by apply (list_elem_of_fmap_2 fst) in Hin.
Qed.

Lemma units_done_grows (outs outs' : Outs) (ex ex' : executor) s us ts :
  same_outputs outs ex ex' -> outs ⊆ outs' -> (forall t, t ∈ ts -> fetch_output ex' t = fetch_output ex t) ->
  units_done outs ex s us ts -> units_done outs' ex' s us ts.
Proof.
  intros Hs Hsub Hts (tss & Hd & ->). exists tss. split; [|done]. revert Hts.
  induction Hd as [|u ts us tss Hu _ IH]; intros Hts; constructor.
  - eapply unit_done_grows; [exact Hs|exact Hsub| |exact Hu]. intros t Ht. apply Hts. simpl. apply elem_of_app. by left.
  - apply IH. intros t Ht. apply Hts. simpl. apply elem_of_app. by right.
Qed.

(** The tickets of a unit are those of its workers. *)
Lemma unit_done_tickets outs ex s u ts t :
  unit_done outs ex s u ts -> t ∈ ts -> exists w, w ∈ target_workers (unit_stage s u) /\ ticket_of s query w t.
Proof.
  intros (call & call' & ins & kvss & _ & Hran & -> & _) Ht.
  apply list_elem_of_fmap in Ht as (kv & -> & Hkv). apply list_elem_of_In, in_concat in Hkv as (kvs & Hkvs & Hkv).
  apply list_elem_of_In in Hkvs, Hkv. apply list_elem_of_lookup in Hkvs as (i & Hi).
  destruct (Forall2_lookup_r _ _ _ _ _ Hran Hi) as (w & Hw & Hr). exists w. split; [by eapply list_elem_of_lookup_2|].
  apply worker_ran_tickets in Hr as [_ Hall]. pose proof (proj1 (Forall_forall _ _) Hall kv Hkv) as Htk.
  by destruct u.
Qed.

Lemma units_done_tickets outs ex s us ts t :
  units_done outs ex s us ts -> t ∈ ts ->
  exists u w, u ∈ us /\ w ∈ target_workers (unit_stage s u) /\ ticket_of s query w t.
Proof.
  intros (tss & Hd & ->) Ht. apply list_elem_of_In, in_concat in Ht as (ts & Hts & Ht).
  apply list_elem_of_In in Hts, Ht. apply list_elem_of_lookup in Hts as (i & Hi).
  destruct (Forall2_lookup_r _ _ _ _ _ Hd Hi) as (u & Hu & Hdu). exists u.
  destruct (unit_done_tickets _ _ _ _ _ _ Hdu Ht) as (w & Hw & Htk). exists w. split; [by eapply list_elem_of_lookup_2|done].
Qed.

Lemma units_done_snoc outs ex s us u ts ts' :
  units_done outs ex s us ts -> unit_done outs ex s u ts' -> units_done outs ex s (us ++ [u]) (ts ++ ts').
Proof.
  intros (tss & Hd & ->) Hu. exists (tss ++ [ts']). split; [apply Forall2_app; [done|by repeat constructor]|].
  rewrite concat_app. simpl. by rewrite app_nil_r.
Qed.

(** ** A plan the coordinator can run *)

Record runnable : Prop := {
  rn_ids : NoDup (ids plan);
  rn_edges : Z.of_nat (length (edges plan)) < u64_modulus;
  rn_workers : forall s, s ∈ stages plan -> NoDup (target_workers s);
  rn_partitions : forall s n refs, s ∈ stages plan -> output s = Partitioned n refs -> n <= u32_modulus;
}.

Lemma get_stage_Some id s : get_stage plan id = Some s -> s ∈ stages plan /\ stage_id s = id.
Proof.
  unfold get_stage. intros Hf. pose proof (find_some _ _ Hf) as [Hin Hid]. split; [by apply list_elem_of_In|].
  by apply Z.eqb_eq.
Qed.

Lemma unit_stage_id s u : stage_id (unit_stage s u) = stage_id s.
Proof. by destruct u. Qed.

(** Tickets of another unit of the stage, or of another stage. *)
Lemma foreign_stage s u id t : ticket_at query id t -> id <> stage_id s -> foreign (unit_stage s u) t.
Proof.
  intros Hat Hne w t' Hw Ht' E. apply Hne. symmetry.
  eapply ticket_at_inj; [|exact Hat|exact E]. rewrite <- (unit_stage_id s u). by eapply ticket_of_at.
Qed.

Lemma foreign_unit s us u todo t u' w :
  NoDup (target_workers s) -> bk_units s = us ++ u :: todo -> u' ∈ us -> w ∈ target_workers (unit_stage s u') ->
  ticket_of s query w t -> foreign (unit_stage s u) t.
Proof.
  intros Hnd Hu Hu' Hw Ht w' t' Hw' Ht' E. simpl in Hu. destruct (has_exchange_inputs s).
  2: { destruct us as [|? [|]]; simpl in Hu; simplify_eq. by apply not_elem_of_nil in Hu'. }
  assert (Hall : NoDup (us ++ u :: todo)) by (rewrite <- Hu; apply NoDup_fmap_2; [apply _|done]).
  assert (Hsome : forall v, v ∈ us ++ u :: todo -> exists x, v = Some x).
  { intros v. rewrite <- Hu. intros (x & -> & _)%list_elem_of_fmap. by exists x. }
  destruct (Hsome u) as [x ->]; [apply elem_of_app; right; left|].
  destruct (Hsome u') as [y ->]; [apply elem_of_app; by left|]. simpl in Hw, Hw'.
  apply list_elem_of_singleton in Hw as ->, Hw' as ->.
  assert (Hst : ticket_of s query x t') by exact Ht'.
  pose proof (ticket_of_id _ _ _ _ _ _ Hst Ht E) as ->.
  apply NoDup_app in Hall as (_ & Hno & _). apply (Hno (Some y) Hu'). left.
Qed.

#[local] Arguments bk_units : simpl never.
#[local] Arguments bk_resolve : simpl never.
#[local] Arguments bk_submit : simpl never.

(** ** The invariant of a level *)

Definition outs_ok (outs : Outs) (ex : executor) : Prop :=
  forall id ts, outs !! id = Some ts -> exists s, get_stage plan id = Some s /\ units_done outs ex s (bk_units s) ts.

Definition task_ok (outs : Outs) (ex : executor) (t : @Task RecordBatch) : Prop :=
  match task_pc t with
  | NotStarted => task_tickets t = []
  | Resolving s todo => get_stage plan (task_id t) = Some s /\
      exists us, bk_units s = us ++ todo /\ units_done outs ex s us (task_tickets t)
  | Submitting s u todo ins _ => get_stage plan (task_id t) = Some s /\
      exists us call, bk_units s = us ++ u :: todo /\ units_done outs ex s us (task_tickets t) /\
        bk_resolve call ex plan (stage_id s) u outs = Ret (Ok ins)
  | Finished (Ok ts) => ts = task_tickets t /\
      exists s, get_stage plan (task_id t) = Some s /\ units_done outs ex s (bk_units s) ts
  | Finished (Err _) => True
  end.

Lemma outs_tickets outs ex id ts t : outs_ok outs ex -> outs !! id = Some ts -> t ∈ ts -> ticket_at query id t.
Proof.
  intros Ho Hid Ht. destruct (Ho _ _ Hid) as (s & Hs & Hd). apply get_stage_Some in Hs as [_ <-].
  destruct (units_done_tickets _ _ _ _ _ _ Hd Ht) as (u & w & _ & _ & Htk). by eapply ticket_of_at.
Qed.

Lemma task_ok_grows outs (ex ex' : executor) t :
  same_outputs outs ex ex' -> (forall tk, ticket_at query (task_id t) tk -> fetch_output ex' tk = fetch_output ex tk) ->
  task_ok outs ex t -> task_ok outs ex' t.
Proof.
  intros Hs Ht. unfold task_ok.
  assert (Hgrow : forall s us ts, get_stage plan (task_id t) = Some s -> units_done outs ex s us ts -> units_done outs ex' s us ts).
  { intros s us ts Hg Hd. eapply units_done_grows; [exact Hs|done| |exact Hd]. intros tk Htk. apply Ht.
    destruct (units_done_tickets _ _ _ _ _ _ Hd Htk) as (u & w & _ & _ & Hof).
    apply get_stage_Some in Hg as [_ <-]. by eapply ticket_of_at. }
  destruct (task_pc t) as [|s todo|s u todo ins k|[ts|e]]; try done.
  - intros [Hg (us & Hu & Hd)]. split; [done|]. exists us. split; [done|by eapply Hgrow].
  - intros [Hg (us & call & Hu & Hd & Hr)]. split; [done|]. exists us, call. split; [done|]. split; [by eapply Hgrow|].
    destruct Hs as [_ Ho]. by eapply bk_resolve_grows.
  - intros [-> (s & Hg & Hd)]. split; [done|]. exists s. split; [done|by eapply Hgrow].
Qed.

Lemma outs_ok_grows outs (ex ex' : executor) : same_outputs outs ex ex' -> outs_ok outs ex -> outs_ok outs ex'.
Proof.
  intros Hs Ho id ts Hid. destruct (Ho _ _ Hid) as (s & Hg & Hd). exists s. split; [done|].
  eapply units_done_grows; [exact Hs|done| |exact Hd]. intros t Ht. by eapply (proj2 Hs).
Qed.

(** A submission of a stage that is not among the outputs. *)
Lemma framed_outputs outs (ex ex' : executor) s u :
  outs_ok outs ex -> outs !! stage_id s = None -> framed (unit_stage s u) ex ex' -> same_outputs outs ex ex'.
Proof.
  intros Ho Hno [Hdb Hf]. split; [done|]. intros id ts t Hid Ht. apply Hf.
  eapply foreign_stage; [by eapply outs_tickets|]. intros ->. congruence.
Qed.

Lemma unit_stage_partitions s u : output (unit_stage s u) = output s.
Proof. by destruct u. Qed.

Lemma submitted_unit outs (ex ex' : executor) s u call call' start now ins ts :
  runnable -> s ∈ stages plan -> same_outputs outs ex ex' ->
  bk_resolve call ex plan (stage_id s) u outs = Ret (Ok ins) ->
  submit_stage run_sql duration_debug call' ex start now query (unit_stage s u) ins = Ret (Ok ts, ex') ->
  unit_done outs ex' s u ts.
Proof.
  intros Hrun Hs Hsame Hr Hsub. unfold submit_stage in Hsub.
  apply submit_on_workers_ok in Hsub as (kvss & Hran & -> & ->).
  2: { intros n refs. rewrite unit_stage_partitions. by apply (rn_partitions Hrun). }
  assert (Hnd : NoDup (target_workers (unit_stage s u))).
  { destruct u; [apply NoDup_singleton|by apply (rn_workers Hrun)]. }
  destruct (all_tickets_NoDup _ _ _ _ _ _ _ _ Hnd Hran) as [Hids _].
  exists call, call', ins, kvss. split_and!.
  - destruct Hsame as [_ Ho]. by eapply bk_resolve_grows.
  - eapply Forall2_impl; [exact Hran|]. intros w kvs. apply worker_ran_databases. by rewrite store_all_databases.
  - done.
  - intros t bs Hin. by apply store_all_lookup.
Qed.

Definition keeps_others (id : StageId) (ex ex' : executor) : Prop :=
  forall tk id', ticket_at query id' tk -> id' <> id -> fetch_output ex' tk = fetch_output ex tk.

Lemma next_unit_ok outs ex id s us todo ts :
  get_stage plan id = Some s -> bk_units s = us ++ todo -> units_done outs ex s us ts ->
  task_ok outs ex (next_unit id s todo ts).
Proof.
  intros Hg Hu Hd. unfold next_unit, task_ok. destruct todo as [|u todo]; simpl.
  - rewrite app_nil_r in Hu. split; [done|]. exists s. split; [done|]. by rewrite Hu.
  - split; [done|]. by exists us.
Qed.

Lemma task_step_ok outs (ex ex' : executor) c c' t t' a :
  runnable -> outs_ok outs ex -> outs !! task_id t = None -> task_ok outs ex t ->
  task_step max_stage_retries plan query outs ex c t a = Some (Ret (ex', c', t')) ->
  task_id t' = task_id t /\ same_outputs outs ex ex' /\ keeps_others (task_id t) ex ex' /\ task_ok outs ex' t'.
Proof.
  intros Hrun Ho Hno Ht. destruct t as [id pc ts]. unfold task_step. cbn [task_pc task_id task_tickets] in *.
  assert (Hq : forall t', task_id t' = id -> task_ok outs ex t' ->
    task_id t' = id /\ same_outputs outs ex ex /\ keeps_others id ex ex /\ task_ok outs ex t') by done.
  destruct a as [now|call|call start now], pc as [|s [|u todo]|s u todo ins k|r]; try done.
  - destruct (get_stage plan id) as [s|] eqn:Hg; intros [= <- <- <-]; apply Hq; try done.
    apply (next_unit_ok outs ex id s []); [done|done|]. exists []. split; [constructor|done].
  - destruct Ht as [Hg (us & Hu & Hd)]. destruct (get_stage_Some _ _ Hg) as [_ Hid]. simpl in Hg, Hd.
    destruct (bk_resolve call ex plan id u outs) as [[ins|e]| |] eqn:Hr; try done; intros [= <- <- <-]; apply Hq; try done.
    unfold task_ok. simpl. split; [done|]. exists us, call. by rewrite Hid.
  - destruct Ht as [Hg (us & call0 & Hu & Hd & Hr)]. simpl in Hg, Hd, Hr. destruct (get_stage_Some _ _ Hg) as [Hin Hid].
    destruct (bk_submit call start now ex query (unit_stage s u) ins) as [[r ex1]| |] eqn:Hsub; [|by intros [= ]..].
    change (submit_stage run_sql duration_debug call ex start now query (unit_stage s u) ins = Ret (r, ex1)) in Hsub.
    assert (Hf : framed (unit_stage s u) ex ex1) by (by eapply submit_stage_frame).
    assert (Hsame : same_outputs outs ex ex1) by (eapply framed_outputs; [exact Ho|by rewrite Hid|exact Hf]).
    assert (Hk : keeps_others id ex ex1).
    { intros tk id' Hat Hne. apply (proj2 Hf). eapply foreign_stage; [exact Hat|by rewrite Hid]. }
    assert (Hd' : units_done outs ex1 s us ts).
    { eapply units_done_grows; [exact Hsame|done| |exact Hd]. intros t Ht. apply (proj2 Hf).
      destruct (units_done_tickets _ _ _ _ _ _ Hd Ht) as (u' & w & Hu' & Hw & Htk).
      eapply foreign_unit; [by apply (rn_workers Hrun)|exact Hu|exact Hu'|exact Hw|exact Htk]. }
    destruct r as [ts1|e].
    + intros [= <- <- <-]. simpl. split; [done|]. split; [done|]. split; [done|].
      apply (next_unit_ok _ _ id s (us ++ [u])); [done|by rewrite <- app_assoc|].
      apply units_done_snoc; [exact Hd'|]. eapply submitted_unit; [exact Hrun|exact Hin|exact Hsame|exact Hr|exact Hsub].
    + destruct (retries_exhausted _ _ _ _) as [x|]; intros [= <- <- <-]; (split; [done|]); (split; [done|]); (split; [done|]); [done|].
      unfold task_ok. simpl. split; [done|]. exists us, call0. split; [done|]. split; [done|].
      destruct Hsame as [_ Hso]. by eapply bk_resolve_grows.
Qed.

Record level_inv (outs : Outs) (level : list StageId) (dbs : gmap WorkerId Database)
    (st : executor * CoordState * list (@Task RecordBatch)) : Prop := {
  li_ids : map task_id st.2 = level;
  li_tasks : Forall (task_ok outs st.1.1) st.2;
  li_outs : outs_ok outs st.1.1;
  li_dbs : worker_databases st.1.1 = dbs;
}.

Lemma level_step_ok outs level dbs st st' a :
  runnable -> NoDup level -> (forall id, id ∈ level -> outs !! id = None) ->
  level_inv outs level dbs st ->
  level_step max_stage_retries plan query distributed outs st a = Some (Ret st') -> level_inv outs level dbs st'.
Proof.
  intros Hrun Hnd Hno [Hids Ht Ho Hdb]. destruct st as [[ex c] tasks]. simpl in *. destruct a as [i a|q].
  2: { intros [= <-]. by split. }
  destruct (tasks !! i) as [t|] eqn:Hi; simpl; [|done].
  destruct (task_step _ _ _ _ _ _ _ _) as [[[[ex' c'] t']| |]|] eqn:Hs; simpl; try done. intros [= <-].
  assert (Hl : level !! i = Some (task_id t)).
  { rewrite <- Hids. change (map task_id tasks) with (task_id <$> tasks). by rewrite list_lookup_fmap, Hi. }
  apply (task_step_ok _ _ _ _ _ _ _ _ Hrun Ho) in Hs as (Hid & Hsame & Hk & Ht').
  2: { apply Hno. by eapply list_elem_of_lookup_2. }
  2: { by eapply Forall_lookup_1. }
  split; simpl.
  - rewrite <- Hids. change (task_id <$> <[i := t']> tasks = task_id <$> tasks). rewrite list_fmap_insert, Hid.
    apply list_insert_id. by rewrite list_lookup_fmap, Hi.
  - apply Forall_lookup. intros j tj Hj. destruct (decide (j = i)) as [->|Hne].
    + rewrite list_lookup_insert_eq in Hj by (by eapply lookup_lt_Some). by injection Hj as <-.
    + rewrite list_lookup_insert_ne in Hj by done. eapply task_ok_grows; [exact Hsame| |by eapply Forall_lookup_1].
      intros tk Hat. apply (Hk tk (task_id tj) Hat). intros E. apply Hne.
      eapply NoDup_lookup; [exact Hnd| |exact Hl]. rewrite <- E, <- Hids.
      change (map task_id tasks) with (task_id <$> tasks). by rewrite list_lookup_fmap, Hj.
  - by eapply outs_ok_grows.
  - destruct Hsame as [-> _]. done.
Qed.

Lemma level_run_ok outs level dbs l : forall st st',
  runnable -> NoDup level -> (forall id, id ∈ level -> outs !! id = None) -> level_inv outs level dbs st ->
  level_run max_stage_retries plan query distributed outs st l = Some (Ret st') -> level_inv outs level dbs st'.
Proof.
  induction l as [|a l IH]; intros st st' Hrun Hnd Hno Hinv; simpl; [by intros [= <-]|].
  destruct (level_step _ _ _ _ _ _ _) as [[st1| |]|] eqn:E; try done. apply IH; try done. by eapply level_step_ok.
Qed.

(** ** Level after level *)

Lemma collect_ok outs0 (ex : executor) tasks : forall results (p p' : Progress) c,
  Forall (task_ok outs0 ex) tasks -> level_results tasks = Some results ->
  outs0 ⊆ pr_outputs p -> outs_ok (pr_outputs p) ex ->
  NoDup (map task_id tasks) -> (forall id, id ∈ map task_id tasks -> pr_outputs p !! id = None) ->
  collect_level query distributed p results = (Ok p', c) ->
  outs_ok (pr_outputs p') ex /\ dom (pr_outputs p') = dom (pr_outputs p) ∪ list_to_set (map task_id tasks) /\ c = pr_coord p'.
Proof.
  induction tasks as [|t tasks IH]; intros results p p' c Ht Hr Hsub Ho Hnd Hno.
  { injection Hr as <-. simpl. intros [= <- <-]. split; [done|]. split; [|done]. set_solver. }
  apply Forall_cons in Ht as [Ht Hts]. unfold level_results in Hr. simpl in Hr.
  destruct (task_pc t) as [| | |r] eqn:Hpc; try done. simpl in Hr.
  destruct (mapM _ tasks) as [rest|] eqn:Hm; [|done]. injection Hr as <-. simpl in Hnd, Hno.
  apply NoDup_cons in Hnd as [Hni Hnd]. destruct r as [ts|e]; [|done]. simpl. intros Hc.
  unfold task_ok in Ht. rewrite Hpc in Ht. destruct Ht as [-> (s & Hg & Hd)].
  assert (Hfresh : pr_outputs p !! task_id t = None) by (apply Hno; left).
  assert (Hgrow : pr_outputs p ⊆ <[task_id t := task_tickets t]> (pr_outputs p)) by (by apply insert_subseteq).
  assert (Hrefl : forall outs, same_outputs outs ex ex) by done.
  apply (IH rest) in Hc as (Ho' & Hdom & ->); [|done|exact Hm| | |done|]; simpl in *.
  - split; [done|]. split; [|done]. rewrite Hdom, dom_insert_L. set_solver.
  - by etrans.
  - intros id ts Hid. apply lookup_insert_Some in Hid as [[<- <-]|[_ Hid]].
    + exists s. split; [done|]. eapply units_done_grows; [apply Hrefl| |done|exact Hd]. by etrans.
    + destruct (Ho _ _ Hid) as (s' & Hg' & Hd'). exists s'. split; [done|]. by eapply units_done_grows.
  - intros id Hin. rewrite lookup_insert_ne; [apply Hno; by right|]. by intros <-.
Qed.

Lemma run_levels_ok levels : forall schedules (ex ex' : executor) (p p' : Progress) c,
  runnable -> NoDup (concat levels) -> (forall id, id ∈ concat levels -> pr_outputs p !! id = None) ->
  outs_ok (pr_outputs p) ex ->
  run_levels max_stage_retries plan query distributed levels schedules ex p = Some (Ret (Ok p', ex', c)) ->
  outs_ok (pr_outputs p') ex' /\ dom (pr_outputs p') = dom (pr_outputs p) ∪ list_to_set (concat levels) /\
  worker_databases ex' = worker_databases ex.
Proof.
  induction levels as [|level levels IH]; intros schedules ex ex' p p' c Hrun Hnd Hno Ho.
  { destruct schedules; simpl; intros [= <- <- _]; (split; [done|]); (split; [set_solver|done]). }
  destruct schedules as [|l schedules]; simpl; [done|].
  destruct (level_run _ _ _ _ _ _ l) as [[[[ex1 c1] tasks]| |]|] eqn:El; try done.
  destruct (level_results tasks) as [results|] eqn:Hr; simpl; [|done].
  simpl in Hnd, Hno. apply NoDup_app in Hnd as (Hnd & Hdis & Hnd').
  apply (level_run_ok _ level (worker_databases ex)) in El as [Hids Ht Ho1 Hdb]; [|done|done| |].
  2: { intros id Hin. apply Hno, elem_of_app. by left. }
  2: { split; simpl; [rewrite map_map; apply map_id| |done|done].
       apply Forall_forall. intros t (id & -> & _)%list_elem_of_fmap. done. }
  simpl in *. destruct (collect_level _ _ _ results) as [[p1|e] c2] eqn:Ec; [|done].
  apply (collect_ok (pr_outputs p) ex1 tasks) in Ec as (Ho2 & Hdom & ->); [|done|done|done|done| |]; simpl in *.
  2: { by rewrite Hids. }
  2: { rewrite Hids. intros id Hin. apply Hno, elem_of_app. by left. }
  intros Hrest. apply IH in Hrest as (Ho3 & Hdom3 & Hdb3); [|done|done| |done].
  - split; [done|]. split; [|congruence]. rewrite Hdom3, Hdom, Hids, list_to_set_app_L. set_solver.
  - intros id Hin. apply not_elem_of_dom. rewrite Hdom, Hids. intros [Hd|Hd]%elem_of_union.
    + apply elem_of_dom in Hd as [ts Hd]. rewrite Hno in Hd; [done|]. apply elem_of_app. by right.
    + apply elem_of_list_to_set in Hd. by apply (Hdis id).
Qed.

(** ** The equations *)

Lemma resolve_no_exchange run call k (outs : Outs) ins (acc : gmap string (list RecordBatch)) :
  existsb (fun i => match i with ExchangeInput _ _ => true | LocalCatalog => false end) ins = false ->
  resolve_each run call k plan outs ins acc = Ret (Ok acc).
Proof. revert k. induction ins as [|[|x name] ins IH]; intros k; simpl; [done|apply IH|done]. Qed.

(** A stage on a worker: the inputs its exchanges deliver, and its answer to
    them behind its tickets. *)
Definition equation (outs : Outs) (ex : executor) (s : Stage) (w : WorkerId) : Prop :=
  exists ts call call' ins, outs !! stage_id s = Some ts /\
    resolve_inputs_for_worker (fetch_output ex) call plan (stage_id s) w outs = Ret (Ok ins) /\
    output_served run_sql call' ex ex query s ins ts w.

Lemma ran_served (call : list nat) (ex : executor) s u w ins kvss ts :
  Forall2 (worker_ran run_sql call ex query (unit_stage s u) ins) (target_workers (unit_stage s u)) kvss ->
  (forall t bs, (t, bs) ∈ concat kvss -> fetch_output ex t = Ok bs) -> map fst (concat kvss) ⊆ ts ->
  w ∈ target_workers (unit_stage s u) -> output_served run_sql call ex ex query s ins ts w.
Proof.
  intros Hran Hf Hsub Hw. apply list_elem_of_lookup in Hw as (i & Hi).
  destruct (Forall2_lookup_l _ _ _ _ _ Hran Hi) as (kvs & Hk & k & out & Ho & Hl & He).
  assert (Hserved : forall t bs, (t, bs) ∈ kvs -> t ∈ ts /\ fetch_output ex t = Ok bs).
  { intros t bs Hin. assert (Hall : (t, bs) ∈ concat kvss).
    { apply list_elem_of_In, in_concat. exists kvs. split; apply list_elem_of_In; [|done]. by eapply list_elem_of_lookup_2. }
    split; [|by apply Hf]. apply Hsub. by apply (list_elem_of_fmap_2 fst) in Hall. }
  assert (Es : stage_sql (unit_stage s u) = stage_sql s /\ inputs (unit_stage s u) = inputs s /\
    limits (unit_stage s u) = limits s /\ output (unit_stage s u) = output s) by (by destruct u).
  destruct Es as (Esql & Ein & Elim & Eout). unfold worker_output, requires_local_catalog in Ho. rewrite Esql, Ein in Ho.
  rewrite Elim in Hl. unfold worker_entries in He. rewrite Eout, unit_stage_id in He.
  exists out. split; [done|]. split; [done|]. destruct (output s) as [|n refs].
  - subst kvs. apply Hserved. left.
  - destruct He as (pss & Hp & ->). exists k, pss. split; [done|]. split; [by eapply partition_batches_length|].
    intros p bs Hpb. apply Hserved. apply list_elem_of_lookup. exists p. by rewrite list_lookup_imap, Hpb.
Qed.

Lemma done_equation (outs : Outs) (ex : executor) s w :
  outs_ok outs ex -> get_stage plan (stage_id s) = Some s -> is_Some (outs !! stage_id s) -> w ∈ target_workers s ->
  equation outs ex s w.
Proof.
  intros Ho Hg [ts Hts] Hw. destruct (Ho _ _ Hts) as (s' & Hg' & (tss & Hd & ->)). rewrite Hg in Hg'. injection Hg' as <-.
  assert (Hunit : exists u, u ∈ bk_units s /\ w ∈ target_workers (unit_stage s u) /\
    (u = Some w \/ u = None /\ has_exchange_inputs s = false)).
  { unfold bk_units. simpl. destruct (has_exchange_inputs s).
    - exists (Some w). split; [by apply list_elem_of_fmap_2|]. split; [by left|by left].
    - exists None. split; [by left|]. split; [done|by right]. }
  destruct Hunit as (u & Hu & Hwu & Hcase). apply list_elem_of_lookup in Hu as (i & Hi).
  destruct (Forall2_lookup_l _ _ _ _ _ Hd Hi) as (ts & Hti & call & call' & ins & kvss & Hr & Hran & -> & Hf).
  exists (concat tss), call, call', ins. split; [done|]. split.
  - unfold bk_resolve in Hr. simpl in Hr. destruct Hcase as [->|[-> Hx]].
    + destruct (resolve_inputs_for_worker _ _ _ _ _ _) as [[m|e]| |]; try done. by injection Hr as ->.
    + unfold resolve_inputs_for_worker, resolve_inputs in *. rewrite Hg in *. unfold has_exchange_inputs, is_exchange_input in Hx.
      rewrite resolve_no_exchange in Hr |- * by done. by injection Hr as ->.
  - eapply ran_served; [exact Hran|exact Hf| |exact Hwu]. intros t Ht. apply list_elem_of_In, in_concat.
    exists (map fst (concat kvss)). split; apply list_elem_of_In; [|done]. by eapply list_elem_of_lookup_2.
Qed.

Lemma fetch_final_ok now (ex : executor) root ts : forall acc bs,
  fetch_final (E := executor) now ex root ts acc = Ok bs ->
  exists bss, Forall2 (fun t b => fetch_output ex t = Ok b) ts bss /\ bs = acc ++ concat bss.
Proof.
  induction ts as [|t ts IH]; intros acc bs; simpl.
  { intros [= <-]. exists []. split; [constructor|]. simpl. by rewrite app_nil_r. }
  destruct (fetch_output ex t) as [b|e] eqn:E; [|done]. intros (bss & Hf & ->)%IH.
  exists (b :: bss). split; [by constructor|]. simpl. by rewrite app_assoc.
Qed.

Lemma runnable_stage s : runnable -> s ∈ stages plan -> get_stage plan (stage_id s) = Some s.
Proof.
  intros Hrun Hs. unfold get_stage. destruct (List.find _ _) as [s'|] eqn:E.
  - apply find_some in E as [Hin Hid]. apply list_elem_of_In in Hin. apply Z.eqb_eq in Hid. f_equal.
    apply list_elem_of_lookup in Hs as (i & Hi), Hin as (j & Hj). pose proof (rn_ids Hrun) as Hnd. unfold ids in Hnd.
    assert (j = i) as ->.
    { eapply NoDup_lookup; [exact Hnd| |]; change (map stage_id ?l) with (stage_id <$> l); rewrite list_lookup_fmap;
        [by rewrite Hj|by rewrite Hi, Hid]. }
    congruence.
  - apply list_elem_of_In in Hs. pose proof (find_none _ _ E s Hs) as Hf. simpl in Hf. by rewrite Z.eqb_refl in Hf.
Qed.

(** C19: a local run that answers leaves a store that solves the equations of
    the plan: for every stage and every worker of it, the inputs delivered by
    the exchanges from that store, and the answer of the worker's database to
    them behind the stage's tickets; the answer of the run is what the tickets
    of the root stage serve.  Neither the interleaving of the stages nor
    repeated submissions nor cancellations change that. *)
Theorem local_run_solves call schedules now dbs (ex : executor) c c' bs ws :
  runnable ->
  execute_levels max_stage_retries plan query distributed call schedules now (with_databases dbs) c
    = Some (Ret (Ok (bs, ws), ex, c')) ->
  worker_databases ex = dbs /\
  exists outs, (forall s w, s ∈ stages plan -> w ∈ target_workers s -> equation outs ex s w) /\
    exists ts bss, outs !! root_stage plan = Some ts /\ Forall2 (fun t b => fetch_output ex t = Ok b) ts bss /\
      bs = concat bss.
Proof.
  intros Hrun. unfold execute_levels.
  destruct (execution_levels_run call plan (rn_edges Hrun) (rn_ids Hrun)) as ([levels|e] & -> & Hok); [|done].
  destruct Hok as (Hperm & _ & _).
  destruct (run_levels _ _ _ _ levels _ _ _) as [[[[[p|x] ex1] c1]| |]|] eqn:El; simpl; try done.
  apply run_levels_ok in El as (Ho & Hdom & Hdb); [|done| |done|done].
  2: { rewrite Hperm. apply (rn_ids Hrun). }
  destruct (pr_outputs p !! root_stage plan) as [ts|] eqn:Ets; [|done].
  destruct (fetch_final now ex1 (root_stage plan) ts []) as [bs'|x] eqn:Ef; [|done]. intros [= <- _ <- _].
  split; [exact Hdb|]. exists (pr_outputs p). split.
  - intros s w Hs Hw. apply done_equation; [done|by apply runnable_stage| |done].
    apply elem_of_dom. rewrite Hdom. simpl. apply elem_of_union_r, elem_of_list_to_set. rewrite Hperm.
    by apply list_elem_of_fmap_2.
  - apply fetch_final_ok in Ef as (bss & Hf & ->). by exists ts, bss.
Qed.
End solves.

(** ** Concrete runs *)

#[local] Existing Instance demo_std.
#[local] Existing Instance demo_order.
#[local] Existing Instance Table.arrow.
#[local] Existing Instance Table.laws.

(** A stage with an input answers it, a scan answers the worker's database. *)
Definition demo_answer (db : option (list Table.t)) (sql : string) (ins : gmap string (list Table.t))
    : result (list Table.t) StageExecutionError :=
  Ok (match ins !! "__exchange_0" with Some bs => bs | None => default [] db end).

Definition demo_run_plan : LdpPlan :=
  mkPlan "q" "w1" [mkStage 0 ["w1"; "w2"] [LocalCatalog] Stream "SELECT k, v FROM t" StageLimits_default;
                   mkStage 1 ["w2"] [LocalCatalog] Stream "SELECT k, v FROM s" StageLimits_default;
                   mkStage 2 ["w1"] [ExchangeInput 0 "__exchange_0"; ExchangeInput 1 "__exchange_1"] Stream
                     "SELECT * FROM __exchange_0" StageLimits_default]
    [mkEdge 0 (Gather "w1") 0 2 []; mkEdge 1 (Gather "w1") 1 2 []] 2.

Definition demo_dbs : gmap WorkerId (list Table.t) := <["w1" := [demo_small]]> {[ "w2" := [demo_other] ]}.

(** The scans interleave, and a query is cancelled in between. *)
Definition demo_schedules : list (list LevelAction) :=
  [[OnTask 1 (StartStage 0); OnTask 0 (StartStage 0); OnTask 1 (ResolveInputs []); OnTask 0 (ResolveInputs []);
    CancelFromOutside "q"; OnTask 1 (SubmitOnce [] 0 (fun _ => 1)); OnTask 0 (SubmitOnce [] 0 (fun _ => 1))];
   [OnTask 0 (StartStage 2); OnTask 0 (ResolveInputs []); OnTask 0 (SubmitOnce [] 2 (fun _ => 3))]].

Abbreviation demo_execute := (execute_levels (H0 := local_backend demo_answer pretty)
  3 demo_run_plan "q" false [] demo_schedules 5 (with_databases demo_dbs) LdpCoordinator_new).

Lemma local_run_solves_witness :
  exists ex c, demo_execute = Some (Ret (Ok ([demo_small; demo_other], ["w2"; "w1"]), ex, c)) /\
    exists outs, equation demo_answer demo_run_plan "q" outs ex
      (mkStage 2 ["w1"] [ExchangeInput 0 "__exchange_0"; ExchangeInput 1 "__exchange_1"] Stream
         "SELECT * FROM __exchange_0" StageLimits_default) "w1".
Proof.
  assert (Hr : exists ex c, demo_execute = Some (Ret (Ok ([demo_small; demo_other], ["w2"; "w1"]), ex, c)))
    by (eexists _, _; vm_compute; reflexivity).
  destruct Hr as (ex & c & Hr). exists ex, c. split; [exact Hr|].
  destruct (local_run_solves demo_answer pretty demo_run_plan "q" false 3 [] demo_schedules 5 demo_dbs ex LdpCoordinator_new c
    [demo_small; demo_other] ["w2"; "w1"]) as (_ & outs & He & _).
  - split.
    + apply (bool_decide_eq_true_1 (NoDup (ids demo_run_plan))). reflexivity.
    + reflexivity.
    + intros s Hs. repeat (apply elem_of_cons in Hs as [->|Hs]);
        [apply (bool_decide_eq_true_1 (NoDup ["w1"; "w2"])); reflexivity|apply NoDup_singleton..|by apply not_elem_of_nil in Hs].
    + intros s n refs Hs. repeat (apply elem_of_cons in Hs as [->|Hs]); [discriminate..|by apply not_elem_of_nil in Hs].
  - exact Hr.
  - exists outs. apply He; [|left]. right. right. left.
Defined.

Lemma stage_futures_end_witness :
  let level := [1; 0] in
  let run := level_run (H0 := local_backend demo_answer pretty) 3 demo_run_plan "q" false ∅
    (with_databases demo_dbs, LdpCoordinator_new, map new_task level) [OnTask 0 (StartStage 0)] in
  exists e c tasks, run = Some (Ret (e, c, tasks)) /\
    exists a, is_Some (level_step (H0 := local_backend demo_answer pretty) 3 demo_run_plan "q" false ∅ (e, c, tasks) (OnTask 1 a)).
Proof.
  eexists _, _, _. split; [reflexivity|].
  refine (proj2 (stage_futures_end (H0 := local_backend demo_answer pretty) 3 demo_run_plan "q" false ∅ [1; 0]
    [OnTask 0 (StartStage 0)] (with_databases demo_dbs) LdpCoordinator_new _ _ _ eq_refl) 1%nat _ eq_refl _).
  discriminate.
Defined.

(** A query that has ended keeps the status, and with it the tickets, of all its
    stages. *)
Theorem completed_status_stays :
  (fun r => match r with
            | Ret (Ok _, _, c) => map (fun id => bool_decide (is_Some (get_stage_status c "q" id))) [0; 1; 2]
            | _ => []
            end) <$> demo_execute = Some [true; true; true].
Proof. vm_compute. reflexivity. Qed.

(** [LdpExecutor] resolves the inputs of a stage once for all its workers, so
    every worker of a hash exchange gets the rows of all: they come twice. *)
Definition demo_hash_plan : LdpPlan :=
  mkPlan "q" "w1" [mkStage 0 ["w1"; "w2"] [LocalCatalog] Stream "SELECT k, v FROM t" StageLimits_default;
                   mkStage 1 ["w1"; "w2"] [ExchangeInput 0 "__exchange_0"] Stream "SELECT * FROM __exchange_0"
                     StageLimits_default] [demo_edge] 1.

Theorem ldp_executor_duplicates_rows :
  match ldp_execute demo_answer pretty (fun _ => (0, fun _ => 1)) demo_hash_plan (with_databases demo_dbs) with
  | Ret (Ok bs, _) => length (rows_in bs)
  | _ => 0%nat
  end = (2 * length (rows_in [demo_small; demo_other]))%nat.
Proof. vm_compute. reflexivity. Qed.
