(* ===== verification/Pipelined.v ===== *)
(** * The streaming pipeline
    (ldp/executor/coordinator.rs: execute_pipelined; ldp/executor/stage.rs:
    submit_stage_streaming, RecordBatchStream)

    All stages run at the same time, connected by bounded channels.  A stage is
    two tasks: one collects the inputs, table after table, runs the SQL and
    emits its batches; the other forwards them to the channels of the stages
    below.  The tasks of all stages interleave; a run is a list of steps.  The
    channel to the collector of the results is the one without exchange. *)

From stdpp Require Import pretty.
From S2P Require Import Prelude SqlAst LogicalPlan LdpTypes TopoOrder Policy Arrow HashPartition ExchangeRuntime StageExec.
From S2P Require Import Distributed Coordinator CoordinatorRun CutPlan.

#[local] Open Scope Z_scope.

(** ** Wiring *)

Definition compute_buffer_capacity (target_buffer_bytes : Z) : nat :=
  Z.to_nat (Z.max 2 (Z.min 64 (target_buffer_bytes `div` (4 * 1024 * 1024)))).

(** A stage with the exchanges its streams read and those it feeds. *)
Record Wired := mkWired {
  wd_stage : Stage; wd_inputs : gmap string ExchangeId; wd_outputs : list (option ExchangeId);
}.

(** The channels that have both ends in the map. *)
Abbreviation StageChannels := (gset ExchangeId).

Fixpoint resolve_input_streams (channels : StageChannels) (ins : list StageInput) (acc : gmap string ExchangeId)
    : result (gmap string ExchangeId * StageChannels) CoordinatorError :=
  match ins with
  | [] => Ok (acc, channels)
  | LocalCatalog :: ins => resolve_input_streams channels ins acc
  | ExchangeInput x table_name :: ins =>
      if bool_decide (x ∈ channels) then resolve_input_streams (channels ∖ {[x]}) ins (<[table_name := x]> acc)
      else Err (CE_ExecutionFailed (ExchangeFailed ("Exchange " +:+ pretty x +:+ " not found in stage channels")))
  end.

Definition get_output_channels (id : StageId) (es : list ExchangeEdge) (channels : StageChannels) : list ExchangeId :=
  map exchange_id (List.filter (fun e => (from_stage e =? id) && bool_decide (exchange_id e ∈ channels)) es).

(** The loop that spawns the stages. *)
Fixpoint wire_stages (plan : LdpPlan) (channels : StageChannels) (ss : list Stage) : result (list Wired) CoordinatorError :=
  match ss with
  | [] => Ok []
  | s :: ss =>
      let? r := resolve_input_streams channels (inputs s) ∅ in
      let outs := map Some (get_output_channels (stage_id s) (edges plan) r.2) ++
                  (if stage_id s =? root_stage plan then [None] else []) in
      let? rest := wire_stages plan r.2 ss in
      Ok (mkWired s r.1 outs :: rest)
  end.

Definition wire (plan : LdpPlan) : result (list Wired) CoordinatorError :=
  wire_stages plan (list_to_set (map exchange_id (edges plan))) (stages plan).

(** ** The tasks *)

Section run.
Context {RecordBatch : Type} `{HashOrder}.
(** What [execute_stage_batches] answers. *)
Context (run_stage : Stage -> gmap string (list RecordBatch) -> result (list RecordBatch) StageExecutionError).

Inductive Background :=
| Collecting (todo : list (string * ExchangeId)) (batches : list RecordBatch)
| Emitting (todo : list (result RecordBatch StageExecutionError))
| BgDone.

Inductive Forwarder :=
| Receiving
| Forwarding (b : RecordBatch) (todo : list (option ExchangeId))
| FwEnded (r : result unit CoordinatorError).

Record StageRun := mkStageRun {
  sr_wired : Wired; sr_bg : Background; sr_inputs : gmap string (list RecordBatch);
  sr_queue : list (result RecordBatch StageExecutionError); sr_fw : Forwarder;
}.

(** All that was sent on a channel, and how much of it was received. *)
Record Channel := mkChannel { ch_log : list RecordBatch; ch_taken : nat }.

Record PipeState := mkPipe { ps_stages : list StageRun; ps_chans : gmap (option ExchangeId) Channel }.

Definition chan (st : PipeState) (x : option ExchangeId) : Channel := default (mkChannel [] 0) (ps_chans st !! x).
Definition log (st : PipeState) (x : option ExchangeId) : list RecordBatch := ch_log (chan st x).
Definition taken (st : PipeState) (x : option ExchangeId) : nat := ch_taken (chan st x).

Definition fw_ended (s : StageRun) : bool := match sr_fw s with FwEnded _ => true | _ => false end.

(** The senders of a channel are gone. *)
Definition closed (st : PipeState) (x : option ExchangeId) : bool :=
  forallb (fun s => negb (bool_decide (x ∈ wd_outputs (sr_wired s))) || fw_ended s) (ps_stages st).

Definition stage_order (w : Wired) : list (string * ExchangeId) :=
  map_order [Z.to_nat (stage_id (wd_stage w))] (map_to_list (wd_inputs w)).

Definition stage_channel_capacity : nat := 32.

(** The spawned task of [submit_stage_streaming]: the stage after its step,
    and the channel it received from. *)
Definition bg_step (st : PipeState) (s : StageRun) : option (StageRun * option ExchangeId) :=
  let set bg ins q := mkStageRun (sr_wired s) bg ins q (sr_fw s) in
  match sr_bg s with
  | Collecting [] _ =>
      Some (set (Emitting (match run_stage (wd_stage (sr_wired s)) (sr_inputs s) with
                           | Ok output_batches => map Ok output_batches
                           | Err e => [Err e]
                           end)) (sr_inputs s) (sr_queue s), None)
  | Collecting ((t, x) :: todo) batches =>
      match log st (Some x) !! taken st (Some x) with
      | Some b => Some (set (Collecting ((t, x) :: todo) (batches ++ [b])) (sr_inputs s) (sr_queue s), Some x)
      | None =>
          if closed st (Some x) then Some (set (Collecting todo []) (<[t := batches]> (sr_inputs s)) (sr_queue s), None)
          else None
      end
  | Emitting [] => Some (set BgDone (sr_inputs s) (sr_queue s), None)
  | Emitting (m :: todo) =>
      if fw_ended s then Some (set BgDone (sr_inputs s) (sr_queue s), None)
      else if (length (sr_queue s) <? stage_channel_capacity)%nat then
        Some (set (Emitting todo) (sr_inputs s) (sr_queue s ++ [m]), None)
      else None
  | BgDone => None
  end.

Definition stage_failed (w : Wired) (e : StageExecutionError) : CoordinatorError :=
  CE_ExecutionFailed (StageFailed (stage_id (wd_stage w)) (StageExecutionError_display e)).

(** The task that forwards: the stage after its step, and what it sent. *)
Definition fw_step (capacity : nat) (st : PipeState) (s : StageRun) : option (StageRun * option (option ExchangeId * RecordBatch)) :=
  let set q fw := mkStageRun (sr_wired s) (sr_bg s) (sr_inputs s) q fw in
  match sr_fw s with
  | Receiving =>
      match sr_queue s with
      | Ok b :: q => Some (set q (Forwarding b (wd_outputs (sr_wired s))), None)
      | Err e :: q =>
          Some (set q (FwEnded (Err (stage_failed (sr_wired s) e))), None)
      | [] => match sr_bg s with BgDone => Some (set [] (FwEnded (Ok tt)), None) | _ => None end
      end
  | Forwarding b [] => Some (set (sr_queue s) Receiving, None)
  | Forwarding b (x :: todo) =>
      if (length (log st x) - taken st x <? capacity)%nat then Some (set (sr_queue s) (Forwarding b todo), Some (x, b)) else None
  | FwEnded _ => None
  end.

Inductive PipeAction := BgStep (i : nat) | FwStep (i : nat) | CollectResult.

Definition receive (cs : gmap (option ExchangeId) Channel) (c : Channel) (x : option ExchangeId) : gmap (option ExchangeId) Channel :=
  <[x := mkChannel (ch_log c) (S (ch_taken c))]> cs.

Definition pstep (capacity : nat) (st : PipeState) (a : PipeAction) : option PipeState :=
  match a with
  | BgStep i =>
      s ← ps_stages st !! i;
      '(s, x) ← bg_step st s;
      Some (mkPipe (<[i := s]> (ps_stages st))
              (match x with Some x => receive (ps_chans st) (chan st (Some x)) (Some x) | None => ps_chans st end))
  | FwStep i =>
      s ← ps_stages st !! i;
      '(s, m) ← fw_step capacity st s;
      Some (mkPipe (<[i := s]> (ps_stages st))
              (match m with
               | Some (x, b) => <[x := mkChannel (log st x ++ [b]) (taken st x)]> (ps_chans st)
               | None => ps_chans st
               end))
  | CollectResult =>
      match log st None !! taken st None with
      | Some _ => Some (mkPipe (ps_stages st) (receive (ps_chans st) (chan st None) None))
      | None => None
      end
  end.

Fixpoint prun (capacity : nat) (st : PipeState) (l : list PipeAction) : option PipeState :=
  match l with [] => Some st | a :: l => st' ← pstep capacity st a; prun capacity st' l end.

Definition start_run (w : Wired) : StageRun := mkStageRun w (Collecting (stage_order w) []) ∅ [] Receiving.

Definition start_pipeline (ws : list Wired) : PipeState := mkPipe (map start_run ws) ∅.

(** The handles are awaited in the order of the stages, then the collector:
    [None] while one of them is pending. *)
Fixpoint await_stages (ss : list StageRun) : option (result unit CoordinatorError) :=
  match ss with
  | [] => Some (Ok tt)
  | s :: ss => match sr_fw s with
               | FwEnded (Ok _) => await_stages ss
               | FwEnded (Err e) => Some (Err e)
               | _ => None
               end
  end.

Definition pipeline_answer (st : PipeState) : option (result (list RecordBatch) CoordinatorError) :=
  match await_stages (ps_stages st) with
  | Some (Ok _) => if (taken st None =? length (log st None))%nat then Some (Ok (log st None)) else None
  | Some (Err e) => Some (Err e)
  | None => None
  end.

(** [stage_workers] is a hash map. *)
Definition pipeline_workers (call : list nat) (ws : list Wired) : list WorkerId :=
  foldl note_worker [] (concat (map snd (map_order call (map_to_list
    (list_to_map (map (fun w => (stage_id (wd_stage w), target_workers (wd_stage w))) ws) : gmap StageId (list WorkerId)))))).

Definition execute_pipelined (call : list nat) (c : CoordinatorConfig) (plan : LdpPlan) (schedule : list PipeAction)
    : option (result (list RecordBatch * list WorkerId) CoordinatorError) :=
  if cc_distributed c then
    Some (Err (InvalidConfig "Streaming pipeline not yet supported for distributed execution"))
  else
    match wire plan with
    | Err e => Some (Err e)
    | Ok ws =>
        st ← prun (compute_buffer_capacity (pipeline_buffer_bytes (cc_planner_policy c))) (start_pipeline ws) schedule;
        match pipeline_answer st with
        | Some (Ok bs) => Some (Ok (bs, pipeline_workers call ws))
        | Some (Err e) => Some (Err e)
        | None => None
        end
    end.
End run.

(** ** A tree of stages *)

(** Every stage feeds one channel; an exchange is fed by one stage before its
    only reader. *)
Record tree_wired (ws : list Wired) : Prop := {
  tw_one : forall i w, ws !! i = Some w -> exists o, wd_outputs w = [o];
  tw_distinct : forall i j w v o, ws !! i = Some w -> ws !! j = Some v -> o ∈ wd_outputs w -> o ∈ wd_outputs v -> i = j;
  tw_reader : forall i w x, ws !! i = Some w -> Some x ∈ wd_outputs w ->
    exists j v t, ws !! j = Some v /\ wd_inputs v !! t = Some x;
  tw_source : forall j v t x, ws !! j = Some v -> wd_inputs v !! t = Some x ->
    exists i w, (i < j)%nat /\ ws !! i = Some w /\ Some x ∈ wd_outputs w;
  tw_root : exists i w, ws !! i = Some w /\ None ∈ wd_outputs w;
  tw_once : forall j k v u t t' x, ws !! j = Some v -> ws !! k = Some u ->
    wd_inputs v !! t = Some x -> wd_inputs u !! t' = Some x -> j = k /\ t = t';
}.
