(* ===== verification/PipelinedInv.v ===== *)
(** * What the streaming pipeline computes

    The invariant of a run over a tree of stages: what a channel carried, what
    is under way and what a stage still emits make up the answer of the stage
    on its inputs, and an input is complete when its senders are gone.  Whatever
    the order of the steps, the answer of the pipeline is that of running the
    stages one after the other. *)

From stdpp Require Import pretty.
From S2P Require Import Prelude LdpTypes TopoOrder Arrow HashPartition ExchangeRuntime StageExec Distributed Coordinator CoordinatorRun Pipelined.

#[local] Open Scope Z_scope.

Section correct.
Context {RecordBatch : Type} `{HashOrder}.
Context (run_stage : Stage -> gmap string (list RecordBatch) -> result (list RecordBatch) StageExecutionError).
Context (capacity : nat) (ws : list Wired) (tree : tree_wired ws).
Abbreviation stage_run := (@StageRun RecordBatch).
Abbreviation pipe_state := (@PipeState RecordBatch).
Abbreviation pstep := (pstep run_stage capacity).
Implicit Types st : @PipeState RecordBatch.

(** What the batches of a stage are sent as. *)
Definition messages (s : Stage) (ins : gmap string (list RecordBatch)) : list (result RecordBatch StageExecutionError) :=
  match run_stage s ins with Ok bs => map Ok bs | Err e => [Err e] end.

(** The inputs of a stage that were collected. *)
Definition collected (st : pipe_state) (dn : list (string * ExchangeId)) (ins : gmap string (list RecordBatch)) : Prop :=
  ins = list_to_map (map (fun tx : string * ExchangeId => (tx.1, log st (Some tx.2))) dn) /\
  forall tx, tx ∈ dn -> closed st (Some tx.2) = true.

Definition pending (fw : @Forwarder RecordBatch) (o : option ExchangeId) (l : list (result RecordBatch StageExecutionError)) : Prop :=
  match fw with
  | Forwarding b todo => (todo = [o] /\ l = [Ok b]) \/ (todo = [] /\ l = [])
  | _ => l = []
  end.

(** What is sent, under way and still to come is what the stage answered. *)
Definition sends (st : pipe_state) (s : stage_run) (o : option ExchangeId) (todo : list (result RecordBatch StageExecutionError)) : Prop :=
  match sr_fw s with
  | FwEnded (Err c) => exists e, run_stage (wd_stage (sr_wired s)) (sr_inputs s) = Err e /\ c = stage_failed (sr_wired s) e /\ log st o = []
  | fw => exists l, pending fw o l /\
      messages (wd_stage (sr_wired s)) (sr_inputs s) = map Ok (log st o) ++ l ++ sr_queue s ++ todo
  end.

Definition stage_inv (st : pipe_state) (s : stage_run) : Prop :=
  exists o, wd_outputs (sr_wired s) = [o] /\
  match sr_bg s with
  | Collecting todo cur =>
      (exists dn, dn ++ todo = stage_order (sr_wired s) /\ collected st dn (sr_inputs s)) /\
      cur = match todo with (_, x) :: _ => firstn (taken st (Some x)) (log st (Some x)) | [] => [] end /\
      (forall tx, tx ∈ tail todo -> taken st (Some tx.2) = 0%nat) /\
      sr_queue s = [] /\ sr_fw s = Receiving /\ log st o = []
  | Emitting todo => collected st (stage_order (sr_wired s)) (sr_inputs s) /\ sends st s o todo /\ sr_fw s <> FwEnded (Ok tt)
  | BgDone => collected st (stage_order (sr_wired s)) (sr_inputs s) /\ sends st s o [] /\
      (sr_fw s = FwEnded (Ok tt) -> sr_queue s = [])
  end.

Record pipe_inv (st : pipe_state) : Prop := {
  pi_wired : map sr_wired (ps_stages st) = ws;
  pi_stages : forall s, s ∈ ps_stages st -> stage_inv st s;
  pi_taken : forall x, (taken st x <= length (log st x))%nat;
}.

Lemma pi_lookup (st : pipe_state) i s : map sr_wired (ps_stages st) = ws -> ps_stages st !! i = Some s -> ws !! i = Some (sr_wired s).
Proof. intros Hw Hs. rewrite <- Hw. change (map sr_wired ?l) with (sr_wired <$> l). by rewrite list_lookup_fmap, Hs. Qed.

Lemma closed_spec (st : pipe_state) x :
  closed st x = true <-> forall i s, ps_stages st !! i = Some s -> x ∈ wd_outputs (sr_wired s) -> fw_ended s = true.
Proof.
  unfold closed. rewrite forallb_forall. split.
  - intros Hall i s Hs Hx. specialize (Hall s). apply list_elem_of_lookup_2, list_elem_of_In in Hs.
    apply Hall in Hs. by rewrite bool_decide_true in Hs.
  - intros Hall s Hs. apply list_elem_of_In, list_elem_of_lookup in Hs as (i & Hi).
    destruct (bool_decide (x ∈ _)) eqn:Hx; [|done]. simpl. apply bool_decide_eq_true in Hx. by eapply Hall.
Qed.

Lemma stage_order_perm w : stage_order w ≡ₚ map_to_list (wd_inputs w).
Proof. apply map_order_perm. Qed.

Lemma stage_order_elem w t x : (t, x) ∈ stage_order w <-> wd_inputs w !! t = Some x.
Proof. rewrite stage_order_perm. apply elem_of_map_to_list. Qed.

Lemma stage_order_NoDup w : NoDup (map fst (stage_order w)).
Proof. change (NoDup (fst <$> stage_order w)). rewrite stage_order_perm. apply NoDup_fst_map_to_list. Qed.

(** ** Steps *)

(** A step of stage [i]: it may send on its channel while it has not ended, and
    receive from its inputs. *)
Record moves (st st' : pipe_state) (i : nat) (s s' : stage_run) : Prop := {
  mv_at : ps_stages st !! i = Some s;
  mv_stages : ps_stages st' = <[i := s']> (ps_stages st);
  mv_wired : sr_wired s' = sr_wired s;
  mv_ended : fw_ended s = true -> fw_ended s' = true;
  mv_log : forall x, log st' x = log st x \/
    (x ∈ wd_outputs (sr_wired s) /\ fw_ended s = false /\ exists b, log st' x = log st x ++ [b]);
  mv_taken : forall x, taken st' (Some x) = taken st (Some x) \/ exists t, wd_inputs (sr_wired s) !! t = Some x;
}.

Lemma moves_closed st st' i s s' x : moves st st' i s s' -> closed st x = true -> closed st' x = true.
Proof.
  intros Hm. rewrite !closed_spec. intros Hall j sj Hj Hx. rewrite (mv_stages _ _ _ _ _ Hm) in Hj.
  destruct (decide (j = i)) as [->|Hne].
  - rewrite list_lookup_insert_eq in Hj by (eapply lookup_lt_Some, (mv_at _ _ _ _ _ Hm)). injection Hj as <-.
    apply (mv_ended _ _ _ _ _ Hm). eapply Hall; [apply (mv_at _ _ _ _ _ Hm)|]. by rewrite <- (mv_wired _ _ _ _ _ Hm).
  - rewrite list_lookup_insert_ne in Hj by done. by eapply Hall.
Qed.

Lemma moves_log_closed st st' i s s' x : moves st st' i s s' -> closed st x = true -> log st' x = log st x.
Proof.
  intros Hm Hc. destruct (mv_log _ _ _ _ _ Hm x) as [E|(Hx & Hf & _)]; [done|].
  rewrite closed_spec in Hc. rewrite (Hc i s (mv_at _ _ _ _ _ Hm) Hx) in Hf. done.
Qed.

Lemma collected_moves st st' i s s' dn ins : moves st st' i s s' -> collected st dn ins -> collected st' dn ins.
Proof.
  intros Hm [-> Hc]. split; [|intros tx Hin; eapply moves_closed; [exact Hm|by apply Hc]].
  f_equal. apply map_ext_in. intros tx Hin. f_equal. symmetry. eapply moves_log_closed; [exact Hm|].
  apply Hc. by apply list_elem_of_In.
Qed.

Lemma firstn_grows {A} (l l' : list A) n : (n <= length l)%nat -> firstn n (l ++ l') = firstn n l.
Proof. intros Hn. rewrite firstn_app. replace (n - length l)%nat with 0%nat by lia. by rewrite firstn_O, app_nil_r. Qed.

(** What it leaves of the others. *)
Lemma other_stage st st' i j s s' sj :
  map sr_wired (ps_stages st) = ws -> (forall x, (taken st x <= length (log st x))%nat) ->
  moves st st' i s s' -> ps_stages st !! j = Some sj -> j <> i -> stage_inv st sj -> stage_inv st' sj.
Proof.
  intros Hw Htk Hm Hj Hne (o & Ho & Hinv). exists o. split; [done|].
  pose proof (pi_lookup _ _ _ Hw Hj) as Hwj. pose proof (pi_lookup _ _ _ Hw (mv_at _ _ _ _ _ Hm)) as Hwi.
  assert (Hlog : log st' o = log st o).
  { destruct (mv_log _ _ _ _ _ Hm o) as [E|(Hx & _)]; [done|]. destruct Hne.
    eapply (tw_distinct ws tree j i); [exact Hwj|exact Hwi| |exact Hx]. rewrite Ho. by left. }
  assert (Htaken : forall t x, wd_inputs (sr_wired sj) !! t = Some x -> taken st' (Some x) = taken st (Some x)).
  { intros t x Hx. destruct (mv_taken _ _ _ _ _ Hm x) as [E|(t' & Ht')]; [done|]. destruct Hne.
    by destruct (tw_once ws tree _ _ _ _ _ _ _ Hwj Hwi Hx Ht'). }
  destruct (sr_bg sj) as [todo cur|todo|].
  - destruct Hinv as ((dn & Hdn & Hc) & Hcur & Htl & Hq & Hfw & Hl). split; [|split; [|split; [|by rewrite Hlog]]].
    + exists dn. split; [done|]. by eapply collected_moves.
    + rewrite Hcur. destruct todo as [|[t x] todo]; [done|].
      assert (Hx : wd_inputs (sr_wired sj) !! t = Some x) by (apply stage_order_elem; rewrite <- Hdn; apply elem_of_app; right; left).
      rewrite (Htaken _ _ Hx). destruct (mv_log _ _ _ _ _ Hm (Some x)) as [->|(_ & _ & b & ->)]; [done|].
      symmetry. apply firstn_grows, Htk.
    + intros [t x] Hin. rewrite <- (Htl (t, x) Hin). apply (Htaken t). apply stage_order_elem. rewrite <- Hdn.
      apply elem_of_app. right. destruct todo; [by apply not_elem_of_nil in Hin|by right].
  - destruct Hinv as (Hc & Hs & Hf). split; [by eapply collected_moves|]. split; [|done]. unfold sends in *. by rewrite Hlog.
  - destruct Hinv as (Hc & Hs & Hf). split; [by eapply collected_moves|]. split; [|done]. unfold sends in *. by rewrite Hlog.
Qed.

Lemma pipe_inv_moves st st' i s s' :
  pipe_inv st -> moves st st' i s s' -> stage_inv st' s' -> (forall x, (taken st' x <= length (log st' x))%nat) -> pipe_inv st'.
Proof.
  intros [Hw Hs Htk] Hm Hs' Htk'. split; [| |done].
  - rewrite (mv_stages _ _ _ _ _ Hm), <- Hw. change (sr_wired <$> <[i := s']> (ps_stages st) = sr_wired <$> ps_stages st).
    rewrite list_fmap_insert, (mv_wired _ _ _ _ _ Hm). apply list_insert_id. rewrite list_lookup_fmap.
    by rewrite (mv_at _ _ _ _ _ Hm).
  - intros sj Hj. rewrite (mv_stages _ _ _ _ _ Hm) in Hj. apply list_elem_of_lookup in Hj as (j & Hj).
    destruct (decide (j = i)) as [->|Hne].
    + rewrite list_lookup_insert_eq in Hj by (eapply lookup_lt_Some, (mv_at _ _ _ _ _ Hm)). by injection Hj as <-.
    + rewrite list_lookup_insert_ne in Hj by done. eapply other_stage; [done|done|exact Hm|exact Hj|done|].
      apply Hs. by eapply list_elem_of_lookup_2.
Qed.

(** A step that leaves the channels. *)
Lemma quiet_moves st i s s' :
  ps_stages st !! i = Some s -> sr_wired s' = sr_wired s -> (fw_ended s = true -> fw_ended s' = true) ->
  moves st (mkPipe (<[i := s']> (ps_stages st)) (ps_chans st)) i s s'.
Proof. intros Hi Hw Hf. split; try done; by left. Qed.

Lemma log_quiet st (stages : list stage_run) x : log (mkPipe stages (ps_chans st)) x = log st x.
Proof. done. Qed.

Lemma taken_quiet st (stages : list stage_run) x : taken (mkPipe stages (ps_chans st)) x = taken st x.
Proof. done. Qed.

Lemma quiet_inv st i s s' :
  pipe_inv st -> ps_stages st !! i = Some s -> sr_wired s' = sr_wired s -> (fw_ended s = true -> fw_ended s' = true) ->
  ((forall dn ins, collected st dn ins -> collected (mkPipe (<[i := s']> (ps_stages st)) (ps_chans st)) dn ins) ->
   stage_inv (mkPipe (<[i := s']> (ps_stages st)) (ps_chans st)) s') ->
  pipe_inv (mkPipe (<[i := s']> (ps_stages st)) (ps_chans st)).
Proof.
  intros Hinv Hi Hw Hf Hs'. pose proof (quiet_moves _ _ _ s' Hi Hw Hf) as Hm. eapply pipe_inv_moves; [done|exact Hm| |apply Hinv].
  apply Hs'. intros dn ins. by apply (collected_moves _ _ _ _ _ _ _ Hm).
Qed.

Lemma chan_insert (stages : list stage_run) (cs : gmap (option ExchangeId) (@Channel RecordBatch)) x c y :
  chan (mkPipe stages (<[x := c]> cs)) y = if decide (y = x) then c else chan (mkPipe stages cs) y.
Proof. unfold chan. simpl. case_decide as E; [subst; by rewrite lookup_insert_eq|by rewrite lookup_insert_ne]. Qed.

(** Receiving from a channel. *)
Lemma receive_chan st (stages : list stage_run) x y :
  let st' := mkPipe stages (receive (ps_chans st) (chan st x) x) in
  log st' y = log st y /\ taken st' y = (if decide (y = x) then S (taken st x) else taken st y).
Proof. unfold log, taken, receive. simpl. rewrite chan_insert. case_decide as E; [by subst|done]. Qed.

Lemma receive_moves st i s s' t y :
  ps_stages st !! i = Some s -> sr_wired s' = sr_wired s -> (fw_ended s = true -> fw_ended s' = true) ->
  wd_inputs (sr_wired s) !! t = Some y ->
  moves st (mkPipe (<[i := s']> (ps_stages st)) (receive (ps_chans st) (chan st (Some y)) (Some y))) i s s'.
Proof.
  intros Hi Hw Hf Ht. split; try done.
  - intros z. left. apply receive_chan.
  - intros z. rewrite (proj2 (receive_chan st _ (Some y) (Some z))). case_decide as E; [|by left]. right. injection E as ->. by exists t.
Qed.

(** Sending on one. *)
Lemma send_chan st (stages : list stage_run) o b z :
  let st' := mkPipe stages (<[o := mkChannel (log st o ++ [b]) (taken st o)]> (ps_chans st)) in
  log st' z = (if decide (z = o) then log st o ++ [b] else log st z) /\ taken st' z = taken st z.
Proof. unfold log, taken. simpl. rewrite chan_insert. by case_decide as E; [subst|]. Qed.

Lemma send_moves st i s s' o b :
  ps_stages st !! i = Some s -> sr_wired s' = sr_wired s -> fw_ended s = false -> wd_outputs (sr_wired s) = [o] ->
  moves st (mkPipe (<[i := s']> (ps_stages st)) (<[o := mkChannel (log st o ++ [b]) (taken st o)]> (ps_chans st))) i s s'.
Proof.
  intros Hi Hw Hf Ho. split; try done.
  - by rewrite Hf.
  - intros z. rewrite (proj1 (send_chan st _ o b z)). case_decide as E; [subst z; right|by left]. rewrite Ho. split; [by left|]. by split; [|exists b].
  - intros z. left. apply send_chan.
Qed.

Lemma order_apart w t x t' x' todo dn :
  dn ++ (t, x) :: todo = stage_order w -> (t', x') ∈ dn \/ (t', x') ∈ todo -> t' <> t.
Proof.
  intros Ho Hin. pose proof (stage_order_NoDup w) as Hnd. rewrite <- Ho, map_app in Hnd. simpl in Hnd.
  apply NoDup_app in Hnd as (_ & Hdis & Hnd). apply NoDup_cons in Hnd as [Hni _]. intros ->. destruct Hin as [Hin|Hin].
  - apply (Hdis t); [|left]. by apply (list_elem_of_fmap_2 fst) in Hin.
  - apply Hni. by apply (list_elem_of_fmap_2 fst) in Hin.
Qed.

Lemma bg_step_inv st i s s' x :
  pipe_inv st -> ps_stages st !! i = Some s -> bg_step run_stage st s = Some (s', x) ->
  pipe_inv (mkPipe (<[i := s']> (ps_stages st))
              (match x with Some x => receive (ps_chans st) (chan st (Some x)) (Some x) | None => ps_chans st end)).
Proof.
  intros Hinv Hi. pose proof Hinv as [Hw Hs Htk]. pose proof (Hs s ltac:(by eapply list_elem_of_lookup_2)) as (o & Ho & Hbg).
  pose proof (pi_lookup _ _ _ Hw Hi) as Hwi. unfold bg_step.
  destruct (sr_bg s) as [[|[t y] todo] cur|[|m todo]|]; [| | | |done].
  - destruct Hbg as ((dn & Hdn & Hc) & _ & _ & Hq & Hfw & Hl). rewrite app_nil_r in Hdn. intros [= <- <-].
    apply (quiet_inv st i s); [done..|]. intros Hq'. exists o. split; [done|]. simpl.
    split; [apply Hq'; by rewrite <- Hdn|]. split; [|by rewrite Hfw]. unfold sends. simpl. rewrite Hfw. exists []. split; [done|].
    by rewrite log_quiet, Hl, Hq.
  - destruct Hbg as ((dn & Hdn & Hc) & Hcur & Htl & Hq & Hfw & Hl). simpl in Htl.
    assert (Hty : wd_inputs (sr_wired s) !! t = Some y) by (apply stage_order_elem; rewrite <- Hdn; apply elem_of_app; right; left).
    destruct (log st (Some y) !! taken st (Some y)) as [b|] eqn:Hb.
    + intros [= <- <-]. match goal with |- pipe_inv ?st1 => set (st' := st1) end.
      match goal with st' := mkPipe (<[i := ?s1]> _) _ |- _ => pose proof (receive_moves st i s s1 t y Hi eq_refl (fun E => E) Hty) as Hm end.
      pose proof (fun z => receive_chan st (ps_stages st') (Some y) z) as Hch. cbn zeta in Hch. change (mkPipe (ps_stages st') _) with st' in Hch.
      eapply pipe_inv_moves; [exact Hinv|exact Hm| |].
      * exists o. split; [done|]. simpl. rewrite !(proj1 (Hch _)), (proj2 (Hch (Some y))), decide_True by done.
        split; [exists dn; split; [done|by eapply collected_moves]|]. split; [|split; [|done]].
        { rewrite Hcur. exact (eq_sym (take_S_r _ _ _ Hb)). }
        intros [t' z] Hin. simpl. rewrite (proj2 (Hch (Some z))), decide_False; [by apply (Htl (t', z))|].
        intros [= ->]. assert (Hz : wd_inputs (sr_wired s) !! t' = Some y).
        { apply stage_order_elem. rewrite <- Hdn. apply elem_of_app. right. by right. }
        destruct (tw_once ws tree _ _ _ _ _ _ _ Hwi Hwi Hty Hz) as [_ ->].
        by apply (order_apart _ _ _ t' y _ _ Hdn); [right|].
      * intros z. rewrite (proj1 (Hch z)), (proj2 (Hch z)). case_decide as E; [subst z|done]. by apply lookup_lt_Some in Hb.
    + destruct (closed st (Some y)) eqn:Hcl; [|done]. intros [= <- <-].
      apply (quiet_inv st i s); [done..|]. intros Hq'. exists o. split; [done|]. simpl.
      split; [|split; [|split; [|done]]].
      * exists (dn ++ [(t, y)]). split; [by rewrite <- app_assoc|]. apply Hq'. destruct Hc as [Hins Hc]. split.
        { rewrite map_app. simpl. rewrite list_to_map_snoc, Hins, Hcur.
          - f_equal. apply lookup_ge_None in Hb. apply firstn_all2. exact Hb.
          - rewrite map_map. simpl. intros (tx & -> & Hin)%list_elem_of_fmap. destruct tx as [t' x'].
            by apply (order_apart _ _ _ t' x' _ _ Hdn); [left|]. }
        intros tx [Hin|Hin]%elem_of_app; [by apply Hc|]. by apply list_elem_of_singleton in Hin as ->.
      * destruct todo as [|[t' z] todo]; [done|]. pose proof (Htl (t', z) ltac:(left)) as H0. simpl in H0.
        by rewrite taken_quiet, H0.
      * intros tx Hin. apply Htl. destruct todo; [by apply not_elem_of_nil in Hin|by right].
  - destruct Hbg as (Hc & Hsd & Hf). intros [= <- <-].
    apply (quiet_inv st i s); [done..|]. intros Hq'. exists o. split; [done|]. simpl.
    split; [by apply Hq'|]. split; [exact Hsd|]. intros E. by destruct Hf.
  - destruct Hbg as (Hc & Hsd & Hf). destruct (fw_ended s) eqn:He.
    + intros [= <- <-]. apply (quiet_inv st i s); [done..|]. intros Hq'. exists o. split; [done|]. simpl.
      split; [by apply Hq'|]. split; [|done]. unfold fw_ended in He. unfold sends in *. simpl. destruct (sr_fw s) as [| |[[]|e]]; done.
    + destruct (_ <? _)%nat; [|done]. intros [= <- <-].
      apply (quiet_inv st i s); [done..|]. intros Hq'. exists o. split; [done|]. simpl.
      split; [by apply Hq'|]. split; [|done]. unfold sends in *. simpl. destruct (sr_fw s) as [| |[[]|e]]; try done;
        destruct Hsd as (l & Hp & Hmsg); exists l; (split; [done|]); by rewrite <- app_assoc.
Qed.
Lemma messages_err s ins l e rest : messages s ins = map Ok l ++ Err e :: rest -> run_stage s ins = Err e /\ l = [].
Proof.
  unfold messages. destruct (run_stage s ins) as [bs|e']; intros Hm.
  - assert (Hin : Err e ∈ map (@Ok RecordBatch StageExecutionError) bs) by (rewrite Hm; apply elem_of_app; right; left).
    by apply list_elem_of_fmap in Hin as (b & ? & _).
  - by destruct l as [|b l]; [injection Hm as ->|].
Qed.

Lemma messages_ok s ins l : messages s ins = map Ok l -> run_stage s ins = Ok l.
Proof.
  unfold messages. destruct (run_stage s ins) as [bs|e]; intros Hm.
  - f_equal. revert l Hm. induction bs as [|b bs IH]; intros [|b' l] Hm; try done. injection Hm as -> Hm. by rewrite (IH l).
  - by destruct l.
Qed.

(** A step of the forwarder. *)
Lemma stage_inv_fw st st' s q fw :
  (forall todo cur, sr_bg s <> Collecting todo cur) -> stage_inv st s ->
  (forall dn ins, collected st dn ins -> collected st' dn ins) ->
  let s' := mkStageRun (sr_wired s) (sr_bg s) (sr_inputs s) q fw in
  (forall o todo, wd_outputs (sr_wired s) = [o] -> sends st s o todo -> sends st' s' o todo) ->
  (fw = FwEnded (Ok tt) -> sr_bg s = BgDone /\ q = []) -> stage_inv st' s'.
Proof.
  intros Hbg (o & Ho & Hinv) Hc s' Hsd Hf. exists o. split; [done|]. simpl. destruct (sr_bg s) as [todo cur|todo|] eqn:Eb.
  - by destruct (Hbg todo cur).
  - destruct Hinv as (Hcs & Hss & Hfs). split; [by apply Hc|]. split; [by apply Hsd|]. intros E. by destruct (Hf E).
  - destruct Hinv as (Hcs & Hss & Hfs). split; [by apply Hc|]. split; [by apply Hsd|]. intros E. by destruct (Hf E).
Qed.

Lemma not_collecting st s : stage_inv st s -> sr_queue s <> [] \/ sr_fw s <> Receiving -> forall todo cur, sr_bg s <> Collecting todo cur.
Proof. intros (o & _ & Hinv) Hor todo cur Hbg. rewrite Hbg in Hinv. destruct Hinv as (_ & _ & _ & Hq & Hfw & _). by destruct Hor. Qed.

Lemma fw_step_inv st i s s' m :
  pipe_inv st -> ps_stages st !! i = Some s -> fw_step capacity st s = Some (s', m) ->
  pipe_inv (mkPipe (<[i := s']> (ps_stages st))
              (match m with
               | Some (x, b) => <[x := mkChannel (log st x ++ [b]) (taken st x)]> (ps_chans st)
               | None => ps_chans st
               end)).
Proof.
  intros Hinv Hi. pose proof Hinv as [Hw Hs Htk]. pose proof (Hs s ltac:(by eapply list_elem_of_lookup_2)) as Hst.
  pose proof (not_collecting _ _ Hst) as Hnc. unfold fw_step.
  destruct (sr_fw s) as [|b [|x todo]|r] eqn:Hfw; [| | |done].
  - destruct (sr_queue s) as [|[b|e] q] eqn:Hq.
    + destruct (sr_bg s) eqn:Hbg; [done|done|]. intros [= <- <-]. rewrite <- Hbg.
      apply (quiet_inv st i s); [done..|]. intros Hq'. apply (stage_inv_fw st); [by rewrite Hbg|done|done| |done].
      intros o todo Ho. unfold sends. simpl. by rewrite Hfw, Hq.
    + intros [= <- <-]. apply (quiet_inv st i s); [done|done|done|by unfold fw_ended; rewrite Hfw|]. intros Hq'.
      apply (stage_inv_fw st); [apply Hnc; by left|done|done| |done].
      intros o todo Ho. unfold sends. simpl. rewrite Hfw, Hq, Ho. intros (l & -> & ->). exists [Ok b]. split; [by left|done].
    + intros [= <- <-]. apply (quiet_inv st i s); [done|done|done|by unfold fw_ended; rewrite Hfw|]. intros Hq'.
        apply (stage_inv_fw st); [apply Hnc; by left|done|done| |done].
      intros o todo Ho. unfold sends. simpl. rewrite Hfw, Hq. intros (l & -> & Hm). exists e. destruct (messages_err _ _ _ _ _ Hm) as [? Hl].
      by rewrite log_quiet, Hl.
  - intros [= <- <-]. apply (quiet_inv st i s); [done|done|done|by unfold fw_ended; rewrite Hfw|]. intros Hq'.
    apply (stage_inv_fw st); [apply Hnc; by right|done|done| |done].
    intros o todo Ho. unfold sends. simpl. rewrite Hfw. intros (l & [[? _]|[_ ->]] & Hm); [done|]. exists []. done.
  - destruct (_ <? _)%nat; [|done]. intros [= <- <-]. pose proof Hst as (o & Ho & _).
    assert (Hx : x = o /\ todo = []).
    { destruct Hst as (o' & Ho' & Hst). rewrite Ho in Ho'. injection Ho' as <-. unfold sends in Hst. rewrite Hfw in Hst.
      specialize (Hnc ltac:(by right)). destruct (sr_bg s); [by destruct (Hnc todo0 batches)| |];
        by destruct Hst as (_ & (l & [[[= -> ->] _]|[? _]] & _) & _). }
    destruct Hx as [-> ->]. match goal with |- pipe_inv ?st1 => set (st' := st1) end.
    match goal with st' := mkPipe (<[i := ?s1]> _) _ |- _ =>
      assert (Hm : moves st st' i s s1) by (by apply send_moves; [| |unfold fw_ended; rewrite Hfw|]) end.
    pose proof (fun z => send_chan st (ps_stages st') o b z) as Hch. cbn zeta in Hch. change (mkPipe (ps_stages st') _) with st' in Hch.
    eapply pipe_inv_moves; [exact Hinv|exact Hm| |].
    + apply (stage_inv_fw st); [apply Hnc; by right|done|intros dn ins; by apply (collected_moves _ _ _ _ _ _ _ Hm)| |done].
      intros o' todo Ho'. rewrite Ho in Ho'. injection Ho' as <-. unfold sends. simpl. rewrite Hfw, (proj1 (Hch o)), decide_True by done.
      intros (l & [[_ ->]|[? _]] & ->); [|done]. exists []. split; [by right|]. by rewrite map_app, <- !app_assoc.
    + intros z. rewrite (proj1 (Hch z)), (proj2 (Hch z)). specialize (Htk z). case_decide as E; [subst z|done]. rewrite length_app. simpl. lia.
Qed.

Lemma pstep_inv st st' a : pipe_inv st -> pstep st a = Some st' -> pipe_inv st'.
Proof.
  intros Hinv. destruct a as [i|i|]; simpl.
  - destruct (ps_stages st !! i) as [s|] eqn:Hi; [|done]. simpl. destruct (bg_step _ st s) as [[s' x]|] eqn:Hb; [|done].
    intros [= <-]. by apply (bg_step_inv st i s s' x).
  - destruct (ps_stages st !! i) as [s|] eqn:Hi; [|done]. simpl. destruct (fw_step _ st s) as [[s' m]|] eqn:Hf; [|done].
    intros [= <-]. by apply (fw_step_inv st i s s' m).
  - destruct (log st None !! taken st None) as [b|] eqn:Hb; [|done]. intros [= <-]. destruct Hinv as [Hw Hs Htk].
    match goal with |- pipe_inv ?st1 => set (st' := st1) end.
    pose proof (receive_chan st (ps_stages st) None) as Hch. cbn zeta in Hch. change (mkPipe _ _) with st' in Hch.
    assert (Hlog : forall z, log st' z = log st z) by (intros z; apply Hch).
    split; [done| |].
    + intros s Hin. destruct (Hs s Hin) as (o & Ho & Hst). exists o. split; [done|].
      assert (Hc : forall dn ins, collected st dn ins -> collected st' dn ins).
      { intros dn ins [-> Hc]. split; [|exact Hc]. f_equal. apply map_ext. intros tx. by rewrite Hlog. }
      destruct (sr_bg s) as [todo cur|todo|]; unfold sends in *; rewrite Hlog.
      * destruct Hst as ((dn & Hdn & Hd) & Hcur & Htl & Hrest). split; [exists dn; by split; [|apply Hc]|]. split; [|split; [|done]].
        { rewrite Hcur. destruct todo as [|[t x] todo]; [done|]. by rewrite Hlog, (proj2 (Hch (Some x))), decide_False. }
        intros tx Htx. rewrite (proj2 (Hch (Some tx.2))), decide_False by done. by apply Htl.
      * destruct Hst as (Hd & Hrest). split; [by apply Hc|done].
      * destruct Hst as (Hd & Hrest). split; [by apply Hc|done].
    + intros z. rewrite Hlog, (proj2 (Hch z)). case_decide as E; [subst z|done]. by apply lookup_lt_Some in Hb.
Qed.

Lemma prun_inv l : forall st st', pipe_inv st -> prun run_stage capacity st l = Some st' -> pipe_inv st'.
Proof.
  induction l as [|a l IH]; simpl; intros st st' Hinv; [by intros [= <-]|].
  destruct (Pipelined.pstep run_stage capacity st a) as [st1|] eqn:Ha; [|done]. intros Hr. eapply IH; [|exact Hr]. by eapply pstep_inv.
Qed.
Lemma start_inv : pipe_inv (start_pipeline ws).
Proof.
  split; [|intros s (w & -> & Hin)%list_elem_of_fmap|intros x; apply Nat.le_0_l].
  - simpl. rewrite map_map. exact (map_id ws).
  - apply list_elem_of_lookup in Hin as (i & Hi). destruct (tw_one ws tree _ _ Hi) as [o Ho]. exists o. split; [done|]. simpl.
    split; [exists []; split; [done|]; split; [done|]; intros tx Hin; by apply not_elem_of_nil in Hin|]. split; [by destruct (stage_order w) as [|[t x] l]|]. by split_and!.
Qed.

(** ** Against running the stages one after the other *)

Definition stage_inputs (outs : gmap (option ExchangeId) (list RecordBatch)) (w : Wired) : gmap string (list RecordBatch) :=
  (fun x => default [] (outs !! Some x)) <$> wd_inputs w.

Fixpoint run_in_order (l : list Wired) (outs : gmap (option ExchangeId) (list RecordBatch))
    : result (gmap (option ExchangeId) (list RecordBatch)) CoordinatorError :=
  match l with
  | [] => Ok outs
  | w :: l =>
      match run_stage (wd_stage w) (stage_inputs outs w) with
      | Ok bs => run_in_order l (foldr (fun o => <[o := bs]>) outs (wd_outputs w))
      | Err e => Err (stage_failed w e)
      end
  end.

Definition sequential_answer : result (list RecordBatch) CoordinatorError :=
  let? outs := run_in_order ws ∅ in Ok (default [] (outs !! None)).

(** The channels of the stages so far are full. *)
Definition agree (st : pipe_state) (n : nat) (outs : gmap (option ExchangeId) (list RecordBatch)) : Prop :=
  forall i w o, (i < n)%nat -> ws !! i = Some w -> o ∈ wd_outputs w -> outs !! o = Some (log st o).

Lemma collected_inputs_of st w outs ins :
  (forall t x, wd_inputs w !! t = Some x -> outs !! Some x = Some (log st (Some x))) ->
  collected st (stage_order w) ins -> ins = stage_inputs outs w.
Proof.
  intros Ha [-> _]. apply map_eq. intros t. unfold stage_inputs. rewrite lookup_fmap.
  destruct (wd_inputs w !! t) as [x|] eqn:Ht; simpl.
  - rewrite (Ha t x Ht). simpl. apply elem_of_list_to_map_1.
    + rewrite map_map. apply (stage_order_NoDup w).
    + change (map ?f ?l) with (f <$> l). apply list_elem_of_fmap. exists (t, x). split; [done|]. by apply stage_order_elem.
  - apply not_elem_of_list_to_map_1. rewrite map_map. intros ([t' x] & -> & Hin)%list_elem_of_fmap. simpl in Ht.
    apply stage_order_elem in Hin. congruence.
Qed.

Lemma collected_inputs st w j outs ins :
  ws !! j = Some w -> agree st j outs -> collected st (stage_order w) ins -> ins = stage_inputs outs w.
Proof.
  intros Hj Ha. apply collected_inputs_of. intros t x Ht.
  destruct (tw_source ws tree _ _ _ _ Hj Ht) as (i & v & Hlt & Hi & Hx). by apply (Ha i v).
Qed.

Lemma await_reference st : pipe_inv st -> forall rest pre outs,
  ps_stages st = pre ++ rest -> agree st (length pre) outs ->
  match await_stages rest with
  | Some (Ok _) => exists outs', run_in_order (map sr_wired rest) outs = Ok outs' /\ agree st (length (pre ++ rest)) outs'
  | Some (Err c) => run_in_order (map sr_wired rest) outs = Err c
  | None => True
  end.
Proof.
  intros Hinv. induction rest as [|s rest IH]; intros pre outs Hst Ha; simpl.
  { exists outs. by rewrite app_nil_r. }
  assert (Hi : ps_stages st !! length pre = Some s) by (rewrite Hst; by apply list_lookup_middle).
  pose proof (pi_lookup _ _ _ (pi_wired _ Hinv) Hi) as Hw.
  pose proof (pi_stages _ Hinv s ltac:(by eapply list_elem_of_lookup_2)) as (o & Ho & Hs).
  destruct (sr_fw s) as [| |[[]|c]] eqn:Hfw; [done|done| |].
  - destruct (sr_bg s) as [todo cur|todo|].
    { by destruct Hs as (_ & _ & _ & _ & ? & _). }
    { by destruct Hs as (_ & _ & []). }
    destruct Hs as (Hc & Hsd & Hq). unfold sends in Hsd. rewrite Hfw in Hsd. destruct Hsd as (l & -> & Hm).
    rewrite (Hq eq_refl), !app_nil_r in Hm. apply messages_ok in Hm. rewrite <- (collected_inputs _ _ _ _ _ Hw Ha Hc), Hm, Ho. simpl.
    specialize (IH (pre ++ [s]) (<[o := log st o]> outs)). rewrite <- app_assoc in IH. specialize (IH Hst). apply IH.
    intros i w o' Hlt Hwi Ho'. rewrite length_app in Hlt. simpl in Hlt. destruct (decide (o' = o)) as [->|Hne]; [by rewrite lookup_insert_eq|].
    rewrite lookup_insert_ne by done. destruct (decide (i = length pre)) as [->|]; [|apply (Ha i w); [lia|done..]].
    rewrite Hw in Hwi. injection Hwi as <-. rewrite Ho in Ho'. by apply list_elem_of_singleton in Ho'.
  - assert (Hr : collected st (stage_order (sr_wired s)) (sr_inputs s) /\ exists e,
        run_stage (wd_stage (sr_wired s)) (sr_inputs s) = Err e /\ c = stage_failed (sr_wired s) e /\ log st o = []).
    { destruct (sr_bg s) as [todo cur|todo|]; [by destruct Hs as (_ & _ & _ & _ & ? & _)| |];
        destruct Hs as (Hc & Hsd & _); (split; [done|]); unfold sends in Hsd; by rewrite Hfw in Hsd. }
    destruct Hr as (Hc & e & He & -> & _). by rewrite <- (collected_inputs _ _ _ _ _ Hw Ha Hc), He.
Qed.

Lemma answer_reference st r : pipe_inv st -> pipeline_answer st = Some r -> r = sequential_answer.
Proof.
  intros Hinv. pose proof (await_reference st Hinv (ps_stages st) [] ∅ eq_refl ltac:(intros ? ? ? ?; simpl in *; lia)) as Haw.
  unfold pipeline_answer, sequential_answer. rewrite (pi_wired _ Hinv) in Haw. simpl in Haw.
  destruct (await_stages _) as [[u|c]|]; [| |done].
  - destruct Haw as (outs & -> & Ha). case_match; [|done]. intros [= <-]. simpl.
    destruct (tw_root ws tree) as (i & w & Hi & Ho). rewrite (Ha i w None); [done| |done|done].
    apply lookup_lt_Some in Hi. by rewrite <- (pi_wired _ Hinv), length_map in Hi.
  - rewrite Haw. by intros [= <-].
Qed.
End correct.
