(* ===== verification/PipelinedLive.v ===== *)
(** * The streaming pipeline answers

    A run over a tree of stages never gets stuck: while the answer is not there
    some task can move.  It ends: the number of steps is bounded by what the
    stages answer. *)

From stdpp Require Import pretty.
From S2P Require Import Prelude LdpTypes TopoOrder Arrow HashPartition ExchangeRuntime StageExec Distributed Coordinator CoordinatorRun CutPlan Pipelined PipelinedInv.

#[local] Open Scope Z_scope.

Section live.
Context {RecordBatch : Type} `{HashOrder}.
Context (run_stage : Stage -> gmap string (list RecordBatch) -> result (list RecordBatch) StageExecutionError).
Context (capacity : nat) (ws : list Wired) (tree : tree_wired ws).
Abbreviation stage_run := (@StageRun RecordBatch).
Abbreviation pipe_state := (@PipeState RecordBatch).
Abbreviation pstep := (pstep run_stage capacity).
Abbreviation pipe_inv := (pipe_inv run_stage ws).
Implicit Types st : @PipeState RecordBatch.

(** ** No deadlock *)

Definition blocked (st : pipe_state) : Prop := forall a, pstep st a = None.

Definition has_room (st : pipe_state) (o : option ExchangeId) : Prop := (length (log st o) - taken st o < capacity)%nat.

Lemma open_channel st x :
  closed st x = false -> exists i s, ps_stages st !! i = Some s /\ x ∈ wd_outputs (sr_wired s) /\ fw_ended s = false.
Proof.
  unfold closed. intros Hc. apply not_true_iff_false in Hc. rewrite forallb_forall in Hc.
  destruct (decide (Exists (fun s => x ∈ wd_outputs (sr_wired s) /\ fw_ended s = false) (ps_stages st))) as [Hex|Hn].
  - apply Exists_exists in Hex as (s & Hin & Hs). apply list_elem_of_lookup in Hin as (i & Hi). by exists i, s.
  - destruct Hc. intros s Hin. apply list_elem_of_In in Hin. destruct (fw_ended s) eqn:Hf; [by rewrite orb_true_r|].
    rewrite bool_decide_false; [done|]. intros Hx. apply Hn, Exists_exists. by exists s.
Qed.

(** A blocked stage waits for an input with nothing to receive ... *)
Lemma blocked_collecting st i s todo cur :
  blocked st -> ps_stages st !! i = Some s -> sr_bg s = Collecting todo cur ->
  exists t x todo', todo = (t, x) :: todo' /\ (length (log st (Some x)) <= taken st (Some x))%nat /\ closed st (Some x) = false.
Proof.
  intros Hb Hi Hbg. specialize (Hb (BgStep i)). simpl in Hb. rewrite Hi in Hb. simpl in Hb. unfold bg_step in Hb. rewrite Hbg in Hb.
  destruct todo as [|[t x] todo]; [done|]. exists t, x, todo. split; [done|].
  destruct (log st (Some x) !! taken st (Some x)) eqn:Hl; [done|]. apply lookup_ge_None in Hl.
  by destruct (closed st (Some x)) eqn:Hc.
Qed.

(** ... or for room in its output. *)
Lemma blocked_sending st i s :
  pipe_inv st -> blocked st -> ps_stages st !! i = Some s -> fw_ended s = false ->
  (exists todo cur, sr_bg s = Collecting todo cur) \/ (exists o, wd_outputs (sr_wired s) = [o] /\ ~ has_room st o).
Proof.
  intros Hinv Hb Hi Hf. pose proof (pi_stages _ _ _ Hinv s ltac:(by eapply list_elem_of_lookup_2)) as (o & Ho & Hs).
  pose proof (Hb (BgStep i)) as Hbi. pose proof (Hb (FwStep i)) as Hfi. simpl in Hbi, Hfi. rewrite Hi in Hbi, Hfi. simpl in Hbi, Hfi.
  unfold bg_step in Hbi. unfold fw_step in Hfi. rewrite Hf in Hbi. unfold fw_ended in Hf.
  destruct (sr_bg s) as [todo cur|todo|]; [by left; exists todo, cur|right|right]; exists o; (split; [done|]); intros Hroom.
  all: assert (Hfw : exists b l, sr_fw s = Forwarding b (o :: l)) by
    (destruct Hs as (_ & Hsd & _); unfold sends in Hsd; destruct (sr_fw s) as [|b [|x l]|r]; [| done | |done];
      [exfalso; destruct (sr_queue s) as [|[]]; [|done|done]; by destruct todo |
       by destruct Hsd as (? & [[[= -> ->] _]|[? _]] & _); [eexists _, _|]]) ||
    (destruct Hs as (_ & Hsd & _); unfold sends in Hsd; destruct (sr_fw s) as [|b [|x l]|r]; [| done | |done];
      [exfalso; by destruct (sr_queue s) as [|[]] |
       by destruct Hsd as (? & [[[= -> ->] _]|[? _]] & _); [eexists _, _|]]).
  all: destruct Hfw as (b & l & Hfw); rewrite Hfw in Hfi; apply Nat.ltb_lt in Hroom; by rewrite Hroom in Hfi.
Qed.

Lemma blocked_room st : (0 < capacity)%nat -> pipe_inv st -> blocked st -> forall i s o,
  ps_stages st !! i = Some s -> wd_outputs (sr_wired s) = [o] -> has_room st o -> fw_ended s = true.
Proof.
  intros Hcap Hinv Hb i. induction (lt_wf i) as [i _ IH]. intros s o Hi Ho Hroom. destruct (fw_ended s) eqn:Hf; [done|exfalso].
  destruct (blocked_sending st i s Hinv Hb Hi Hf) as [(todo & cur & Hbg)|(o' & Ho' & Hn)]; [|by rewrite Ho in Ho'; injection Ho' as <-].
  destruct (blocked_collecting st i s todo cur Hb Hi Hbg) as (t & x & todo' & -> & Hle & Hc).
  pose proof (pi_stages _ _ _ Hinv s ltac:(by eapply list_elem_of_lookup_2)) as (o' & _ & Hs). rewrite Hbg in Hs.
  destruct Hs as ((dn & Hdn & _) & _).
  assert (Ht : wd_inputs (sr_wired s) !! t = Some x) by (apply stage_order_elem; rewrite <- Hdn; apply elem_of_app; right; left).
  destruct (tw_source ws tree _ _ _ _ (pi_lookup _ _ _ _ (pi_wired _ _ _ Hinv) Hi) Ht) as (j & w & Hlt & Hj & Hx).
  apply open_channel in Hc as (k & sk & Hk & Hxk & Hfk).
  pose proof (pi_lookup _ _ _ _ (pi_wired _ _ _ Hinv) Hk) as Hwk.
  pose proof (tw_distinct ws tree _ _ _ _ _ Hj Hwk Hx Hxk) as <-.
  destruct (tw_one ws tree _ _ Hwk) as [ok Hok]. rewrite Hok in Hxk. apply list_elem_of_singleton in Hxk as <-.
  rewrite (IH j Hlt sk (Some x) Hk Hok) in Hfk; [done|]. unfold has_room. lia.
Qed.

Lemma blocked_ended st i s :
  (0 < capacity)%nat -> pipe_inv st -> blocked st -> ps_stages st !! i = Some s -> fw_ended s = true.
Proof.
  intros Hcap Hinv Hb Hi. pose proof (pi_lookup _ _ _ _ (pi_wired _ _ _ Hinv) Hi) as Hw.
  destruct (tw_one ws tree _ _ Hw) as [o Ho].
  destruct (decide (length (log st o) - taken st o < capacity)%nat) as [Hroom|Hfull]; [by eapply blocked_room|].
  destruct (fw_ended s) eqn:Hf; [done|exfalso]. destruct o as [x|].
  - destruct (tw_reader ws tree i _ x Hw ltac:(rewrite Ho; by left)) as (k & v & t & Hk & Ht).
    assert (Hk' : exists sk, ps_stages st !! k = Some sk /\ sr_wired sk = v).
    { rewrite <- (pi_wired _ _ _ Hinv) in Hk. change (map ?f ?l) with (f <$> l) in Hk. rewrite list_lookup_fmap in Hk.
      destruct (ps_stages st !! k) as [sk|]; [|done]. injection Hk as <-. by exists sk. }
    destruct Hk' as (sk & Hsk & <-). apply stage_order_elem in Ht.
    assert (Hopen : closed st (Some x) = true -> False).
    { rewrite closed_spec. intros Hall. rewrite (Hall i s Hi) in Hf; [done|]. rewrite Ho. by left. }
    pose proof (pi_stages _ _ _ Hinv sk ltac:(by eapply list_elem_of_lookup_2)) as (ok & Hok & Hs).
    destruct (sr_bg sk) as [todo cur|todo|] eqn:Hbg; [|by apply Hopen, (proj2 (proj1 Hs) _ Ht)..].
    destruct (blocked_collecting st k sk todo cur Hb Hsk Hbg) as (t' & y & todo' & -> & Hle & Hc).
    apply open_channel in Hc as (j & sj & Hj & Hxj & Hfj). pose proof (pi_lookup _ _ _ _ (pi_wired _ _ _ Hinv) Hj) as Hwj.
    destruct (tw_one ws tree _ _ Hwj) as [oj Hoj]. rewrite Hoj in Hxj. apply list_elem_of_singleton in Hxj as <-.
    rewrite (blocked_room st Hcap Hinv Hb j sj (Some y) Hj Hoj) in Hfj; [done|]. unfold has_room. lia.
  - specialize (Hb CollectResult). simpl in Hb. destruct (log st None !! taken st None) eqn:Hl; [done|]. apply lookup_ge_None in Hl. lia.
Qed.

Lemma blocked_answers st : (0 < capacity)%nat -> pipe_inv st -> blocked st -> exists r, pipeline_answer st = Some r.
Proof.
  intros Hcap Hinv Hb. unfold pipeline_answer.
  assert (Haw : forall l : list stage_run, (forall s, s ∈ l -> fw_ended s = true) ->
    exists r : result unit CoordinatorError, await_stages l = Some r).
  { induction l as [|s l IH]; intros Hl; simpl; [by eexists|]. pose proof (Hl s ltac:(left)) as Hs. unfold fw_ended in Hs.
    destruct (sr_fw s) as [| |[u|e]]; [done|done| |by eexists]. apply IH. intros s' Hs'. apply Hl. by right. }
  destruct (Haw (ps_stages st)) as [r ->].
  { intros s Hin. apply list_elem_of_lookup in Hin as (i & Hi). by eapply blocked_ended. }
  destruct r as [u|e]; [|by eexists]. specialize (Hb CollectResult). simpl in Hb.
  destruct (log st None !! taken st None) eqn:Hl; [done|]. apply lookup_ge_None in Hl. pose proof (pi_taken _ _ _ Hinv None) as Ht.
  replace (taken st None =? length (log st None))%nat with true by (symmetry; apply Nat.eqb_eq; lia). by eexists.
Qed.
(** ** Every run ends *)

Definition stage_output (w : Wired) (ins : gmap string (list RecordBatch)) : list RecordBatch :=
  match run_stage (wd_stage w) ins with Ok bs => bs | Err _ => [] end.

(** What the channels carry in the end; a stage that fails sends nothing. *)
Definition final_outputs (outs : gmap (option ExchangeId) (list RecordBatch)) (n : nat) : Prop :=
  forall i w o, (i < n)%nat -> ws !! i = Some w -> o ∈ wd_outputs w ->
    outs !! o = Some (stage_output w (stage_inputs outs w)).

Lemma final_outputs_exist n : exists outs, final_outputs outs n.
Proof.
  induction n as [|n (outs & IH)]; [exists ∅; intros i w o Hi; lia|].
  destruct (ws !! n) as [v|] eqn:Hn.
  2: { exists outs. intros i w o Hi Hw Ho. apply (IH i w o); [|done|done]. destruct (decide (i = n)); [congruence|lia]. }
  destruct (tw_one ws tree _ _ Hn) as [ov Hov]. exists (<[ov := stage_output v (stage_inputs outs v)]> outs).
  intros i w o Hi Hw Ho.
  assert (Hins : stage_inputs (<[ov := stage_output v (stage_inputs outs v)]> outs) w = stage_inputs outs w).
  { unfold stage_inputs. apply map_fmap_ext. intros t x Ht. destruct (tw_source ws tree _ _ _ _ Hw Ht) as (j & u & Hlt & Hj & Hx).
    rewrite lookup_insert_ne; [done|]. intros ->. pose proof (tw_distinct ws tree _ _ _ _ _ Hj Hn Hx ltac:(rewrite Hov; by left)). lia. }
  rewrite Hins. destruct (decide (i = n)) as [->|Hne].
  - rewrite Hn in Hw. injection Hw as <-. rewrite Hov in Ho. apply list_elem_of_singleton in Ho as ->. by rewrite lookup_insert_eq.
  - rewrite lookup_insert_ne; [apply (IH i); [lia|done..]|]. intros ->.
    pose proof (tw_distinct ws tree _ _ _ _ _ Hw Hn Ho ltac:(rewrite Hov; by left)). lia.
Qed.

Section bounded.
Context (outs : gmap (option ExchangeId) (list RecordBatch)) (Hfin : final_outputs outs (length ws)).

Definition final (o : option ExchangeId) : list RecordBatch := default [] (outs !! o).

Lemma final_stage st i s o : pipe_inv st -> ps_stages st !! i = Some s -> wd_outputs (sr_wired s) = [o] ->
  outs !! o = Some (stage_output (sr_wired s) (stage_inputs outs (sr_wired s))).
Proof.
  intros Hinv Hi Ho. pose proof (pi_lookup _ _ _ _ (pi_wired _ _ _ Hinv) Hi) as Hw.
  apply (Hfin i); [by eapply lookup_lt_Some|done|rewrite Ho; by left].
Qed.

(** A channel carries a part of it, and all of it when the sender is gone. *)
Lemma log_final st : pipe_inv st -> forall i s o, ps_stages st !! i = Some s -> wd_outputs (sr_wired s) = [o] ->
  (collected st (stage_order (sr_wired s)) (sr_inputs s) -> sr_inputs s = stage_inputs outs (sr_wired s)) /\
  (length (log st o) <= length (final o))%nat /\ (fw_ended s = true -> log st o = final o).
Proof.
  intros Hinv i. induction (lt_wf i) as [i _ IH]. intros s o Hi Ho.
  pose proof (pi_lookup _ _ _ _ (pi_wired _ _ _ Hinv) Hi) as Hw.
  assert (Hcol : collected st (stage_order (sr_wired s)) (sr_inputs s) -> sr_inputs s = stage_inputs outs (sr_wired s)).
  { intros Hc. eapply collected_inputs_of; [|exact Hc]. intros t x Ht.
    destruct (tw_source ws tree _ _ _ _ Hw Ht) as (j & w & Hlt & Hj & Hx).
    rewrite <- (pi_wired _ _ _ Hinv) in Hj. change (map ?f ?l) with (f <$> l) in Hj. rewrite list_lookup_fmap in Hj.
    destruct (ps_stages st !! j) as [sj|] eqn:Hsj; [|done]. injection Hj as <-.
    pose proof (pi_lookup _ _ _ _ (pi_wired _ _ _ Hinv) Hsj) as Hwj. destruct (tw_one ws tree _ _ Hwj) as [oj Hoj].
    rewrite Hoj in Hx. apply list_elem_of_singleton in Hx as <-. destruct (IH j Hlt sj (Some x) Hsj Hoj) as (_ & _ & Hend).
    rewrite Hend; [unfold final; by rewrite (final_stage st j sj _ Hinv Hsj Hoj)|].
    destruct Hc as [_ Hc]. apply stage_order_elem in Ht. specialize (Hc _ Ht). rewrite closed_spec in Hc.
    apply (Hc j sj Hsj). rewrite Hoj. by left. }
  split; [done|]. unfold final. rewrite (final_stage st i s o Hinv Hi Ho). simpl.
  pose proof (pi_stages _ _ _ Hinv s ltac:(by eapply list_elem_of_lookup_2)) as (o' & Ho' & Hs). rewrite Ho in Ho'. injection Ho' as <-.
  assert (Hsends : forall todo, collected st (stage_order (sr_wired s)) (sr_inputs s) -> sends run_stage st s o todo ->
    (sr_fw s = FwEnded (Ok tt) -> sr_queue s = [] /\ todo = []) ->
    (length (log st o) <= length (stage_output (sr_wired s) (stage_inputs outs (sr_wired s))))%nat /\
    (fw_ended s = true -> log st o = stage_output (sr_wired s) (stage_inputs outs (sr_wired s)))).
  { intros todo Hc Hsd Hq. rewrite <- (Hcol Hc). unfold sends in Hsd. unfold fw_ended, stage_output.
    assert (Hprefix : forall l, messages run_stage (wd_stage (sr_wired s)) (sr_inputs s) = map Ok (log st o) ++ l ->
      (length (log st o) <= length (match run_stage (wd_stage (sr_wired s)) (sr_inputs s) with Ok bs => bs | Err _ => [] end))%nat).
    { unfold messages. intros l Hm. destruct (run_stage _ _) as [bs|e].
      - apply (f_equal length) in Hm. rewrite length_app, !length_map in Hm. lia.
      - by destruct (log st o); [simpl; lia|]. }
    destruct (sr_fw s) as [|b l|[[]|c]].
    - destruct Hsd as (l & _ & Hm). by split; [eapply Hprefix|].
    - destruct Hsd as (l' & _ & Hm). by split; [eapply Hprefix|].
    - destruct Hsd as (l' & -> & Hm). split; [by eapply Hprefix|]. intros _. destruct (Hq eq_refl) as [Hq1 ->].
      rewrite Hq1, !app_nil_r in Hm. apply messages_ok in Hm. by rewrite Hm.
    - destruct Hsd as (e & -> & _ & ->). by split; [simpl; lia|]. }
  destruct (sr_bg s) as [todo cur|todo|].
  - destruct Hs as (_ & _ & _ & _ & Hfw & Hl). rewrite Hl. unfold fw_ended. rewrite Hfw. by split; [simpl; lia|].
  - destruct Hs as (Hc & Hsd & Hf). by apply (Hsends todo).
  - destruct Hs as (Hc & Hsd & Hf). apply (Hsends []); [done|done|]. intros E. by split; [apply Hf|].
Qed.
(** The steps that are left. *)
Definition fw_cost (fw : @Forwarder RecordBatch) : nat :=
  match fw with Receiving => 1 | Forwarding _ todo => 2 + length todo | FwEnded _ => 0 end.

Definition to_collect (st : pipe_state) (todo : list (string * ExchangeId)) : nat :=
  sum_list (map (fun tx => S (length (final (Some tx.2)) - taken st (Some tx.2)))%nat todo).

Definition stage_cost (st : pipe_state) (s : stage_run) : nat :=
  match sr_bg s with
  | Collecting todo _ =>
      to_collect st todo + 3 + 4 * length (messages run_stage (wd_stage (sr_wired s)) (stage_inputs outs (sr_wired s)))
  | Emitting todo => 1 + 4 * length todo + 3 * length (sr_queue s) + fw_cost (sr_fw s)
  | BgDone => 3 * length (sr_queue s) + fw_cost (sr_fw s)
  end.

Definition cost (st : pipe_state) : nat :=
  (sum_list (map (stage_cost st) (ps_stages st)) + (length (final None) - taken st None))%nat.

Lemma to_collect_ext st st' todo :
  (forall tx, tx ∈ todo -> taken st' (Some tx.2) = taken st (Some tx.2)) -> to_collect st' todo = to_collect st todo.
Proof.
  intros Ht. unfold to_collect. f_equal. apply map_ext_in. intros tx Hin. rewrite Ht; [done|]. by apply list_elem_of_In.
Qed.

Lemma stage_cost_other st st' i s s' j sj :
  pipe_inv st -> moves st st' i s s' -> ps_stages st !! j = Some sj -> j <> i -> stage_cost st' sj = stage_cost st sj.
Proof.
  intros Hinv Hm Hj Hne. unfold stage_cost. pose proof (pi_stages _ _ _ Hinv sj ltac:(by eapply list_elem_of_lookup_2)) as (o & _ & Hs).
  destruct (sr_bg sj) as [todo cur|todo|]; [|done|done]. destruct Hs as ((dn & Hdn & _) & _).
  rewrite (to_collect_ext st st'); [done|]. intros [t x] Hin. simpl. destruct (mv_taken _ _ _ _ _ Hm x) as [E|(t' & Ht')]; [done|].
  destruct Hne. assert (Hx : wd_inputs (sr_wired sj) !! t = Some x) by (apply stage_order_elem; rewrite <- Hdn; apply elem_of_app; by right).
  pose proof (pi_lookup _ _ _ _ (pi_wired _ _ _ Hinv) Hj) as Hwj.
  pose proof (pi_lookup _ _ _ _ (pi_wired _ _ _ Hinv) (mv_at _ _ _ _ _ Hm)) as Hwi.
  by destruct (tw_once ws tree _ _ _ _ _ _ _ Hwj Hwi Hx Ht').
Qed.

Lemma sum_insert {A} (f g : A -> nat) l : forall i a b,
  l !! i = Some a -> (forall j c, l !! j = Some c -> j <> i -> g c = f c) -> (g b < f a)%nat ->
  (sum_list (map g (<[i := b]> l)) < sum_list (map f l))%nat.
Proof.
  induction l as [|c l IH]; intros [|i] a b Hi Hne Hlt; try done; simpl in *.
  - injection Hi as ->. assert (E : map g l = map f l).
    { apply map_ext_in. intros c Hc. apply list_elem_of_In, list_elem_of_lookup in Hc as (j & Hj). by apply (Hne (S j)). }
    rewrite E. lia.
  - rewrite (Hne 0%nat c eq_refl) by done. specialize (IH i a b Hi). enough (sum_list (map g (<[i := b]> l)) < sum_list (map f l))%nat by lia.
    apply IH; [|done]. intros j d Hj Hd. apply (Hne (S j) d Hj). lia.
Qed.

Lemma cost_moves st st' i s s' :
  pipe_inv st -> moves st st' i s s' -> taken st' None = taken st None -> (stage_cost st' s' < stage_cost st s)%nat ->
  (cost st' < cost st)%nat.
Proof.
  intros Hinv Hm Ht Hlt. unfold cost. rewrite Ht, (mv_stages _ _ _ _ _ Hm). apply Nat.add_lt_mono_r.
  apply (sum_insert _ _ _ i s); [apply Hm| |done]. intros j sj Hj Hne. by apply (stage_cost_other st st' i s s' j).
Qed.

Lemma quiet_cost st i s s' :
  pipe_inv st -> ps_stages st !! i = Some s -> sr_wired s' = sr_wired s -> (fw_ended s = true -> fw_ended s' = true) ->
  (stage_cost st s' < stage_cost st s)%nat -> (cost (mkPipe (<[i := s']> (ps_stages st)) (ps_chans st)) < cost st)%nat.
Proof. intros Hinv Hi Hw Hf Hlt. by apply (cost_moves _ _ i s s' Hinv (quiet_moves _ _ _ _ Hi Hw Hf)). Qed.

Lemma to_collect_receive st (stages : list stage_run) t y todo :
  (taken st (Some y) < length (final (Some y)))%nat -> (forall tx, tx ∈ todo -> tx.2 <> y) ->
  (to_collect (mkPipe stages (receive (ps_chans st) (chan st (Some y)) (Some y))) ((t, y) :: todo) < to_collect st ((t, y) :: todo))%nat.
Proof.
  intros Hlt Hne. unfold to_collect. simpl. rewrite (proj2 (receive_chan st stages (Some y) (Some y))), decide_True by done.
  assert (E : to_collect (mkPipe stages (receive (ps_chans st) (chan st (Some y)) (Some y))) todo = to_collect st todo).
  { apply to_collect_ext. intros tx Hin. rewrite (proj2 (receive_chan st stages (Some y) (Some tx.2))), decide_False; [done|].
    intros [= E]. by apply (Hne tx). }
  unfold to_collect in E. rewrite E. lia.
Qed.

Lemma log_final_bound st j t y : pipe_inv st -> (exists s, ps_stages st !! j = Some s /\ wd_inputs (sr_wired s) !! t = Some y) ->
  (length (log st (Some y)) <= length (final (Some y)))%nat.
Proof.
  intros Hinv (s & Hj & Ht). pose proof (pi_lookup _ _ _ _ (pi_wired _ _ _ Hinv) Hj) as Hw.
  destruct (tw_source ws tree _ _ _ _ Hw Ht) as (i & w & _ & Hi & Hx).
  rewrite <- (pi_wired _ _ _ Hinv) in Hi. change (map ?f ?l) with (f <$> l) in Hi. rewrite list_lookup_fmap in Hi.
  destruct (ps_stages st !! i) as [si|] eqn:Hsi; [|done]. injection Hi as <-.
  destruct (tw_one ws tree _ _ (pi_lookup _ _ _ _ (pi_wired _ _ _ Hinv) Hsi)) as [o Ho].
  rewrite Ho in Hx. apply list_elem_of_singleton in Hx as <-. by apply (log_final st Hinv i si).
Qed.

Lemma bg_step_cost st i s s' x :
  pipe_inv st -> ps_stages st !! i = Some s -> bg_step run_stage st s = Some (s', x) ->
  (cost (mkPipe (<[i := s']> (ps_stages st))
           (match x with Some x => receive (ps_chans st) (chan st (Some x)) (Some x) | None => ps_chans st end)) < cost st)%nat.
Proof.
  intros Hinv Hi. pose proof (pi_stages _ _ _ Hinv s ltac:(by eapply list_elem_of_lookup_2)) as (o & Ho & Hs).
  unfold bg_step. destruct (sr_bg s) as [[|[t y] todo] cur|[|m todo]|] eqn:Hbg; [| | | |done].
  - intros [= <- <-]. apply (quiet_cost st i s); [done..|]. unfold stage_cost. rewrite Hbg. simpl.
    destruct Hs as ((dn & Hdn & Hc) & _ & _ & Hq & Hfw & _). rewrite app_nil_r in Hdn. subst dn.
    destruct (log_final st Hinv i s o Hi Ho) as (Hcol & _). rewrite <- (Hcol Hc), Hq, Hfw. unfold messages. simpl. lia.
  - destruct Hs as ((dn & Hdn & Hc) & _).
    assert (Hty : wd_inputs (sr_wired s) !! t = Some y) by (apply stage_order_elem; rewrite <- Hdn; apply elem_of_app; right; left).
    destruct (log st (Some y) !! taken st (Some y)) as [b|] eqn:Hb.
    + intros [= <- <-]. eapply cost_moves; [done|by apply (receive_moves _ _ _ _ t)|by apply (receive_chan st _ (Some y) None)|].
      unfold stage_cost. rewrite Hbg. cbn [sr_bg sr_wired].
      match goal with |- context [to_collect (mkPipe ?l _)] => pose proof (to_collect_receive st l t y todo) as Hrec end.
      apply lookup_lt_Some in Hb. pose proof (log_final_bound st i t y Hinv ltac:(by exists s)) as Hbound.
      specialize (Hrec ltac:(lia)). apply Nat.add_lt_mono_r, Nat.add_lt_mono_r, Hrec.
      intros [t' z] Hin E. simpl in E. subst z.
      assert (Hz : wd_inputs (sr_wired s) !! t' = Some y) by (apply stage_order_elem; rewrite <- Hdn; apply elem_of_app; right; by right).
      pose proof (pi_lookup _ _ _ _ (pi_wired _ _ _ Hinv) Hi) as Hwi.
      destruct (tw_once ws tree _ _ _ _ _ _ _ Hwi Hwi Hty Hz) as [_ ->]. by apply (order_apart _ _ _ t' y _ _ Hdn); [right|].
    + destruct (closed st (Some y)) eqn:Hcl; [|done]. intros [= <- <-]. apply (quiet_cost st i s); [done..|].
      unfold stage_cost. rewrite Hbg. unfold to_collect. simpl. lia.
  - intros [= <- <-]. apply (quiet_cost st i s); [done..|]. unfold stage_cost. rewrite Hbg. simpl. lia.
  - destruct (fw_ended s) eqn:He.
    + intros [= <- <-]. apply (quiet_cost st i s); [done..|]. unfold stage_cost. rewrite Hbg. simpl. lia.
    + destruct (_ <? _)%nat; [|done]. intros [= <- <-]. apply (quiet_cost st i s); [done..|]. unfold stage_cost. rewrite Hbg. simpl.
      rewrite length_app. simpl. lia.
Qed.

Lemma fw_step_cost st i s s' m :
  pipe_inv st -> ps_stages st !! i = Some s -> fw_step capacity st s = Some (s', m) ->
  (cost (mkPipe (<[i := s']> (ps_stages st))
           (match m with
            | Some (x, b) => <[x := mkChannel (log st x ++ [b]) (taken st x)]> (ps_chans st)
            | None => ps_chans st
            end)) < cost st)%nat.
Proof.
  intros Hinv Hi. pose proof (pi_stages _ _ _ Hinv s ltac:(by eapply list_elem_of_lookup_2)) as Hst.
  pose proof (not_collecting _ _ _ Hst) as Hnc. pose proof Hst as (o & Ho & Hs). unfold fw_step.
  destruct (sr_fw s) as [|b [|x todo]|r] eqn:Hfw; [| | |done].
  - destruct (sr_queue s) as [|[b|e] q] eqn:Hq.
    + destruct (sr_bg s) eqn:Hbg; [done|done|]. intros [= <- <-]. apply (quiet_cost st i s); [done..|].
      unfold stage_cost. rewrite Hbg. simpl. rewrite Hfw, Hq. simpl. lia.
    + intros [= <- <-]. specialize (Hnc ltac:(by left)). apply (quiet_cost st i s); [done|done|done|by unfold fw_ended; rewrite Hfw|].
      unfold stage_cost. simpl. rewrite Hfw, Hq, Ho. destruct (sr_bg s) as [l c| |]; [by destruct (Hnc l c)|simpl; lia..].
    + intros [= <- <-]. specialize (Hnc ltac:(by left)). apply (quiet_cost st i s); [done..|].
      unfold stage_cost. simpl. rewrite Hfw, Hq. destruct (sr_bg s) as [l c| |]; [by destruct (Hnc l c)|simpl; lia..].
  - intros [= <- <-]. specialize (Hnc ltac:(by right)). apply (quiet_cost st i s); [done|done|done|by unfold fw_ended; rewrite Hfw|].
    unfold stage_cost. simpl. rewrite Hfw. destruct (sr_bg s) as [l c| |]; [by destruct (Hnc l c)|simpl; lia..].
  - destruct (_ <? _)%nat; [|done]. intros [= <- <-]. specialize (Hnc ltac:(by right)).
    assert (Hx : x = o).
    { unfold sends in Hs. rewrite Hfw in Hs. destruct (sr_bg s) as [l c| |]; [by destruct (Hnc l c)| |];
        by destruct Hs as (_ & (l & [[[= -> _] _]|[? _]] & _) & _). }
    subst x. eapply cost_moves; [done|by apply send_moves; [| |unfold fw_ended; rewrite Hfw|]|apply send_chan|].
    unfold stage_cost. simpl. rewrite Hfw. destruct (sr_bg s) as [l c| |]; [by destruct (Hnc l c)|simpl; lia..].
Qed.

Lemma pstep_cost st st' a : pipe_inv st -> pstep st a = Some st' -> (cost st' < cost st)%nat.
Proof.
  intros Hinv. destruct a as [i|i|]; simpl.
  - destruct (ps_stages st !! i) as [s|] eqn:Hi; [|done]. simpl. destruct (bg_step _ st s) as [[s' x]|] eqn:Hb; [|done].
    intros [= <-]. by apply (bg_step_cost st i s s' x).
  - destruct (ps_stages st !! i) as [s|] eqn:Hi; [|done]. simpl. destruct (fw_step _ st s) as [[s' m]|] eqn:Hf; [|done].
    intros [= <-]. by apply (fw_step_cost st i s s' m).
  - destruct (log st None !! taken st None) as [b|] eqn:Hb; [|done]. intros [= <-]. unfold cost. simpl.
    match goal with |- context [mkPipe ?l ?c] => set (st' := mkPipe l c) end.
    assert (E : map (stage_cost st') (ps_stages st) = map (stage_cost st) (ps_stages st)).
    { apply map_ext. intros s. unfold stage_cost. destruct (sr_bg s) as [todo cur| |]; [|done|done].
      rewrite (to_collect_ext st st'); [done|]. intros tx _. unfold st'.
      by rewrite (proj2 (receive_chan st (ps_stages st) None (Some tx.2))), decide_False. }
    rewrite E. unfold st'. rewrite (proj2 (receive_chan st (ps_stages st) None None)), decide_True by done.
    apply lookup_lt_Some in Hb. destruct (tw_root ws tree) as (i & w & Hi & Ho).
    rewrite <- (pi_wired _ _ _ Hinv) in Hi. change (map ?f ?l) with (f <$> l) in Hi. rewrite list_lookup_fmap in Hi.
    destruct (ps_stages st !! i) as [si|] eqn:Hsi; [|done]. injection Hi as <-.
    destruct (tw_one ws tree _ _ (pi_lookup _ _ _ _ (pi_wired _ _ _ Hinv) Hsi)) as [o Hoi].
    rewrite Hoi in Ho. apply list_elem_of_singleton in Ho as <-.
    pose proof (log_final st Hinv i si None Hsi Hoi) as (_ & Hle & _). lia.
Qed.

Lemma prun_cost l : forall st st', pipe_inv st -> prun run_stage capacity st l = Some st' -> (length l + cost st' <= cost st)%nat.
Proof.
  induction l as [|a l IH]; simpl; intros st st' Hinv; [by intros [= <-]|].
  destruct (Pipelined.pstep run_stage capacity st a) as [st1|] eqn:Ha; [|done]. intros Hr.
  pose proof (pstep_cost _ _ _ Hinv Ha). pose proof (IH st1 st' ltac:(by eapply pstep_inv) Hr). lia.
Qed.
End bounded.
Lemma pstep_out_of_range st i : (length (ps_stages st) <= i)%nat -> pstep st (BgStep i) = None /\ pstep st (FwStep i) = None.
Proof. intros Hi. simpl. by rewrite (lookup_ge_None_2 _ _ Hi). Qed.

Lemma blocked_or_moves st : blocked st \/ exists a st', pstep st a = Some st'.
Proof.
  set (as_ := CollectResult :: flat_map (fun i => [BgStep i; FwStep i]) (seq 0 (length (ps_stages st)))).
  destruct (decide (Exists (fun a => is_Some (pstep st a)) as_)) as [Hex|Hn].
  - right. apply Exists_exists in Hex as (a & _ & st' & Ha). by exists a, st'.
  - left. intros a. destruct (Pipelined.pstep _ _ st a) as [st'|] eqn:Ha; [|done]. destruct Hn. apply Exists_exists.
    exists a. split; [|by exists st']. unfold as_. apply list_elem_of_In.
    assert (Hrange : forall i, a = BgStep i \/ a = FwStep i -> (i < length (ps_stages st))%nat).
    { intros i Hai. destruct (decide (length (ps_stages st) <= i)%nat) as [Hge|]; [|lia].
      destruct (pstep_out_of_range st i Hge) as [Hb Hf]. destruct Hai as [-> | ->]; congruence. }
    destruct a as [i|i|]; [right|right|by left]; apply in_flat_map; exists i; (split; [apply in_seq; pose proof (Hrange i ltac:(tauto)); lia|simpl; tauto]).
Qed.

(** Every run goes on to the answer of the stages run in order. *)
Lemma pipeline_completes st : (0 < capacity)%nat -> pipe_inv st ->
  exists more st', prun run_stage capacity st more = Some st' /\ pipeline_answer st' = Some (sequential_answer run_stage ws).
Proof.
  intros Hcap. destruct (final_outputs_exist (length ws)) as [outs Hfin].
  remember (cost outs st) as n eqn:Hn. revert st Hn. induction (lt_wf n) as [n _ IH]. intros st -> Hinv.
  destruct (blocked_or_moves st) as [Hb|(a & st1 & Ha)].
  - exists [], st. split; [done|]. destruct (blocked_answers st Hcap Hinv Hb) as (r & Hr). rewrite Hr.
    f_equal. by apply (answer_reference run_stage ws tree st).
  - pose proof (pstep_inv run_stage capacity ws tree st st1 a Hinv Ha) as Hinv1.
    destruct (IH _ (pstep_cost outs Hfin st st1 a Hinv Ha) st1 eq_refl Hinv1) as (more & st' & Hm & Hans).
    exists (a :: more), st'. split; [|done]. simpl. by rewrite Ha.
Qed.

Lemma prun_app l : forall st l', prun run_stage capacity st (l ++ l') = prun run_stage capacity st l ≫= fun st => prun run_stage capacity st l'.
Proof. induction l as [|a l IH]; intros st l'; simpl; [done|]. destruct (Pipelined.pstep _ _ st a); simpl; [apply IH|done]. Qed.
End live.
