(* ===== verification/PipelinedPlan.v ===== *)
(** * Streaming a cut plan
    (ldp/executor/coordinator.rs: execute_pipelined over the plans of
    ldp/planner/cut.rs)

    The stages of a cut plan are wired into a tree: the streams a stage reads
    are its incoming exchanges and it feeds the one exchange it is the source
    of, or the collector of the results. *)

From stdpp Require Import pretty.
From S2P Require Import Prelude SqlAst LogicalPlan LdpTypes TopoOrder Policy Arrow HashPartition ExchangeRuntime StageExec Annotate Enforce OrderByColumns Cut CutShape CutCorrect CutPlan Distributed Coordinator CoordinatorRun Pipelined PipelinedInv PipelinedLive.

#[local] Open Scope Z_scope.

(** ** Inputs and outputs *)

Definition input_map (ins : list StageInput) (acc : gmap string ExchangeId) : gmap string ExchangeId :=
  foldl (fun m i => match i with ExchangeInput x t => <[t := x]> m | LocalCatalog => m end) acc ins.

Definition input_ids (ins : list StageInput) : list ExchangeId :=
  omap (fun i => match i with ExchangeInput id _ => Some id | LocalCatalog => None end) ins.

Lemma input_ids_elem x ins : x ∈ input_ids ins <-> exists t, ExchangeInput x t ∈ ins.
Proof.
  unfold input_ids. rewrite list_elem_of_omap. split.
  - intros ([|y t] & Hin & E); [done|]. injection E as ->. by exists t.
  - intros (t & Hin). by exists (ExchangeInput x t).
Qed.

Lemma resolve_streams ins : forall C acc, NoDup (input_ids ins) -> (forall x, x ∈ input_ids ins -> x ∈ C) ->
  resolve_input_streams C ins acc = Ok (input_map ins acc, C ∖ list_to_set (input_ids ins)).
Proof.
  induction ins as [|[|x t] ins IH]; intros C acc Hnd Hin; simpl; [|by apply IH|].
  - do 2 f_equal. set_solver.
  - unfold input_ids in *. simpl in Hnd, Hin. apply NoDup_cons in Hnd as [Hx Hnd].
    rewrite bool_decide_true by (apply Hin; left). rewrite IH; [|done|].
    + do 2 f_equal. simpl. set_solver.
    + intros y Hy. assert (y <> x) by (intros ->; done). specialize (Hin y ltac:(by right)). set_solver.
Qed.

Lemma input_map_from ins : forall acc t x, input_map ins acc !! t = Some x -> ExchangeInput x t ∈ ins \/ acc !! t = Some x.
Proof.
  induction ins as [|[|y u] ins IH]; intros acc t x; simpl; [by right| |].
  - intros [Hin|Ha]%IH; [by left; right|by right].
  - intros [Hin|Ha]%IH; [by left; right|]. destruct (decide (t = u)) as [->|Hne].
    + rewrite lookup_insert_eq in Ha. injection Ha as ->. left. left.
    + rewrite lookup_insert_ne in Ha by done. by right.
Qed.

Lemma input_map_has ins t x : (forall y, ExchangeInput y t ∈ ins -> y = x) -> forall acc,
  ExchangeInput x t ∈ ins \/ acc !! t = Some x -> input_map ins acc !! t = Some x.
Proof.
  induction ins as [|[|y u] ins IH]; intros Hu acc Ha; simpl.
  - destruct Ha as [Ha|Ha]; [by apply not_elem_of_nil in Ha|done].
  - apply IH; [intros z Hz; apply Hu; by right|]. destruct Ha as [[Ha|Ha]%elem_of_cons|Ha]; [done|by left|by right].
  - apply IH; [intros z Hz; apply Hu; by right|]. destruct (decide (t = u)) as [->|Hne].
    + right. rewrite lookup_insert_eq. by rewrite (Hu y) by left.
    + rewrite lookup_insert_ne by done. destruct Ha as [[Ha|Ha]%elem_of_cons|Ha]; [congruence|by left|by right].
Qed.

Lemma filter_one {A} (f : A -> Z) l e : NoDup (map f l) -> e ∈ l -> List.filter (fun e' => f e' =? f e) l = [e].
Proof.
  assert (Hnone : forall l, f e ∉ map f l -> List.filter (fun e' => f e' =? f e) l = []).
  { clear l. induction l as [|a l IH]; intros Hni; simpl in *; [done|]. apply not_elem_of_cons in Hni as [Hne Hni].
    rewrite (proj2 (Z.eqb_neq _ _)) by done. by apply IH. }
  induction l as [|a l IH]; intros Hnd Hin; simpl in *; [by apply not_elem_of_nil in Hin|].
  apply NoDup_cons in Hnd as [Hni Hnd]. apply elem_of_cons in Hin as [->|Hin].
  - rewrite Z.eqb_refl. by rewrite Hnone.
  - rewrite (proj2 (Z.eqb_neq _ _)); [by apply IH|]. intros E. apply Hni. rewrite E.
    by apply (list_elem_of_fmap_2 f).
Qed.

Lemma map_filter_sublist {A B} (f : A -> B) (p : A -> bool) l : sublist (map f (List.filter p l)) (map f l).
Proof. induction l as [|a l IH]; simpl; [constructor|]. destruct (p a); simpl; by constructor. Qed.

Lemma exchange_table_name_inj x y : exchange_table_name x = exchange_table_name y -> x = y.
Proof. unfold exchange_table_name. intros E. apply (inj (String.append _)) in E. by apply (inj pretty) in E. Qed.

(** ** The plan *)

Definition outgoing (plan : LdpPlan) (id : StageId) : list (option ExchangeId) :=
  map Some (map exchange_id (List.filter (fun e => from_stage e =? id) (edges plan))) ++
  (if id =? root_stage plan then [None] else []).

Definition wired_of (plan : LdpPlan) (s : Stage) : Wired :=
  mkWired s (input_map (inputs s) ∅) (outgoing plan (stage_id s)).

Section tree.
Context (plan : LdpPlan) (Htree : tree_towards_root plan) (Hin : inputs_are_edges plan) (Hnamed : inputs_are_named plan).

Lemma stage_at i s : stages plan !! i = Some s -> stage_id s = Z.of_nat i /\ Z.of_nat i <= root_stage plan.
Proof.
  intros Hi. destruct Htree as (Hids & _). apply (f_equal (fun l => l !! i)) in Hids.
  change (map stage_id ?l) with (stage_id <$> l) in Hids. rewrite list_lookup_fmap, Hi in Hids. simpl in Hids.
  symmetry in Hids. apply lookup_seqZ in Hids as [-> Hlt]. lia.
Qed.

Lemma stage_exists id : 0 <= id <= root_stage plan -> exists s, stages plan !! Z.to_nat id = Some s.
Proof.
  intros Hr. destruct Htree as (Hids & _). apply (f_equal (fun l => l !! Z.to_nat id)) in Hids.
  change (map stage_id ?l) with (stage_id <$> l) in Hids. rewrite list_lookup_fmap, lookup_seqZ_lt in Hids by lia.
  destruct (stages plan !! Z.to_nat id) as [s|]; [by exists s|done].
Qed.

Lemma exchange_ids_NoDup : NoDup (map exchange_id (edges plan)).
Proof. destruct Htree as (_ & -> & _). apply NoDup_seqZ. Qed.

Lemma sources_NoDup : NoDup (map from_stage (edges plan)).
Proof. destruct Htree as (_ & _ & -> & _). apply NoDup_seqZ. Qed.

Lemma edge_range e : e ∈ edges plan -> 0 <= from_stage e < to_stage e /\ to_stage e <= root_stage plan.
Proof. destruct Htree as (_ & _ & _ & Hf). rewrite Forall_forall in Hf. apply Hf. Qed.

Lemma same_exchange e e' : e ∈ edges plan -> e' ∈ edges plan -> exchange_id e = exchange_id e' -> e = e'.
Proof. intros. by apply (NoDup_map_inj exchange_id (edges plan)); [apply exchange_ids_NoDup|..]. Qed.

Lemma edges_into_elem x id : x ∈ edges_into id (edges plan) <-> exists e, e ∈ edges plan /\ exchange_id e = x /\ to_stage e = id.
Proof.
  unfold edges_into. change (map ?f ?l) with (f <$> l). rewrite list_elem_of_fmap. split.
  - intros (e & -> & He). apply list_elem_of_In, filter_In in He as [He Hid]. apply list_elem_of_In in He. apply Z.eqb_eq in Hid. by exists e.
  - intros (e & He & <- & Hid). exists e. split; [done|]. apply list_elem_of_In, filter_In. split; [by apply list_elem_of_In|]. by apply Z.eqb_eq.
Qed.

Lemma stage_reads s x : s ∈ stages plan -> (exists t, ExchangeInput x t ∈ inputs s) <-> exists e, e ∈ edges plan /\ exchange_id e = x /\ to_stage e = stage_id s.
Proof.
  intros Hs. unfold inputs_are_edges in Hin. rewrite Forall_forall in Hin. rewrite <- edges_into_elem, <- (Hin s Hs).
  symmetry. apply input_ids_elem.
Qed.

Lemma outgoing_elem id o : o ∈ outgoing plan id <->
  (exists e, e ∈ edges plan /\ from_stage e = id /\ o = Some (exchange_id e)) \/ (id = root_stage plan /\ o = None).
Proof.
  unfold outgoing. rewrite elem_of_app, map_map. change (map ?f ?l) with (f <$> l). rewrite list_elem_of_fmap. split.
  - intros [(e & -> & He)|Ho].
    + left. apply list_elem_of_In, filter_In in He as [He Hid]. apply list_elem_of_In in He. apply Z.eqb_eq in Hid. by exists e.
    + right. destruct (id =? root_stage plan) eqn:E; [|by apply not_elem_of_nil in Ho].
      apply list_elem_of_singleton in Ho. apply Z.eqb_eq in E. done.
  - intros [(e & He & <- & ->)|[-> ->]].
    + left. exists e. split; [done|]. apply list_elem_of_In, filter_In. split; [by apply list_elem_of_In|]. apply Z.eqb_refl.
    + right. rewrite Z.eqb_refl. left.
Qed.

Lemma outgoing_one id : 0 <= id <= root_stage plan -> exists o, outgoing plan id = [o].
Proof.
  intros Hr. unfold outgoing. destruct (Z.eqb_spec id (root_stage plan)) as [->|Hne].
  - exists None. replace (List.filter _ _) with ([] : list ExchangeEdge); [done|]. symmetry.
    apply (nil_length_inv). destruct (List.filter _ _) as [|e l] eqn:Hf; [done|].
    assert (He : e ∈ edges plan /\ from_stage e = root_stage plan).
    { assert (Hi : In e (e :: l)) by by left. rewrite <- Hf in Hi. apply filter_In in Hi as [Hi E]. apply list_elem_of_In in Hi. by apply Z.eqb_eq in E. }
    destruct He as [He E]. apply edge_range in He. lia.
  - assert (Hi : id ∈ map from_stage (edges plan)).
    { destruct Htree as (_ & _ & -> & _). apply elem_of_seqZ. lia. }
    apply list_elem_of_fmap in Hi as (e & -> & He). exists (Some (exchange_id e)).
    by rewrite (filter_one from_stage _ _ sources_NoDup He).
Qed.
(** ** Wiring it *)

Lemma wire_suffix ss : forall n C, (forall s, s ∈ ss -> s ∈ stages plan) -> map stage_id ss = seqZ n (Z.of_nat (length ss)) ->
  (forall e, e ∈ edges plan -> exchange_id e ∈ C <-> n <= to_stage e) ->
  wire_stages plan C ss = Ok (map (wired_of plan) ss).
Proof.
  induction ss as [|s ss IH]; intros n C Hss Hids HC; [done|]. simpl length in Hids.
  rewrite Nat2Z.inj_succ, <- Z.add_1_l, seqZ_cons in Hids by lia. injection Hids as Hid Hids.
  pose proof (Hss s ltac:(left)) as Hs. pose proof Hin as Hin'. unfold inputs_are_edges in Hin'. rewrite Forall_forall in Hin'.
  assert (Hsi : input_ids (inputs s) = edges_into n (edges plan)) by (rewrite <- Hid; exact (Hin' s Hs)).
  simpl. rewrite resolve_streams.
  - simpl. assert (HC' : forall e, e ∈ edges plan ->
      exchange_id e ∈ C ∖ list_to_set (input_ids (inputs s)) <-> n + 1 <= to_stage e).
    { intros e He. rewrite elem_of_difference, elem_of_list_to_set, Hsi, edges_into_elem, (HC e He). split.
      - intros [Hle Hn]. destruct (decide (to_stage e = n)) as [E|Hne]; [|lia]. destruct Hn. by exists e.
      - intros Hle. split; [lia|]. intros (e' & He' & E & Ht). apply same_exchange in E; [|done|done]. subst e'. lia. }
    rewrite (IH (n + 1) _ ltac:(intros s' Hs'; apply Hss; by right)); [|rewrite Hids; f_equal; lia|done].
    simpl. unfold wired_of, outgoing, get_output_channels. do 4 f_equal. apply (f_equal (fun l => map Some (map exchange_id l))).
    apply filter_ext_in. intros e He. apply list_elem_of_In in He. destruct (Z.eqb_spec (from_stage e) (stage_id s)) as [E|]; [|done].
    simpl. apply bool_decide_eq_true, HC'; [done|]. pose proof (edge_range e He). lia.
  - rewrite Hsi. unfold edges_into. apply (sublist_NoDup _ _ exchange_ids_NoDup), map_filter_sublist.
  - intros x Hx. rewrite Hsi in Hx. apply edges_into_elem in Hx as (e & He & <- & Ht). apply HC; [done|lia].
Qed.

Lemma wire_plan : 0 <= root_stage plan -> wire plan = Ok (map (wired_of plan) (stages plan)).
Proof.
  intros Hroot. unfold wire. destruct Htree as (Hids & _ & _ & Hf). rewrite Forall_forall in Hf. apply (wire_suffix _ 0); [done| |].
  - rewrite Hids. f_equal. apply (f_equal length) in Hids. rewrite length_map, length_seqZ in Hids. lia.
  - intros e He. rewrite elem_of_list_to_set. split; [specialize (Hf e He); simpl in Hf; lia|]. intros _.
    by apply (list_elem_of_fmap_2 exchange_id).
Qed.

Lemma wired_at i w : map (wired_of plan) (stages plan) !! i = Some w ->
  exists s, stages plan !! i = Some s /\ w = wired_of plan s.
Proof.
  change (map ?f ?l) with (f <$> l). rewrite list_lookup_fmap. destruct (stages plan !! i) as [s|]; [|done].
  intros [= <-]. by exists s.
Qed.

Lemma wired_input s t x : s ∈ stages plan -> wd_inputs (wired_of plan s) !! t = Some x <-> ExchangeInput x t ∈ inputs s.
Proof.
  intros Hs. simpl. split; [by intros [?|?]%input_map_from|]. intros Hx. apply input_map_has; [|by left].
  intros y Hy. unfold inputs_are_named, inputs_named in Hnamed. rewrite Forall_forall in Hnamed.
  pose proof (Hnamed s Hs) as Hns. rewrite Forall_forall in Hns. pose proof (Hns _ Hx) as E. pose proof (Hns _ Hy) as E'. simpl in E, E'.
  apply exchange_table_name_inj. congruence.
Qed.

Lemma plan_tree_wired : 0 <= root_stage plan -> tree_wired (map (wired_of plan) (stages plan)).
Proof.
  intros Hroot. split.
  - intros i w (s & Hi & ->)%wired_at. destruct (stage_at i s Hi) as [Hid Hle]. apply (outgoing_one (stage_id s)). lia.
  - intros i j w v o (s & Hi & ->)%wired_at (s' & Hj & ->)%wired_at. simpl. rewrite !outgoing_elem.
    destruct (stage_at i s Hi) as [Hid _], (stage_at j s' Hj) as [Hid' _].
    intros [(e & He & Hf & ->)|[Hr ->]] [(e' & He' & Hf' & E)|[Hr' E]]; try done; [|lia].
    injection E as E. apply same_exchange in E; [subst e'; lia|done|done].
  - intros i w x (s & Hi & ->)%wired_at. simpl. rewrite outgoing_elem. intros [(e & He & Hf & [= ->])|[_ ?]]; [|done].
    pose proof (edge_range e He). destruct (stage_exists (to_stage e) ltac:(lia)) as (s' & Hs').
    destruct (stage_at _ _ Hs') as [Hid' _]. pose proof (list_elem_of_lookup_2 _ _ _ Hs') as Hin'.
    destruct (proj2 (stage_reads s' (exchange_id e) Hin')) as (t & Ht); [exists e; split_and!; [done|done|lia]|].
    exists (Z.to_nat (to_stage e)), (wired_of plan s'), t. split; [|by apply wired_input].
    change (map ?f ?l) with (f <$> l). by rewrite list_lookup_fmap, Hs'.
  - intros j v t x (s & Hj & ->)%wired_at Ht. pose proof (list_elem_of_lookup_2 _ _ _ Hj) as Hs. apply wired_input in Ht; [|done].
    destruct (proj1 (stage_reads s x Hs)) as (e & He & <- & Hto); [by exists t|].
    destruct (stage_at _ _ Hj) as [Hid _]. pose proof (edge_range e He).
    destruct (stage_exists (from_stage e) ltac:(lia)) as (s' & Hs'). destruct (stage_at _ _ Hs') as [Hid' _].
    exists (Z.to_nat (from_stage e)), (wired_of plan s'). split; [lia|]. split.
    + change (map ?f ?l) with (f <$> l). by rewrite list_lookup_fmap, Hs'.
    + simpl. apply outgoing_elem. left. exists e. split_and!; [done|lia|done].
  - destruct (stage_exists (root_stage plan) ltac:(lia)) as (s & Hs). destruct (stage_at _ _ Hs) as [Hid _].
    exists (Z.to_nat (root_stage plan)), (wired_of plan s). split.
    + change (map ?f ?l) with (f <$> l). by rewrite list_lookup_fmap, Hs.
    + simpl. apply outgoing_elem. right. split; [lia|done].
  - intros j k v u t t' x (s & Hj & ->)%wired_at (s' & Hk & ->)%wired_at.
    pose proof (list_elem_of_lookup_2 _ _ _ Hj) as Hs. pose proof (list_elem_of_lookup_2 _ _ _ Hk) as Hs'.
    rewrite !wired_input by done. intros Hx Hx'.
    destruct (proj1 (stage_reads s x Hs)) as (e & He & E & Hto); [by exists t|].
    destruct (proj1 (stage_reads s' x Hs')) as (e' & He' & E' & Hto'); [by exists t'|].
    rewrite <- E' in E. apply same_exchange in E; [subst e'|done|done].
    destruct (stage_at _ _ Hj) as [Hid _], (stage_at _ _ Hk) as [Hid' _]. split; [lia|].
    unfold inputs_are_named, inputs_named in Hnamed. rewrite Forall_forall in Hnamed.
    pose proof (Hnamed s Hs) as Hn. pose proof (Hnamed s' Hs') as Hn'. rewrite Forall_forall in Hn, Hn'.
    pose proof (Hn _ Hx) as Et. pose proof (Hn' _ Hx') as Et'. simpl in Et, Et'. congruence.
Qed.
End tree.

(** ** Streaming a plan *)

(** A plan as the cut makes it. *)
Definition streamable (plan : LdpPlan) : Prop :=
  tree_towards_root plan /\ inputs_are_edges plan /\ inputs_are_named plan /\ 0 <= root_stage plan.

Lemma cut_streamable `{SqlDisplay} (gen : LogicalPlan -> PlanContext -> string) t policy query context p :
  shaped t = true -> Z.of_nat (S (count_below t)) < u32_modulus ->
  cut_into_stages gen t policy query context = Ret p -> streamable p.
Proof.
  intros Hs Hr Hp. destruct (cut_returned gen t policy query context p Hs Hr Hp) as [i r x f w _ _ n _ _ m].
  rewrite <- r in *. split_and!; [|done|done|lia]. unfold tree_towards_root. rewrite i. split_and!; [f_equal; lia|done..].
Qed.

Lemma capacity_pos bytes : (0 < compute_buffer_capacity bytes)%nat.
Proof. unfold compute_buffer_capacity. lia. Qed.

Section streaming.
Context {RecordBatch : Type} `{HashOrder}.
Context (run_stage : Stage -> gmap string (list RecordBatch) -> result (list RecordBatch) StageExecutionError).

(** The stages one after the other, each on the whole outputs of those it reads. *)
Definition in_order_result (call : list nat) (plan : LdpPlan) : result (list RecordBatch * list WorkerId) CoordinatorError :=
  let ws := map (wired_of plan) (stages plan) in
  let? bs := sequential_answer run_stage ws in Ok (bs, pipeline_workers call ws).

Definition buffers (c : CoordinatorConfig) : nat := compute_buffer_capacity (pipeline_buffer_bytes (cc_planner_policy c)).

Lemma execute_pipelined_eq call c plan schedule : streamable plan -> cc_distributed c = false ->
  execute_pipelined run_stage call c plan schedule =
    match prun run_stage (buffers c) (start_pipeline (map (wired_of plan) (stages plan))) schedule with
    | Some st => match pipeline_answer st with
                 | Some (Ok bs) => Some (Ok (bs, pipeline_workers call (map (wired_of plan) (stages plan))))
                 | Some (Err e) => Some (Err e)
                 | None => None
                 end
    | None => None
    end.
Proof. intros (Ht & Hi & Hn & Hr) Hd. unfold execute_pipelined. by rewrite Hd, (wire_plan plan Ht Hi Hr). Qed.

Lemma streaming_in_order call c plan schedule r :
  streamable plan -> cc_distributed c = false ->
  execute_pipelined run_stage call c plan schedule = Some r -> r = in_order_result call plan.
Proof.
  intros Hs Hd. rewrite execute_pipelined_eq by done. destruct Hs as (Ht & Hi & Hn & Hr).
  pose proof (plan_tree_wired plan Ht Hi Hn Hr) as Htw. unfold in_order_result.
  destruct (prun _ _ _ _) as [st|] eqn:Hrun; [|done].
  pose proof (prun_inv run_stage _ _ Htw _ _ _ (start_inv run_stage _ Htw) Hrun) as Hinv.
  destruct (pipeline_answer st) as [[bs|e]|] eqn:Ha; [| |done]; intros [= <-];
    by rewrite <- (answer_reference run_stage _ Htw st _ Hinv Ha).
Qed.

(** C17: Streaming a plan answers what running its stages one after the
    other on their complete inputs answers, results and errors alike, however
    the tasks of the stages interleave and whatever the buffers hold. *)
Theorem streaming_answers_in_order call c plan schedule r :
  streamable plan -> cc_distributed c = false ->
  execute_pipelined run_stage call c plan schedule = Some r -> r = in_order_result call plan.
Proof. apply streaming_in_order. Qed.

(** C18: The streaming pipeline neither deadlocks nor runs forever: the
    steps of its tasks are bounded by a number that depends on the plan only,
    and from every state they reach the tasks can go on to the answer. *)
Theorem streaming_completes call c plan :
  streamable plan -> cc_distributed c = false ->
  exists bound, forall schedule st,
    prun run_stage (buffers c) (start_pipeline (map (wired_of plan) (stages plan))) schedule = Some st ->
    (length schedule <= bound)%nat /\
    exists more, execute_pipelined run_stage call c plan (schedule ++ more) = Some (in_order_result call plan).
Proof.
  intros Hs Hd. pose proof Hs as (Ht & Hi & Hn & Hr). pose proof (plan_tree_wired plan Ht Hi Hn Hr) as Htw.
  set (ws := map (wired_of plan) (stages plan)) in *. destruct (final_outputs_exist run_stage ws Htw (length ws)) as [outs Hfin].
  exists (cost run_stage outs (start_pipeline ws)). intros schedule st Hrun. pose proof (start_inv run_stage ws Htw) as Hinv0.
  split; [pose proof (prun_cost run_stage _ ws Htw outs Hfin schedule _ st Hinv0 Hrun); lia|].
  destruct (pipeline_completes run_stage (buffers c) ws Htw st (capacity_pos _) (prun_inv run_stage _ ws Htw _ _ _ Hinv0 Hrun))
    as (more & st' & Hmore & Ha).
  exists more. rewrite execute_pipelined_eq by done. fold ws. rewrite prun_app, Hrun. simpl. rewrite Hmore, Ha.
  unfold in_order_result. fold ws. by destruct (sequential_answer run_stage ws).
Qed.
End streaming.

(** ** Example: two scans joined by the third stage *)

Definition demo_stream_plan : LdpPlan :=
  mkPlan "q" "w1"
    [mkStage 0 ["w1"] [LocalCatalog] Stream "orders" StageLimits_default;
     mkStage 1 ["w2"] [LocalCatalog] Stream "customers" StageLimits_default;
     mkStage 2 ["w1"; "w2"] [ExchangeInput 1 "__exchange_1"; ExchangeInput 0 "__exchange_0"] Stream "join" StageLimits_default]
    [mkEdge 1 (Gather "w1") 1 2 []; mkEdge 0 (Gather "w1") 0 2 []] 2.

(** Scans emit two batches, the join pairs what it read; a stage named
    [broken] fails. *)
Definition demo_run_stage (s : Stage) (ins : gmap string (list string)) : result (list string) StageExecutionError :=
  if (stage_sql s =? "join")%string then
    Ok (map (fun '(a, b) => a +:+ b)
          (combine (default [] (ins !! "__exchange_0")) (default [] (ins !! "__exchange_1"))))
  else if (stage_sql s =? "broken")%string then Err (ExecutionFailed "broken")
  else Ok [stage_sql s +:+ "1"; stage_sql s +:+ "2"].

#[local] Existing Instance demo_order.

(** The stages take turns. *)
Definition demo_turns (n : nat) (st : PipeState) : list PipeAction :=
  let fix go n st :=
    match n with
    | O => []
    | S n =>
        match find (fun a => bool_decide (is_Some (pstep demo_run_stage 2 st a)))
                [CollectResult; FwStep 2; BgStep 2; FwStep 0; BgStep 1; FwStep 1; BgStep 0] with
        | Some a => match pstep demo_run_stage 2 st a with Some st' => a :: go n st' | None => [] end
        | None => []
        end
    end in go n st.

Definition demo_stream_schedule : list PipeAction :=
  Eval vm_compute in demo_turns 100 (start_pipeline (map (wired_of demo_stream_plan) (stages demo_stream_plan))).

Lemma demo_streamable : streamable demo_stream_plan.
Proof.
  split_and!.
  - split; [reflexivity|]. split; [apply Permutation_swap|]. split; [apply Permutation_swap|]. by repeat constructor.
  - by repeat constructor.
  - by repeat constructor.
  - done.
Qed.

Lemma streaming_answers_in_order_witness :
  in_order_result demo_run_stage [] demo_stream_plan = Ok (["orders1customers1"; "orders2customers2"], ["w1"; "w2"]).
Proof.
  symmetry. apply (streaming_answers_in_order demo_run_stage [] CoordinatorConfig_default demo_stream_plan demo_stream_schedule).
  - exact demo_streamable.
  - reflexivity.
  - vm_compute. reflexivity.
Defined.

Lemma streaming_completes_witness :
  exists more, execute_pipelined demo_run_stage [] CoordinatorConfig_default demo_stream_plan
      ([BgStep 1; BgStep 1; FwStep 1] ++ more) =
    Some (in_order_result demo_run_stage [] demo_stream_plan).
Proof.
  destruct (streaming_completes demo_run_stage [] CoordinatorConfig_default demo_stream_plan demo_streamable eq_refl) as (bound & H).
  destruct (prun demo_run_stage (buffers CoordinatorConfig_default)
    (start_pipeline (map (wired_of demo_stream_plan) (stages demo_stream_plan))) [BgStep 1; BgStep 1; FwStep 1]) as [st|] eqn:Hr.
  - exact (proj2 (H _ _ Hr)).
  - exfalso. vm_compute in Hr. discriminate.
Defined.
