(* ===== verification/QueryRun.v ===== *)
(** * A query on the coordinator (ldp/executor/coordinator.rs)

    From SQL text to result batches: admission, transformation, planning and
    execution composed as [execute_query] composes them, with the streaming
    pipeline tried first when the policy asks for it. *)

From stdpp Require Import pretty.
From S2P Require Import Prelude NaiveDate SqlAst LogicalPlan PlanBuilder PlanMeaning StageSqlGen MacroCall Discovery Transform Admission LdpTypes Policy Metadata Annotate Enforce Cut CutShape CutCorrect CutPlan BuiltPlans ProtoConvert Pipeline Arrow DuckDb HashPartition ExchangeRuntime StageExec StageSql Distributed Coordinator CoordinatorRun Pipelined PipelinedInv PipelinedPlan.

#[local] Open Scope Z_scope.

(** ** Running a plan *)

(** What the scheduler decides: the turns of the streaming tasks, and the
    orders and clock of the batch execution. *)
Record Schedule := mkSchedule {
  sc_stream : list PipeAction; sc_call : list nat; sc_levels : list (list LevelAction); sc_now : Z;
}.

Section plan.
Context `{Std} `{HashOrder} `{Backend E RecordBatch}.
Context (run_stage : Stage -> gmap string (list RecordBatch) -> result (list RecordBatch) StageExecutionError).

(** [execute_local] or [execute_distributed], as the backend says. *)
Definition execute_batch (cfg : CoordinatorConfig) (plan : LdpPlan) (query : string) (sc : Schedule) (e : E) (c : CoordState)
    : option (outcome (result (list RecordBatch * list WorkerId) CoordinatorError * E * CoordState)) :=
  execute_levels (cc_max_stage_retries cfg) plan query (cc_distributed cfg) (sc_call sc) (sc_levels sc) (sc_now sc) e c.

Definition execute_plan (cfg : CoordinatorConfig) (plan : LdpPlan) (query : string) (sc : Schedule) (e : E) (c : CoordState)
    : option (outcome (result (list RecordBatch * list WorkerId) CoordinatorError * E * CoordState)) :=
  if enable_streaming_pipeline (cc_planner_policy cfg) then
    match execute_pipelined run_stage (sc_call sc) cfg plan (sc_stream sc) with
    | None => None
    | Some (Ok r) => Some (Ret (Ok r, e, c))
    | Some (Err _) => execute_batch cfg plan query sc e c
    end
  else execute_batch cfg plan query sc e c.
End plan.

(** ** Results *)

Record QueryStats := mkQueryStats {
  total_time : Z; planning_time : Z; execution_time : Z; stages_executed : nat;
  rows_produced : Z; bytes_produced : Z; workers_used : list WorkerId;
}.

Record QueryResult (RecordBatch : Type) := mkQueryResult { qr_query_id : string; qr_batches : list RecordBatch; qr_stats : QueryStats }.
Arguments mkQueryResult {RecordBatch}.
Arguments qr_query_id {RecordBatch}.
Arguments qr_batches {RecordBatch}.
Arguments qr_stats {RecordBatch}.

(** [Instant::elapsed] between two readings. *)
Definition elapsed (from to : Z) : Z := Z.max 0 (to - from).

(** [From<StageExecutionError>]. *)
Definition CoordinatorError_from_stage (e : StageExecutionError) : CoordinatorError :=
  CE_ExecutionFailed (ExchangeFailed (StageExecutionError_display e)).

(** ** Running a query *)

Section query.
Context `{Std} `{HashOrder} `{Arrow RecordBatch Schema} `{!Backend E RecordBatch}.
Context `{SqlDisplay} `{SqlParser} `{SqlDebug} `{NaiveDateOps} {M : Type} `{Metadata M}.
Context (run_stage : Stage -> gmap string (list RecordBatch) -> result (list RecordBatch) StageExecutionError).
Context (generate_stage_sql : LogicalPlan -> PlanContext -> string) (to_lowercase : string -> string) (fuel : nat).
Context (iter_order : gmap string (gset string) -> list (string * gset string)).

Definition plan_query (cfg : CoordinatorConfig) (metadata : M) (sql query : string) : outcome (result LdpPlan CoordinatorError) :=
  let! r := plan_ldp generate_stage_sql to_lowercase fuel sql metadata (cc_planner_policy cfg) query in
  Ret (match r with Ok p => Ok p | Err e => Err (PlanningFailed e) end).

(** The phases; [clock] are the successive readings of the clock. *)
Definition execute_query_with_id_inner (cfg : CoordinatorConfig) (t : SqlTransformer) (metadata : M) (clock : nat -> Z)
    (sql query : string) (sc : Schedule) (e : E) (c : CoordState)
    : option (outcome (result (QueryResult RecordBatch) CoordinatorError * E * CoordState)) :=
  match admit_sql iter_order t sql with
  | Err x => Some (Ret (Err (AdmissionRejected x), e, c))
  | Ok _ =>
      match transform t sql with
      | Err x => Some (Ret (Err (CE_TransformFailed (SqlTransformError_display x)), e, c))
      | Ok tr =>
          match plan_query cfg metadata (transformed_sql tr) query with
          | Panic => Some Panic
          | OutOfFuel => Some OutOfFuel
          | Ret (Err x) => Some (Ret (Err x, e, c))
          | Ret (Ok plan) =>
              r ← execute_plan run_stage cfg plan query sc e c;
              Some (let! s := r in
                    match s with
                    | (Err x, e, c) => Ret (Err x, e, c)
                    | (Ok (batches, workers), e, c) =>
                        Ret (Ok (mkQueryResult query batches
                                   (mkQueryStats (elapsed (clock 0%nat) (clock 5%nat)) (elapsed (clock 1%nat) (clock 2%nat))
                                      (elapsed (clock 3%nat) (clock 4%nat)) (length (stages plan))
                                      (total_rows_of batches) (total_bytes_of batches) workers)), e, c)
                    end)
          end
      end
  end.

(** The timeout polls the query first; [dropped] is the state its tasks left. *)
Definition with_timeout {A} (cfg : CoordinatorConfig) (over : bool) (dropped : E * CoordState)
    (run : option (outcome (result A CoordinatorError * E * CoordState)))
    : option (outcome (result A CoordinatorError * E * CoordState)) :=
  match run with
  | Some r => Some r
  | None => if over then Some (Ret (Err (CE_Timeout (cc_query_timeout cfg)), dropped.1, dropped.2)) else None
  end.

Definition execute_query_with_id (cfg : CoordinatorConfig) (t : SqlTransformer) (metadata : M) (clock : nat -> Z) (over : bool)
    (dropped : E * CoordState) (sql query : string) (sc : Schedule) (e : E) (c : CoordState) :=
  with_timeout cfg over dropped (execute_query_with_id_inner cfg t metadata clock sql query sc e c).

(** [generate_query_id] around a random identifier. *)
Definition generate_query_id (uuid : string) : string := "q_" +:+ uuid.

Definition execute_query (cfg : CoordinatorConfig) (t : SqlTransformer) (metadata : M) (clock : nat -> Z) (over : bool)
    (dropped : E * CoordState) (sql uuid : string) (sc : Schedule) (e : E) (c : CoordState) :=
  with_timeout cfg over dropped (execute_query_with_id_inner cfg t metadata clock sql (generate_query_id uuid) sc e c).
End query.

(** ** The planning macro of a dataset *)

Section schema.
Context `{Std} {Db : Type} (execute : Db -> string -> Db * result unit string).

Definition schema_column (f : Field) : result string CoordinatorError :=
  match arrow_type_to_duckdb (f_type f) with
  | Ok col_type => Ok ("CAST(NULL AS " +:+ col_type +:+ ") AS " +:+ f_name f)
  | Err e => Err (ConnectionFailed ("Unsupported type for '" +:+ f_name f +:+ "': " +:+ e))
  end.

Definition schema_macro (dataset_id : string) (columns : list string) : string :=
  "CREATE OR REPLACE MACRO scan_" +:+ dataset_id +:+ "(start_date, end_date) AS TABLE (SELECT " +:+
  String.concat ", " columns +:+ " WHERE FALSE)".

Definition register_dataset_schema (conn : Db) (dataset_id : string) (fields : list Field)
    : Db * result unit CoordinatorError :=
  match collect_results schema_column fields with
  | Err e => (conn, Err e)
  | Ok columns =>
      match execute conn (schema_macro dataset_id columns) with
      | (conn, Ok _) => (conn, Ok tt)
      | (conn, Err e) =>
          (conn, Err (ConnectionFailed ("Failed to register schema for dataset '" +:+ dataset_id +:+ "': " +:+ e)))
      end
  end.
End schema.

(** ** What an answer is *)

Section sound.
Context `{Std} `{HashOrder} `{Arrow RecordBatch Schema} `{!Backend E RecordBatch}.
Context `{SqlDisplay} `{SqlParser} `{SqlDebug} `{NaiveDateOps} {M : Type} `{Metadata M}.
Context (run_stage : Stage -> gmap string (list RecordBatch) -> result (list RecordBatch) StageExecutionError).
Context (generate_stage_sql : LogicalPlan -> PlanContext -> string) (to_lowercase : string -> string) (fuel : nat).
Context (iter_order : gmap string (gset string) -> list (string * gset string)).

(** One query whose ORDER BY clauses are over SELECTs and whose stages fit the
    identifiers. *)
Definition plannable (metadata : M) (policy : PlannerPolicy) (sql : string) : Prop :=
  exists q, parse_statements sql = Ok [StQuery q] /\ sorts_selects q = true /\
    forall b, build_logical_plan to_lowercase fuel (StQuery q) = Ret (Ok b) -> stages_fit metadata policy (br_plan b).

Lemma planned_streamable metadata policy sql query p :
  plannable metadata policy sql ->
  plan_ldp generate_stage_sql to_lowercase fuel sql metadata policy query = Ret (Ok p) -> streamable p.
Proof.
  intros (q & Hparse & Hs & Hfit). unfold plan_ldp, parse_sql. rewrite Hparse.
  destruct (build_logical_plan _ _ _) as [[b|x]| |] eqn:Hb; [|done..]. unfold plan_with_context.
  destruct (annotate_logical_plan metadata policy (br_plan b)) as [t|x] eqn:Ht; [|done].
  pose proof (Hfit b eq_refl t Ht) as Hr. pose proof (built_cuttable to_lowercase fuel q b Hs Hb) as Hc.
  unfold annotate_logical_plan in Ht. apply annotate_recursive_enforced in Ht as (Hp & _ & He).
  assert (Hsh : shaped t = true) by (eapply enforced_shaped; [done|congruence]).
  destruct (cut_into_stages _ _ _ _ _) as [p'| |] eqn:Hcut; [|done..]. intros [= <-]. by eapply cut_streamable.
Qed.

End sound.

(** ** Streaming sees no tables *)

Section empty_database.
Context `{Std} `{Arrow RecordBatch Schema} `{HashOrder} `{!SchemaFields Schema} `{!DuckDb Db Appender RecordBatch}
  `{!DuckQuery Db RecordBatch Schema} `{!Backend E RecordBatch}.
Context (with_causes : string -> string) (call : list nat) (open_in_memory : result Db string).

Abbreviation stream_stage := (execute_stage_batches with_causes call open_in_memory).

Lemma run_in_order_each (run_stage : Stage -> gmap string (list RecordBatch) -> result (list RecordBatch) StageExecutionError) l :
  forall outs outs' w, run_in_order run_stage l outs = Ok outs' -> w ∈ l -> wd_inputs w = ∅ ->
    exists bs, run_stage (wd_stage w) ∅ = Ok bs.
Proof.
  induction l as [|v l IH]; intros outs outs' w Hr Hw Hi; [by apply not_elem_of_nil in Hw|]. simpl in Hr.
  destruct (run_stage (wd_stage v) _) as [bs|x] eqn:Hv; [|done]. apply elem_of_cons in Hw as [->|Hw]; [|by eapply IH].
  exists bs. unfold stage_inputs in Hv. by rewrite Hi, fmap_empty in Hv.
Qed.

(** when a stage without exchange inputs needs a table that a new
    database does not have, the streaming pipeline cannot answer: once it is
    over, the plan is run again in batches, as if streaming were disabled. *)
Theorem streaming_falls_back cfg plan query sc (e : E) c r s :
  streamable plan -> cc_distributed cfg = false ->
  s ∈ stages plan -> has_exchange_inputs s = false -> stage_sql s <> EmptyString ->
  (forall db, open_in_memory = Ok db -> exists x, db_prepare db (stage_sql s) = Err x) ->
  execute_plan stream_stage cfg plan query sc e c = Some r ->
  execute_batch cfg plan query sc e c = Some r.
Proof.
  intros Hst Hd Hs Hni Hsql Hdb. unfold execute_plan. destruct (enable_streaming_pipeline _); [|done].
  destruct (execute_pipelined _ _ _ _ _) as [[r'|x]|] eqn:Hp; [|done..]. exfalso.
  apply streaming_in_order in Hp; [|done|done]. unfold in_order_result, sequential_answer in Hp.
  destruct (run_in_order _ _ _) as [outs|x] eqn:Hr; [|done].
  destruct (run_in_order_each _ _ _ _ (wired_of plan s) Hr) as (bs & Hbs).
  - by apply (list_elem_of_fmap_2 (wired_of plan)).
  - simpl. unfold has_exchange_inputs, is_exchange_input in Hni. clear -Hni. induction (inputs s) as [|[|x t] l IH]; simpl in *; [done|by apply IH|done].
  - simpl in Hbs. unfold execute_stage_batches in Hbs. rewrite bool_decide_false in Hbs by done.
    destruct open_in_memory as [db|x]; [|done]. destruct (Hdb db eq_refl) as (x & Hx). unfold run_sql_with_inputs in Hbs.
    rewrite map_to_list_empty in Hbs. pose proof (map_order_perm call _ ([] : list (string * list RecordBatch))) as Hm.
    symmetry in Hm. apply Permutation_nil in Hm. rewrite Hm in Hbs. simpl in Hbs. unfold query_stage in Hbs. by rewrite Hx in Hbs.
Qed.
End empty_database.

(** ** The macro's columns *)

(** Column names are not quoted: a dataset with one column of an odd name has
    the macro of a dataset with two columns. *)
Theorem schema_macro_unquoted `{Std} dataset_id :
  (let? cs := collect_results schema_column [mkField "a, CAST(NULL AS BIGINT) AS b" Int64 true] in Ok (schema_macro dataset_id cs)) =
  (let? cs := collect_results schema_column [mkField "a" Int64 true; mkField "b" Int64 true] in Ok (schema_macro dataset_id cs)).
Proof. reflexivity. Qed.

(** ** Concrete queries *)

#[local] Existing Instance demo_std.
#[local] Existing Instance demo_order.
#[local] Existing Instance Table.arrow.
#[local] Existing Instance MemDb.duckdb.
#[local] Existing Instance MemDb.fields_of.
#[local] Existing Instance InMemory.metadata.
#[local] Existing Instance demo_display.
#[local] Existing Instance demo_debug.
#[local] Existing Instance Civil.ops.

#[local] Instance recent_parser : SqlParser := {|
  parse_statements _ := Ok [StQuery recent_query];
  display_statement _ := "";
|}.

(** A worker's database with one table, and a stage that scans it. *)
Definition scan_plan : LdpPlan := mkPlan "q" "w1" [mkStage 0 ["w1"] [LocalCatalog] Stream "SELECT * FROM sales_e1" StageLimits_default] [] 0.

Definition answer_on (db : option MemDb.db) (sql : string) (ins : gmap string (list Table.t))
    : result (list Table.t) StageExecutionError :=
  match db with Some db => (run_sql_with_inputs (fun e => e) [] db sql ins).2 | None => Err (ExecutionFailed "no database") end.

#[local] Instance scan_backend : Backend (LocalStageExecutor (RecordBatch := Table.t) (Database := MemDb.db)) Table.t :=
  local_backend answer_on pretty.

Definition streaming_config : CoordinatorConfig :=
  cc_with_policy CoordinatorConfig_default (with_streaming_pipeline conservative true).

Definition scan_schedule : Schedule :=
  mkSchedule [BgStep 0; BgStep 0; FwStep 0] []
    [[OnTask 0 (StartStage 0); OnTask 0 (ResolveInputs []); OnTask 0 (SubmitOnce [] 0 (fun _ => 1))]] 2.

Definition scan_executor := with_databases (RecordBatch := Table.t) ({[ "w1" := demo_main ]} : gmap WorkerId MemDb.db).

Lemma scan_streamable : streamable scan_plan.
Proof. split_and!; [split_and!; [reflexivity..|constructor]|by repeat constructor|by repeat constructor|done]. Qed.

(** The answer in short: the rows and the workers. *)
Definition rows_of_answer {E S} (o : outcome (result (list Table.t * list WorkerId) CoordinatorError * E * S))
    : option (list (list Row) * list WorkerId) :=
  match o with Ret (Ok (bs, ws), _, _) => Some (map rows bs, ws) | _ => None end.

(** The stream fails on the empty database; the batch execution answers. *)
Lemma streaming_falls_back_witness :
  (execute_batch streaming_config scan_plan "q" scan_schedule scan_executor LdpCoordinator_new ≫= rows_of_answer) =
    Some ([[[Some (VInt 7)]]], ["w1"]).
Proof.
  set (run := execute_plan (execute_stage_batches (fun e => e) [] (Ok (∅ : MemDb.db))) streaming_config scan_plan "q"
    scan_schedule scan_executor LdpCoordinator_new).
  assert (Ha : run ≫= rows_of_answer = Some ([[[Some (VInt 7)]]], ["w1"])) by (vm_compute; reflexivity).
  rewrite <- Ha. destruct run as [r|] eqn:Hr; [|discriminate Ha].
  rewrite (streaming_falls_back (fun e => e) [] (Ok (∅ : MemDb.db)) streaming_config scan_plan "q" scan_schedule scan_executor
    LdpCoordinator_new r (mkStage 0 ["w1"] [LocalCatalog] Stream "SELECT * FROM sales_e1" StageLimits_default)).
  - reflexivity.
  - exact scan_streamable.
  - reflexivity.
  - left.
  - reflexivity.
  - discriminate.
  - intros db [= <-]. exists "Catalog Error". reflexivity.
  - exact Hr.
Defined.

(** WITH recent AS (SELECT * FROM sales WHERE flag) SELECT r.id FROM Recent r
    JOIN items i ON r.item = i.id, answered by the streaming pipeline. *)
Definition echo_stage (s : Stage) (ins : gmap string (list Table.t)) : result (list Table.t) StageExecutionError :=
  Ok (if decide (ins = ∅) then [demo_small] else concat (map snd (map_to_list ins))).

Definition recent_ldp : LdpPlan :=
  Eval vm_compute in
    match plan_ldp generate_stage_sql ascii_lowercase 1 "WITH ..." InMemory.new (cc_planner_policy streaming_config) "q1" with
    | Ret (Ok p) => p
    | _ => LdpPlan_new "" ""
    end.

Definition turns (run_stage : Stage -> gmap string (list Table.t) -> result (list Table.t) StageExecutionError) (n : nat) (plan : LdpPlan)
    : list PipeAction :=
  let fix go n st :=
    match n with
    | O => []
    | S n =>
        match find (fun a => bool_decide (is_Some (pstep run_stage 2 st a)))
                (CollectResult :: flat_map (fun i => [BgStep i; FwStep i]) (seq 0 (length (stages plan)))) with
        | Some a => match pstep run_stage 2 st a with Some st' => a :: go n st' | None => [] end
        | None => []
        end
    end in go n (start_pipeline (map (wired_of plan) (stages plan))).

Definition recent_turns : list PipeAction := Eval vm_compute in turns echo_stage 100 recent_ldp.

Definition recent_schedule : Schedule := mkSchedule recent_turns [] [] 0.

Lemma recent_plannable tr : transform SqlTransformer_new "WITH ..." = Ok tr ->
  plannable ascii_lowercase 1 InMemory.new (cc_planner_policy streaming_config) (transformed_sql tr).
Proof.
  intros _. exists recent_query. split; [reflexivity|]. split; [vm_compute; reflexivity|].
  intros b Hb t Ht. vm_compute in Hb. injection Hb as <-. vm_compute in Ht. injection Ht as <-. vm_compute. reflexivity.
Qed.

Abbreviation recent_run := (execute_query_with_id echo_stage generate_stage_sql ascii_lowercase 1 list_order streaming_config
  SqlTransformer_new InMemory.new Z.of_nat false (scan_executor, LdpCoordinator_new) "WITH ..." "q1" recent_schedule
  scan_executor LdpCoordinator_new).

