(* ===== verification/QueryEngine.v ===== *)
(** * The query engine (engine/query_engine.rs,
    engine/duckdb/query_engine_impl.rs, and the configuration of
    engine/duckdb/mod.rs)

    A query runs in a blocking task that sends its batches through a bounded
    channel; a supervisor waits for the task, up to the timeout, and sends the
    error.  The three parties are a step relation: the task, the supervisor and
    the reader of the stream.  What DuckDB answers is a class. *)

From stdpp Require Import pretty.
From S2P Require Import Prelude Arrow DuckDb EpochEngine StageSql.

#[local] Open Scope Z_scope.

(** ** Errors *)

Inductive QueryError :=
| QE_Timeout (secs : Z)
| QE_DuckDB (msg : string)
| QE_Sql (msg : string)
| QE_TableNotFound (table : string)
| QE_TenantValidation (msg : string)
| QE_Internal (msg : string).

#[export] Instance QueryError_eq_dec : EqDecision QueryError.
Proof. solve_decision. Defined.

Definition QueryError_display (e : QueryError) : string :=
  match e with
  | QE_Timeout secs => "query timeout after " +:+ pretty secs +:+ "s"
  | QE_DuckDB m => "DuckDB error: " +:+ m
  | QE_Sql m => "SQL syntax error: " +:+ m
  | QE_TableNotFound t => "table not found: " +:+ t
  | QE_TenantValidation m => "tenant validation failed: " +:+ m
  | QE_Internal m => "internal error: " +:+ m
  end.

(** [full_msg] is the error with its causes, [msg] without. *)
Definition classify_anyhow_error (full_msg msg table_name : string) : QueryError :=
  if str_contains full_msg "does not exist" || str_contains full_msg "not found" ||
     str_contains full_msg "Table with name" || str_contains full_msg "Catalog Error"
  then QE_TableNotFound table_name
  else if str_contains full_msg "Out of Memory" || str_contains full_msg "failed to allocate"
  then QE_DuckDB ("Out of memory: " +:+ full_msg)
  else QE_DuckDB msg.

Definition classify_duckdb_error (msg : string) : QueryError :=
  if str_contains msg "Out of Memory" || str_contains msg "failed to allocate" then QE_DuckDB ("Out of memory: " +:+ msg)
  else if str_contains msg "syntax error" || str_contains msg "Parser Error" || str_contains msg "Syntax Error"
  then QE_Sql msg
  else QE_DuckDB msg.

(** What a client of an engine uses. *)
Class QueryEngine (Q RecordBatch Schema : Type) := {
  qe_table_schema : Q -> string -> result Schema QueryError;
  qe_execute_query : Q -> string -> option Z -> option Z -> result (list (result RecordBatch QueryError)) QueryError;
}.

(** ** Configuration *)

Record DuckDBConfig := mkDuckDBConfig {
  cfg_memory_limit_mb : option Z; cfg_flush_rows_threshold : Z; cfg_channel_capacity : Z; cfg_tmp_dir : option string;
  cfg_max_identifiers : Z; cfg_pool_size : Z; cfg_max_pool_size : Z;
}.

Definition DuckDBConfig_default : DuckDBConfig := mkDuckDBConfig (Some 1024) 10000 100 None 1000 32 128.

Definition with_pool_size (c : DuckDBConfig) (size : Z) : DuckDBConfig :=
  mkDuckDBConfig (cfg_memory_limit_mb c) (cfg_flush_rows_threshold c) (cfg_channel_capacity c) (cfg_tmp_dir c)
    (cfg_max_identifiers c) (Z.min size (cfg_max_pool_size c)) (cfg_max_pool_size c).

Definition config_with_memory_limit (c : DuckDBConfig) (limit_mb : Z) : DuckDBConfig :=
  mkDuckDBConfig (Some limit_mb) (cfg_flush_rows_threshold c) (cfg_channel_capacity c) (cfg_tmp_dir c)
    (cfg_max_identifiers c) (cfg_pool_size c) (cfg_max_pool_size c).

(** The sizes the connection pool is built with. *)
Definition pool_sizes (c : DuckDBConfig) : Z * Z :=
  let pool_size := Z.min (cfg_pool_size c) (cfg_max_pool_size c) in (pool_size, Z.max (Z.quot pool_size 2) 1).

(** ** Tables *)

Class DuckCatalog (Db : Type) := {
  db_count : Db -> string -> result Z QueryFailure;
  db_table_names : Db -> result (list string) QueryFailure;
}.

(** SQL's [LIKE]: a percent sign is any text, an underscore any character. *)
Fixpoint like (fuel : nat) (pattern s : string) : bool :=
  match fuel with
  | O => false
  | S fuel =>
      match pattern with
      | EmptyString => bool_decide (s = EmptyString)
      | String c p =>
          if bool_decide (c = Ascii.ascii_of_nat 37) then
            like fuel p s || match s with EmptyString => false | String _ s' => like fuel pattern s' end
          else
            match s with
            | EmptyString => false
            | String d s' => (bool_decide (c = Ascii.ascii_of_nat 95) || bool_decide (c = d)) && like fuel p s'
            end
      end
  end.

Definition sql_like (pattern s : string) : bool := like (S (String.length pattern + String.length s)) pattern s.

Section tables.
Context `{Std} `{SchemaFields Schema} `{DuckDb Db Appender RecordBatch} `{!DuckCatalog Db}.
Context (to_uppercase : string -> string) (with_causes : string -> string).

(** [pool] is the answer of the connection pool. *)
Definition on_connection {A} (pool : result Db string) (k : Db -> result A QueryError) : result A QueryError :=
  match pool with
  | Err e => Err (QE_Internal ("failed to get pooled connection: " +:+ e))
  | Ok conn => k conn
  end.

Definition classified {A} (table_name : string) (r : result A string) : result A QueryError :=
  match r with Ok a => Ok a | Err e => Err (classify_anyhow_error (with_causes e) e table_name) end.

Definition get_table_schema (pool : result Db string) (table_name : string) : result Schema QueryError :=
  on_connection pool (fun conn => classified table_name (query_table_schema to_uppercase conn table_name)).

(** [count as u64]. *)
Definition query_table_row_count (conn : Db) (table_name : string) : result Z string :=
  match db_count conn table_name with
  | Ok count => Ok (wrap64 count)
  | Err (PrepareFailed _) => Err ("Failed to prepare COUNT query for " +:+ table_name)
  | Err (RunFailed _) | Err (RowsFailed _) => Err ("Failed to execute COUNT query for " +:+ table_name)
  end.

Definition get_table_metadata (now : Z) (pool : result Db string) (table_name : string)
    : result (TableMetadata Schema) QueryError :=
  on_connection pool (fun conn =>
    let? schema := classified table_name (query_table_schema to_uppercase conn table_name) in
    let? total_rows := classified table_name (query_table_row_count conn table_name) in
    let total_bytes := match query_table_size conn table_name with
                       | Ok n => n
                       | Err _ => estimate_table_bytes total_rows (schema_fields schema)
                       end in
    Ok (mkTableMetadata table_name total_rows total_bytes now schema)).

(** The names are matched by [LIKE] against the dataset and two underscores. *)
Definition list_tables (pool : result Db string) (dataset_id : string) : result (list string) QueryError :=
  let prefix := dataset_id +:+ "__%" in
  on_connection pool (fun conn =>
    match db_table_names conn with
    | Err (PrepareFailed e) => Err (QE_Internal ("failed to query tables: " +:+ e))
    | Err (RunFailed e) => Err (QE_Internal ("failed to execute tables query: " +:+ e))
    | Err (RowsFailed e) => Err (QE_Internal ("failed to collect tables: " +:+ e))
    | Ok names => Ok (List.filter (sql_like prefix) names)
    end).
End tables.

(** ** Executing a query *)

Section stream.
Context {Db RecordBatch Schema : Type} `{!DuckQuery Db RecordBatch Schema}.
Abbreviation BatchResult := (result RecordBatch QueryError).

Definition DEFAULT_QUERY_TIMEOUT_SECS : Z := 300.
Definition stream_capacity : nat := 100.

(** The blocking task sends its batches, sends an error of its own, or has
    returned; the supervisor waits, has an error to send, or has ended. *)
Inductive Blocking :=
| Sending (todo : list RecordBatch)
| Failing (e : QueryError)
| Returned (r : result unit QueryError).

Inductive Supervisor := Waiting | Reporting (e : QueryError) | Ended.

Record QueryRun := mkRun {
  blocking : Blocking;
  supervisor : Supervisor;
  channel : list BatchResult;
  delivered : list BatchResult;
  reader : bool;
  interrupted : bool;
  timeout_secs : Z;
}.

(** The task after it has asked the pool for a connection and prepared the
    query. *)
Definition start_blocking (pool : result Db string) (sql : string) : Blocking :=
  match pool with
  | Err e => Failing (QE_Internal ("failed to get pooled connection: " +:+ e))
  | Ok conn =>
      match db_prepare conn sql with
      | Err e => Failing (classify_duckdb_error e)
      | Ok _ =>
          match db_query_arrow conn sql with
          | Err e => Failing (classify_duckdb_error e)
          | Ok r => Sending r.2
          end
      end
  end.

Definition execute_query (pool : result Db string) (sql : string) (timeout : option Z) : QueryRun :=
  mkRun (start_blocking pool sql) Waiting [] [] true false (default DEFAULT_QUERY_TIMEOUT_SECS timeout).

Definition set_blocking (q : QueryRun) (b : Blocking) : QueryRun :=
  mkRun b (supervisor q) (channel q) (delivered q) (reader q) (interrupted q) (timeout_secs q).

Definition set_supervisor (q : QueryRun) (s : Supervisor) (i : bool) : QueryRun :=
  mkRun (blocking q) s (channel q) (delivered q) (reader q) i (timeout_secs q).

(** A message enters the channel, or is lost when the reader is gone. *)
Definition push (q : QueryRun) (m : BatchResult) : QueryRun :=
  if reader q then
    mkRun (blocking q) (supervisor q) (channel q ++ [m]) (delivered q) true (interrupted q) (timeout_secs q)
  else q.

Definition has_room (q : QueryRun) : bool := negb (reader q) || bool_decide (length (channel q) < stream_capacity)%nat.

(** [SlowReader]: the channel was full for five seconds. *)
Inductive QueryAction := Send | SlowReader | InterruptedEnd | Supervise | TimeUp | Read | CloseReader.

Definition qstep (q : QueryRun) (a : QueryAction) : option QueryRun :=
  match a with
  | Send =>
      match blocking q with
      | Sending [] => Some (set_blocking q (Returned (Ok tt)))
      | Sending (b :: todo) =>
          if negb (reader q) then Some (set_blocking q (Returned (Ok tt)))
          else if has_room q then Some (push (set_blocking q (Sending todo)) (Ok b)) else None
      | Failing e => if has_room q then Some (push (set_blocking q (Returned (Err e))) (Err e)) else None
      | Returned _ => None
      end
  | SlowReader =>
      match blocking q with
      | Sending (_ :: _) => if has_room q then None else Some (set_blocking q (Returned (Ok tt)))
      | _ => None
      end
  | InterruptedEnd =>
      match blocking q with
      | Sending _ => if interrupted q then Some (set_blocking q (Returned (Ok tt))) else None
      | _ => None
      end
  | Supervise =>
      match supervisor q, blocking q with
      | Waiting, Returned (Ok _) => Some (set_supervisor q Ended (interrupted q))
      | Waiting, Returned (Err e) => Some (set_supervisor q (Reporting e) (interrupted q))
      | Reporting e, _ => if has_room q then Some (push (set_supervisor q Ended (interrupted q)) (Err e)) else None
      | _, _ => None
      end
  | TimeUp =>
      match supervisor q, blocking q with
      | Waiting, (Sending _ | Failing _) => Some (set_supervisor q (Reporting (QE_Timeout (timeout_secs q))) true)
      | _, _ => None
      end
  | Read =>
      match channel q with
      | m :: rest =>
          if reader q then
            Some (mkRun (blocking q) (supervisor q) rest (delivered q ++ [m]) true (interrupted q) (timeout_secs q))
          else None
      | [] => None
      end
  | CloseReader => Some (mkRun (blocking q) (supervisor q) [] (delivered q) false (interrupted q) (timeout_secs q))
  end.

Fixpoint qrun (q : QueryRun) (l : list QueryAction) : option QueryRun :=
  match l with [] => Some q | a :: l => q' ← qstep q a; qrun q' l end.

(** The reader sees the end of the stream when all senders are gone. *)
Definition stream_ended (q : QueryRun) : bool :=
  match blocking q, supervisor q, channel q with Returned _, Ended, [] => true | _, _, _ => false end.
End stream.

(** ** What the reader gets *)

Section complete.
Context {Db RecordBatch Schema : Type} `{!DuckQuery Db RecordBatch Schema}.
Abbreviation run := (@QueryRun RecordBatch).
Abbreviation message := (result RecordBatch QueryError).

(** The batches and the errors among messages. *)
Definition batches_of (l : list message) : list RecordBatch :=
  omap (fun m : message => match m with Ok b => Some b | Err _ => None end) l.
Definition errors_of (l : list message) : list QueryError :=
  omap (fun m : message => match m with Ok _ => None | Err e => Some e end) l.

Lemma batches_of_app l l' : batches_of (l ++ l') = batches_of l ++ batches_of l'.
Proof. apply omap_app. Qed.
Lemma errors_of_app l l' : errors_of (l ++ l') = errors_of l ++ errors_of l'.
Proof. apply omap_app. Qed.

Lemma all_batches (l : list message) : errors_of l = [] -> l = map Ok (batches_of l).
Proof. induction l as [|[b|e] l IH]; simpl; [done| |done]. intros Hl. by rewrite <- IH. Qed.

(** The messages sent so far. *)
Definition sent (q : run) : list message := delivered q ++ channel q.

(** What a step does: the reader takes a message or closes the stream;
    otherwise one message at most is added, and it is an error or the next
    batch of the task. *)
Inductive sends : run -> run -> Prop :=
| sends_nothing q q' : sent q' = sent q -> reader q' = reader q ->
    (forall todo, blocking q' = Sending todo -> blocking q = Sending todo) -> sends q q'
| sends_error q q' e : sent q' = sent q ++ [Err e] -> reader q' = reader q ->
    (forall todo, blocking q' = Sending todo -> blocking q = Sending todo) -> sends q q'
| sends_batch q q' b todo : sent q' = sent q ++ [Ok b] -> reader q = true -> reader q' = true ->
    blocking q = Sending (b :: todo) -> blocking q' = Sending todo -> sends q q'
| sends_close q q' : delivered q' = delivered q -> channel q' = [] -> reader q' = false -> sends q q'.

Lemma push_sent (q : run) m : reader q = true -> sent (push q m) = sent q ++ [m] /\ reader (push q m) = true /\
  blocking (push q m) = blocking q /\ supervisor (push q m) = supervisor q /\ interrupted (push q m) = interrupted q /\
  timeout_secs (push q m) = timeout_secs q.
Proof. intros Hr. unfold push, sent. rewrite Hr. simpl. split_and!; try done. by rewrite app_assoc. Qed.

Lemma push_lost (q : run) m : reader q = false -> push q m = q.
Proof. intros Hr. unfold push. by rewrite Hr. Qed.

Lemma push_error (q q1 : run) e : sent q1 = sent q -> reader q1 = reader q ->
  (forall todo, blocking q1 = Sending todo -> blocking q = Sending todo) -> sends q (push q1 (Err e)).
Proof.
  intros Hs Hr Hb. destruct (reader q1) eqn:Hr1.
  - destruct (push_sent q1 (Err e) Hr1) as (Hs' & Hr' & Hb' & _). eapply sends_error; [by rewrite Hs', Hs|congruence|].
    by rewrite Hb'.
  - rewrite push_lost by done. by apply sends_nothing; [|congruence|].
Qed.

Lemma qstep_sends (q q' : run) a : qstep q a = Some q' -> sends q q'.
Proof.
  destruct a; simpl.
  - destruct (blocking q) as [[|b todo]|e|r] eqn:Hb; [| | |done].
    + intros [= <-]. by apply sends_nothing.
    + destruct (reader q) eqn:Hr; simpl; [|intros [= <-]; by apply sends_nothing].
      destruct (has_room q); [|done]. intros [= <-].
      destruct (push_sent (set_blocking q (Sending todo)) (Ok b) Hr) as (Hs & Hr' & Hb' & _). by eapply sends_batch.
    + destruct (has_room q); [|done]. intros [= <-]. by apply push_error.
  - destruct (blocking q) as [[|b todo]|e|r]; [done| |done|done]. destruct (has_room q); [done|]. intros [= <-]. by apply sends_nothing.
  - destruct (blocking q) as [todo|e|r]; [|done|done]. destruct (interrupted q); [|done]. intros [= <-]. by apply sends_nothing.
  - destruct (supervisor q) as [|e|]; [destruct (blocking q) as [| |[|]] eqn:Hb; try done| |done].
    + intros [= <-]. by apply sends_nothing.
    + intros [= <-]. by apply sends_nothing.
    + destruct (has_room q); [|done]. intros [= <-]. by apply push_error.
  - destruct (supervisor q) as [|e|]; [|done|done]. destruct (blocking q) as [| |] eqn:Hb; [| |done]; intros [= <-]; by apply sends_nothing.
  - destruct (channel q) as [|m rest] eqn:Hc; [done|]. destruct (reader q) eqn:Hr; [|done]. intros [= <-].
    apply sends_nothing; [|done|done]. unfold sent. simpl. by rewrite Hc, <- app_assoc.
  - intros [= <-]. by apply sends_close.
Qed.

Definition sends_prefix (bs : list RecordBatch) (q : run) : Prop :=
  exists rest, bs = batches_of (sent q) ++ rest /\
    (reader q = true -> forall todo, blocking q = Sending todo -> rest = todo).

Lemma sends_keep_prefix bs (q q' : run) : sends q q' -> sends_prefix bs q -> sends_prefix bs q'.
Proof.
  intros Hs (rest & Hbs & Hrest). unfold sends_prefix.
  destruct Hs as [q q' Hs Hr Hb|q q' e Hs Hr Hb|q q' b todo Hs Hr Hr' Hb Hb'|q q' Hd Hc Hr].
  - exists rest. rewrite Hs, Hr. split; [done|]. auto.
  - exists rest. rewrite Hs, Hr, batches_of_app. simpl. rewrite app_nil_r. split; [done|]. auto.
  - exists todo. rewrite Hs, batches_of_app, <- app_assoc. simpl. rewrite <- (Hrest Hr _ Hb). split; [done|].
    intros _ todo'. rewrite Hb'. by intros [= ->].
  - exists (batches_of (channel q) ++ rest). unfold sent in *. rewrite Hd, Hc, app_nil_r, app_assoc, <- batches_of_app.
    split; [done|]. by rewrite Hr.
Qed.

Lemma qrun_prefix bs l : forall (q q' : run), qrun q l = Some q' -> sends_prefix bs q -> sends_prefix bs q'.
Proof.
  induction l as [|a l IH]; intros q q'; simpl; [by intros [= <-]|]. destruct (qstep q a) as [q1|] eqn:E; [|done]. simpl.
  intros Hr Hp. eapply IH; [exact Hr|]. by eapply sends_keep_prefix; [eapply qstep_sends|].
Qed.

(** The state of a query that answers, while its reader keeps up. *)
Record attended (bs : list RecordBatch) (q : run) : Prop := {
  at_reader : reader q = true;
  at_blocking : match blocking q with
                | Sending todo => batches_of (sent q) ++ todo = bs
                | Returned (Ok _) => batches_of (sent q) = bs \/ interrupted q = true
                | _ => False
                end;
  at_supervisor : match supervisor q with
                  | Waiting => interrupted q = false /\ errors_of (sent q) = []
                  | Reporting e => interrupted q = true /\ errors_of (sent q) = [] /\ e = QE_Timeout (timeout_secs q)
                  | Ended => if interrupted q then errors_of (sent q) = [QE_Timeout (timeout_secs q)]
                             else errors_of (sent q) = []
                  end;
}.

Definition keeps_up (a : QueryAction) : Prop := a <> SlowReader /\ a <> CloseReader.

Lemma qstep_attended bs (q q' : run) a : keeps_up a -> qstep q a = Some q' -> attended bs q ->
  attended bs q' /\ timeout_secs q' = timeout_secs q.
Proof.
  intros [Hns Hnc] Hstep [Hr Hb Hs]. destruct a; simpl in Hstep; try done.
  - destruct (blocking q) as [[|b todo]|e|[[]|e]] eqn:Eb; try done.
    + injection Hstep as <-. split; [|done]. split; simpl; [done| |done]. left. by rewrite app_nil_r in Hb.
    + rewrite Hr in Hstep. simpl in Hstep. destruct (has_room q); [|done]. injection Hstep as <-.
      destruct (push_sent (set_blocking q (Sending todo)) (Ok b) Hr) as (Hs' & Hr' & Hb' & Hu' & Hi' & Ht').
      split; [|done]. split; [done| |].
      * rewrite Hb'. simpl. rewrite Hs', batches_of_app, <- app_assoc. exact Hb.
      * rewrite Hu', Hi', Hs', Ht', errors_of_app. simpl. rewrite app_nil_r. exact Hs.
  - destruct (blocking q) as [todo|e|r] eqn:Eb; try done. destruct (interrupted q) eqn:Ei; [|done]. injection Hstep as <-.
    split; [|done]. split; simpl; [done|by right|]. by rewrite Ei.
  - destruct (supervisor q) as [|e|] eqn:Es; [| |done].
    + destruct (blocking q) as [todo|e|[[]|e]] eqn:Eb; try done. injection Hstep as <-. destruct Hs as [Hi He].
      split; [|done]. split; simpl; [done|by rewrite Eb|]. by rewrite Hi.
    + destruct (has_room q); [|done]. injection Hstep as <-. destruct Hs as (Hi & He & ->).
      destruct (push_sent (set_supervisor q Ended (interrupted q)) (Err (QE_Timeout (timeout_secs q))) Hr)
        as (Hs' & Hr' & Hb' & Hu' & Hi' & Ht').
      split; [|done]. split; [done| |].
      * rewrite Hb', Hs', Hi', batches_of_app. simpl. rewrite app_nil_r. exact Hb.
      * rewrite Hu', Hi', Hs', Ht', errors_of_app. simpl. change (sent (set_supervisor q Ended (interrupted q))) with (sent q).
        by rewrite Hi, He.
  - destruct (supervisor q) as [|e|] eqn:Es; try done. destruct Hs as [Hi He].
    destruct (blocking q) as [todo|e|r] eqn:Eb; try done. injection Hstep as <-.
    split; [|done]. split; simpl; [done| |done]. by rewrite Eb.
  - destruct (channel q) as [|m rest] eqn:Hc; [done|]. rewrite Hr in Hstep. injection Hstep as <-.
    assert (Hsent : forall b s c d r i t, sent (mkRun b s c d r i t) = d ++ c) by done.
    split; [|done]. unfold sent in Hb, Hs. rewrite Hc in Hb, Hs. split; simpl; [done| |];
      unfold sent; simpl; rewrite <- app_assoc; simpl; done.
Qed.

Lemma qrun_attended bs l : forall (q q' : run), Forall keeps_up l -> qrun q l = Some q' -> attended bs q ->
  attended bs q' /\ timeout_secs q' = timeout_secs q.
Proof.
  induction l as [|a l IH]; intros q q' Hl; simpl; [by intros [= <-]|]. inversion Hl as [|? ? Ha Hl']; subst.
  destruct (qstep q a) as [q1|] eqn:E; [|done]. simpl. intros Hr Hat.
  destruct (qstep_attended bs q q1 a Ha E Hat) as [Hat1 Ht1]. destruct (IH q1 q' Hl' Hr Hat1) as [Hat' Ht']. split; [done|congruence].
Qed.

(** C25: the stream of a query that answers is always a prefix of its batches,
    in their order, whatever the task, the supervisor and the reader do.  When
    the stream ends and the reader kept up, it was all of the batches, or the
    last error is the timeout. *)
Theorem query_stream_complete (conn : Db) (sql : string) (timeout : option Z) (s : Schema) (bs : list RecordBatch)
    (l : list QueryAction) (q : run) :
  db_prepare conn sql = Ok tt -> db_query_arrow conn sql = Ok (s, bs) ->
  qrun (execute_query (Ok conn) sql timeout) l = Some q ->
  batches_of (delivered q) `prefix_of` bs /\
  (stream_ended q = true -> Forall keeps_up l ->
     delivered q = map Ok bs \/
     errors_of (delivered q) = [QE_Timeout (default DEFAULT_QUERY_TIMEOUT_SECS timeout)]).
Proof.
  intros Hp Hq Hrun. assert (Hstart : execute_query (RecordBatch := RecordBatch) (Ok conn) sql timeout =
    mkRun (Sending bs) Waiting [] [] true false (default DEFAULT_QUERY_TIMEOUT_SECS timeout)).
  { unfold execute_query. simpl. by rewrite Hp, Hq. }
  rewrite Hstart in Hrun. split.
  - apply (qrun_prefix bs) in Hrun as (rest & -> & _).
    + unfold sent. rewrite batches_of_app, <- app_assoc. by apply prefix_app_r.
    + exists bs. split; [done|]. by intros _ todo [= ->].
  - intros Hend Hl. eapply (qrun_attended bs) in Hrun as [[Hr Hb Hs] Ht]; [| |by split].
    2: exact Hl. unfold stream_ended in Hend.
    destruct (blocking q) as [| |r]; try done. destruct (supervisor q); try done. destruct (channel q) as [|m c] eqn:Ec; [|done].
    unfold sent in Hb, Hs. rewrite Ec, app_nil_r in Hb, Hs. simpl in Ht. destruct (interrupted q).
    + right. by rewrite Hs, Ht.
    + left. destruct r as [[]|e]; [|done]. destruct Hb as [<-|]; [|done]. by apply all_batches.
Qed.
End complete.

(** ** Examples *)

#[local] Existing Instance Table.arrow.
#[local] Existing Instance MemDb.duckdb.
#[local] Existing Instance demo_std.

(** Three batches whatever the query. *)
#[local] Instance three_batches : DuckQuery unit Table.t (list (string * DataType)) := {|
  db_prepare _ sql := if String.eqb sql "bad" then Err "Parser Error: syntax error" else Ok tt;
  db_query_arrow _ _ := Ok ([("id", Int64)], [id_batch [1]; id_batch [2]; id_batch [3]]);
|}.

Definition demo_run (sql : string) : @QueryRun Table.t := execute_query (Ok tt) sql (Some 30).

Lemma query_stream_complete_witness :
  exists q, qrun (demo_run "q") [Send; Read; Send; Send; Read; Read; Send; Supervise] = Some q /\
    stream_ended q = true /\
    batches_of (delivered q) `prefix_of` [id_batch [1]; id_batch [2]; id_batch [3]] /\
    (delivered q = map Ok [id_batch [1]; id_batch [2]; id_batch [3]] \/ errors_of (delivered q) = [QE_Timeout 30]).
Proof.
  destruct (qrun (demo_run "q") [Send; Read; Send; Send; Read; Read; Send; Supervise]) as [q|] eqn:E;
    [|vm_compute in E; discriminate E].
  destruct (query_stream_complete (DuckQuery0 := three_batches) tt "q" (Some 30) [("id", Int64)] [id_batch [1]; id_batch [2]; id_batch [3]] _ q
    eq_refl eq_refl E) as [Hp Hc].
  assert (Hend : stream_ended q = true) by (vm_compute in E; injection E as <-; vm_compute; reflexivity).
  exists q. split; [reflexivity|]. split; [exact Hend|]. split; [exact Hp|]. apply Hc; [exact Hend|].
  repeat constructor; discriminate.
Defined.

(** A reader that lags for five seconds behind a full channel gets the end of
    the stream after what it has, and no error: a part of the result looks like
    all of it. *)
Theorem slow_reader_truncated (b : Table.t) :
  let start := mkRun (Sending (replicate 101 b)) Waiting [] [] true false 300 in
  exists q, qrun start (replicate 100 Send ++ SlowReader :: replicate 100 Read ++ [Supervise]) = Some q /\
    stream_ended q = true /\ length (delivered q) = 100%nat /\ errors_of (delivered q) = [].
Proof. eexists. split; [vm_compute; reflexivity|]. split_and!; vm_compute; reflexivity. Qed.

(** The error of a query is sent by the task and again by the supervisor. *)
Theorem query_error_sent_twice :
  exists q, qrun (demo_run "bad") [Send; Supervise; Supervise; Read; Read] = Some q /\ stream_ended q = true /\
    delivered q = [Err (QE_Sql "Parser Error: syntax error"); Err (QE_Sql "Parser Error: syntax error")].
Proof. eexists. split; [vm_compute; reflexivity|]. split; vm_compute; reflexivity. Qed.

(** The underscores of the prefix match any character: the tables of dataset
    [a] include one that belongs to another dataset. *)
Theorem tables_listed_by_pattern :
  sql_like ("a" +:+ "__%") "a__e1" = true /\ sql_like ("a" +:+ "__%") "abcd__e1" = true.
Proof. split; reflexivity. Qed.

(** A pool of size zero is asked to keep one connection idle. *)
Theorem empty_pool_keeps_one_idle : pool_sizes (with_pool_size DuckDBConfig_default 0) = (0, 1).
Proof. reflexivity. Qed.
