(* ===== verification/FlightTicket.v ===== *)
(** * Flight tickets (worker-flight/src/ticket.rs)

    Tickets are JSON texts.  The value of a text is modelled: the code that
    [derive(Serialize, Deserialize)] makes for a struct and for an enum tagged
    by ["type"] is written out by its documented rules (an optional field that
    is [None] is left out; unknown fields are ignored, missing and repeated
    ones refused; a struct is also read from an array of all its fields).  The
    text itself, and serde's messages, are a class with the law that a printed
    value is read back. *)

From stdpp Require Import pretty gmap.
From S2P Require Import Prelude.

#[local] Open Scope Z_scope.

(** ** JSON values and their text *)

Inductive Json :=
| JNull
| JBool (b : bool)
| JNumber (z : Z)
| JFloat (text : string)
| JString (s : string)
| JArray (l : list Json)
| JObject (entries : list (string * Json)).

Inductive SerdeError :=
| SyntaxError (msg : string)
| MissingField (field : string)
| DuplicateField (field : string)
| UnknownVariant (variant : string)
| InvalidType (expected : string)
| InvalidLength (len : nat).

Class SerdeJson := {
  to_vec : Json -> list Z;
  from_slice : list Z -> result Json SerdeError;
  SerdeError_display : SerdeError -> string;
}.

Class SerdeJsonLaws `{SerdeJson} := {
  to_vec_read : forall j, from_slice (to_vec j) = Ok j;
}.

(** ** Reading fields *)

(** The value of a field: a string, a number, or an optional number. *)
Inductive FieldValue := FStr (s : string) | FNum (z : Z) | FOpt (o : option Z).

Definition read_string (j : Json) : result FieldValue SerdeError :=
  match j with JString s => Ok (FStr s) | _ => Err (InvalidType "a string") end.

Definition read_uint (bits : Z) (j : Json) : result Z SerdeError :=
  match j with
  | JNumber z => if (0 <=? z) && (z <? 2 ^ bits) then Ok z else Err (InvalidType ("u" +:+ pretty bits))
  | _ => Err (InvalidType ("u" +:+ pretty bits))
  end.

Definition read_number (bits : Z) (j : Json) : result FieldValue SerdeError :=
  let? z := read_uint bits j in Ok (FNum z).

Definition read_option (bits : Z) (j : Json) : result FieldValue SerdeError :=
  match j with
  | JNull => Ok (FOpt None)
  | _ => let? z := read_uint bits j in Ok (FOpt (Some z))
  end.

(** A field of a struct: its name, its type, and its value when it is
    missing. *)
Record FieldSpec := mkSpec {
  spec_name : string; spec_read : Json -> result FieldValue SerdeError; spec_missing : option FieldValue;
}.

(** [visit_map]: the entries in the order of the text. *)
Fixpoint visit_entries (specs : list FieldSpec) (found : gmap string FieldValue) (entries : list (string * Json))
    : result (gmap string FieldValue) SerdeError :=
  match entries with
  | [] => Ok found
  | (k, j) :: entries =>
      match List.find (fun s => bool_decide (spec_name s = k)) specs with
      | None => visit_entries specs found entries
      | Some s =>
          match found !! k with
          | Some _ => Err (DuplicateField k)
          | None => let? v := spec_read s j in visit_entries specs (<[k := v]> found) entries
          end
      end
  end.

Definition take_field (found : gmap string FieldValue) (s : FieldSpec) : result FieldValue SerdeError :=
  match found !! spec_name s with
  | Some v => Ok v
  | None => match spec_missing s with Some v => Ok v | None => Err (MissingField (spec_name s)) end
  end.

Definition visit_map (specs : list FieldSpec) (entries : list (string * Json)) : result (list FieldValue) SerdeError :=
  let? found := visit_entries specs ∅ entries in collect_results (take_field found) specs.

(** [visit_seq]: all fields, in their order, and nothing else. *)
Fixpoint visit_seq (specs : list FieldSpec) (read : nat) (l : list Json) : result (list FieldValue) SerdeError :=
  match specs, l with
  | [], [] => Ok []
  | [], _ => Err (InvalidLength (read + length l))
  | _, [] => Err (InvalidLength read)
  | s :: specs, j :: l =>
      let? v := spec_read s j in let? vs := visit_seq specs (S read) l in Ok (v :: vs)
  end.

Definition read_struct (specs : list FieldSpec) (j : Json) : result (list FieldValue) SerdeError :=
  match j with
  | JObject entries => visit_map specs entries
  | JArray l => visit_seq specs 0 l
  | _ => Err (InvalidType "struct")
  end.

(** ** The tickets *)

Record QueryTicket := mkQueryTicket {
  qt_sql : string; qt_tenant_id : string; qt_memory_limit_mb : option Z; qt_timeout_secs : option Z;
}.

Definition QueryTicket_new (sql tenant_id : string) : QueryTicket := mkQueryTicket sql tenant_id None None.

Definition with_memory_limit (t : QueryTicket) (limit_mb : Z) : QueryTicket :=
  mkQueryTicket (qt_sql t) (qt_tenant_id t) (Some limit_mb) (qt_timeout_secs t).

Definition with_timeout (t : QueryTicket) (timeout_secs : Z) : QueryTicket :=
  mkQueryTicket (qt_sql t) (qt_tenant_id t) (qt_memory_limit_mb t) (Some timeout_secs).

Record StageResultTicket := mkStageResultTicket {
  srt_tenant_id : string; srt_query_id : string; srt_stage_id : Z; srt_partition : option Z;
}.

Definition StageResultTicket_new (tenant_id query_id : string) (stage_id : Z) : StageResultTicket :=
  mkStageResultTicket tenant_id query_id stage_id None.

Definition for_partition (tenant_id query_id : string) (stage_id partition : Z) : StageResultTicket :=
  mkStageResultTicket tenant_id query_id stage_id (Some partition).

Inductive FlightTicket :=
| QueryT (q : QueryTicket)
| StageResultT (s : StageResultTicket).

Definition ticket_query (sql tenant_id : string) : FlightTicket := QueryT (QueryTicket_new sql tenant_id).

Definition ticket_stage_result (tenant_id query_id : string) (stage_id : Z) : FlightTicket :=
  StageResultT (StageResultTicket_new tenant_id query_id stage_id).

Definition ticket_stage_result_partition (tenant_id query_id : string) (stage_id partition : Z) : FlightTicket :=
  StageResultT (for_partition tenant_id query_id stage_id partition).

Definition ticket_tenant_id (t : FlightTicket) : string :=
  match t with QueryT q => qt_tenant_id q | StageResultT s => srt_tenant_id s end.

(** ** As JSON *)

Definition skip_none (name : string) (o : option Z) : list (string * Json) :=
  match o with Some z => [(name, JNumber z)] | None => [] end.

Definition query_fields (q : QueryTicket) : list (string * Json) :=
  [("sql", JString (qt_sql q)); ("tenant_id", JString (qt_tenant_id q))] ++
  skip_none "memory_limit_mb" (qt_memory_limit_mb q) ++ skip_none "timeout_secs" (qt_timeout_secs q).

Definition stage_result_fields (s : StageResultTicket) : list (string * Json) :=
  [("tenant_id", JString (srt_tenant_id s)); ("query_id", JString (srt_query_id s));
   ("stage_id", JNumber (srt_stage_id s))] ++ skip_none "partition" (srt_partition s).

Definition ticket_json (t : FlightTicket) : Json :=
  match t with
  | QueryT q => JObject (("type", JString "query") :: query_fields q)
  | StageResultT s => JObject (("type", JString "stage_result") :: stage_result_fields s)
  end.

Definition query_specs : list FieldSpec :=
  [mkSpec "sql" read_string None; mkSpec "tenant_id" read_string None;
   mkSpec "memory_limit_mb" (read_option 64) (Some (FOpt None)); mkSpec "timeout_secs" (read_option 64) (Some (FOpt None))].

Definition stage_result_specs : list FieldSpec :=
  [mkSpec "tenant_id" read_string None; mkSpec "query_id" read_string None;
   mkSpec "stage_id" (read_number 32) None; mkSpec "partition" (read_option 32) (Some (FOpt None))].

Definition query_of_values (vs : list FieldValue) : result QueryTicket SerdeError :=
  match vs with
  | [FStr sql; FStr tenant; FOpt mem; FOpt secs] => Ok (mkQueryTicket sql tenant mem secs)
  | _ => Err (InvalidType "struct QueryTicket")
  end.

Definition stage_result_of_values (vs : list FieldValue) : result StageResultTicket SerdeError :=
  match vs with
  | [FStr tenant; FStr query; FNum id; FOpt p] => Ok (mkStageResultTicket tenant query id p)
  | _ => Err (InvalidType "struct StageResultTicket")
  end.

Definition query_of_json (j : Json) : result QueryTicket SerdeError :=
  let? vs := read_struct query_specs j in query_of_values vs.

Definition stage_result_of_json (j : Json) : result StageResultTicket SerdeError :=
  let? vs := read_struct stage_result_specs j in stage_result_of_values vs.

(** The tag of the enum, and what is left for its content. *)
Inductive TicketKind := KQuery | KStageResult.

Definition read_tag (j : Json) : result TicketKind SerdeError :=
  match j with
  | JString s =>
      if bool_decide (s = "query") then Ok KQuery
      else if bool_decide (s = "stage_result") then Ok KStageResult else Err (UnknownVariant s)
  | _ => Err (InvalidType "variant identifier")
  end.

Fixpoint split_tag (tag : option TicketKind) (rest entries : list (string * Json))
    : result (TicketKind * list (string * Json)) SerdeError :=
  match entries with
  | [] => match tag with Some k => Ok (k, rest) | None => Err (MissingField "type") end
  | (k, j) :: entries =>
      if bool_decide (k = "type") then
        match tag with
        | Some _ => Err (DuplicateField "type")
        | None => let? t := read_tag j in split_tag (Some t) rest entries
        end
      else split_tag tag (rest ++ [(k, j)]) entries
  end.

Definition tagged_content (j : Json) : result (TicketKind * Json) SerdeError :=
  match j with
  | JObject entries => let? p := split_tag None [] entries in Ok (p.1, JObject p.2)
  | JArray (t :: l) => let? k := read_tag t in Ok (k, JArray l)
  | JArray [] => Err (MissingField "type")
  | _ => Err (InvalidType "internally tagged enum FlightTicket")
  end.

Definition ticket_of_json (j : Json) : result FlightTicket SerdeError :=
  let? p := tagged_content j in
  match p.1 with
  | KQuery => let? q := query_of_json p.2 in Ok (QueryT q)
  | KStageResult => let? s := stage_result_of_json p.2 in Ok (StageResultT s)
  end.

(** ** As Flight tickets *)

Inductive TicketError := SerializationFailed (e : SerdeError) | DeserializationFailed (e : SerdeError).

Section text.
Context `{SerdeJson}.

Definition TicketError_display (e : TicketError) : string :=
  match e with
  | SerializationFailed e => "Failed to serialize ticket: " +:+ SerdeError_display e
  | DeserializationFailed e => "Failed to deserialize ticket: " +:+ SerdeError_display e
  end.

Definition from_json {A} (read : Json -> result A SerdeError) (ticket : list Z) : result A SerdeError :=
  let? j := from_slice ticket in read j.

Definition QueryTicket_encode (q : QueryTicket) : result (list Z) TicketError := Ok (to_vec (JObject (query_fields q))).

Definition QueryTicket_decode (ticket : list Z) : result QueryTicket TicketError :=
  match from_json query_of_json ticket with Ok q => Ok q | Err e => Err (DeserializationFailed e) end.

Definition StageResultTicket_encode (s : StageResultTicket) : result (list Z) TicketError :=
  Ok (to_vec (JObject (stage_result_fields s))).

Definition StageResultTicket_decode (ticket : list Z) : result StageResultTicket TicketError :=
  match from_json stage_result_of_json ticket with Ok s => Ok s | Err e => Err (DeserializationFailed e) end.

Definition FlightTicket_encode (t : FlightTicket) : result (list Z) TicketError := Ok (to_vec (ticket_json t)).

(** The tagged format first, then the older query ticket; the error is that
    of the tagged format. *)
Definition FlightTicket_decode (ticket : list Z) : result FlightTicket TicketError :=
  match from_json ticket_of_json ticket with
  | Ok t => Ok t
  | Err e =>
      match from_json query_of_json ticket with
      | Ok q => Ok (QueryT q)
      | Err _ => Err (DeserializationFailed e)
      end
  end.
End text.

(** ** Round trips *)

Definition opt_in (bits : Z) (o : option Z) : Prop := forall z, o = Some z -> 0 <= z < 2 ^ bits.

(** The numbers of a ticket are in the range of their Rust types. *)
Definition query_in_range (q : QueryTicket) : Prop := opt_in 64 (qt_memory_limit_mb q) /\ opt_in 64 (qt_timeout_secs q).
Definition stage_result_in_range (s : StageResultTicket) : Prop :=
  0 <= srt_stage_id s < 2 ^ 32 /\ opt_in 32 (srt_partition s).
Definition ticket_in_range (t : FlightTicket) : Prop :=
  match t with QueryT q => query_in_range q | StageResultT s => stage_result_in_range s end.

Lemma read_uint_in bits z : 0 <= z < 2 ^ bits -> read_uint bits (JNumber z) = Ok z.
Proof.
  intros [? ?]. unfold read_uint. by rewrite (proj2 (Z.leb_le 0 z)), (proj2 (Z.ltb_lt z (2 ^ bits))) by done.
Qed.

(** Reads the fields of an object one by one. *)
Ltac read_fields :=
  unfold read_number; cbn -[lookup insert bool_decide read_uint];
  repeat (first [rewrite bool_decide_true by reflexivity | rewrite bool_decide_false by discriminate
                |rewrite lookup_insert_eq | rewrite lookup_insert_ne by done | rewrite lookup_empty
                |rewrite read_uint_in by auto];
          unfold read_number; cbn -[lookup insert bool_decide read_uint]);
  reflexivity.

Lemma query_roundtrip q : query_in_range q -> query_of_json (JObject (query_fields q)) = Ok q.
Proof.
  destruct q as [sql tenant m t]. intros [Hm Ht]. simpl in *.
  destruct m as [m|], t as [t|]; unfold query_of_json, query_fields, read_struct, visit_map; read_fields.
Qed.

Lemma stage_result_roundtrip s :
  stage_result_in_range s -> stage_result_of_json (JObject (stage_result_fields s)) = Ok s.
Proof.
  destruct s as [tenant query id p]. intros [Hid Hp]. simpl in *.
  destruct p as [p|]; unfold stage_result_of_json, stage_result_fields, read_struct, visit_map, read_number; read_fields.
Qed.

Lemma split_tag_rest k rest entries :
  Forall (fun e => e.1 <> "type") entries -> split_tag (Some k) rest entries = Ok (k, rest ++ entries).
Proof.
  revert rest. induction entries as [|[f j] entries IH]; intros rest Hne; simpl; [by rewrite app_nil_r|].
  inversion Hne as [|? ? Hf Hr]; subst. rewrite bool_decide_false by done. rewrite IH by done. by rewrite <- app_assoc.
Qed.

Lemma query_fields_untagged q : Forall (fun e => e.1 <> "type") (query_fields q).
Proof. destruct q as [? ? [|] [|]]; repeat constructor; done. Qed.

Lemma stage_result_fields_untagged s : Forall (fun e => e.1 <> "type") (stage_result_fields s).
Proof. destruct s as [? ? ? [|]]; repeat constructor; done. Qed.

(** Fields without a tag are not a tagged ticket. *)
Lemma untagged_refused entries :
  Forall (fun e => e.1 <> "type") entries -> ticket_of_json (JObject entries) = Err (MissingField "type").
Proof.
  intros Hne. unfold ticket_of_json, tagged_content.
  enough (H : forall rest, split_tag None rest entries = Err (MissingField "type")) by (rewrite H; done).
  induction entries as [|[k j] entries IH]; intros rest; simpl; [done|]. inversion Hne as [|? ? Hk Hr]; subst.
  rewrite bool_decide_false by done. by apply IH.
Qed.

Lemma ticket_json_roundtrip t : ticket_in_range t -> ticket_of_json (ticket_json t) = Ok t.
Proof.
  destruct t as [q|s]; intros Ht; unfold ticket_json, ticket_of_json, tagged_content.
  - cbn [split_tag]. rewrite bool_decide_true by done. cbn [read_tag result_bind]. rewrite bool_decide_true by done.
    cbn [result_bind]. rewrite split_tag_rest by apply query_fields_untagged. cbn [result_bind fst snd app].
    by rewrite query_roundtrip.
  - cbn [split_tag]. rewrite bool_decide_true by done. cbn [read_tag result_bind]. rewrite bool_decide_false by done.
    rewrite bool_decide_true by done. cbn [result_bind].
    rewrite split_tag_rest by apply stage_result_fields_untagged. cbn [result_bind fst snd app].
    by rewrite stage_result_roundtrip.
Qed.

Section laws.
Context `{SerdeJsonLaws}.

Lemma from_json_to_vec {A} (read : Json -> result A SerdeError) j : from_json read (to_vec j) = read j.
Proof. unfold from_json. by rewrite to_vec_read. Qed.

(** C40: every ticket in the range of its types survives the text, and the
    older text of a query ticket, which has no tag, is still read as that
    query. *)
Theorem flight_ticket_roundtrip (t : FlightTicket) :
  ticket_in_range t ->
  (exists bytes, FlightTicket_encode t = Ok bytes /\ FlightTicket_decode bytes = Ok t) /\
  (forall q, t = QueryT q -> exists bytes, QueryTicket_encode q = Ok bytes /\
     QueryTicket_decode bytes = Ok q /\ FlightTicket_decode bytes = Ok t).
Proof.
  intros Ht. split.
  - eexists. split; [reflexivity|]. unfold FlightTicket_decode. by rewrite from_json_to_vec, ticket_json_roundtrip.
  - intros q ->. eexists. split; [reflexivity|]. unfold QueryTicket_decode, FlightTicket_decode.
    rewrite !from_json_to_vec, untagged_refused, query_roundtrip by (done || apply query_fields_untagged). done.
Qed.

(** The text of a stage result ticket alone has no tag, and it is no query
    either: the unified format refuses it. *)
Lemma stage_result_refused (s : StageResultTicket) bytes :
  StageResultTicket_encode s = Ok bytes ->
  FlightTicket_decode bytes = Err (DeserializationFailed (MissingField "type")).
Proof.
  intros [= <-]. unfold FlightTicket_decode. rewrite !from_json_to_vec, untagged_refused by apply stage_result_fields_untagged.
  by destruct s as [? ? ? [|]].
Qed.
End laws.

(** ** A text *)

(** JSON values as trees, numbered by stdpp: an instance of the text. *)
Module JsonText.
Definition leaf : Type := (bool + Z) + (string + string).

Fixpoint to_tree (j : Json) : gen_tree leaf :=
  match j with
  | JNull => GenNode 0 []
  | JBool b => GenLeaf (inl (inl b))
  | JNumber z => GenLeaf (inl (inr z))
  | JFloat t => GenLeaf (inr (inl t))
  | JString s => GenLeaf (inr (inr s))
  | JArray l => GenNode 1 (map to_tree l)
  | JObject entries => GenNode 2 (map (fun e => GenNode 0 [GenLeaf (inr (inr e.1)); to_tree e.2]) entries)
  end.

Fixpoint of_tree (t : gen_tree leaf) : Json :=
  match t with
  | GenLeaf (inl (inl b)) => JBool b
  | GenLeaf (inl (inr z)) => JNumber z
  | GenLeaf (inr (inl t)) => JFloat t
  | GenLeaf (inr (inr s)) => JString s
  | GenNode 1 l => JArray (map of_tree l)
  | GenNode 2 l => JObject (map (fun t => match t with
                                           | GenNode _ [GenLeaf (inr (inr k)); v] => (k, of_tree v)
                                           | _ => ("", JNull)
                                           end) l)
  | GenNode _ _ => JNull
  end.

Fixpoint of_to_tree (j : Json) : of_tree (to_tree j) = j.
Proof.
  destruct j as [| | | | |l|entries]; simpl; try done; f_equal.
  - rewrite map_map. induction l as [|j l IH]; simpl; [done|]. by rewrite of_to_tree, IH.
  - rewrite map_map. induction entries as [|[k j] entries IH]; simpl; [done|]. by rewrite of_to_tree, IH.
Qed.

#[export] Instance serde : SerdeJson := {|
  to_vec j := [Z.pos (encode (to_tree j))];
  from_slice bytes := match bytes with
                      | [Z.pos p] => match decode p with Some t => Ok (of_tree t) | None => Err (SyntaxError "") end
                      | _ => Err (SyntaxError "expected value")
                      end;
  SerdeError_display e := match e with
                          | SyntaxError m => m
                          | MissingField f => "missing field `" +:+ f +:+ "`"
                          | DuplicateField f => "duplicate field `" +:+ f +:+ "`"
                          | UnknownVariant v => "unknown variant `" +:+ v +:+ "`"
                          | InvalidType t => "invalid type, expected " +:+ t
                          | InvalidLength n => "invalid length " +:+ pretty (Z.of_nat n)
                          end;
|}.

#[export] Instance serde_laws : SerdeJsonLaws.
Proof. split. intros j. simpl. by rewrite decode_encode, of_to_tree. Qed.
End JsonText.

#[local] Existing Instance JsonText.serde.
#[local] Existing Instance JsonText.serde_laws.

Definition demo_query : QueryTicket := with_timeout (QueryTicket_new "SELECT 1" "acme") 30.

Lemma flight_ticket_roundtrip_witness :
  exists bytes, QueryTicket_encode demo_query = Ok bytes /\ QueryTicket_decode bytes = Ok demo_query /\
    FlightTicket_decode bytes = Ok (QueryT demo_query).
Proof.
  apply (fun H => proj2 (flight_ticket_roundtrip (QueryT demo_query) H) demo_query eq_refl).
  split; intros z [=]; subst; lia.
Defined.
