(* ===== verification/FlightService.v ===== *)
(** * The Flight service (worker-flight/src/service.rs, error.rs)

    A worker serves queries and stage results over Arrow Flight.  A submitted
    stage is a request that waits for a blocking job; requests, jobs,
    cancellations and evictions interleave between the awaits, so the service is
    a step relation.  A response stream is the list of what it yields; encoding
    batches as Flight data is arrow-flight's and keeps the batches. *)

From stdpp Require Import pretty.
From S2P Require Import Prelude SqlAst NaiveDate DateInterval BooleanAnalyzer MacroCall Discovery Transform LdpTypes Arrow DuckDb.
From S2P Require Import HashPartition ExchangeRuntime StageExec StageSql EpochEngine QueryEngine ProtoConvert FlightTicket.

#[local] Open Scope Z_scope.

(** ** Status *)

Inductive Code :=
| PermissionDenied | Unauthenticated | InvalidArgument | Internal | NotFound | DeadlineExceeded | ResourceExhausted
| Unimplemented.

Record Status := mkStatus { code : Code; message : string }.

Definition map_query_error_to_status (e : QueryError) : Status :=
  match e with
  | QE_Timeout secs => mkStatus DeadlineExceeded ("Query timeout after " +:+ pretty secs +:+ "s")
  | QE_DuckDB m => mkStatus Internal ("Database error: " +:+ m)
  | QE_Sql m => mkStatus InvalidArgument ("SQL error: " +:+ m)
  | QE_TableNotFound t => mkStatus NotFound ("Table not found: " +:+ t)
  | QE_TenantValidation m => mkStatus PermissionDenied ("Tenant validation failed: " +:+ m)
  | QE_Internal m => mkStatus Internal ("Internal error: " +:+ m)
  end.

Definition map_transform_error_to_status (e : SqlTransformError) : Status :=
  mkStatus InvalidArgument ("SQL transformation failed: " +:+ SqlTransformError_display e).

Definition status_of_ticket_error `{SerdeJson} (e : TicketError) : Status :=
  mkStatus InvalidArgument ("Invalid ticket: " +:+ TicketError_display e).

(** ** The store of stage results *)

Record StageResultKey := mkResultKey { rk_query_id : string; rk_stage_id : Z; rk_partition : option Z }.

#[export] Instance StageResultKey_eq_dec : EqDecision StageResultKey.
Proof. solve_decision. Defined.

#[export] Instance StageResultKey_countable : Countable StageResultKey.
Proof.
  refine (inj_countable' (fun k => (rk_query_id k, rk_stage_id k, rk_partition k))
    (fun t => mkResultKey t.1.1 t.1.2 t.2) _). by intros [].
Defined.

Definition StageResultKey_new (query_id : string) (stage_id : Z) : StageResultKey := mkResultKey query_id stage_id None.
Definition with_partition (query_id : string) (stage_id partition : Z) : StageResultKey :=
  mkResultKey query_id stage_id (Some partition).
Definition from_ticket (t : StageResultTicket) : StageResultKey :=
  mkResultKey (srt_query_id t) (srt_stage_id t) (srt_partition t).

Record CachedStageStats := mkCachedStats { cs_rows_produced : Z; cs_bytes_produced : Z; cs_execution_time_ms : Z }.

Section store.
Context {RecordBatch : Type}.

Record CachedStageResult := mkCachedResult {
  cr_batches : list RecordBatch; cr_stats : CachedStageStats; cr_created_at : Z;
}.

Abbreviation Store := (gmap StageResultKey CachedStageResult).

Definition store_insert (s : Store) (k : StageResultKey) (r : CachedStageResult) : Store := <[k := r]> s.
Definition store_get (s : Store) (k : StageResultKey) : option CachedStageStats := cr_stats <$> s !! k.
Definition store_store (s : Store) (now : Z) (k : StageResultKey) (bs : list RecordBatch) (stats : CachedStageStats) : Store :=
  <[k := mkCachedResult bs stats now]> s.
Definition store_take (s : Store) (k : StageResultKey) : option CachedStageResult * Store := (s !! k, delete k s).
Definition store_get_batches (s : Store) (k : StageResultKey) : option (list RecordBatch) := cr_batches <$> s !! k.
Definition store_evict_expired (s : Store) (now ttl : Z) : Store :=
  filter (fun kr => Z.max 0 (now - cr_created_at kr.2) < ttl) s.
Definition store_contains (s : Store) (k : StageResultKey) : bool := bool_decide (is_Some (s !! k)).
Definition store_len (s : Store) : nat := size s.
Definition store_is_empty (s : Store) : bool := bool_decide (s = ∅).
(** [retain] of a cancellation. *)
Definition store_cancel (s : Store) (query_id : string) : Store := filter (fun kr => rk_query_id kr.1 <> query_id) s.
End store.
Arguments CachedStageResult : clear implicits.

Section service.
Context `{Std} `{Arrow RecordBatch Schema} `{HashOrder} `{!SchemaFields Schema} `{!DuckDb Db Appender RecordBatch}
  `{!DuckQuery Db RecordBatch Schema} `{NaiveDateOps} `{SqlDebug} `{SqlParser} `{SerdeJson}
  `{!QueryEngine Q RecordBatch Schema}.
Context (decode_request : list Z -> result Proto.SubmitStageRequest string)
  (encode_response : Proto.SubmitStageResponse -> result (list Z) string)
  (ipc_read : list Z -> result (list RecordBatch) string)
  (from_utf8 : list Z -> result string string)
  (schema_message : Schema -> result (list Z) string)
  (schema_file_start : Schema -> result unit string) (schema_file : Schema -> result (list Z) string)
  (external_error : QueryError -> string).

(** ** State *)

(** A submission: inserted into the active stages, its job spawned, removed
    from them and waiting, or answered. *)
Inductive SubmitPc := Inserted | Spawned | Awaiting | Answered (r : result (list Z) Status).

Inductive Job := NotSpawned | JobQueued | JobRunning | JobDone (r : result (list RecordBatch) string).

(** [cancelled], [published] and [stage_interrupted] are the
    [ActiveStageHandle] of the submission. *)
Record Submission := mkSubmission {
  sb_request : Proto.SubmitStageRequest;
  sb_inputs : gmap string (list RecordBatch);
  sb_pc : SubmitPc;
  sb_job : Job;
  sb_cancelled : bool;
  sb_published : bool;
  sb_interrupted : bool;
}.

Record WorkerFlightService := mkService {
  sv_transformer : SqlTransformer;
  sv_tenant_id : string;
  sv_stage_results : gmap StageResultKey (CachedStageResult RecordBatch);
  sv_conn : Db;
  sv_active_stages : gmap (string * Z) nat;
  sv_submissions : gmap nat Submission;
  sv_next : nat;
}.

Definition WorkerFlightService_new (t : SqlTransformer) (tenant_id : string) (conn : Db) : WorkerFlightService :=
  mkService t tenant_id ∅ conn ∅ ∅ 0.

Definition service_register_dataset (st : WorkerFlightService) (d : RegisteredDataset) : WorkerFlightService :=
  mkService (register_dataset (sv_transformer st) d) (sv_tenant_id st) (sv_stage_results st) (sv_conn st)
    (sv_active_stages st) (sv_submissions st) (sv_next st).

Definition validate_tenant (st : WorkerFlightService) (request_tenant : string) : result unit Status :=
  if bool_decide (request_tenant <> sv_tenant_id st) then
    Err (mkStatus PermissionDenied ("Tenant ID mismatch: expected '" +:+ sv_tenant_id st +:+ "', got '"
           +:+ request_tenant +:+ "'"))
  else Ok tt.

(** The header: absent, not text, or a value. *)
Definition validate_tenant_from_metadata (st : WorkerFlightService) (header : option (option string)) : result unit Status :=
  match header with
  | Some (Some tenant) => validate_tenant st tenant
  | Some None => Err (mkStatus InvalidArgument "x-tenant-id header contains invalid UTF-8")
  | None => Err (mkStatus Unauthenticated "Missing required x-tenant-id metadata header")
  end.

(** ** Submitting a stage *)

(** Before the stage runs: the request, its tenant and its inputs. *)
Definition accept_submit (st : WorkerFlightService) (body : list Z)
    : result (Proto.SubmitStageRequest * gmap string (list RecordBatch)) Status :=
  match deserialize_submit_stage_request decode_request body with
  | Err e => Err (mkStatus InvalidArgument ("Invalid SubmitStageRequest: " +:+ ConversionError_display e))
  | Ok request =>
      let? _ := validate_tenant st (Proto.tenant_id request) in
      match deserialize_exchange_inputs ipc_read ∅ (Proto.exchange_inputs request) with
      | Err e => Err (mkStatus Internal ("Failed to deserialize exchange inputs: " +:+ ConversionError_display e))
      | Ok inputs => Ok (request, inputs)
      end
  end.

Definition timeout_of (r : Proto.SubmitStageRequest) : Z :=
  match Proto.req_limits r with Some l => Proto.timeout_ms l | None => 300000 end.

Definition check_stage_limits (r : Proto.SubmitStageRequest) (rows bytes : Z) : result unit Status :=
  match Proto.req_limits r with
  | None => Ok tt
  | Some l =>
      if Proto.max_rows_output l <? rows then
        Err (mkStatus ResourceExhausted ("Stage exceeded row limit: " +:+ pretty rows +:+ " > "
               +:+ pretty (Proto.max_rows_output l)))
      else if Proto.max_bytes_output l <? bytes then
        Err (mkStatus ResourceExhausted ("Stage exceeded byte limit: " +:+ pretty bytes +:+ " > "
               +:+ pretty (Proto.max_bytes_output l)))
      else Ok tt
  end.

(** The ticket and the response of a stage that has run. *)
Definition submit_response (r : Proto.SubmitStageRequest) (stats : CachedStageStats) : result (list Z) Status :=
  match StageResultTicket_encode (StageResultTicket_new (Proto.tenant_id r) (Proto.req_query_id r) (Proto.req_stage_id r)) with
  | Err e => Err (mkStatus Internal ("Failed to encode result ticket: " +:+ TicketError_display e))
  | Ok ticket_bytes =>
      match serialize_submit_stage_response encode_response true "" ticket_bytes
              (Some (cs_rows_produced stats, cs_bytes_produced stats, cs_execution_time_ms stats)) with
      | Err e => Err (mkStatus Internal ("Failed to serialize response: " +:+ ConversionError_display e))
      | Ok bytes => Ok bytes
      end
  end.

(** After the stage has run: the limits, the store, the response. *)
Definition finish_submit (results : gmap StageResultKey (CachedStageResult RecordBatch)) (now elapsed_ms : Z)
    (r : Proto.SubmitStageRequest) (executed : result (list RecordBatch) string)
    : gmap StageResultKey (CachedStageResult RecordBatch) * result (list Z) Status :=
  match executed with
  | Err e => (results, Err (mkStatus Internal ("Stage execution failed: " +:+ e)))
  | Ok batches =>
      let rows := total_rows_of batches in
      let bytes := total_bytes_of batches in
      match check_stage_limits r rows bytes with
      | Err s => (results, Err s)
      | Ok _ =>
          let stats := mkCachedStats rows bytes elapsed_ms in
          (store_store results now (StageResultKey_new (Proto.req_query_id r) (Proto.req_stage_id r)) batches stats,
           submit_response r stats)
      end
  end.

Definition stage_key (r : Proto.SubmitStageRequest) : string * Z := (Proto.req_query_id r, Proto.req_stage_id r).

Definition set_submission (st : WorkerFlightService) (id : nat) (s : Submission) : WorkerFlightService :=
  mkService (sv_transformer st) (sv_tenant_id st) (sv_stage_results st) (sv_conn st) (sv_active_stages st)
    (<[id := s]> (sv_submissions st)) (sv_next st).

Definition set_active (st : WorkerFlightService) (a : gmap (string * Z) nat) : WorkerFlightService :=
  mkService (sv_transformer st) (sv_tenant_id st) (sv_stage_results st) (sv_conn st) a (sv_submissions st) (sv_next st).

Definition set_results (st : WorkerFlightService) (r : gmap StageResultKey (CachedStageResult RecordBatch)) : WorkerFlightService :=
  mkService (sv_transformer st) (sv_tenant_id st) r (sv_conn st) (sv_active_stages st) (sv_submissions st) (sv_next st).

Definition set_conn (st : WorkerFlightService) (c : Db) : WorkerFlightService :=
  mkService (sv_transformer st) (sv_tenant_id st) (sv_stage_results st) c (sv_active_stages st) (sv_submissions st) (sv_next st).

Definition at_submit (s : Submission) (pc : SubmitPc) (j : Job) : Submission :=
  mkSubmission (sb_request s) (sb_inputs s) pc j (sb_cancelled s) (sb_published s) (sb_interrupted s).

(** A new submission enters the active stages; one without SQL has its empty
    result at once. *)
Definition begin_submit (st : WorkerFlightService) (body : list Z) : result WorkerFlightService Status :=
  let? accepted := accept_submit st body in
  let '(request, inputs) := accepted in
  let id := sv_next st in
  let empty := bool_decide (Proto.req_stage_sql request = EmptyString) in
  let s := mkSubmission request inputs (if empty then Awaiting else Inserted) (if empty then JobDone (Ok []) else NotSpawned)
             false false false in
  Ok (mkService (sv_transformer st) (sv_tenant_id st) (sv_stage_results st) (sv_conn st)
        (if empty then sv_active_stages st else <[stage_key request := id]> (sv_active_stages st))
        (<[id := s]> (sv_submissions st)) (S id)).

(** ** Cancelling *)

(** [ActiveStageHandle::cancel]. *)
Definition cancel_handle (s : Submission) : Submission :=
  mkSubmission (sb_request s) (sb_inputs s) (sb_pc s) (sb_job s) true (sb_published s) (sb_published s || sb_interrupted s).

Definition cancelled_ids (st : WorkerFlightService) (query_id : string) : list nat :=
  map snd (List.filter (fun e : (string * Z) * nat => bool_decide (e.1.1 = query_id)) (map_to_list (sv_active_stages st))).

Definition cancel_submissions (subs : gmap nat Submission) (ids : list nat) : gmap nat Submission :=
  foldl (fun subs id => alter cancel_handle id subs) subs ids.

Definition cancel_specs : list FieldSpec := [mkSpec "query_id" read_string None].

Definition cancel_request (body : list Z) : result string Status :=
  match from_json (read_struct cancel_specs) body with
  | Ok [FStr query_id] => Ok query_id
  | Ok _ => Err (mkStatus InvalidArgument "Invalid cancel query request")
  | Err e => Err (mkStatus InvalidArgument ("Invalid cancel query request: " +:+ SerdeError_display e))
  end.

Definition handle_cancel_query (st : WorkerFlightService) (body : list Z) : WorkerFlightService * result string Status :=
  match cancel_request body with
  | Err s => (st, Err s)
  | Ok query_id =>
      let ids := cancelled_ids st query_id in
      (mkService (sv_transformer st) (sv_tenant_id st) (store_cancel (sv_stage_results st) query_id) (sv_conn st)
         (sv_active_stages st) (cancel_submissions (sv_submissions st) ids) (sv_next st),
       Ok ("Query " +:+ query_id +:+ " cancelled (" +:+ pretty (Z.of_nat (length ids)) +:+ " active stage(s) interrupted)"))
  end.

(** ** Steps *)

Inductive FlightAction :=
| Submit (body : list Z)
| SpawnJob (id : nat)
| Deregister (id : nat)
| StartJob (id : nat) (pool : result unit string)
| RunJob (id : nat) (call : list nat)
| InterruptJob (id : nat) (error : string)
| TimeoutStage (id : nat)
| FinishStage (id : nat) (now elapsed_ms : Z)
| Cancel (body : list Z)
| EvictResults (now : Z).

(** The blocking job: connection, handle, early cancellation; then the SQL. *)
Definition start_job (s : Submission) (pool : result unit string) : Submission :=
  match pool with
  | Err e => at_submit s (sb_pc s) (JobDone (Err ("Failed to get pooled DB connection: " +:+ e)))
  | Ok _ =>
      let s := mkSubmission (sb_request s) (sb_inputs s) (sb_pc s) (sb_job s) (sb_cancelled s) true (sb_interrupted s) in
      if sb_cancelled s then at_submit s (sb_pc s) (JobDone (Err "Stage cancelled before execution started"))
      else at_submit s (sb_pc s) JobRunning
  end.

Definition RESULT_TTL : Z := 300.

Definition fstep (st : WorkerFlightService) (a : FlightAction) : option WorkerFlightService :=
  match a with
  | Submit body => match begin_submit st body with Ok st => Some st | Err _ => Some st end
  | SpawnJob id =>
      s ← sv_submissions st !! id;
      match sb_pc s with Inserted => Some (set_submission st id (at_submit s Spawned JobQueued)) | _ => None end
  | Deregister id =>
      s ← sv_submissions st !! id;
      match sb_pc s with
      | Spawned =>
          Some (set_submission (set_active st (delete (stage_key (sb_request s)) (sv_active_stages st))) id
                  (at_submit s Awaiting (sb_job s)))
      | _ => None
      end
  | StartJob id pool =>
      s ← sv_submissions st !! id;
      match sb_job s with JobQueued => Some (set_submission st id (start_job s pool)) | _ => None end
  | RunJob id call =>
      s ← sv_submissions st !! id;
      match sb_job s with
      | JobRunning =>
          let '(conn, r) := flight_run_sql call (sv_conn st) (Proto.req_stage_sql (sb_request s)) (sb_inputs s) in
          Some (set_submission (set_conn st conn) id (at_submit s (sb_pc s) (JobDone r)))
      | _ => None
      end
  | InterruptJob id error =>
      s ← sv_submissions st !! id;
      match sb_job s with
      | JobRunning => if sb_interrupted s then Some (set_submission st id (at_submit s (sb_pc s) (JobDone (Err error)))) else None
      | _ => None
      end
  | TimeoutStage id =>
      s ← sv_submissions st !! id;
      match sb_pc s, sb_job s with
      | Awaiting, (JobQueued | JobRunning) =>
          Some (set_submission st id (at_submit s (Answered (Err (mkStatus DeadlineExceeded
            ("Stage execution timed out after " +:+ pretty (timeout_of (sb_request s)) +:+ "ms")))) (sb_job s)))
      | _, _ => None
      end
  | FinishStage id now elapsed_ms =>
      s ← sv_submissions st !! id;
      match sb_pc s, sb_job s with
      | Awaiting, JobDone r =>
          let '(results, answer) := finish_submit (sv_stage_results st) now elapsed_ms (sb_request s) r in
          Some (set_submission (set_results st results) id (at_submit s (Answered answer) (JobDone r)))
      | _, _ => None
      end
  | Cancel body => Some (handle_cancel_query st body).1
  | EvictResults now => Some (set_results st (store_evict_expired (sv_stage_results st) now RESULT_TTL))
  end.

Fixpoint frun (st : WorkerFlightService) (l : list FlightAction) : option WorkerFlightService :=
  match l with [] => Some st | a :: l => st' ← fstep st a; frun st' l end.

(** ** Reading *)

Definition handle_query_do_get (st : WorkerFlightService) (q : Q) (t : QueryTicket)
    : result (list (result RecordBatch Status)) Status :=
  match transform (sv_transformer st) (qt_sql t) with
  | Err e => Err (map_transform_error_to_status e)
  | Ok res =>
      match qe_execute_query q (transformed_sql res) (qt_memory_limit_mb t) (qt_timeout_secs t) with
      | Err e => Err (map_query_error_to_status e)
      | Ok stream =>
          Ok (map (fun m => match m with
                            | Ok b => Ok b
                            | Err e => Err (mkStatus Internal ("Failed to encode flight data: " +:+ external_error e))
                            end) stream)
      end
  end.

Definition partition_debug (p : option Z) : string :=
  match p with None => "None" | Some p => "Some(" +:+ pretty p +:+ ")" end.

Definition handle_stage_result_do_get (st : WorkerFlightService) (t : StageResultTicket)
    : result (list (result RecordBatch Status)) Status :=
  match store_get_batches (sv_stage_results st) (from_ticket t) with
  | None => Err (mkStatus NotFound ("Stage result not found: query=" +:+ srt_query_id t +:+ ", stage="
                   +:+ pretty (srt_stage_id t) +:+ ", partition=" +:+ partition_debug (srt_partition t)))
  | Some batches => Ok (map Ok batches)
  end.

Definition do_get (st : WorkerFlightService) (q : Q) (ticket : list Z) : result (list (result RecordBatch Status)) Status :=
  match FlightTicket_decode ticket with
  | Err e => Err (status_of_ticket_error e)
  | Ok t =>
      let? _ := validate_tenant st (ticket_tenant_id t) in
      match t with
      | QueryT q' => handle_query_do_get st q q'
      | StageResultT s => handle_stage_result_do_get st s
      end
  end.

(** The datasets, in the order of a hash set. *)
Definition list_flights (st : WorkerFlightService) (header : option (option string)) : result (list string) Status :=
  let? _ := validate_tenant_from_metadata st header in Ok (elements (registered_dataset_ids (sv_transformer st))).

(** The SQL of a descriptor and the schema of its first logical table. *)
Definition descriptor_schema (st : WorkerFlightService) (q : Q) (cmd : list Z) (no_tables : string)
    : result (string * Schema) Status :=
  match from_utf8 cmd with
  | Err e => Err (mkStatus InvalidArgument ("Invalid SQL encoding: " +:+ e))
  | Ok sql =>
      if bool_decide (sql = EmptyString) then Err (mkStatus InvalidArgument "Empty SQL query")
      else
        match transform (sv_transformer st) sql with
        | Err e => Err (map_transform_error_to_status e)
        | Ok res =>
            match tables_replaced res with
            | [] => Err (mkStatus InvalidArgument no_tables)
            | first_table :: _ =>
                match qe_table_schema q first_table with
                | Err e => Err (map_query_error_to_status e)
                | Ok s => Ok (sql, s)
                end
            end
        end
  end.

Record FlightInfo := mkFlightInfo { fi_cmd : list Z; fi_ticket : list Z; fi_schema : list Z }.

Definition get_flight_info (st : WorkerFlightService) (q : Q) (header : option (option string)) (cmd : list Z)
    : result FlightInfo Status :=
  let? _ := validate_tenant_from_metadata st header in
  let? found := descriptor_schema st q cmd
    ("Cannot determine schema: query does not reference any registered logical tables. " +:+
     "Use get_schema with a query containing logical table references.") in
  match QueryTicket_encode (QueryTicket_new found.1 (sv_tenant_id st)) with
  | Err e => Err (mkStatus Internal (TicketError_display e))
  | Ok ticket =>
      match schema_message found.2 with
      | Err e => Err (mkStatus Internal ("Failed to set schema in FlightInfo: " +:+ e))
      | Ok bytes => Ok (mkFlightInfo cmd ticket bytes)
      end
  end.

Definition get_schema (st : WorkerFlightService) (q : Q) (header : option (option string)) (cmd : list Z)
    : result (list Z) Status :=
  let? _ := validate_tenant_from_metadata st header in
  let? found := descriptor_schema st q cmd
    "Cannot determine schema: query does not reference any registered logical tables" in
  match schema_file_start found.2 with
  | Err e => Err (mkStatus Internal ("Failed to encode schema: " +:+ e))
  | Ok _ =>
      match schema_file found.2 with
      | Err e => Err (mkStatus Internal ("Failed to finish schema encoding: " +:+ e))
      | Ok bytes => Ok bytes
      end
  end.

(** ** Actions and the calls that are not supported *)

Inductive ActionKind := HealthCheck | SubmitStageAction | CancelQueryAction.

Definition do_action_kind (action_type : string) : result ActionKind Status :=
  if bool_decide (action_type = "health_check") then Ok HealthCheck
  else if bool_decide (action_type = "submit_stage") then Ok SubmitStageAction
  else if bool_decide (action_type = "cancel_query") then Ok CancelQueryAction
  else Err (mkStatus InvalidArgument ("Unknown action type: " +:+ action_type)).

Definition list_actions : list string := ["health_check"; "submit_stage"; "cancel_query"].

Definition handshake : result unit Status := Err (mkStatus Unimplemented "Handshake is not implemented").
Definition poll_flight_info : result unit Status := Err (mkStatus Unimplemented "poll_flight_info is not implemented").
Definition do_put : result unit Status :=
  Err (mkStatus Unimplemented "DoPut is not supported; this is a read-only query service").
Definition do_exchange : result unit Status := Err (mkStatus Unimplemented "DoExchange is not implemented").
End service.

(** ** What a reader of results gets *)

Section sound.
Context `{Std} `{Arrow RecordBatch Schema} `{HashOrder} `{!SchemaFields Schema} `{!DuckDb Db Appender RecordBatch}
  `{!DuckQuery Db RecordBatch Schema} `{NaiveDateOps} `{SqlDebug} `{SqlParser} `{SerdeJson} `{!SerdeJsonLaws}
  `{!QueryEngine Q RecordBatch Schema}.
Context (decode_request : list Z -> result Proto.SubmitStageRequest string)
  (encode_response : Proto.SubmitStageResponse -> result (list Z) string)
  (ipc_read : list Z -> result (list RecordBatch) string)
  (external_error : QueryError -> string).

Abbreviation service := (@WorkerFlightService RecordBatch Db).
Abbreviation submission := (@Submission RecordBatch).
Abbreviation fstep := (fstep decode_request encode_response ipc_read).
Abbreviation frun := (frun decode_request encode_response ipc_read).
Abbreviation do_get := (do_get external_error).

(** A cancellation changes the handle of a submission only. *)
Definition same_work (s s' : submission) : Prop :=
  sb_request s' = sb_request s /\ sb_inputs s' = sb_inputs s /\ sb_pc s' = sb_pc s /\ sb_job s' = sb_job s.

Lemma cancel_submissions_lookup ids : forall (subs : gmap nat submission) id,
  match subs !! id with
  | None => cancel_submissions subs ids !! id = None
  | Some s => exists s', cancel_submissions subs ids !! id = Some s' /\ same_work s s' /\ (id ∉ ids -> s' = s)
  end.
Proof.
  induction ids as [|i ids IH]; intros subs id; cbn [cancel_submissions foldl].
  { destruct (subs !! id) as [s|]; [|done]. by exists s. }
  specialize (IH (alter cancel_handle i subs) id). fold (cancel_submissions (alter cancel_handle i subs) ids).
  destruct (decide (i = id)) as [->|Hne].
  - rewrite lookup_alter_eq in IH. destruct (subs !! id) as [s|]; simpl in IH; [|done].
    destruct IH as (s' & -> & Hw & _). exists s'. split; [done|]. split; [exact Hw|]. intros Hni. destruct Hni. by left.
  - rewrite lookup_alter_ne in IH by done. destruct (subs !! id) as [s|]; [|done].
    destruct IH as (s' & -> & Hw & Hs). exists s'. split; [done|]. split; [exact Hw|]. intros Hni. apply Hs. intros Hin. by apply Hni; right.
Qed.

Lemma cancelled_ids_spec (st : service) query_id id :
  id ∈ cancelled_ids st query_id <-> exists k, sv_active_stages st !! k = Some id /\ k.1 = query_id.
Proof.
  unfold cancelled_ids. rewrite list_elem_of_In, in_map_iff. split.
  - intros ([k i] & <- & [Hin Hk]%filter_In). apply bool_decide_eq_true in Hk. exists k. split; [|done].
    by apply elem_of_map_to_list, list_elem_of_In.
  - intros (k & Hk & Hq). exists (k, id). split; [done|]. apply filter_In. split; [|by apply bool_decide_eq_true].
    by apply list_elem_of_In, elem_of_map_to_list.
Qed.

Lemma handle_cancel_query_lookup (st : service) body id :
  match sv_submissions st !! id with
  | None => sv_submissions (handle_cancel_query st body).1 !! id = None
  | Some s => exists s', sv_submissions (handle_cancel_query st body).1 !! id = Some s' /\ same_work s s' /\
      ((forall k, sv_active_stages st !! k <> Some id) -> s' = s)
  end.
Proof.
  unfold handle_cancel_query. destruct (cancel_request body) as [q|e]; simpl.
  2: { destruct (sv_submissions st !! id) as [s|]; [by exists s|done]. }
  pose proof (cancel_submissions_lookup (cancelled_ids st q) (sv_submissions st) id) as Hl.
  destruct (sv_submissions st !! id) as [s|]; [|done]. destruct Hl as (s' & Hs' & Hw & Heq). exists s'. split; [done|].
  split; [done|]. intros Hno. apply Heq. intros (k & Hk & _)%cancelled_ids_spec. by apply (Hno k).
Qed.

(** ** The invariant *)

(** The batches of a job are the answer of the database to the SQL of the
    stage with its inputs, in the state it had during the run [l]. *)
Definition stage_answer (st0 : service) (l : list FlightAction) (s : submission) (bs : list RecordBatch) : Prop :=
  if bool_decide (Proto.req_stage_sql (sb_request s) = EmptyString) then bs = []
  else exists l1 st1 call, l1 `prefix_of` l /\ frun st0 l1 = Some st1 /\
    (flight_run_sql call (sv_conn st1) (Proto.req_stage_sql (sb_request s)) (sb_inputs s)).2 = Ok bs.

(** The result of [k] was stored by the submission [s], within its limits. *)
Definition stored_by (k : StageResultKey) (cr : CachedStageResult RecordBatch) (s : submission) : Prop :=
  k = StageResultKey_new (Proto.req_query_id (sb_request s)) (Proto.req_stage_id (sb_request s)) /\
  sb_job s = JobDone (Ok (cr_batches cr)) /\
  check_stage_limits (sb_request s) (total_rows_of (cr_batches cr)) (total_bytes_of (cr_batches cr)) = Ok tt /\
  sb_pc s = Answered (submit_response encode_response (sb_request s) (cr_stats cr)).

Record flight_inv (st0 : service) (l : list FlightAction) (st : service) : Prop := {
  inv_tenant : sv_tenant_id st = sv_tenant_id st0;
  inv_next : forall id, is_Some (sv_submissions st !! id) -> (id < sv_next st)%nat;
  inv_subs : forall id s, sv_submissions st !! id = Some s ->
    Proto.tenant_id (sb_request s) = sv_tenant_id st0 /\ (forall bs, sb_job s = JobDone (Ok bs) -> stage_answer st0 l s bs) /\
    (sb_pc s = Inserted -> sb_job s = NotSpawned) /\
    (Proto.req_stage_sql (sb_request s) = EmptyString -> sb_job s = JobDone (Ok []));
  inv_results : forall k cr, sv_stage_results st !! k = Some cr ->
    exists id s, sv_submissions st !! id = Some s /\ stored_by k cr s;
  inv_active : forall k id, sv_active_stages st !! k = Some id ->
    exists s, sv_submissions st !! id = Some s /\ stage_key (sb_request s) = k /\ (sb_pc s = Inserted \/ sb_pc s = Spawned);
}.

(** What a step may do to a submission. *)
Record grows (st0 : service) (l : list FlightAction) (s s' : submission) : Prop := {
  gr_request : sb_request s' = sb_request s;
  gr_inputs : sb_inputs s' = sb_inputs s;
  gr_job : forall bs, sb_job s' = JobDone (Ok bs) -> sb_job s = JobDone (Ok bs) \/ stage_answer st0 l s bs;
  gr_done : forall r, sb_job s = JobDone r -> sb_job s' = JobDone r;
  gr_answered : forall a, sb_pc s = Answered a -> sb_pc s' = Answered a;
  gr_inserted : sb_pc s' = Inserted -> sb_pc s = Inserted /\ sb_job s' = sb_job s;
}.

Lemma grows_same st0 l s s' : same_work s s' -> grows st0 l s s'.
Proof. intros (Hr & Hi & Hp & Hj). split; try congruence; [intros bs; rewrite Hj; by left|by rewrite Hp]. Qed.

Lemma stage_answer_grows st0 l l' s s' bs :
  l `prefix_of` l' -> sb_request s' = sb_request s -> sb_inputs s' = sb_inputs s ->
  stage_answer st0 l s bs -> stage_answer st0 l' s' bs.
Proof.
  intros Hl Hr Hi. unfold stage_answer. rewrite Hr, Hi. case_bool_decide; [done|].
  intros (l1 & st1 & call & Hl1 & Hrun & Hq). exists l1, st1, call. split; [by etrans|done].
Qed.

Lemma stored_by_grows st0 l k cr s s' : grows st0 l s s' -> stored_by k cr s -> stored_by k cr s'.
Proof.
  intros Hg (Hk & Hj & Hc & Hp). unfold stored_by. rewrite (gr_request _ _ _ _ Hg). split_and!; [done| |done|].
  - by apply (gr_done _ _ _ _ Hg).
  - by apply (gr_answered _ _ _ _ Hg).
Qed.

(** The invariant follows from what a step does to each part. *)
Lemma inv_step st0 l l' (st st' : service) :
  flight_inv st0 l st -> l `prefix_of` l' ->
  sv_tenant_id st' = sv_tenant_id st -> sv_next st' = sv_next st ->
  (forall id, match sv_submissions st !! id with
              | None => sv_submissions st' !! id = None
              | Some s => exists s', sv_submissions st' !! id = Some s' /\ grows st0 l' s s'
              end) ->
  (forall k cr, sv_stage_results st' !! k = Some cr -> sv_stage_results st !! k = Some cr \/
     exists id s', sv_submissions st' !! id = Some s' /\ stored_by k cr s') ->
  (forall k id s s', sv_active_stages st' !! k = Some id -> sv_submissions st !! id = Some s ->
     sv_submissions st' !! id = Some s' ->
     sv_active_stages st !! k = Some id /\ (sb_pc s' = sb_pc s \/ sb_pc s' = Spawned)) ->
  (forall k id, sv_active_stages st' !! k = Some id -> sv_active_stages st !! k = Some id) ->
  flight_inv st0 l' st'.
Proof.
  intros [It In Is Ir Ia] Hl Ht Hn Hs Hr Ha Hk. split.
  - congruence.
  - intros id [s' Hs']. rewrite Hn. apply In. specialize (Hs id). destruct (sv_submissions st !! id) as [s|]; [by eexists|congruence].
  - intros id s' Hs'. specialize (Hs id). destruct (sv_submissions st !! id) as [s|] eqn:Es; [|congruence].
    destruct Hs as (s1 & Hs1 & Hg). rewrite Hs' in Hs1. injection Hs1 as <-. destruct (Is _ _ Es) as (Htn & Hj & Hnew & Hempty).
    rewrite (gr_request _ _ _ _ Hg). split_and!; [done| | |].
    2: { intros [Hp Hj']%(gr_inserted _ _ _ _ Hg). rewrite Hj'. by apply Hnew. }
    2: { intros He. by apply (gr_done _ _ _ _ Hg), Hempty. }
    intros bs [Hb|Hb]%(gr_job _ _ _ _ Hg); [apply Hj in Hb|];
      (eapply stage_answer_grows; [| | |exact Hb]); by first [apply Hg|done].
  - intros k cr [Hc|Hc]%Hr; [|done]. destruct (Ir _ _ Hc) as (id & s & Es & Hst). specialize (Hs id). rewrite Es in Hs.
    destruct Hs as (s' & Hs' & Hg). exists id, s'. split; [done|]. by eapply stored_by_grows.
  - intros k id Hak. destruct (Ia _ _ (Hk _ _ Hak)) as (s & Es & Hkey & Hpc). specialize (Hs id). rewrite Es in Hs.
    destruct Hs as (s' & Hs' & Hg). exists s'. split; [done|]. rewrite <- Hkey. split.
    { unfold stage_key. by rewrite (gr_request _ _ _ _ Hg). }
    destruct (Ha _ _ _ _ Hak Es Hs') as [_ [->| ->]]; [done|by right].
Qed.

(** The step of one submission. *)
Lemma lookup_set st0 l (subs : gmap nat submission) i s1 s1' :
  subs !! i = Some s1 -> grows st0 l s1 s1' ->
  forall id, match subs !! id with
             | None => <[i := s1']> subs !! id = None
             | Some s => exists s', <[i := s1']> subs !! id = Some s' /\ grows st0 l s s'
             end.
Proof.
  intros Hi Hg id. destruct (decide (id = i)) as [->|Hne].
  - rewrite Hi, lookup_insert_eq. by exists s1'.
  - rewrite lookup_insert_ne by done. destruct (subs !! id) as [s|]; [|done]. exists s. split; [done|]. by apply grows_same.
Qed.

Lemma lookup_set_pc (subs : gmap nat submission) i s1 s1' :
  subs !! i = Some s1 -> (sb_pc s1' = sb_pc s1 \/ sb_pc s1' = Spawned) ->
  forall id s s', subs !! id = Some s -> <[i := s1']> subs !! id = Some s' -> sb_pc s' = sb_pc s \/ sb_pc s' = Spawned.
Proof.
  intros Hi Hg id s s'. destruct (decide (id = i)) as [->|Hne].
  - rewrite Hi, lookup_insert_eq. by intros [= ->] [= ->].
  - rewrite lookup_insert_ne by done. intros -> [= ->]. by left.
Qed.

(** A step that keeps the results and the active stages. *)
Lemma inv_set st0 l a (st st' : service) i s1 s1' :
  flight_inv st0 l st -> sv_submissions st !! i = Some s1 -> grows st0 (l ++ [a]) s1 s1' ->
  (sb_pc s1' = sb_pc s1 \/ sb_pc s1' = Spawned \/ forall k, sv_active_stages st !! k <> Some i) ->
  sv_tenant_id st' = sv_tenant_id st -> sv_next st' = sv_next st -> sv_submissions st' = <[i := s1']> (sv_submissions st) ->
  (forall k cr, sv_stage_results st' !! k = Some cr -> sv_stage_results st !! k = Some cr \/ stored_by k cr s1') ->
  sv_active_stages st' = sv_active_stages st -> flight_inv st0 (l ++ [a]) st'.
Proof.
  intros Hinv Hi Hg Hpc Ht Hn Hs Hr Ha. eapply inv_step; try eassumption.
  - by apply prefix_app_r.
  - rewrite Hs. by eapply lookup_set.
  - intros k cr [Hc|Hc]%Hr; [by left|right]. exists i, s1'. rewrite Hs. by rewrite lookup_insert_eq.
  - rewrite Ha, Hs. intros k id s s' Hk Es Es'. split; [done|]. destruct Hpc as [Hpc|[Hpc|Hno]].
    + eapply (lookup_set_pc _ i); [exact Hi|by left|exact Es|exact Es'].
    + eapply (lookup_set_pc _ i); [exact Hi|by right|exact Es|exact Es'].
    + destruct (decide (id = i)) as [->|Hne]; [by destruct (Hno k)|].
      rewrite lookup_insert_ne in Es' by done. left. congruence.
  - by rewrite Ha.
Qed.

(** A submission that waits or has answered is not among the active stages. *)
Lemma waiting_inactive st0 l (st : service) id s :
  flight_inv st0 l st -> sv_submissions st !! id = Some s -> sb_pc s <> Inserted -> sb_pc s <> Spawned ->
  forall k, sv_active_stages st !! k <> Some id.
Proof. intros Hinv Es Hi Hs k Hk. destruct (inv_active _ _ _ Hinv _ _ Hk) as (s' & Es' & _ & [|]); congruence. Qed.

Lemma frun_snoc (st : service) l a : frun st (l ++ [a]) = frun st l ≫= fun st' => fstep st' a.
Proof.
  revert st. induction l as [|b l IH]; intros st; simpl; [by destruct (FlightService.fstep _ _ _ st a)|].
  destruct (FlightService.fstep _ _ _ st b); simpl; [apply IH|done].
Qed.
(** ** It is preserved *)

Lemma accept_submit_tenant (st : service) body r ins :
  accept_submit decode_request ipc_read st body = Ok (r, ins) -> Proto.tenant_id r = sv_tenant_id st.
Proof.
  unfold accept_submit. destruct (deserialize_submit_stage_request decode_request body) as [r'|e]; [|done].
  unfold validate_tenant. case_bool_decide as Ht; simpl; [done|].
  destruct (deserialize_exchange_inputs _ _ _) as [ins'|e]; [|done]. by intros [= -> ->].
Qed.

Lemma inv_submit st0 l (st st' : service) body :
  flight_inv st0 l st -> begin_submit decode_request ipc_read st body = Ok st' -> flight_inv st0 (l ++ [Submit body]) st'.
Proof.
  intros Hinv. pose proof Hinv as [It In Is Ir Ia]. unfold begin_submit.
  destruct (accept_submit _ _ st body) as [[r ins]|e] eqn:Ea; simpl; [|done]. apply accept_submit_tenant in Ea.
  assert (Hfresh : sv_submissions st !! sv_next st = None).
  { destruct (sv_submissions st !! sv_next st) eqn:E; [|done]. assert (sv_next st < sv_next st)%nat; [apply In; by eexists|lia]. }
  assert (Hold : forall (s1 : submission) id s, sv_submissions st !! id = Some s ->
    <[sv_next st := s1]> (sv_submissions st) !! id = Some s).
  { intros s1 id s Es. rewrite lookup_insert_ne; [done|]. intros <-. congruence. }
  intros [= <-]. split; simpl.
  - done.
  - intros id [s Es]. destruct (decide (id = sv_next st)) as [->|Hne]; [lia|]. rewrite lookup_insert_ne in Es by done.
    enough (id < sv_next st)%nat by lia. apply In. by eexists.
  - intros id s Es. destruct (decide (id = sv_next st)) as [->|Hne].
    + rewrite lookup_insert_eq in Es. injection Es as <-. simpl. split; [congruence|].
      unfold stage_answer. simpl. by case_bool_decide; split_and!; [intros bs [= <-]| | | | |].
    + rewrite lookup_insert_ne in Es by done. destruct (Is _ _ Es) as (Ht & Hj & Hrest). split; [done|]. split; [|done]. intros bs Hb.
      eapply stage_answer_grows; [by apply prefix_app_r|reflexivity|reflexivity|by apply Hj].
  - intros k cr (id & s & Es & Hst)%Ir. exists id, s. by eauto.
  - intros k id Hk. case_bool_decide as He.
    { destruct (Ia _ _ Hk) as (s & Es & Hs). exists s. by eauto. }
    destruct (decide (k = stage_key r)) as [->|Hne].
    + rewrite lookup_insert_eq in Hk. injection Hk as <-. rewrite lookup_insert_eq. eexists. split; [done|]. by split; [|left].
    + rewrite lookup_insert_ne in Hk by done. destruct (Ia _ _ Hk) as (s & Es & Hs). exists s. by eauto.
Qed.

(** A step of its own phase or of its job keeps what a submission has. *)
Lemma grows_at st0 l s pc j :
  (forall a, sb_pc s = Answered a -> pc = Answered a) -> (forall r, sb_job s = JobDone r -> j = JobDone r) ->
  (forall bs, j = JobDone (Ok bs) -> sb_job s = JobDone (Ok bs) \/ stage_answer st0 l s bs) ->
  (pc = Inserted -> sb_pc s = Inserted /\ j = sb_job s) ->
  grows st0 l s (at_submit s pc j).
Proof. intros Hp Hd Hj Hi. by split. Qed.

Lemma start_job_grows st0 l s pool : sb_job s = JobQueued -> sb_pc s <> Inserted ->
  grows st0 l s (start_job s pool) /\ sb_pc (start_job s pool) = sb_pc s.
Proof.
  intros Hq Hn. unfold start_job. destruct pool as [[]|e]; simpl; [|by split; [apply grows_at; [done|congruence|done|done]|]].
  destruct (sb_cancelled s); (split; [|done]); split; simpl; congruence.
Qed.

Lemma finish_submit_stores (results results' : gmap StageResultKey (CachedStageResult RecordBatch)) now ms s r a :
  sb_job s = JobDone r -> finish_submit encode_response results now ms (sb_request s) r = (results', a) ->
  forall k cr, results' !! k = Some cr -> results !! k = Some cr \/ stored_by k cr (at_submit s (Answered a) (JobDone r)).
Proof.
  intros Hj. unfold finish_submit. destruct r as [bs|e]; [|by intros [= <- <-]; left].
  destruct (check_stage_limits _ _ _) as [[]|e] eqn:Hc; [|by intros [= <- <-]; left].
  intros [= <- <-] k cr. unfold store_store.
  destruct (decide (k = StageResultKey_new (Proto.req_query_id (sb_request s)) (Proto.req_stage_id (sb_request s)))) as [->|Hne].
  - rewrite lookup_insert_eq. intros [= <-]. right. by split_and!.
  - rewrite lookup_insert_ne by done. by left.
Qed.

Lemma inv_sub_step st0 l a (st st' : service) id s s' :
  st' = set_submission st id s' -> flight_inv st0 l st -> sv_submissions st !! id = Some s ->
  grows st0 (l ++ [a]) s s' ->
  (sb_pc s' = sb_pc s \/ sb_pc s' = Spawned \/ forall k, sv_active_stages st !! k <> Some id) ->
  flight_inv st0 (l ++ [a]) st'.
Proof. intros -> Hinv Es Hg Hpc. by eapply inv_set; eauto. Qed.

(** A queued or running job belongs to a spawned submission with SQL. *)
Lemma working st0 l (st : service) id s :
  flight_inv st0 l st -> sv_submissions st !! id = Some s -> sb_job s = JobQueued \/ sb_job s = JobRunning ->
  sb_pc s <> Inserted /\ Proto.req_stage_sql (sb_request s) <> EmptyString.
Proof.
  intros Hinv Es Hj. destruct (inv_subs _ _ _ Hinv _ _ Es) as (_ & _ & Hn & He).
  split; [intros Hp%Hn|intros Hp%He]; destruct Hj; congruence.
Qed.

(** A step that leaves the submissions and the active stages, and stores
    nothing. *)
Lemma inv_quiet st0 l a (st st' : service) :
  flight_inv st0 l st -> sv_tenant_id st' = sv_tenant_id st -> sv_next st' = sv_next st ->
  sv_submissions st' = sv_submissions st -> sv_active_stages st' = sv_active_stages st ->
  (forall k cr, sv_stage_results st' !! k = Some cr -> sv_stage_results st !! k = Some cr) ->
  flight_inv st0 (l ++ [a]) st'.
Proof.
  intros Hinv Ht Hn Hs Ha Hr. eapply inv_step; [exact Hinv|by apply prefix_app_r|done|done| |by left; apply Hr| |by rewrite Ha].
  - intros id. rewrite Hs. destruct (sv_submissions st !! id) as [s|]; [|done]. exists s. split; [done|]. by apply grows_same.
  - rewrite Ha, Hs. intros k id s s' Hk Es Es'. split; [done|]. left. congruence.
Qed.

Lemma inv_cancel st0 l (st : service) body :
  flight_inv st0 l st -> flight_inv st0 (l ++ [Cancel body]) (handle_cancel_query st body).1.
Proof.
  intros Hinv. pose proof (handle_cancel_query_lookup st body) as Hl.
  assert (Hsame : forall id s s', sv_submissions st !! id = Some s ->
    sv_submissions (handle_cancel_query st body).1 !! id = Some s' -> same_work s s').
  { intros id s s' Es Es'. specialize (Hl id). rewrite Es in Hl. destruct Hl as (s1 & Es1 & Hw & _). congruence. }
  assert (Ha : sv_active_stages (handle_cancel_query st body).1 = sv_active_stages st)
    by (unfold handle_cancel_query; by destruct (cancel_request body)).
  eapply inv_step; [exact Hinv|by apply prefix_app_r| | | | | |by rewrite Ha].
  - unfold handle_cancel_query. by destruct (cancel_request body).
  - unfold handle_cancel_query. by destruct (cancel_request body).
  - intros id. specialize (Hl id). destruct (sv_submissions st !! id) as [s|]; [|done].
    destruct Hl as (s' & Es' & Hw & _). exists s'. split; [done|]. by apply grows_same.
  - intros k cr Hc. left. unfold handle_cancel_query, store_cancel in Hc. destruct (cancel_request body); simpl in Hc; [|done].
    by apply map_lookup_filter_Some in Hc as [Hc _].
  - rewrite Ha. intros k id s s' Hk Es Es'. split; [done|]. left. by destruct (Hsame _ _ _ Es Es') as (_ & _ & -> & _).
Qed.

Lemma inv_fstep st0 l a (st st' : service) :
  frun st0 l = Some st -> flight_inv st0 l st -> fstep st a = Some st' -> flight_inv st0 (l ++ [a]) st'.
Proof.
  intros Hrun Hinv. unfold FlightService.fstep.
  destruct a as [body|id|id|id pool|id call|id e|id|id now ms|body|now].
  - destruct (begin_submit _ _ st body) as [st1|e] eqn:Eb; intros [= <-]; [by eapply inv_submit|].
    by eapply inv_quiet.
  - destruct (sv_submissions st !! id) as [s|] eqn:Es; simpl; [|done]. destruct (sb_pc s) eqn:Ep; try done. intros [= <-].
    destruct (inv_subs _ _ _ Hinv _ _ Es) as (_ & _ & Hnew & _). specialize (Hnew Ep).
    eapply (inv_sub_step _ _ _ _ _ id s); [reflexivity|exact Hinv|exact Es| |right; by left].
    by apply grows_at; [congruence|congruence| |].
  - destruct (sv_submissions st !! id) as [s|] eqn:Es; simpl; [|done]. destruct (sb_pc s) eqn:Ep; try done. intros [= <-].
    eapply inv_step; simpl; try done; [by apply prefix_app_r| |by left| |].
    + eapply lookup_set; [exact Es|]. by apply grows_at; [congruence|done|left|].
    + intros k id' s1 s1' Hk Es1 Es1'. apply lookup_delete_Some in Hk as [Hne Hk]. split; [done|].
      destruct (inv_active _ _ _ Hinv _ _ Hk) as (s2 & Es2 & Hkey & _).
      rewrite lookup_insert_ne in Es1'; [left; congruence|]. intros <-. apply Hne. congruence.
    + intros k id' Hk. by apply lookup_delete_Some in Hk as [_ Hk].
  - destruct (sv_submissions st !! id) as [s|] eqn:Es; simpl; [|done]. destruct (sb_job s) eqn:Ej; try done. intros [= <-].
    destruct (working _ _ _ _ _ Hinv Es (or_introl Ej)) as [Hw _].
    destruct (start_job_grows st0 (l ++ [StartJob id pool]) s pool Ej Hw) as [Hg Hp].
    by eapply (inv_sub_step _ _ _ _ _ id s); eauto.
  - destruct (sv_submissions st !! id) as [s|] eqn:Es; simpl; [|done]. destruct (sb_job s) eqn:Ej; try done.
    destruct (working _ _ _ _ _ Hinv Es (or_intror Ej)) as [Hw Hsql].
    destruct (flight_run_sql call (sv_conn st) _ _) as [conn r] eqn:Eq. intros [= <-].
    eapply (inv_set st0 l _ st _ id s); try done; [|by left|by left].
    apply grows_at; [done|congruence| |done]. intros bs [= ->]. right. unfold stage_answer.
    rewrite bool_decide_false by done. exists l, st, call. split_and!; [by apply prefix_app_r|done|by rewrite Eq].
  - destruct (sv_submissions st !! id) as [s|] eqn:Es; simpl; [|done]. destruct (sb_job s) eqn:Ej; try done.
    destruct (working _ _ _ _ _ Hinv Es (or_intror Ej)) as [Hw Hsql].
    destruct (sb_interrupted s); [|done]. intros [= <-].
    eapply (inv_sub_step _ _ _ _ _ id s); [reflexivity|exact Hinv|exact Es| |by left]. by apply grows_at; [|congruence| |].
  - destruct (sv_submissions st !! id) as [s|] eqn:Es; simpl; [|done]. destruct (sb_pc s) eqn:Ep; try done.
    assert (Hw : forall k, sv_active_stages st !! k <> Some id) by (eapply waiting_inactive; [exact Hinv|exact Es| |]; congruence).
    destruct (sb_job s) eqn:Ej; try done; intros [= <-];
      (eapply (inv_sub_step _ _ _ _ _ id s); [reflexivity|exact Hinv|exact Es| |by do 2 right]);
      by apply grows_at; [congruence|congruence| |].
  - destruct (sv_submissions st !! id) as [s|] eqn:Es; simpl; [|done]. destruct (sb_pc s) eqn:Ep; try done.
    assert (Hw : forall k, sv_active_stages st !! k <> Some id) by (eapply waiting_inactive; [exact Hinv|exact Es| |]; congruence).
    destruct (sb_job s) as [| | |r] eqn:Ej; try done.
    destruct (finish_submit _ _ now ms _ r) as [results answer] eqn:Ef. intros [= <-].
    eapply (inv_set st0 l _ st _ id s); try done.
    + apply grows_at; [congruence|congruence| |done]. intros bs [= ->]. by left.
    + by do 2 right.
    + simpl. by eapply finish_submit_stores.
  - intros [= <-]. by apply inv_cancel.
  - intros [= <-]. eapply inv_quiet; try done. intros k cr [Hc _]%map_lookup_filter_Some. exact Hc.
Qed.

Lemma new_inv t tenant conn : flight_inv (WorkerFlightService_new t tenant conn) [] (WorkerFlightService_new t tenant conn).
Proof. split; simpl; [done|by intros ? [? ?]|done|done|done]. Qed.

Lemma reached_inv t tenant conn l : forall (st : service),
  frun (WorkerFlightService_new t tenant conn) l = Some st -> flight_inv (WorkerFlightService_new t tenant conn) l st.
Proof.
  induction l as [|a l IH] using rev_ind; intros st; [intros [= <-]; apply new_inv|].
  rewrite frun_snoc. destruct (frun _ l) as [st1|] eqn:E; simpl; [|done]. intros Hs. eapply inv_fstep; [exact E|by apply IH|exact Hs].
Qed.

(** ** Theorems *)

(** C21: whatever submissions, cancellations and evictions came before, a
    [do_get] that is answered is of the worker's tenant; a stage ticket, which
    then names no partition, gets the batches of a submission of that very
    query and stage, by that tenant, within its limits, and they are what the
    database answered to the SQL of the stage with its inputs. *)
Theorem flight_get_sound (t : SqlTransformer) (tenant : string) (conn : Db) (l : list FlightAction) (st : service)
    (q : Q) (bytes : list Z) msgs :
  frun (WorkerFlightService_new t tenant conn) l = Some st ->
  do_get st q bytes = Ok msgs ->
  exists ticket, FlightTicket_decode bytes = Ok ticket /\ ticket_tenant_id ticket = tenant /\
    forall s, ticket = StageResultT s -> srt_partition s = None /\
      exists id sub bs, msgs = map Ok bs /\ sv_submissions st !! id = Some sub /\
        Proto.tenant_id (sb_request sub) = tenant /\ stage_key (sb_request sub) = (srt_query_id s, srt_stage_id s) /\
        check_stage_limits (sb_request sub) (total_rows_of bs) (total_bytes_of bs) = Ok tt /\
        stage_answer (WorkerFlightService_new t tenant conn) l sub bs.
Proof.
  intros Hrun Hget. apply reached_inv in Hrun as [It In Is Ir Ia]. simpl in It. unfold FlightService.do_get in Hget.
  destruct (FlightTicket_decode bytes) as [ticket|e]; [|done]. exists ticket. split; [done|].
  unfold validate_tenant in Hget. case_bool_decide as Ht; simpl in Hget; [done|]. split; [congruence|].
  intros s ->. unfold handle_stage_result_do_get, store_get_batches in Hget.
  destruct (sv_stage_results st !! from_ticket s) as [cr|] eqn:Ec; simpl in Hget; [|done]. injection Hget as <-.
  destruct (Ir _ _ Ec) as (id & sub & Es & [= Hq Hid Hp] & Hj & Hc & _). destruct (Is _ _ Es) as (Htn & Ha & _).
  split; [done|]. exists id, sub, (cr_batches cr). split_and!; try done; [|by apply Ha].
  unfold stage_key. congruence.
Qed.

(** The ticket in the response to a submission is the text of a stage ticket
    without the tag of [FlightTicket]: every [do_get] with it is refused. *)
Theorem submitted_ticket_refused (decode_response : list Z -> result Proto.SubmitStageResponse string)
    (prost : forall resp out, encode_response resp = Ok out -> decode_response out = Ok resp)
    results results' now elapsed_ms (r : Proto.SubmitStageRequest) (executed : result (list RecordBatch) string) out :
  finish_submit encode_response results now elapsed_ms r executed = (results', Ok out) ->
  exists resp, deserialize_submit_stage_response decode_response out = Ok resp /\
    forall (st : service) (q : Q), do_get st q (Proto.result_ticket resp) =
      Err (status_of_ticket_error (DeserializationFailed (MissingField "type"))).
Proof.
  unfold finish_submit. destruct executed as [bs|e]; [|done]. destruct (check_stage_limits _ _ _) as [[]|e]; [|done].
  intros [= _ Hresp]. unfold submit_response, StageResultTicket_encode in Hresp.
  unfold serialize_submit_stage_response in Hresp. destruct (encode_response _) as [buf|e] eqn:Ee; [|done].
  injection Hresp as <-. apply prost in Ee. eexists. unfold deserialize_submit_stage_response. rewrite Ee. split; [reflexivity|].
  intros st q. unfold FlightService.do_get. simpl Proto.result_ticket. by erewrite stage_result_refused.
Qed.

(** No cancellation reaches a submission that waits for its job: it has left
    the active stages before. *)
Theorem running_stage_not_cancelled t tenant (conn : Db) l (st : service) id s body :
  frun (WorkerFlightService_new t tenant conn) l = Some st ->
  sv_submissions st !! id = Some s -> sb_pc s = Awaiting ->
  sv_submissions (handle_cancel_query st body).1 !! id = Some s.
Proof.
  intros Hinv%reached_inv Es Hp. pose proof (handle_cancel_query_lookup st body id) as Hl. rewrite Es in Hl.
  destruct Hl as (s' & -> & _ & Hs'). rewrite Hs'; [done|]. eapply waiting_inactive; [exact Hinv|exact Es| |]; congruence.
Qed.
End sound.

(** ** Examples *)

#[local] Existing Instance Table.arrow.
#[local] Existing Instance MemDb.duckdb.
#[local] Existing Instance MemDb.fields_of.
#[local] Existing Instance demo_std.
#[local] Existing Instance demo_order.
#[local] Existing Instance Civil.ops.
#[local] Existing Instance demo_debug.
#[local] Existing Instance JsonText.serde.
#[local] Existing Instance JsonText.serde_laws.

#[local] Instance no_parser : SqlParser := {|
  parse_statements _ := Err "";
  display_statement _ := "";
|}.

#[local] Instance no_engine : QueryEngine unit Table.t (list (string * DataType)) := {|
  qe_table_schema _ t := Err (QE_TableNotFound t);
  qe_execute_query _ _ _ _ := Ok [];
|}.

Definition demo_request : Proto.SubmitStageRequest :=
  Proto.mkSubmit "acme" "q1" 1 "SELECT * FROM sales_e1" None [].
Definition demo_decode (body : list Z) : result Proto.SubmitStageRequest string := Ok demo_request.
Definition demo_encode (resp : Proto.SubmitStageResponse) : result (list Z) string := Ok [0].
Definition demo_ipc (stream : list Z) : result (list Table.t) string := Ok [].

Abbreviation demo_frun := (frun demo_decode demo_encode demo_ipc).

Definition demo_service : @WorkerFlightService Table.t MemDb.db := WorkerFlightService_new SqlTransformer_new "acme" demo_main.

(** One submission, from the request to the response. *)
Definition demo_submission : list FlightAction :=
  [Submit []; SpawnJob 0; Deregister 0; StartJob 0 (Ok tt); RunJob 0 []; FinishStage 0 10 5].

Definition demo_get (st : @WorkerFlightService Table.t MemDb.db) (ticket : FlightTicket) :=
  do_get (fun e => QueryError_display e) st tt (to_vec (ticket_json ticket)).

Definition demo_reached (l : list FlightAction) : @WorkerFlightService Table.t MemDb.db := default demo_service (demo_frun demo_service l).

Lemma flight_get_sound_witness :
  demo_get (demo_reached demo_submission) (ticket_stage_result "acme" "q1" 1) = Ok [Ok (id_batch [7])] /\
  exists ticket, FlightTicket_decode (to_vec (ticket_json (ticket_stage_result "acme" "q1" 1))) = Ok ticket /\
    ticket_tenant_id ticket = "acme".
Proof.
  assert (Hrun : demo_frun demo_service demo_submission = Some (demo_reached demo_submission)) by (vm_compute; reflexivity).
  assert (Hget : demo_get (demo_reached demo_submission) (ticket_stage_result "acme" "q1" 1) = Ok [Ok (id_batch [7])])
    by (vm_compute; reflexivity).
  split; [exact Hget|].
  destruct (flight_get_sound demo_decode demo_encode demo_ipc (fun e => QueryError_display e) SqlTransformer_new "acme" demo_main
    _ _ tt _ _ Hrun Hget) as (ticket & Hd & Ht & _).
  exists ticket. split; [exact Hd|exact Ht].
Defined.

(** The stage of a cancelled query keeps running, and its result is stored and
    served afterwards. *)
Theorem cancelled_result_is_served :
  let cancel := Cancel (to_vec (JObject [("query_id", JString "q1")])) in
  (fun st => demo_get st (ticket_stage_result "acme" "q1" 1)) <$>
    demo_frun demo_service [Submit []; SpawnJob 0; Deregister 0; StartJob 0 (Ok tt); cancel; RunJob 0 []; FinishStage 0 10 5] =
  Some (Ok [Ok (id_batch [7])]).
Proof. vm_compute. reflexivity. Qed.

(** A cancellation names a query and no tenant: anyone's removes the results
    of the query. *)
Theorem cancel_without_tenant :
  let st := (handle_cancel_query (demo_reached demo_submission) (to_vec (JObject [("query_id", JString "q1")]))).1 in
  size (sv_stage_results (demo_reached demo_submission)) = 1%nat /\ size (sv_stage_results st) = 0%nat.
Proof. split; vm_compute; reflexivity. Qed.

(** A codec of responses. *)
Definition response_tuple (r : Proto.SubmitStageResponse) : bool * string * list Z * option (Z * Z * Z) :=
  (Proto.success r, Proto.error_message r, Proto.result_ticket r,
   (fun s => (Proto.rows_produced s, Proto.bytes_produced s, Proto.execution_time_ms s)) <$> Proto.stats r).

Definition response_of_tuple (t : bool * string * list Z * option (Z * Z * Z)) : Proto.SubmitStageResponse :=
  Proto.mkResponse t.1.1.1 t.1.1.2 t.1.2 ((fun s => Proto.mkStageStats s.1.1 s.1.2 s.2) <$> t.2).

Definition counted_encode (r : Proto.SubmitStageResponse) : result (list Z) string := Ok [Z.pos (encode (response_tuple r))].
Definition counted_decode (bytes : list Z) : result Proto.SubmitStageResponse string :=
  match bytes with
  | [Z.pos p] => match decode p with Some t => Ok (response_of_tuple t) | None => Err "" end
  | _ => Err ""
  end.

Lemma counted_prost resp out : counted_encode resp = Ok out -> counted_decode out = Ok resp.
Proof. intros [= <-]. unfold counted_decode. rewrite decode_encode. by destruct resp as [? ? ? [[? ? ?]|]]. Qed.

Lemma submitted_ticket_refused_witness :
  exists out resp, (finish_submit counted_encode ∅ 10 5 demo_request (Ok [id_batch [7]])).2 = Ok out /\
    deserialize_submit_stage_response counted_decode out = Ok resp /\
    do_get (fun e => QueryError_display e) demo_service tt (Proto.result_ticket resp) =
      Err (status_of_ticket_error (DeserializationFailed (MissingField "type"))).
Proof.
  destruct (submitted_ticket_refused (Db := MemDb.db) (Q := unit) counted_encode (fun e => QueryError_display e) counted_decode counted_prost
    ∅ _ 10 5 demo_request (Ok [id_batch [7]]) _ eq_refl) as (resp & Hd & Hget).
  eexists _, resp. split; [reflexivity|]. split; [exact Hd|exact (Hget demo_service tt)].
Defined.
