(* ===== verification/ControlPlane.v ===== *)
(** * The control plane's messages (worker-cp/src/types.rs, proto_convert.rs)

    Load assignments and commands arrive as protobuf messages and become domain
    types; status updates and heartbeats go the other way.  A message is its
    prost struct (worker-proto/src/proto/control_plane.rs, common.rs); the
    event id, a random UUID, is an argument. *)

From S2P Require Import Prelude Arrow DuckDb EpochEngine.

#[local] Open Scope Z_scope.

(** [i64] arithmetic wraps; [as u16], [as u32] truncate. *)
Definition wrap_i64 (z : Z) : Z := (z + 2 ^ 63) mod u64_modulus - 2 ^ 63.
Definition wrap16 (z : Z) : Z := z mod 2 ^ 16.

(** ** Domain types *)

Record TimeRange := mkTimeRange { start_inclusive_ns : Z; end_exclusive_ns : Z }.

(** Division of [i64] truncates towards zero. *)
Definition start_secs (r : TimeRange) : Z := Z.quot (start_inclusive_ns r) 1000000000.
Definition end_secs (r : TimeRange) : Z := Z.quot (end_exclusive_ns r) 1000000000.

Record PoolOptions := mkPoolOptions {
  min_connections : Z; max_connections : Z; connect_timeout_ms : Z; idle_timeout_ms : Z }.

Definition PoolOptions_default : PoolOptions := mkPoolOptions 1 16 5000 600000.

Inductive CatalogInfo :=
| Iceberg (uri : string)
| StarRocks (catalog_name host : string) (port : Z) (database username password : string)
    (max_concurrency : option Z) (pool_options : option PoolOptions)
| Jdbc (uri driver : string) (pool_options : option PoolOptions).

Record DataSourceInfo := mkDataSourceInfo {
  dsi_catalog : CatalogInfo; dsi_database : string; dsi_table : string; dsi_version : option string }.

Record LoadAssignment := mkLoadAssignment {
  la_dataset_id : string;
  la_epoch_id : string;
  la_plan_id : string;
  destination_table_name : string;
  la_source : DataSourceInfo;
  arrow_schema_bytes : list Z;
  la_time_range : option TimeRange;
  la_time_column_name : string;
  la_time_partition_value : string;
  la_dimension_values : gmap string string;
}.

Inductive EpochPhase := PhaseLoading | PhaseActive | PhaseEvicting.

#[export] Instance EpochPhase_eq_dec : EqDecision EpochPhase.
Proof. solve_decision. Defined.

Abbreviation EpochKey := (string * string)%type.

Inductive ControlCommand :=
| Assignment (a : LoadAssignment)
| EvictEpoch (dataset_id epoch_id reason : string)
| Drain
| UnknownCommand (event_type : string).

Inductive LoadStatus := InProgress | Completed | StatusFailed.

Inductive OutgoingPayload :=
| StatusUpdate (dataset_id epoch_id : string) (status : LoadStatus) (error : option string)
| Heartbeat.

(** ** Messages *)

Record PbTimestamp := mkPbTimestamp { seconds : Z; nanos : Z }.
Record PbTimeRange := mkPbTimeRange { start_inclusive : option PbTimestamp; end_exclusive : option PbTimestamp }.

Record PbPoolOptions := mkPbPoolOptions {
  pb_max_connections : option Z; pb_min_connections : option Z; pb_acquire_timeout_ms : option Z;
  pb_connect_timeout_ms : option Z; pb_idle_timeout_ms : option Z; pb_max_lifetime_ms : option Z; pb_batch_size : option Z }.

Inductive PbCatalogType :=
| PbIceberg (uri : string)
| PbStarRocks (catalog_name host : string) (port : Z) (database username password : string)
    (max_concurrency : Z) (pool_options : option PbPoolOptions)
| PbJdbc (uri driver : string) (pool_options : option PbPoolOptions).

Record PbCatalog := mkPbCatalog { catalog_type : option PbCatalogType }.

(** [DataSource], less its partition, which is not read. *)
Record PbDataSource := mkPbDataSource {
  pb_catalog : option PbCatalog; pb_database : string; pb_table : string; pb_version : option string }.

Record PbResolvedPartition := mkPbResolvedPartition {
  rp_time_range : option PbTimeRange; rp_time_column_name : string; rp_time_partition_value : string;
  rp_dimension_values : gmap string string }.

Record PbLoadPlan := mkPbLoadPlan {
  lp_plan_id : string; lp_source : option PbDataSource; lp_destination_table_name : string;
  lp_arrow_schema : list Z; lp_resolved_partition : option PbResolvedPartition }.

Record DataAssignmentEvent := mkDataAssignmentEvent {
  da_dataset_id : string; da_epoch_id : string; load_plan : option PbLoadPlan }.

(** [google.protobuf.Value]: strings, or the other kinds, or none. *)
Inductive PbValue := StringValue (s : string) | OtherValue (text : string) | NoValue.

Record CommonAckEvent := mkCommonAckEvent {
  server_id : string; event_type : string; ack_payload : option (gmap string PbValue) }.

Record PbWorker := mkPbWorker { node_id : string; addr : string; labels : gmap string string }.

Record StatusUpdateEvent := mkStatusUpdateEvent {
  su_dataset_id : string; su_epoch_id : string; su_status : Z; su_error_message : string }.

Inductive Payload :=
| PRegister (worker : option PbWorker)
| PHeartbeat
| PStatusUpdate (e : StatusUpdateEvent)
| PDataAssignment (e : DataAssignmentEvent)
| PCommonAck (e : CommonAckEvent).

Record EventStreamMessage := mkEventStreamMessage {
  esm_event_id : string; esm_tenant_id : string; esm_worker_id : string; esm_payload : option Payload }.

(** ** From messages to domain types *)

Inductive CpConversionError := CpMissingField (message_type field : string).

Definition ok_or_missing {A} (o : option A) (message_type field : string) : result A CpConversionError :=
  match o with Some a => Ok a | None => Err (CpMissingField message_type field) end.

Definition pool_options_from_proto (p : PbPoolOptions) : PoolOptions :=
  mkPoolOptions (default 1 (pb_min_connections p)) (default 16 (pb_max_connections p))
    (default 5000 (pb_connect_timeout_ms p)) (default 600000 (pb_idle_timeout_ms p)).

Definition catalog_from_proto (c : PbCatalog) : result CatalogInfo CpConversionError :=
  let? ct := ok_or_missing (catalog_type c) "Catalog" "catalog_type" in
  Ok match ct with
     | PbIceberg uri => Iceberg uri
     | PbStarRocks catalog_name host port database username password max_concurrency pool_options =>
         StarRocks catalog_name host (wrap16 port) database username password
           (if 0 <? max_concurrency then Some (wrap32 max_concurrency) else None)
           (pool_options_from_proto <$> pool_options)
     | PbJdbc uri driver pool_options => Jdbc uri driver (pool_options_from_proto <$> pool_options)
     end.

Definition data_source_from_proto (ds : PbDataSource) : result DataSourceInfo CpConversionError :=
  let? catalog_proto := ok_or_missing (pb_catalog ds) "DataSource" "catalog" in
  let? catalog := catalog_from_proto catalog_proto in
  Ok (mkDataSourceInfo catalog (pb_database ds) (pb_table ds) (pb_version ds)).

Definition timestamp_ns (t : PbTimestamp) : Z := wrap_i64 (wrap_i64 (seconds t * 1000000000) + nanos t).

Definition time_range_from_proto (tr : PbTimeRange) : result TimeRange CpConversionError :=
  let? start := ok_or_missing (start_inclusive tr) "TimeRange" "start_inclusive" in
  let? end_ := ok_or_missing (end_exclusive tr) "TimeRange" "end_exclusive" in
  Ok (mkTimeRange (timestamp_ns start) (timestamp_ns end_)).

Definition assignment_from_proto (ev : DataAssignmentEvent) : result LoadAssignment CpConversionError :=
  let? plan := ok_or_missing (load_plan ev) "DataAssignmentEvent" "load_plan" in
  let? source_proto := ok_or_missing (lp_source plan) "LoadPlan" "source" in
  let? source := data_source_from_proto source_proto in
  let? parts :=
    match lp_resolved_partition plan with
    | Some rp =>
        let? tr := match rp_time_range rp with
                   | Some tr => let? tr := time_range_from_proto tr in Ok (Some tr)
                   | None => Ok None
                   end in
        Ok (tr, rp_time_column_name rp, rp_time_partition_value rp, rp_dimension_values rp)
    | None => Ok (None, EmptyString, EmptyString, ∅)
    end in
  let '(time_range, time_column_name, time_partition_value, dimension_values) := parts in
  Ok (mkLoadAssignment (da_dataset_id ev) (da_epoch_id ev) (lp_plan_id plan) (lp_destination_table_name plan) source
        (lp_arrow_schema plan) time_range time_column_name time_partition_value dimension_values).

Definition extract_string_fields (fields : gmap string PbValue) : gmap string string :=
  omap (fun v => match v with StringValue s => Some s | _ => None end) fields.

Definition command_from_ack (ack : CommonAckEvent) : ControlCommand :=
  let fields := match ack_payload ack with Some s => extract_string_fields s | None => ∅ end in
  let field k := default EmptyString (fields !! (k : string)) in
  if decide (event_type ack = "evict_epoch") then
    EvictEpoch (field "dataset_id") (field "epoch_id") (field "reason")
  else if decide (event_type ack = "drain_command") then Drain
  else UnknownCommand (event_type ack).

(** ** From domain types to messages *)

Definition load_status_to_proto (s : LoadStatus) : Z :=
  match s with InProgress => 1 | Completed => 2 | StatusFailed => 3 end.

Definition status_update_event (event_id worker_id tenant_id dataset_id epoch_id : string) (status : LoadStatus)
    (error : option string) : EventStreamMessage :=
  mkEventStreamMessage event_id tenant_id worker_id
    (Some (PStatusUpdate (mkStatusUpdateEvent dataset_id epoch_id (load_status_to_proto status) (default EmptyString error)))).

Definition wrap_outgoing (event_id worker_id tenant_id : string) (payload : OutgoingPayload) : EventStreamMessage :=
  mkEventStreamMessage event_id tenant_id worker_id
    (Some match payload with
          | Heartbeat => PHeartbeat
          | StatusUpdate dataset_id epoch_id status error =>
              PStatusUpdate (mkStatusUpdateEvent dataset_id epoch_id (load_status_to_proto status) (default EmptyString error))
          end).

Definition register_event (event_id worker_id tenant_id address : string) : EventStreamMessage :=
  mkEventStreamMessage event_id tenant_id worker_id
    (Some (PRegister (Some (mkPbWorker worker_id address {[ "tenant_id" := tenant_id ]})))).

(** ** Load requests (runtime_dispatcher.rs, worker-storage/src/loader/types.rs) *)

Record ConnectionPoolOptions := mkConnectionPoolOptions {
  cp_max_connections : option Z; cp_min_connections : option Z; cp_acquire_timeout_ms : option Z;
  cp_connect_timeout_ms : option Z; cp_idle_timeout_ms : option Z; cp_max_lifetime_ms : option Z; cp_batch_size : option Z }.

Inductive Catalog :=
| CatIceberg (uri : string)
| CatStarRocks (catalog host : string) (port : Z) (database user password : string)
    (max_concurrency : option Z) (pool_options : option ConnectionPoolOptions)
| CatJdbc (uri driver : string) (pool_options : option ConnectionPoolOptions).

Record DataSource := mkDataSource {
  ds_catalog : Catalog; ds_database : string; ds_table : string; ds_filter : option string; ds_version : option string }.

Record LoadRequest (Schema : Type) := mkLoadRequest {
  lr_dataset_id : string; lr_epoch_view : EpochView; lr_source : DataSource; lr_schema : Schema }.
Arguments mkLoadRequest {Schema} _ _ _ _.
Arguments lr_dataset_id {Schema} _.
Arguments lr_epoch_view {Schema} _.
Arguments lr_source {Schema} _.
Arguments lr_schema {Schema} _.

Definition into_pool_options (opts : PoolOptions) : ConnectionPoolOptions :=
  mkConnectionPoolOptions (Some (max_connections opts)) (Some (min_connections opts)) None
    (Some (connect_timeout_ms opts)) (Some (idle_timeout_ms opts)) None None.

Definition into_catalog (info : CatalogInfo) : Catalog :=
  match info with
  | Iceberg uri => CatIceberg uri
  | StarRocks catalog_name host port database username password max_concurrency pool_options =>
      CatStarRocks catalog_name host port database username password max_concurrency (into_pool_options <$> pool_options)
  | Jdbc uri driver pool_options => CatJdbc uri driver (into_pool_options <$> pool_options)
  end.

Definition into_data_source (info : DataSourceInfo) (filter : option string) : DataSource :=
  mkDataSource (into_catalog (dsi_catalog info)) (dsi_database info) (dsi_table info) filter (dsi_version info).

Definition partition_filter (time_column_name time_partition_value : string) : option string :=
  match time_column_name, time_partition_value with
  | EmptyString, _ | _, EmptyString => None
  | col, val => Some (col +:+ " = '" +:+ val +:+ "'")
  end.

(** [decode_schema] reads the schema of an Arrow IPC stream. *)
Definition into_load_request {Schema} (decode_schema : list Z -> result Schema string) (a : LoadAssignment)
    : result (LoadRequest Schema) string :=
  match decode_schema (arrow_schema_bytes a) with
  | Err _ => Err ("failed to decode Arrow schema for epoch " +:+ la_dataset_id a +:+ "/" +:+ la_epoch_id a)
  | Ok schema =>
      let time_range := match la_time_range a with
                        | Some tr => (wrap64 (start_inclusive_ns tr), wrap64 (end_exclusive_ns tr))
                        | None => (0, u64_max)
                        end in
      let view := mkEpochView (la_epoch_id a) (destination_table_name a) time_range (la_time_column_name a)
                    (la_time_partition_value a) (la_dimension_values a) in
      Ok (mkLoadRequest (la_dataset_id a) view
            (into_data_source (la_source a) (partition_filter (la_time_column_name a) (la_time_partition_value a))) schema)
  end.

(** ** Assignments are decoded exactly *)

(** The required fields that an assignment lacks, in the order of the checks. *)
Definition source_missing (ds : PbDataSource) : list CpConversionError :=
  match pb_catalog ds with
  | None => [CpMissingField "DataSource" "catalog"]
  | Some c => match catalog_type c with None => [CpMissingField "Catalog" "catalog_type"] | Some _ => [] end
  end.

Definition range_missing (tr : PbTimeRange) : list CpConversionError :=
  match start_inclusive tr with None => [CpMissingField "TimeRange" "start_inclusive"] | Some _ => [] end ++
  match end_exclusive tr with None => [CpMissingField "TimeRange" "end_exclusive"] | Some _ => [] end.

Definition missing_fields (ev : DataAssignmentEvent) : list CpConversionError :=
  match load_plan ev with
  | None => [CpMissingField "DataAssignmentEvent" "load_plan"]
  | Some plan =>
      match lp_source plan with None => [CpMissingField "LoadPlan" "source"] | Some ds => source_missing ds end ++
      match lp_resolved_partition plan with
      | Some rp => match rp_time_range rp with Some tr => range_missing tr | None => [] end
      | None => []
      end
  end.

(** The nanoseconds of a timestamp. *)
Definition instant (t : PbTimestamp) : Z := seconds t * 1000000000 + nanos t.

(** The interval of an assignment, when it has one. *)
Definition event_interval (ev : DataAssignmentEvent) : option (Z * Z) :=
  plan ← load_plan ev; rp ← lp_resolved_partition plan; tr ← rp_time_range rp;
  s ← start_inclusive tr; e ← end_exclusive tr; Some (instant s, instant e).

Lemma wrap_i64_small (z : Z) : - 2 ^ 63 <= z < 2 ^ 63 -> wrap_i64 z = z.
Proof. intros Hz. unfold wrap_i64, u64_modulus. rewrite Z.mod_small; lia. Qed.

Lemma timestamp_exact (t : PbTimestamp) :
  0 <= instant t < 2 ^ 63 -> 0 <= nanos t < 1000000000 -> timestamp_ns t = instant t.
Proof.
  intros Hi Hn. unfold timestamp_ns. unfold instant in *. rewrite (wrap_i64_small (seconds t * 1000000000)) by lia.
  apply wrap_i64_small. lia.
Qed.

(** Timestamps the conversion keeps: from 1970 on, in 64 bits of nanoseconds. *)
Definition in_range (t : PbTimestamp) : Prop := 0 <= instant t < 2 ^ 63 /\ 0 <= nanos t < 1000000000.

Definition event_in_range (ev : DataAssignmentEvent) : Prop :=
  forall plan rp tr, load_plan ev = Some plan -> lp_resolved_partition plan = Some rp -> rp_time_range rp = Some tr ->
    (forall t, start_inclusive tr = Some t -> in_range t) /\ (forall t, end_exclusive tr = Some t -> in_range t).

(** an assignment is decoded exactly.  It is rejected exactly when a
    required field is missing, with the first one as the error; otherwise the
    load request has the dataset, the epoch and the table of the message, and
    the epoch's range is the interval of the message in nanoseconds, or
    everything when there is none, for timestamps from 1970 on. *)
Theorem assignment_decoded {Schema} (decode_schema : list Z -> result Schema string) (ev : DataAssignmentEvent) :
  event_in_range ev ->
  match missing_fields ev with
  | e :: _ => assignment_from_proto ev = Err e
  | [] => exists a, assignment_from_proto ev = Ok a /\
      forall r, into_load_request decode_schema a = Ok r ->
        lr_dataset_id r = da_dataset_id ev /\ ev_epoch_id (lr_epoch_view r) = da_epoch_id ev /\
        Some (ev_table_name (lr_epoch_view r)) = lp_destination_table_name <$> load_plan ev /\
        ev_time_range (lr_epoch_view r) = default (0, u64_max) (event_interval ev)
  end.
Proof.
  intros Hr. unfold event_in_range in Hr. unfold missing_fields, assignment_from_proto, event_interval.
  destruct (load_plan ev) as [plan|]; [|done]. specialize (Hr plan). simpl.
  destruct (lp_source plan) as [ds|]; [|done]. simpl. unfold source_missing, data_source_from_proto.
  destruct (pb_catalog ds) as [c|]; [|done]. simpl. unfold catalog_from_proto.
  destruct (catalog_type c) as [ct|]; [|done]. simpl.
  assert (Hreq : forall (a : LoadAssignment) r, into_load_request decode_schema a = Ok r ->
    lr_dataset_id r = la_dataset_id a /\ ev_epoch_id (lr_epoch_view r) = la_epoch_id a /\
    ev_table_name (lr_epoch_view r) = destination_table_name a /\
    ev_time_range (lr_epoch_view r) = match la_time_range a with
      | Some tr => (wrap64 (start_inclusive_ns tr), wrap64 (end_exclusive_ns tr)) | None => (0, u64_max) end).
  { intros a r. unfold into_load_request. destruct (decode_schema _); [|done]. by intros [= <-]. }
  destruct (lp_resolved_partition plan) as [rp|] eqn:Erp.
  2: { eexists. split; [done|]. intros r (? & ? & Ht & Hx)%Hreq. rewrite Ht. by split_and!. }
  destruct (rp_time_range rp) as [tr|] eqn:Etr.
  2: { simpl. rewrite Etr. eexists. split; [done|]. intros r (? & ? & Ht & Hx)%Hreq. rewrite Ht. by split_and!. }
  destruct (Hr rp tr eq_refl eq_refl Etr) as [Hs He]. unfold range_missing, time_range_from_proto. simpl. rewrite Etr. simpl.
  destruct (start_inclusive tr) as [s|]; [|done]. destruct (end_exclusive tr) as [e|]; [|done]. simpl.
  destruct (Hs s eq_refl) as [Hs1 Hs2]. destruct (He e eq_refl) as [He1 He2].
  eexists. split; [done|]. intros r (? & ? & Ht & Hx)%Hreq. rewrite Ht. split_and!; try done.
  rewrite Hx. simpl. rewrite !timestamp_exact by done. by rewrite !wrap64_small by (unfold in_u64, u64_modulus; lia).
Qed.

Definition demo_event (range : option PbTimeRange) : DataAssignmentEvent :=
  mkDataAssignmentEvent "sales" "e1" (Some (mkPbLoadPlan "p1"
    (Some (mkPbDataSource (Some (mkPbCatalog (Some (PbIceberg "http://catalog")))) "db" "t" None)) "sales_e1" []
    (Some (mkPbResolvedPartition range "dt" "2025-01" ∅)))).

Lemma assignment_decoded_witness :
  exists a, assignment_from_proto (demo_event (Some (mkPbTimeRange (Some (mkPbTimestamp 1 5)) (Some (mkPbTimestamp 2 0))))) = Ok a /\
    forall r, into_load_request (fun _ => Ok tt) a = Ok r ->
      lr_dataset_id r = "sales" /\ ev_epoch_id (lr_epoch_view r) = "e1" /\
      Some (ev_table_name (lr_epoch_view r)) = Some "sales_e1" /\
      ev_time_range (lr_epoch_view r) = (1000000005, 2000000000).
Proof.
  apply (assignment_decoded (fun _ => Ok tt)
    (demo_event (Some (mkPbTimeRange (Some (mkPbTimestamp 1 5)) (Some (mkPbTimestamp 2 0)))))).
  intros plan rp tr [= <-] [= <-] [= <-]. split; intros t [= <-]; (split; [split; vm_compute; congruence|simpl; lia]).
Defined.

(** Before 1970 the nanoseconds are negative, and the cast to [u64] turns the
    range around: one second before the epoch becomes an interval that ends
    before it starts. *)
Theorem range_before_1970_inverted :
  exists a r, assignment_from_proto (demo_event (Some (mkPbTimeRange (Some (mkPbTimestamp (-1) 0)) (Some (mkPbTimestamp 0 0))))) = Ok a /\
    into_load_request (fun _ => Ok tt) a = Ok r /\
    ev_time_range (lr_epoch_view r) = (2 ^ 64 - 1000000000, 0).
Proof. eexists _, _. split; [vm_compute; reflexivity|]. split; [vm_compute; reflexivity|]. vm_compute. reflexivity. Qed.

(** The partition value is put between quotes as it is: a value with a quote
    ends the literal. *)
Theorem partition_value_not_escaped :
  partition_filter "dt" "x' OR '1'='1" = Some "dt = 'x' OR '1'='1'".
Proof. reflexivity. Qed.
