(* ===== verification/Dispatcher.v ===== *)
(** * The runtime dispatcher (worker-cp/src/runtime_dispatcher.rs)

    Commands of the control plane are handled one after the other by the
    receive task; every assignment spawns a load task.  The tasks interleave
    at their [await] points, so each is a program counter that advances in the
    steps between two such points, and a run is a list of steps.  The storage
    engine is an interface; the attempts to send a status update, which depend
    on the outgoing channel, are part of a step.  Log lines are left out. *)

From S2P Require Import Prelude SqlAst DateInterval BooleanAnalyzer MacroCall Arrow DuckDb EpochEngine ControlPlane.

(** ** The storage engine, as the dispatcher uses it *)

Class StorageEngine (E Schema : Type) := {
  load_epoch : E -> LoadRequest Schema -> E * result (TableMetadata Schema) string;
  drop_epoch_table : E -> string -> string -> E * result unit string;
  update_macro : E -> string -> string -> E * result unit string;
}.

(** The key under which the engine stores the epoch of a request. *)
Definition request_key {Schema} (r : LoadRequest Schema) : string :=
  epoch_key (lr_dataset_id r) (ev_epoch_id (lr_epoch_view r)).

Class StorageEngineLaws (E Schema : Type) `{StorageEngine E Schema} := {
  stored : E -> gset string;
  load_law : forall e req,
    match (load_epoch e req).2 with
    | Ok _ => request_key req ∉ stored e /\ stored (load_epoch e req).1 = stored e ∪ {[ request_key req ]}
    | Err _ => stored (load_epoch e req).1 = stored e
    end;
  drop_epoch_law : forall e d ep, stored (drop_epoch_table e d ep).1 = stored e ∖ {[ epoch_key d ep ]};
  update_macro_law : forall e d c, stored (update_macro e d c).1 = stored e;
}.

(** ** State *)

(** What [mpsc::Sender::try_send] answers. *)
Inductive TrySend := Sent | Full | Closed.

Definition STATUS_RETRY_COUNT : nat := 3.

(** [report_status]: whether the update gets into the channel; the attempts
    are answered in this order. *)
Fixpoint report_attempts (n : nat) (attempts : list TrySend) : bool :=
  match n, attempts with
  | S n, Sent :: _ => true
  | S n, Full :: attempts => report_attempts n attempts
  | _, _ => false
  end.

Definition report_status (attempts : list TrySend) : bool := report_attempts STATUS_RETRY_COUNT attempts.

Section dispatcher.
Context {E Schema : Type} `{StorageEngine E Schema} (decode_schema : list Z -> result Schema string).

(** Where a load task stands. *)
Inductive TaskPc :=
| TAcquire
| TLoad
| TLoaded (r : result (TableMetadata Schema) string)
| TEvictDrop
| TEvictMacro
| TEvictEnd
| TRegister
| TMacro
| TMacroDone (r : result unit string).

Record Task := mkTask {
  task_key : EpochKey;
  task_column : string;
  task_request : LoadRequest Schema;
  task_pc : TaskPc;
}.

(** The receive task: between commands, or in an eviction. *)
Inductive Receiver := HIdle | HDrop (k : EpochKey) | HRefresh (dataset_id : string).

Record DState := mkDState {
  epoch_phases : gmap EpochKey EpochPhase;
  transformer : SqlTransformer;
  draining : bool;
  permits : nat;
  tasks : gmap nat Task;
  next_task : nat;
  receiver : Receiver;
  storage : E;
  sender_ready : bool;
  reports : list OutgoingPayload;
}.

Definition WorkerRuntimeDispatcher_new (max_concurrent_loads : nat) (t : SqlTransformer) (e : E) : DState :=
  mkDState ∅ t false max_concurrent_loads ∅ 0 HIdle e false [].

Definition init_sender (st : DState) : outcome DState :=
  if sender_ready st then Panic
  else Ret (mkDState (epoch_phases st) (transformer st) (draining st) (permits st) (tasks st) (next_task st)
              (receiver st) (storage st) true (reports st)).

Definition set_phases (st : DState) (p : gmap EpochKey EpochPhase) : DState :=
  mkDState p (transformer st) (draining st) (permits st) (tasks st) (next_task st) (receiver st) (storage st)
    (sender_ready st) (reports st).
Definition set_storage (st : DState) (e : E) : DState :=
  mkDState (epoch_phases st) (transformer st) (draining st) (permits st) (tasks st) (next_task st) (receiver st) e
    (sender_ready st) (reports st).
Definition set_receiver (st : DState) (r : Receiver) : DState :=
  mkDState (epoch_phases st) (transformer st) (draining st) (permits st) (tasks st) (next_task st) r (storage st)
    (sender_ready st) (reports st).
Definition set_task (st : DState) (id : nat) (t : Task) : DState :=
  mkDState (epoch_phases st) (transformer st) (draining st) (permits st) (<[id := t]> (tasks st)) (next_task st)
    (receiver st) (storage st) (sender_ready st) (reports st).

(** [if let Some(tx) = outgoing_tx.get() { report_status(...).await }]. *)
Definition report (st : DState) (attempts : list TrySend) (k : EpochKey) (s : LoadStatus) (error : option string) : DState :=
  if sender_ready st && report_status attempts then
    mkDState (epoch_phases st) (transformer st) (draining st) (permits st) (tasks st) (next_task st) (receiver st)
      (storage st) (sender_ready st) (reports st ++ [StatusUpdate k.1 k.2 s error])
  else st.

(** The permit is returned when the task ends. *)
Definition end_task (st : DState) (id : nat) : DState :=
  mkDState (epoch_phases st) (transformer st) (draining st) (S (permits st)) (delete id (tasks st)) (next_task st)
    (receiver st) (storage st) (sender_ready st) (reports st).

(** ** The commands *)

Definition handle_assignment (st : DState) (attempts : list TrySend) (a : LoadAssignment) : DState :=
  let key := (la_dataset_id a, la_epoch_id a) in
  if draining st then report st attempts key StatusFailed (Some "worker is draining")
  else
    match epoch_phases st !! key with
    | Some PhaseEvicting => st
    | _ =>
        let st := set_phases st (<[key := PhaseLoading]> (epoch_phases st)) in
        match into_load_request decode_schema a with
        | Err e => report (set_phases st (delete key (epoch_phases st))) attempts key StatusFailed (Some e)
        | Ok request =>
            mkDState (epoch_phases st) (transformer st) (draining st) (permits st)
              (<[next_task st := mkTask key (la_time_column_name a) request TAcquire]> (tasks st)) (S (next_task st))
              (receiver st) (storage st) (sender_ready st) (reports st)
        end
    end.

Definition handle_evict (st : DState) (key : EpochKey) : DState :=
  match epoch_phases st !! key with
  | Some PhaseLoading => set_phases st (<[key := PhaseEvicting]> (epoch_phases st))
  | Some PhaseEvicting => st
  | Some PhaseActive | None =>
      set_receiver (set_phases st (delete key (epoch_phases st))) (HDrop key)
  end.

Definition handle_drain (st : DState) : DState :=
  mkDState (epoch_phases st) (transformer st) true (permits st) (tasks st) (next_task st) (receiver st) (storage st)
    (sender_ready st) (reports st).

(** [handle_command], up to its first [await] on the storage engine. *)
Definition handle_command (st : DState) (attempts : list TrySend) (c : ControlCommand) : DState :=
  match c with
  | Assignment a => handle_assignment st attempts a
  | EvictEpoch dataset_id epoch_id _ => handle_evict st (dataset_id, epoch_id)
  | Drain => handle_drain st
  | UnknownCommand _ => st
  end.

(** The rest of an eviction. *)
Definition receiver_step (st : DState) : option DState :=
  match receiver st with
  | HIdle => None
  | HDrop k =>
      match drop_epoch_table (storage st) k.1 k.2 with
      | (e, Ok _) => Some (set_receiver (set_storage st e) (HRefresh k.1))
      | (e, Err _) => Some (set_receiver (set_storage st e) HIdle)
      end
  | HRefresh dataset_id =>
      match get_dataset (transformer st) dataset_id with
      | Some d => Some (set_receiver (set_storage st (update_macro (storage st) dataset_id (rd_time_column_name d)).1) HIdle)
      | None => Some (set_receiver st HIdle)
      end
  end.

(** ** The load task *)

Definition at_pc (t : Task) (pc : TaskPc) : Task := mkTask (task_key t) (task_column t) (task_request t) pc.

Definition take_permit (st : DState) (n : nat) : DState :=
  mkDState (epoch_phases st) (transformer st) (draining st) n (tasks st) (next_task st) (receiver st) (storage st)
    (sender_ready st) (reports st).

Definition finish_active (st : DState) (attempts : list TrySend) (id : nat) (t : Task) : DState :=
  end_task (report (set_phases st (<[task_key t := PhaseActive]> (epoch_phases st))) attempts (task_key t) Completed None) id.

Definition finish_failed (st : DState) (attempts : list TrySend) (id : nat) (t : Task) (error : string) : DState :=
  end_task (report (set_phases st (delete (task_key t) (epoch_phases st))) attempts (task_key t) StatusFailed (Some error)) id.

(** After the load: the eviction that was asked for meanwhile, or the
    registration of the dataset. *)
Definition after_load (st : DState) (attempts : list TrySend) (id : nat) (t : Task)
    (r : result (TableMetadata Schema) string) : DState :=
  match r with
  | Err e => finish_failed st attempts id t e
  | Ok _ =>
      match epoch_phases st !! task_key t with
      | Some PhaseEvicting => set_task st id (at_pc t TEvictDrop)
      | _ =>
          match task_column t with
          | EmptyString => finish_active st attempts id t
          | _ => set_task st id (at_pc t TRegister)
          end
      end
  end.

Definition register (st : DState) (t : Task) : DState :=
  mkDState (epoch_phases st)
    (register_dataset (transformer st) (RegisteredDataset_new (task_key t).1 (task_column t)))
    (draining st) (permits st) (tasks st) (next_task st) (receiver st) (storage st) (sender_ready st) (reports st).

Definition task_step (st : DState) (attempts : list TrySend) (id : nat) (t : Task) : option DState :=
  match task_pc t with
  | TAcquire =>
      match permits st with
      | O => None
      | S n => Some (report (set_task (take_permit st n) id (at_pc t TLoad)) attempts (task_key t) InProgress None)
      end
  | TLoad =>
      let '(e, r) := load_epoch (storage st) (task_request t) in
      Some (set_task (set_storage st e) id (at_pc t (TLoaded r)))
  | TLoaded r => Some (after_load st attempts id t r)
  | TEvictDrop =>
      match drop_epoch_table (storage st) (task_key t).1 (task_key t).2 with
      | (e, Ok _) =>
          match task_column t with
          | EmptyString => Some (set_task (set_storage st e) id (at_pc t TEvictEnd))
          | _ => Some (set_task (set_storage st e) id (at_pc t TEvictMacro))
          end
      | (e, Err _) => Some (set_task (set_storage st e) id (at_pc t TEvictEnd))
      end
  | TEvictMacro =>
      Some (set_task (set_storage st (update_macro (storage st) (task_key t).1 (task_column t)).1) id (at_pc t TEvictEnd))
  | TEvictEnd => Some (end_task (set_phases st (delete (task_key t) (epoch_phases st))) id)
  | TRegister => Some (set_task (register st t) id (at_pc t TMacro))
  | TMacro =>
      let '(e, r) := update_macro (storage st) (task_key t).1 (task_column t) in
      Some (set_task (set_storage st e) id (at_pc t (TMacroDone r)))
  | TMacroDone r =>
      match r with
      | Ok _ => Some (finish_active st attempts id t)
      | Err e => Some (finish_failed st attempts id t ("macro update failed: " +:+ e))
      end
  end.

(** ** Runs *)

Inductive Action :=
| Receive (c : ControlCommand) (attempts : list TrySend)
| Continue
| Advance (id : nat) (attempts : list TrySend).

Definition dstep (st : DState) (a : Action) : option DState :=
  match a with
  | Receive c attempts =>
      match receiver st with HIdle => Some (handle_command st attempts c) | _ => None end
  | Continue => receiver_step st
  | Advance id attempts => t ← tasks st !! id; task_step st attempts id t
  end.

Fixpoint drun (st : DState) (l : list Action) : option DState :=
  match l with [] => Some st | a :: l => st' ← dstep st a; drun st' l end.

Definition list_loaded_epochs (st : DState) : list EpochKey :=
  map fst (List.filter (fun e => bool_decide (snd e = PhaseActive)) (map_to_list (epoch_phases st))).

Definition loading_count (st : DState) : nat :=
  length (List.filter (fun e : EpochKey * EpochPhase => bool_decide (snd e = PhaseLoading)) (map_to_list (epoch_phases st))).

Definition is_draining (st : DState) : bool := draining st.

(** [wait_for_drain] returns in this state; otherwise it waits to be notified. *)
Definition drain_returns (st : DState) : bool := bool_decide (loading_count st = 0).
End dispatcher.

(** ** Loads are bounded *)

Section bounded.
Context {E Schema : Type} `{StorageEngine E Schema} (decode_schema : list Z -> result Schema string).
Abbreviation state := (@DState E Schema).

Definition holds_permit (t : @Task Schema) : bool := match task_pc t with TAcquire => false | _ => true end.

(** The tasks that hold a permit: a load runs in such a task. *)
Definition running (m : gmap nat (@Task Schema)) : nat :=
  length (List.filter (fun e => holds_permit (snd e)) (map_to_list m)).

Lemma filter_length_perm {A} (p : A -> bool) (l l' : list A) :
  l ≡ₚ l' -> length (List.filter p l) = length (List.filter p l').
Proof.
  induction 1 as [|x l l' _ IH|x y l|]; simpl; try congruence; try (destruct (p x)); simpl; try congruence.
  by destruct (p y).
Qed.

Lemma running_delete (m : gmap nat (@Task Schema)) id t :
  m !! id = Some t -> running m = (if holds_permit t then 1 else 0) + running (delete id m).
Proof.
  intros Hm. unfold running.
  rewrite (filter_length_perm _ (map_to_list m) _ (symmetry (map_to_list_delete m id t Hm))). simpl.
  by destruct (holds_permit t).
Qed.

Lemma running_insert (m : gmap nat (@Task Schema)) id t :
  running (<[id := t]> m) = (if holds_permit t then 1 else 0) + running (delete id m).
Proof.
  rewrite (running_delete (<[id := t]> m) id t) by apply lookup_insert_eq. by rewrite delete_insert_eq.
Qed.

(** Permits and running tasks add up. *)
Definition balanced_permits (max : nat) (st : state) : Prop :=
  permits st + running (tasks st) = max /\ (forall id, is_Some (tasks st !! id) -> id < next_task st).

Lemma report_fields (st : state) attempts k s e :
  let st' := report st attempts k s e in
  epoch_phases st' = epoch_phases st /\ permits st' = permits st /\ tasks st' = tasks st /\ next_task st' = next_task st /\
  receiver st' = receiver st /\ storage st' = storage st /\ draining st' = draining st /\ transformer st' = transformer st.
Proof. unfold report. by destruct (_ && _). Qed.

Lemma finish_fields (st : state) attempts k s e p id :
  let st' := end_task (report (set_phases st p) attempts k s e) id in
  epoch_phases st' = p /\ permits st' = S (permits st) /\ tasks st' = delete id (tasks st) /\ next_task st' = next_task st /\
  receiver st' = receiver st /\ storage st' = storage st.
Proof. simpl. destruct (report_fields (set_phases st p) attempts k s e) as (-> & -> & -> & -> & -> & -> & _). done. Qed.

Lemma balanced_end max (st st' : state) id t :
  balanced_permits max st -> tasks st !! id = Some t -> holds_permit t = true ->
  permits st' = S (permits st) -> tasks st' = delete id (tasks st) -> next_task st' = next_task st -> balanced_permits max st'.
Proof.
  intros [Hs Hn] Ht Hh Hp Hd Hx. unfold balanced_permits. rewrite Hp, Hd, Hx. split.
  - rewrite (running_delete _ _ _ Ht), Hh in Hs. lia.
  - intros i [u [_ Hi]%lookup_delete_Some]. apply Hn. by exists u.
Qed.

Lemma balanced_move max (st st' : state) id t t' :
  balanced_permits max st -> tasks st !! id = Some t ->
  permits st' + (if holds_permit t' then 1 else 0) = permits st + (if holds_permit t then 1 else 0) ->
  tasks st' = <[id := t']> (tasks st) -> next_task st' = next_task st -> balanced_permits max st'.
Proof.
  intros [Hs Hn] Ht Hp Hi Hx. unfold balanced_permits. rewrite Hi, Hx, running_insert. split.
  - rewrite (running_delete _ _ _ Ht) in Hs. lia.
  - intros i [u [[<- _]|[_ Hu]]%lookup_insert_Some]; apply Hn; eauto.
Qed.

Lemma balanced_step max (st st' : state) id t pc :
  balanced_permits max st -> tasks st !! id = Some t -> tasks st' = <[id := at_pc t pc]> (tasks st) ->
  holds_permit t = true -> holds_permit (at_pc t pc) = true ->
  permits st' = permits st -> next_task st' = next_task st -> balanced_permits max st'.
Proof. intros Hb Ht Hi H1 H2 Hp Hn. eapply balanced_move; [done..| |done|done]. rewrite H1, H2. lia. Qed.

Lemma balanced_same max (st st' : state) :
  balanced_permits max st -> permits st' = permits st -> tasks st' = tasks st -> next_task st' = next_task st ->
  balanced_permits max st'.
Proof. unfold balanced_permits. by intros ? -> -> ->. Qed.

Lemma command_balanced max (st : state) attempts c :
  balanced_permits max st -> balanced_permits max (handle_command decode_schema st attempts c).
Proof.
  intros Hb. destruct c as [a|d e r| |]; simpl; [|unfold handle_evict; by repeat case_match|done..].
  unfold handle_assignment. destruct (draining st).
  { destruct (report_fields st attempts (la_dataset_id a, la_epoch_id a) StatusFailed (Some "worker is draining"))
      as (_ & ? & ? & ? & _). by eapply balanced_same. }
  assert (Hgo : balanced_permits max
    (let st := set_phases st (<[(la_dataset_id a, la_epoch_id a) := PhaseLoading]> (epoch_phases st)) in
     match into_load_request decode_schema a with
     | Err e => report (set_phases st (delete (la_dataset_id a, la_epoch_id a) (epoch_phases st))) attempts
                  (la_dataset_id a, la_epoch_id a) StatusFailed (Some e)
     | Ok request => mkDState (epoch_phases st) (transformer st) (draining st) (permits st)
         (<[next_task st := mkTask (la_dataset_id a, la_epoch_id a) (la_time_column_name a) request TAcquire]> (tasks st))
         (S (next_task st)) (receiver st) (storage st) (sender_ready st) (reports st)
     end)).
  { simpl. destruct (into_load_request decode_schema a) as [req|e].
    - destruct Hb as [Hs Hn]. split; simpl.
      + rewrite running_insert, delete_id; [done|]. apply eq_None_not_Some. intros Hi. apply Hn in Hi. lia.
      + intros i [u [[<- _]|[_ Hu]]%lookup_insert_Some]; [lia|]. assert (i < next_task st) by (apply Hn; eauto). lia.
    - match goal with |- balanced_permits _ (report ?s ?at_ ?k ?x ?er) =>
        destruct (report_fields s at_ k x er) as (_ & ? & ? & ? & _) end. by eapply balanced_same. }
  destruct (epoch_phases st !! _) as [[]|]; done.
Qed.

Lemma task_balanced max (st st' : state) attempts id t :
  balanced_permits max st -> tasks st !! id = Some t -> task_step st attempts id t = Some st' -> balanced_permits max st'.
Proof.
  intros Hb Ht. unfold task_step. destruct (task_pc t) as [| |r| | | | | |r] eqn:Epc;
    assert (Hh : holds_permit t = match task_pc t with TAcquire => false | _ => true end) by done; rewrite Epc in Hh.
  - destruct (permits st) as [|n] eqn:Ep; [done|]. intros [= <-].
    match goal with |- balanced_permits _ (report ?s ?at_ ?k ?x ?er) =>
      destruct (report_fields s at_ k x er) as (_ & Hp & Ht' & Hn & _) end.
    eapply (balanced_move max st _ id t (at_pc t TLoad)); [done..| | |].
    + rewrite Hp, Hh. simpl. lia.
    + by rewrite Ht'.
    + by rewrite Hn.
  - destruct (load_epoch _ _) as [e r]. intros [= <-]. by eapply balanced_step.
  - intros [= <-]. unfold after_load. destruct r as [m|e].
    + assert (Hfin : balanced_permits max (finish_active st attempts id t)).
      { unfold finish_active. edestruct finish_fields as (_ & ? & ? & ? & _). by eapply balanced_end. }
      assert (Hmove : forall pc, holds_permit (at_pc t pc) = true -> balanced_permits max (set_task st id (at_pc t pc)))
        by (intros pc Hpc; by eapply (balanced_step max st)).
      destruct (epoch_phases st !! _) as [[]|]; try (by apply Hmove);
        (destruct (task_column t); [done|]); by apply Hmove.
    + unfold finish_failed. edestruct finish_fields as (_ & ? & ? & ? & _). by eapply balanced_end.
  - destruct (drop_epoch_table _ _ _) as [e [u|er]]; [destruct (task_column t)|]; intros [= <-];
      (by eapply balanced_step).
  - intros [= <-]. by eapply balanced_step.
  - intros [= <-]. by eapply balanced_end.
  - intros [= <-]. by eapply balanced_step.
  - destruct (update_macro _ _ _) as [e r]. intros [= <-]. by eapply balanced_step.
  - destruct r as [u|e]; intros [= <-]; [unfold finish_active|unfold finish_failed];
      edestruct finish_fields as (_ & ? & ? & ? & _); by eapply balanced_end.
Qed.

Lemma dstep_balanced max (st st' : state) a :
  balanced_permits max st -> dstep decode_schema st a = Some st' -> balanced_permits max st'.
Proof.
  intros Hb. destruct a as [c attempts| |id attempts]; simpl.
  - destruct (receiver st); [|done..]. intros [= <-]. by apply command_balanced.
  - unfold receiver_step. destruct (receiver st); [done| |].
    + destruct (drop_epoch_table _ _ _) as [e [u|er]]; by intros [= <-].
    + destruct (get_dataset _ _); by intros [= <-].
  - destruct (tasks st !! id) as [t|] eqn:Et; [|done]. intros Hs. by eapply task_balanced.
Qed.

(** C27: at most [max_concurrent_loads] loads run at the same time, in every
    interleaving of commands and load tasks, and the permits never leak: the
    free ones and those of the running tasks add up to the limit. *)
Theorem loads_bounded (max : nat) (t : SqlTransformer) (e : E) (l : list Action) (st : state) :
  drun decode_schema (WorkerRuntimeDispatcher_new max t e) l = Some st ->
  permits st + running (tasks st) = max.
Proof.
  assert (Hi : balanced_permits max (@WorkerRuntimeDispatcher_new E Schema max t e)).
  { split; [done|]. simpl. intros id [u Hu]. by rewrite lookup_empty in Hu. }
  revert Hi. generalize (@WorkerRuntimeDispatcher_new E Schema max t e). induction l as [|a l IH]; intros st0 Hi; simpl.
  - intros [= <-]. apply Hi.
  - destruct (dstep decode_schema st0 a) as [st1|] eqn:Es; [|done]. simpl. apply IH. by eapply dstep_balanced.
Qed.
End bounded.

(** ** Phases and storage agree *)

Section tracking.
Context {E Schema : Type} `{StorageEngineLaws E Schema} (decode_schema : list Z -> result Schema string).
Abbreviation state := (@DState E Schema).

(** The epochs the control plane uses; the engine tells them apart. *)
Context (used : gset EpochKey).
Definition engine_key (k : EpochKey) : string := epoch_key k.1 k.2.
Hypothesis distinct_keys : forall k k', k ∈ used -> k' ∈ used -> engine_key k = engine_key k' -> k = k'.

(** What a well-behaved control plane sends: commands about epochs it uses,
    and no assignment of an epoch that is loading, loaded or being evicted. *)
Definition well_behaved (st : state) (a : Action) : Prop :=
  match a with
  | Receive (Assignment a) _ =>
      (la_dataset_id a, la_epoch_id a) ∈ used /\ epoch_phases st !! (la_dataset_id a, la_epoch_id a) = None
  | Receive (EvictEpoch d e _) _ => (d, e) ∈ used
  | _ => True
  end.

(** What a task knows of the storage. *)
Definition pc_stored (pc : @TaskPc Schema) (is_stored : Prop) : Prop :=
  match pc with
  | TAcquire | TLoad | TLoaded (Err _) | TEvictDrop => True
  | TLoaded (Ok _) | TRegister | TMacro | TMacroDone _ => is_stored
  | TEvictMacro | TEvictEnd => ~ is_stored
  end.

Record tracked (st : state) : Prop := {
  tr_used : forall k p, epoch_phases st !! k = Some p -> k ∈ used;
  tr_task : forall id t, tasks st !! id = Some t ->
    (epoch_phases st !! task_key t = Some PhaseLoading \/ epoch_phases st !! task_key t = Some PhaseEvicting) /\
    request_key (task_request t) = engine_key (task_key t) /\
    pc_stored (task_pc t) (engine_key (task_key t) ∈ stored (storage st));
  tr_once : forall id id' t t', tasks st !! id = Some t -> tasks st !! id' = Some t' -> task_key t = task_key t' -> id = id';
  tr_busy : forall k, epoch_phases st !! k = Some PhaseLoading \/ epoch_phases st !! k = Some PhaseEvicting ->
    exists id t, tasks st !! id = Some t /\ task_key t = k;
  tr_active : forall k, epoch_phases st !! k = Some PhaseActive -> engine_key k ∈ stored (storage st);
  tr_drop : forall k, receiver st = HDrop k -> epoch_phases st !! k = None /\ k ∈ used;
}.

(** Changing the storage under one key leaves the others. *)
Definition differs_at (k : string) (X Y : gset string) : Prop := forall x, x <> k -> (x ∈ X <-> x ∈ Y).

Lemma pc_stored_iff pc (P Q : Prop) : (P <-> Q) -> pc_stored pc P -> pc_stored pc Q.
Proof. intros Hpq. destruct pc as [| |[]| | | | | |]; simpl; tauto. Qed.

(** A step of task [id] that moves it to [pc] and may change the storage of its
    epoch. *)
Lemma tracked_move (st st' : state) id t pc :
  tracked st -> tasks st !! id = Some t -> tasks st' = <[id := at_pc t pc]> (tasks st) ->
  epoch_phases st' = epoch_phases st -> receiver st' = receiver st ->
  differs_at (engine_key (task_key t)) (stored (storage st)) (stored (storage st')) ->
  pc_stored pc (engine_key (task_key t) ∈ stored (storage st')) -> tracked st'.
Proof.
  intros [Hu Ht Ho Hb Ha Hd] Hid Hts Hph Hrc Hst Hpc. destruct (Ht id t Hid) as (Hp & Hk & _).
  assert (Hin : forall k p, epoch_phases st !! k = Some p -> k <> task_key t -> engine_key k <> engine_key (task_key t)).
  { intros k p Hkp Hne Heq. apply Hne, distinct_keys; [by eapply Hu|destruct Hp; by eapply Hu|done]. }
  split; rewrite ?Hph, ?Hrc.
  - done.
  - intros i u. rewrite Hts. intros [[<- <-]|[Hne Hi]]%lookup_insert_Some; [by split_and!|].
    destruct (Ht i u Hi) as (Hpu & Hku & Hsu). split_and!; try done. eapply pc_stored_iff; [|exact Hsu].
    apply Hst. intros Heq. apply Hne. eapply Ho; [done..|]. destruct (decide (task_key t = task_key u)); [done|].
    exfalso. destruct Hpu; eapply Hin; eauto.
  - intros i i' u u'. rewrite Hts. intros [[<- <-]|[Hne Hi]]%lookup_insert_Some [[<- <-]|[Hne' Hi']]%lookup_insert_Some Hkk;
      simpl in *; try done; [by eapply (Ho _ _ t u')|by eapply (Ho _ _ u t)|by eapply Ho].
  - intros k Hk'. destruct (Hb k Hk') as (i & u & Hi & Hku). destruct (decide (i = id)) as [->|Hne].
    + exists id, (at_pc t pc). rewrite Hts, lookup_insert_eq. simplify_eq. done.
    + exists i, u. by rewrite Hts, lookup_insert_ne.
  - intros k Hk'. apply Hst; [|by apply Ha]. eapply Hin; [done|]. intros ->. destruct Hp; congruence.
  - done.
Qed.

(** The task ends, and its epoch gets its final phase. *)
Lemma tracked_end (st st' : state) id t (p : option EpochPhase) :
  tracked st -> tasks st !! id = Some t -> tasks st' = delete id (tasks st) ->
  epoch_phases st' = match p with Some p => <[task_key t := p]> (epoch_phases st) | None => delete (task_key t) (epoch_phases st) end ->
  receiver st' = receiver st -> storage st' = storage st ->
  match p with None => True | Some PhaseActive => engine_key (task_key t) ∈ stored (storage st) | _ => False end ->
  tracked st'.
Proof.
  intros [Hu Ht Ho Hb Ha Hd] Hid Hts Hph Hrc Hst Hp. destruct (Ht id t Hid) as (Hpt & _).
  assert (Hother : forall k, k <> task_key t -> epoch_phases st' !! k = epoch_phases st !! k).
  { intros k Hk. rewrite Hph. destruct p; [by rewrite lookup_insert_ne|by rewrite lookup_delete_ne]. }
  assert (Hown : epoch_phases st' !! task_key t = p).
  { rewrite Hph. destruct p; [apply lookup_insert_eq|apply lookup_delete_eq]. }
  split; rewrite ?Hrc, ?Hst.
  - intros k q. destruct (decide (k = task_key t)) as [->|Hk]; [intros _; destruct Hpt; by eapply Hu|].
    rewrite Hother by done. apply Hu.
  - intros i u. rewrite Hts. intros [Hne Hi]%lookup_delete_Some. rewrite Hother; [by apply (Ht i)|].
    intros Heq. apply Hne. by eapply Ho.
  - intros i i' u u'. rewrite Hts. intros [_ Hi]%lookup_delete_Some [_ Hi']%lookup_delete_Some. by apply Ho.
  - intros k. destruct (decide (k = task_key t)) as [->|Hk].
    + rewrite Hown. destruct p as [[]|]; intros [|]; simplify_eq; done.
    + rewrite Hother by done. intros (i & u & Hi & Hku)%Hb. exists i, u. split; [|done].
      rewrite Hts, lookup_delete_ne; [done|]. intros ->. congruence.
  - intros k. destruct (decide (k = task_key t)) as [->|Hk]; [rewrite Hown; by intros ->|]. rewrite Hother by done. apply Ha.
  - intros k Hr. destruct (Hd k Hr) as [Hn Hk]. split; [|done]. rewrite Hother; [done|]. intros ->.
    destruct Hpt; congruence.
Qed.

Lemma differs_refl k X : differs_at k X X.
Proof. by intros x. Qed.

Lemma task_tracked (st st' : state) attempts id t :
  tracked st -> tasks st !! id = Some t -> task_step st attempts id t = Some st' -> tracked st'.
Proof.
  intros Htr Hid. destruct (tr_task _ Htr id t Hid) as (Hph & Hk & Hpc).
  assert (Hact : engine_key (task_key t) ∈ stored (storage st) -> tracked (finish_active st attempts id t)).
  { intros Hin. unfold finish_active.
    destruct (finish_fields st attempts (task_key t) Completed None (<[task_key t := PhaseActive]> (epoch_phases st)) id) as (Hp & _ & Ht & _ & Hr & Hs).
    by eapply (tracked_end st _ id t (Some PhaseActive)). }
  assert (Hfail : forall e, tracked (finish_failed st attempts id t e)).
  { intros e. unfold finish_failed.
    destruct (finish_fields st attempts (task_key t) StatusFailed (Some e) (delete (task_key t) (epoch_phases st)) id) as (Hp & _ & Ht & _ & Hr & Hs).
    by eapply (tracked_end st _ id t None). }
  assert (Hmac : forall d c, stored (update_macro (storage st) d c).1 = stored (storage st)) by (intros; apply update_macro_law).
  unfold task_step. destruct (task_pc t) as [| |r| | | | | |r] eqn:Epc; simpl in Hpc.
  - destruct (permits st); [done|]. intros [= <-].
    match goal with |- tracked (report ?s ?at_ ?k ?x ?er) =>
      destruct (report_fields s at_ k x er) as (Hp & _ & Ht & _ & Hr & Hs & _) end.
    eapply (tracked_move st _ id t TLoad); [done|done|by rewrite Ht|by rewrite Hp|by rewrite Hr| |done].
    rewrite Hs. apply differs_refl.
  - pose proof (load_law (storage st) (task_request t)) as Hl. destruct (load_epoch _ _) as [e r]. intros [= <-].
    eapply (tracked_move st _ id t (TLoaded r)); try done; simpl in *; rewrite <- ?Hk; destruct r as [m|er].
    + destruct Hl as [_ ->]. intros x Hx. set_solver.
    + rewrite Hl. apply differs_refl.
    + destruct Hl as [_ ->]. set_solver.
    + done.
  - intros [= <-]. unfold after_load. destruct r as [m|e]; [|done].
    assert (Hmove : forall pc, pc_stored pc (engine_key (task_key t) ∈ stored (storage st)) ->
      tracked (set_task st id (at_pc t pc))) by (intros pc Hpc'; by eapply (tracked_move st)).
    destruct (epoch_phases st !! _) as [[]|]; try (by apply Hmove); (destruct (task_column t); [by apply Hact|by apply Hmove]).
  - pose proof (drop_epoch_law (storage st) (task_key t).1 (task_key t).2) as Hd.
    destruct (drop_epoch_table _ _ _) as [e r]. simpl in Hd.
    assert (Hmove : forall pc, pc = TEvictEnd \/ pc = TEvictMacro -> tracked (set_task (set_storage st e) id (at_pc t pc))).
    { intros pc Hpc'. eapply (tracked_move st _ id t pc); try done; simpl; rewrite Hd.
      - intros x Hx. change (epoch_key _ _) with (engine_key (task_key t)). set_solver.
      - destruct Hpc' as [-> | ->]; simpl; change (epoch_key _ _) with (engine_key (task_key t)); set_solver. }
    destruct r; [destruct (task_column t)|]; intros [= <-]; apply Hmove; auto.
  - intros [= <-]. eapply (tracked_move st _ id t TEvictEnd); try done; simpl; rewrite Hmac; [apply differs_refl|done].
  - intros [= <-]. by eapply (tracked_end st _ id t None).
  - intros [= <-]. eapply (tracked_move st _ id t TMacro); try done.
  - destruct (update_macro _ _ _) as [e r] eqn:Eu. intros [= <-].
    specialize (Hmac (task_key t).1 (task_column t)). rewrite Eu in Hmac. simpl in Hmac.
    eapply (tracked_move st _ id t (TMacroDone r)); try done; simpl; rewrite Hmac; [apply differs_refl|done].
  - destruct r as [u|e]; intros [= <-]; [by apply Hact|done].
Qed.

Lemma receiver_tracked (st st' : state) : tracked st -> receiver_step st = Some st' -> tracked st'.
Proof.
  intros Htr. unfold receiver_step. destruct (receiver st) as [|k|d] eqn:Er; [done| |].
  - destruct (tr_drop _ Htr k Er) as [Hn Hu].
    pose proof (drop_epoch_law (storage st) k.1 k.2) as Hd. destruct (drop_epoch_table _ _ _) as [e r]. simpl in Hd.
    assert (Hset : forall rc, rc <> HDrop k -> (forall k', rc = HDrop k' -> k' = k) ->
      tracked (set_receiver (set_storage st e) rc)).
    { intros rc Hrc Hrc'. destruct Htr as [Hus Ht Ho Hb Ha _].
      assert (Hkeep : forall k' p, epoch_phases st !! k' = Some p ->
        (engine_key k' ∈ stored e <-> engine_key k' ∈ stored (storage st))).
      { intros k' p Hp. rewrite Hd. assert (engine_key k' <> engine_key k); [|set_solver].
        intros Heq. assert (k' = k) as -> by (eapply distinct_keys; eauto). congruence. }
      split; simpl; try done.
      - intros id t Hid. destruct (Ht id t Hid) as (Hp & Hk & Hs). split_and!; try done.
        eapply pc_stored_iff; [|exact Hs]. symmetry. destruct Hp; by eapply Hkeep.
      - intros k' Hk'. eapply Hkeep; eauto.
      - intros k' ->. by destruct (Hrc' k' eq_refl). }
    destruct r; intros [= <-]; by apply Hset.
  - destruct Htr as [Hus Ht Ho Hb Ha _].
    destruct (get_dataset _ _); intros [= <-]; split; simpl; rewrite ?update_macro_law; done.
Qed.

(** Only the receiver, the sender's log or the drain flag changes. *)
Lemma tracked_ext (st st' : state) :
  tracked st -> epoch_phases st' = epoch_phases st -> tasks st' = tasks st -> storage st' = storage st ->
  receiver st' = receiver st -> tracked st'.
Proof. intros [? ? ? ? ? ?] Hp Ht Hs Hr. split; rewrite ?Hp, ?Ht, ?Hs, ?Hr; done. Qed.

Lemma assignment_tracked (st : state) attempts a :
  tracked st -> (forall id, is_Some (tasks st !! id) -> (id < next_task st)%nat) -> receiver st = HIdle ->
  (la_dataset_id a, la_epoch_id a) ∈ used -> epoch_phases st !! (la_dataset_id a, la_epoch_id a) = None ->
  tracked (handle_assignment decode_schema st attempts a).
Proof.
  intros Htr Hn Hidle Hu Hp. unfold handle_assignment. destruct (draining st).
  { match goal with |- tracked (report ?s ?at_ ?k ?x ?er) =>
      destruct (report_fields s at_ k x er) as (? & _ & ? & _ & ? & ? & _) end. by eapply tracked_ext. }
  rewrite Hp. simpl. destruct (into_load_request decode_schema a) as [req|e] eqn:Ereq.
  2: { match goal with |- tracked (report ?s ?at_ ?k ?x ?er) =>
         destruct (report_fields s at_ k x er) as (Hph & _ & ? & _ & ? & ? & _) end.
       eapply tracked_ext; [exact Htr| |done..]. rewrite Hph. simpl. by rewrite delete_insert_id. }
  assert (Hrk : request_key req = engine_key (la_dataset_id a, la_epoch_id a)).
  { unfold into_load_request in Ereq. destruct (decode_schema _); [|done]. by injection Ereq as <-. }
  assert (Hfresh : tasks st !! next_task st = None).
  { apply eq_None_not_Some. intros Hi%Hn. lia. }
  destruct Htr as [Hus Ht Ho Hb Ha Hd].
  assert (Hne : forall k q, epoch_phases st !! k = Some q -> k <> (la_dataset_id a, la_epoch_id a)) by congruence.
  assert (Hother : forall id t, tasks st !! id = Some t -> task_key t <> (la_dataset_id a, la_epoch_id a)).
  { intros id t Hid. destruct (Ht id t Hid) as ([Hx|Hx] & _); by eapply Hne. }
  split; simpl.
  - intros k q [[<- _]|[_ Hq]]%lookup_insert_Some; [done|by eapply Hus].
  - intros id t [[<- <-]|[_ Hid]]%lookup_insert_Some.
    + simpl. rewrite lookup_insert_eq. split_and!; auto.
    + pose proof (Hother id t Hid). rewrite lookup_insert_ne by done. by apply (Ht id).
  - intros id id' t t' [[<- <-]|[_ Hid]]%lookup_insert_Some [[<- <-]|[_ Hid']]%lookup_insert_Some Hk; simpl in Hk; try done.
    + by destruct (Hother id' t' Hid').
    + by destruct (Hother id t Hid).
    + by eapply Ho.
  - intros k Hk. destruct (decide (k = (la_dataset_id a, la_epoch_id a))) as [->|Hkne].
    + exists (next_task st). eexists. rewrite lookup_insert_eq. split; [reflexivity|done].
    + rewrite !lookup_insert_ne in Hk by done. destruct (Hb k Hk) as (id & t & Hid & Htk). exists id, t.
      split; [|done]. rewrite lookup_insert_ne; [done|]. congruence.
  - intros k [[<- ?]|[_ Hk]]%lookup_insert_Some; [done|by apply Ha].
  - intros k Hr. congruence.
Qed.

Lemma evict_tracked (st : state) k :
  tracked st -> receiver st = HIdle -> k ∈ used -> tracked (handle_evict st k).
Proof.
  intros Htr Hidle Hu. unfold handle_evict. destruct Htr as [Hus Ht Ho Hb Ha Hd].
  assert (Hdel : epoch_phases st !! k = Some PhaseActive \/ epoch_phases st !! k = None ->
    tracked (set_receiver (set_phases st (delete k (epoch_phases st))) (HDrop k))).
  { intros Hk.
    assert (Hne : forall k', epoch_phases st !! k' = Some PhaseLoading \/ epoch_phases st !! k' = Some PhaseEvicting -> k' <> k)
      by (intros k' Hk' ->; destruct Hk, Hk'; congruence).
    split; simpl.
    - intros k' q [_ Hq]%lookup_delete_Some. by eapply Hus.
    - intros id t Hid. destruct (Ht id t Hid) as (Hp & Hrest). rewrite lookup_delete_ne; [by split|]. intros Heq. by apply (Hne _ Hp).
    - done.
    - intros k' [[_ Hk']%lookup_delete_Some|[_ Hk']%lookup_delete_Some]; apply Hb; auto.
    - intros k' [_ Hk']%lookup_delete_Some. by apply Ha.
    - intros k' [= <-]. split; [apply lookup_delete_eq|done]. }
  destruct (epoch_phases st !! k) as [[]|] eqn:Ek; [|by apply Hdel; auto| |by apply Hdel; auto].
  2: { by split. }
  assert (Hph : forall k', <[k := PhaseEvicting]> (epoch_phases st) !! k' = Some PhaseLoading \/
      <[k := PhaseEvicting]> (epoch_phases st) !! k' = Some PhaseEvicting <->
      epoch_phases st !! k' = Some PhaseLoading \/ epoch_phases st !! k' = Some PhaseEvicting).
  { intros k'. destruct (decide (k' = k)) as [->|Hne]; [|by rewrite lookup_insert_ne].
    rewrite lookup_insert_eq, Ek. split; [by left|by right]. }
  split; simpl.
  - intros k' q [[<- _]|[_ Hq]]%lookup_insert_Some; [done|by eapply Hus].
  - intros id t Hid. rewrite Hph. by apply (Ht id).
  - done.
  - intros k' Hk'. rewrite Hph in Hk'. by apply Hb.
  - intros k' [[<- ?]|[_ Hk']]%lookup_insert_Some; [done|by apply Ha].
  - intros k' Hr. congruence.
Qed.

Lemma dstep_tracked max (st st' : state) a :
  tracked st -> balanced_permits max st -> well_behaved st a -> dstep decode_schema st a = Some st' -> tracked st'.
Proof.
  intros Htr [_ Hn] Hw. destruct a as [c attempts| |id attempts]; simpl.
  - destruct (receiver st) eqn:Er; [|done..]. intros [= <-]. destruct c as [a|d e r| |]; simpl in *.
    + destruct Hw. by apply assignment_tracked.
    + by apply evict_tracked.
    + by eapply tracked_ext.
    + done.
  - by apply receiver_tracked.
  - destruct (tasks st !! id) as [t|] eqn:Et; [|done]. by apply task_tracked.
Qed.

(** Runs with a well-behaved control plane. *)
Inductive reaches (start : state) : state -> Prop :=
| reaches_refl : reaches start start
| reaches_step st a st' : reaches start st -> well_behaved st a -> dstep decode_schema st a = Some st' -> reaches start st'.

Lemma reaches_tracked max t (e : E) (st : state) :
  reaches (WorkerRuntimeDispatcher_new max t e) st -> tracked st /\ balanced_permits max st.
Proof.
  induction 1 as [|st a st' _ [Htr Hb] Hw Hs].
  - split; [split; simpl; intros *; rewrite ?lookup_empty; try done; by intros []|].
    split; [done|]. simpl. intros id [u Hu]. by rewrite lookup_empty in Hu.
  - split; [by eapply dstep_tracked|by eapply dstep_balanced].
Qed.

Lemma loading_count_zero (st : state) : loading_count st = 0 -> forall k, epoch_phases st !! k <> Some PhaseLoading.
Proof.
  unfold loading_count. intros Hl k Hk. apply elem_of_map_to_list in Hk.
  assert (Hin : In (k, PhaseLoading)
    (List.filter (fun e : EpochKey * EpochPhase => bool_decide (snd e = PhaseLoading)) (map_to_list (epoch_phases st)))).
  { apply filter_In. split; [by apply list_elem_of_In|by apply bool_decide_eq_true]. }
  by destruct (List.filter _ _).
Qed.


(** When the scan macro cannot be updated, the load is reported as failed and
    its phase removed, but the table stays in the engine. *)
Theorem macro_failure_leaves_table (max : nat) (t : SqlTransformer) (e : E) (st st' : state) id u er attempts :
  reaches (WorkerRuntimeDispatcher_new max t e) st ->
  tasks st !! id = Some u -> task_pc u = TMacroDone (Err er) -> dstep decode_schema st (Advance id attempts) = Some st' ->
  epoch_phases st' !! task_key u = None /\ engine_key (task_key u) ∈ stored (storage st').
Proof.
  intros [[_ Ht _ _ _ _] _]%reaches_tracked Hid Hpc. destruct (Ht id u Hid) as (_ & _ & Hs). rewrite Hpc in Hs. simpl in Hs.
  simpl. rewrite Hid. simpl. unfold task_step. rewrite Hpc. intros [= <-]. unfold finish_failed.
  destruct (finish_fields st attempts (task_key u) StatusFailed (Some ("macro update failed: " +:+ er))
    (delete (task_key u) (epoch_phases st)) id) as (-> & _ & _ & _ & _ & ->).
  split; [apply lookup_delete_eq|done].
Qed.
End tracking.

(** ** Concrete runs *)

(** An engine that only knows which epochs it has. *)
Module SetEngine.
#[export] Instance engine : StorageEngine (gset string) unit := {|
  load_epoch e r :=
    if decide (request_key r ∈ e) then (e, Err "already exists")
    else (e ∪ {[ request_key r ]}, Ok (mkTableMetadata (ev_table_name (lr_epoch_view r)) 1%Z 8%Z 0%Z tt));
  drop_epoch_table e d ep := (e ∖ {[ epoch_key d ep ]}, if decide (epoch_key d ep ∈ e) then Ok tt else Err "not found");
  update_macro e _ _ := (e, Ok tt);
|}.

#[export] Instance engine_laws : StorageEngineLaws (gset string) unit.
Proof.
  refine {| stored e := e |}; simpl.
  - intros e req. by case_decide.
  - done.
  - done.
Defined.
End SetEngine.

#[local] Existing Instance SetEngine.engine.
#[local] Existing Instance SetEngine.engine_laws.

Definition assign (epoch : string) : Action :=
  Receive (Assignment (mkLoadAssignment "sales" epoch "p" ("sales_" +:+ epoch)
    (mkDataSourceInfo (Iceberg "") "" "" None) [] None "dt" "2025" ∅)) [].
Definition evict (epoch : string) : Action := Receive (EvictEpoch "sales" epoch "") [].
Definition decode_unit (_ : list Z) : result unit string := Ok tt.
Definition demo_dispatcher : @DState (gset string) unit := WorkerRuntimeDispatcher_new 1 SqlTransformer_new ∅.

(** One task to its end: acquire, load, check, register, update, finish. *)
Definition whole_load (id : nat) : list Action := repeat (Advance id []) 6.

Definition loaded_state : @DState (gset string) unit :=
  default demo_dispatcher (drun decode_unit demo_dispatcher (assign "e1" :: whole_load 0)).

(** Whether a run is one of a well-behaved control plane. *)
Definition is_well_behaved (used : gset EpochKey) (st : @DState (gset string) unit) (a : Action) : bool :=
  match a with
  | Receive (Assignment a) _ =>
      bool_decide ((la_dataset_id a, la_epoch_id a) ∈ used)
      && bool_decide (epoch_phases st !! (la_dataset_id a, la_epoch_id a) = None)
  | Receive (EvictEpoch d e _) _ => bool_decide ((d, e) ∈ used)
  | _ => true
  end.

Fixpoint well_run (used : gset EpochKey) (st : @DState (gset string) unit) (l : list Action) : bool :=
  match l with
  | [] => true
  | a :: l => is_well_behaved used st a && match dstep decode_unit st a with Some st' => well_run used st' l | None => false end
  end.

Lemma well_run_reaches used l st0 st st' :
  reaches decode_unit used st0 st -> well_run used st l = true -> drun decode_unit st l = Some st' ->
  reaches decode_unit used st0 st'.
Proof.
  revert st. induction l as [|a l IH]; intros st Hr Hw Hd; simpl in *; [by injection Hd as <-|]. bool_hyps.
  destruct (dstep decode_unit st a) as [st1|] eqn:Es; [|done]. simpl in Hd. apply (IH st1); [|done|done].
  eapply reaches_step; [done| |done]. destruct a as [[]| |]; simpl in *; bool_hyps; done.
Qed.

Lemma loads_bounded_witness :
  permits loaded_state + running (tasks loaded_state) = 1.
Proof.
  apply (loads_bounded decode_unit 1 SqlTransformer_new ∅ (assign "e1" :: whole_load 0)). vm_compute. reflexivity.
Defined.


(** An eviction while the epoch is loading drops it when the load ends. *)
Example evicted_during_load :
  (fun st => (list_loaded_epochs st, storage st, epoch_phases st !! ("sales", "e1"))) <$>
    drun decode_unit demo_dispatcher
      (assign "e1" :: Advance 0 [] :: evict "e1" :: repeat (Advance 0 []) 5) = Some ([], ∅, None).
Proof. vm_compute. reflexivity. Qed.

(** The eviction is lost when it arrives after the task has looked at the phase:
    the task overwrites [Evicting] by [Active], and the epoch stays. *)
Theorem eviction_lost :
  (fun st => (list_loaded_epochs st, elements (storage st), receiver st, size (tasks st))) <$>
    drun decode_unit demo_dispatcher
      (assign "e1" :: repeat (Advance 0 []) 3 ++ evict "e1" :: repeat (Advance 0 []) 3) =
  Some ([("sales", "e1")], ["sales__e1"], HIdle, 0%nat).
Proof. vm_compute. reflexivity. Qed.

(** [wait_for_drain] counts the phase [Loading] only: an evicted epoch that is
    still being loaded is not waited for. *)
Theorem drain_ignores_evicting :
  exists st, drun decode_unit demo_dispatcher
    [assign "e1"; Advance 0 []; evict "e1"; Receive Drain []] = Some st /\
    drain_returns st = true /\ running (tasks st) = 1.
Proof. eexists. split; [vm_compute; reflexivity|]. split; vm_compute; reflexivity. Qed.

(** A second assignment of a loaded epoch fails in the engine, and the failure
    removes the phase: the epoch is stored but no longer reported. *)
Theorem reassignment_forgets_epoch :
  (fun st => (list_loaded_epochs st, elements (storage st), size (tasks st))) <$>
    drun decode_unit demo_dispatcher
      (assign "e1" :: whole_load 0 ++ assign "e1" :: repeat (Advance 1 []) 3) =
  Some ([], ["sales__e1"], 0%nat).
Proof. vm_compute. reflexivity. Qed.
