(* ===== verification/Session.v ===== *)
(** * The control plane session
    (worker-cp/src/session.rs, config.rs, error.rs, dispatch.rs)

    Connecting, registering and reconciling, then two tasks: one sends the
    status updates and heartbeats, the other hands the commands to the
    dispatcher.  The tasks interleave with the users of the handle, the
    transport and the dispatcher; a run is a list of steps.  The network
    answers are part of a step; the dispatcher is an interface. *)

From stdpp Require Import pretty.
From S2P Require Import Prelude SqlAst Arrow EpochEngine ControlPlane Dispatcher.

#[local] Open Scope Z_scope.

(** ** Configuration and errors *)

(** Durations in milliseconds; a TLS configuration is opaque. *)
Record ControlPlaneConfig := mkControlPlaneConfig {
  master_addr : string; cpc_worker_id : string; cpc_tenant_id : string; worker_addr : option string;
  heartbeat_interval : Z; registration_timeout : Z; outgoing_channel_capacity : nat;
  connect_timeout : Z; http2_keep_alive_interval : Z; keep_alive_timeout : Z; keep_alive_while_idle : bool;
  retry_initial_interval : Z; retry_max_interval : Z; retry_max_elapsed_time : Z; tls : option string;
}.

Definition ControlPlaneConfig_default : ControlPlaneConfig :=
  mkControlPlaneConfig "" "" "" None 10000 10000 64 5000 15000 5000 true 500 30000 300000 None.

Definition ControlPlaneConfig_new (master_addr worker_id tenant_id : string) : ControlPlaneConfig :=
  mkControlPlaneConfig master_addr worker_id tenant_id None 10000 10000 64 5000 15000 5000 true 500 30000 300000 None.

Inductive SessionError :=
| SE_ConnectionFailed (addr source : string)
| RegistrationRejected (reason : string)
| StreamClosed (reason : string)
| HandshakeTimeout (timeout : Z)
| BackpressureFull (capacity : nat)
| SessionClosed.

Definition SessionError_display (duration_debug : Z -> string) (e : SessionError) : string :=
  match e with
  | SE_ConnectionFailed addr source => "failed to connect to control plane at `" +:+ addr +:+ "`: " +:+ source
  | RegistrationRejected reason => "registration rejected by control plane: " +:+ reason
  | StreamClosed reason => "control plane stream closed: " +:+ reason
  | HandshakeTimeout timeout => "registration handshake timed out after " +:+ duration_debug timeout
  | BackpressureFull capacity => "outgoing event channel is full (capacity: " +:+ pretty capacity +:+ ")"
  | SessionClosed => "session is closed, cannot send events"
  end.

Inductive SessionStatus := Connecting | Registering | Active | Disconnected (e : SessionError).

(** ** Connecting *)

Definition starts_with (prefix s : string) : bool := match strip_prefix prefix s with Some _ => true | None => false end.

(** The address with its scheme. *)
Definition endpoint_addr (cfg : ControlPlaneConfig) : string :=
  let raw := master_addr cfg in
  if starts_with "http://" raw || starts_with "https://" raw then raw
  else match tls cfg with Some _ => "https://" +:+ raw | None => "http://" +:+ raw end.

(** [parse] and [apply_tls] are the checks of the transport, [retry] the
    connection attempts of the backoff crate. *)
Definition build_channel_with_backoff {Endpoint Channel} (parse : string -> result Endpoint string)
    (apply_tls : Endpoint -> string -> result Endpoint string) (retry : Endpoint -> result Channel string)
    (cfg : ControlPlaneConfig) : result Channel SessionError :=
  let addr := endpoint_addr cfg in
  let failed {A} (r : result A string) := match r with Ok a => Ok a | Err e => Err (SE_ConnectionFailed addr e) end in
  let? endpoint := failed (parse addr) in
  let? endpoint := match tls cfg with Some t => failed (apply_tls endpoint t) | None => Ok endpoint end in
  failed (retry endpoint).

Definition advertised_addr (cfg : ControlPlaneConfig) : string := default (master_addr cfg) (worker_addr cfg).

(** ** The dispatcher, as the session uses it *)

Class TaskDispatcher (D : Type) := {
  td_handle_command : D -> ControlCommand -> D;
  td_handling : D -> bool;
  td_list_loaded_epochs : D -> list EpochKey;
}.

(** The runtime dispatcher; [attempts] are the answers of the outgoing channel
    to the updates of the call. *)
Definition runtime_dispatcher {E Schema} `{StorageEngine E Schema} (decode_schema : list Z -> result Schema string)
    (attempts : list TrySend) : TaskDispatcher (DState (E := E) (Schema := Schema)) := {|
  td_handle_command d c := handle_command decode_schema d attempts c;
  td_handling d := match receiver d with HIdle => false | _ => true end;
  td_list_loaded_epochs d := list_loaded_epochs d;
|}.

(** What a message asks the dispatcher for; undecodable and other messages are
    skipped. *)
Definition inbound_command (msg : EventStreamMessage) : option ControlCommand :=
  match esm_payload msg with
  | Some (PDataAssignment ev) => match assignment_from_proto ev with Ok a => Some (Assignment a) | Err _ => None end
  | Some (PCommonAck ack) => Some (command_from_ack ack)
  | _ => None
  end.

(** ** State *)

Inductive StartPc :=
| SConnect
| SOpen
| SRegister
| SAwaitAck
| SReconcile (todo : list EpochKey)
| SStarted
| SFailed (e : SessionError)
| SPanicked.

(** The first answer of the control plane, within the timeout or not. *)
Inductive FirstMessage := FirstTimeout | FirstError (status : string) | FirstEnd | First (msg : EventStreamMessage).

Inductive StartAnswer := AChannel (r : result unit SessionError) | AOpened (r : result unit string) | AFirst (f : FirstMessage) | ASend.

Inductive SendPc := SendSelect | SendWrite (msg : EventStreamMessage) | SendEnded.
Inductive RecvPc := RecvSelect | RecvEnded.

(** Tokio's [Semaphore::MAX_PERMITS], and the capacities [mpsc::channel] panics at. *)
Definition MAX_PERMITS : Z := 2 ^ 61 - 1.
Definition mpsc_panics (capacity : nat) : bool := (capacity =? 0)%nat || (MAX_PERMITS <? Z.of_nat capacity).

Section session.
Context `{TaskDispatcher D} (cfg : ControlPlaneConfig) (event_ids : nat -> string).

(** The request channel [grpc] is what was written to it and how much of that
    the transport took; [accepted] and [dispatched] record what the handles
    enqueued and what the dispatcher was given. *)
Record Session := mkSession {
  s_pc : StartPc; s_status : SessionStatus;
  s_grpc : list EventStreamMessage; s_taken : nat; s_open : bool;
  s_queue : list OutgoingPayload; s_senders : bool; s_cancel : bool; s_send : SendPc; s_recv : RecvPc;
  s_dispatcher : D; s_accepted : list OutgoingPayload; s_received : list EventStreamMessage; s_dispatched : list ControlCommand;
}.

Definition session_start (d : D) : Session :=
  mkSession SConnect Connecting [] 0 true [] false false SendEnded RecvEnded d [] [] [].

Definition at_start (st : Session) (pc : StartPc) (status : SessionStatus) : Session :=
  mkSession pc status (s_grpc st) (s_taken st) (s_open st) (s_queue st) (s_senders st) (s_cancel st) (s_send st) (s_recv st)
    (s_dispatcher st) (s_accepted st) (s_received st) (s_dispatched st).

Definition write (st : Session) (msg : EventStreamMessage) : Session :=
  mkSession (s_pc st) (s_status st) (s_grpc st ++ [msg]) (s_taken st) (s_open st) (s_queue st) (s_senders st) (s_cancel st)
    (s_send st) (s_recv st) (s_dispatcher st) (s_accepted st) (s_received st) (s_dispatched st).

Definition send_at (st : Session) (pc : SendPc) (queue : list OutgoingPayload) : Session :=
  mkSession (s_pc st) (s_status st) (s_grpc st) (s_taken st) (s_open st) queue (s_senders st) (s_cancel st)
    pc (s_recv st) (s_dispatcher st) (s_accepted st) (s_received st) (s_dispatched st).

(** [cancel.cancel()] and the status of the disconnection. *)
Definition disconnect (st : Session) (e : SessionError) (send : SendPc) (recv : RecvPc) : Session :=
  mkSession (s_pc st) (Disconnected e) (s_grpc st) (s_taken st) (s_open st) (s_queue st) (s_senders st) true
    send recv (s_dispatcher st) (s_accepted st) (s_received st) (s_dispatched st).

Definition grpc_room (st : Session) : bool := (length (s_grpc st) - s_taken st <? outgoing_channel_capacity cfg)%nat.

Definition next_id (st : Session) : string := event_ids (length (s_grpc st)).

(** ** Starting *)

Definition classify_first (f : FirstMessage) : result unit SessionError :=
  match f with
  | FirstTimeout => Err (HandshakeTimeout (registration_timeout cfg))
  | FirstError s => Err (StreamClosed ("stream error during registration: " +:+ s))
  | FirstEnd => Err (StreamClosed "server closed stream during registration handshake")
  | First msg =>
      match esm_payload msg with
      | Some (PCommonAck ack) =>
          if decide (event_type ack = "registration_ack") then Ok tt
          else if str_contains (event_type ack) "reject" then Err (RegistrationRejected (event_type ack))
          else Ok tt
      | _ => Ok tt
      end
  end.

Definition reconciliation (id : string) (k : EpochKey) : EventStreamMessage :=
  status_update_event id (cpc_worker_id cfg) (cpc_tenant_id cfg) k.1 k.2 Completed None.

Definition spawn_tasks (st : Session) : Session :=
  mkSession SStarted Active (s_grpc st) (s_taken st) (s_open st) [] true false SendSelect RecvSelect
    (s_dispatcher st) [] [] [].

Definition start_step (st : Session) (a : StartAnswer) : option Session :=
  match s_pc st, a with
  | SConnect, AChannel (Ok _) =>
      Some (at_start st (if mpsc_panics (outgoing_channel_capacity cfg) then SPanicked else SOpen) Connecting)
  | SConnect, AChannel (Err e) => Some (at_start st (SFailed e) Connecting)
  | SOpen, AOpened (Ok _) => Some (at_start st SRegister Registering)
  | SOpen, AOpened (Err s) =>
      Some (at_start st (SFailed (StreamClosed ("failed to open CoordinateWorker stream: " +:+ s))) Connecting)
  | SRegister, ASend =>
      if s_open st then
        if grpc_room st then
          Some (at_start (write st (register_event (next_id st) (cpc_worker_id cfg) (cpc_tenant_id cfg) (advertised_addr cfg)))
                  SAwaitAck Registering)
        else None
      else Some (at_start st (SFailed (StreamClosed "outgoing gRPC channel closed before registration could be sent")) Registering)
  | SAwaitAck, AFirst f =>
      match classify_first f with
      | Ok _ => Some (at_start st (SReconcile (td_list_loaded_epochs (s_dispatcher st))) Registering)
      | Err e => Some (at_start st (SFailed e) Registering)
      end
  | SReconcile (k :: todo), ASend =>
      if s_open st then
        if grpc_room st then Some (at_start (write st (reconciliation (next_id st) k)) (SReconcile todo) Registering) else None
      else Some (at_start st (SReconcile todo) Registering)
  | SReconcile [], ASend => Some (spawn_tasks st)
  | _, _ => None
  end.

(** ** The handle *)

Definition enqueue (st : Session) (p : OutgoingPayload) : Session :=
  mkSession (s_pc st) (s_status st) (s_grpc st) (s_taken st) (s_open st) (s_queue st ++ [p]) (s_senders st) (s_cancel st)
    (s_send st) (s_recv st) (s_dispatcher st) (s_accepted st ++ [p]) (s_received st) (s_dispatched st).

Definition try_send (st : Session) (p : OutgoingPayload) : result unit SessionError * Session :=
  match s_send st with
  | SendEnded => (Err SessionClosed, st)
  | _ =>
      if (length (s_queue st) <? outgoing_channel_capacity cfg)%nat then (Ok tt, enqueue st p)
      else (Err (BackpressureFull (outgoing_channel_capacity cfg)), st)
  end.

Definition try_send_status_update (st : Session) (dataset_id epoch_id : string) (status : LoadStatus) (error_message : option string)
    : result unit SessionError * Session :=
  try_send st (StatusUpdate dataset_id epoch_id status error_message).

(** ** The send task *)

Definition wrapped (st : Session) (p : OutgoingPayload) : EventStreamMessage :=
  wrap_outgoing (next_id st) (cpc_worker_id cfg) (cpc_tenant_id cfg) p.

(** The queue is forwarded as far as there is room. *)
Fixpoint drain (st : Session) (queue : list OutgoingPayload) : Session :=
  match queue with
  | [] => send_at st SendEnded []
  | p :: queue => drain (if s_open st && grpc_room st then write st (wrapped st p) else st) queue
  end.

(** [tick]: the heartbeat interval has elapsed. *)
Definition send_step (st : Session) (tick : bool) : option Session :=
  match s_send st with
  | SendSelect =>
      if s_cancel st then Some (drain st (s_queue st))
      else
        match s_queue st with
        | p :: queue => Some (send_at st (SendWrite (wrapped st p)) queue)
        | [] =>
            if s_senders st then
              if tick then Some (send_at st (SendWrite (wrapped st Heartbeat)) []) else None
            else Some (disconnect st SessionClosed SendEnded (s_recv st))
        end
  | SendWrite msg =>
      if s_open st then
        if grpc_room st then Some (send_at (write st msg) SendSelect (s_queue st)) else None
      else Some (disconnect st (StreamClosed "gRPC request channel closed") SendEnded (s_recv st))
  | SendEnded => None
  end.

(** ** The receive task *)

Inductive Inbound := InboundError (status : string) | InboundEnd | InboundMessage (msg : EventStreamMessage).

Definition handle_inbound (st : Session) (msg : EventStreamMessage) : Session :=
  let c := inbound_command msg in
  mkSession (s_pc st) (s_status st) (s_grpc st) (s_taken st) (s_open st) (s_queue st) (s_senders st) (s_cancel st)
    (s_send st) (s_recv st) (match c with Some c => td_handle_command (s_dispatcher st) c | None => s_dispatcher st end)
    (s_accepted st) (s_received st ++ [msg]) (s_dispatched st ++ option_list c).

Definition recv_step (st : Session) (i : Inbound) : option Session :=
  match s_recv st with
  | RecvEnded => None
  | RecvSelect =>
      if td_handling (s_dispatcher st) then None
      else if s_cancel st then
        Some (mkSession (s_pc st) (s_status st) (s_grpc st) (s_taken st) (s_open st) (s_queue st) (s_senders st) (s_cancel st)
                (s_send st) RecvEnded (s_dispatcher st) (s_accepted st) (s_received st) (s_dispatched st))
      else
        match i with
        | InboundError s => Some (disconnect st (StreamClosed ("gRPC stream error: " +:+ s)) (s_send st) RecvEnded)
        | InboundEnd => Some (disconnect st (StreamClosed "server closed the stream") (s_send st) RecvEnded)
        | InboundMessage msg => Some (handle_inbound st msg)
        end
  end.

(** ** Runs *)

Inductive SessionAction :=
| Start (a : StartAnswer)
| TrySendOne (p : OutgoingPayload)
| DropSenders
| SendStep (tick : bool)
| RecvStep (i : Inbound)
| TransportTakes
| TransportCloses
| DispatcherMoves (d : D).

Definition step (st : Session) (a : SessionAction) : option Session :=
  match a with
  | Start a => start_step st a
  | TrySendOne p => if s_senders st then Some (try_send st p).2 else None
  | DropSenders =>
      Some (mkSession (s_pc st) (s_status st) (s_grpc st) (s_taken st) (s_open st) (s_queue st) false (s_cancel st)
              (s_send st) (s_recv st) (s_dispatcher st) (s_accepted st) (s_received st) (s_dispatched st))
  | SendStep tick => send_step st tick
  | RecvStep i => recv_step st i
  | TransportTakes =>
      if (s_taken st <? length (s_grpc st))%nat then
        Some (mkSession (s_pc st) (s_status st) (s_grpc st) (S (s_taken st)) (s_open st) (s_queue st) (s_senders st) (s_cancel st)
                (s_send st) (s_recv st) (s_dispatcher st) (s_accepted st) (s_received st) (s_dispatched st))
      else None
  | TransportCloses =>
      Some (mkSession (s_pc st) (s_status st) (s_grpc st) (s_taken st) false (s_queue st) (s_senders st) (s_cancel st)
              (s_send st) (s_recv st) (s_dispatcher st) (s_accepted st) (s_received st) (s_dispatched st))
  | DispatcherMoves d =>
      Some (mkSession (s_pc st) (s_status st) (s_grpc st) (s_taken st) (s_open st) (s_queue st) (s_senders st) (s_cancel st)
              (s_send st) (s_recv st) d (s_accepted st) (s_received st) (s_dispatched st))
  end.

Fixpoint srun (st : Session) (l : list SessionAction) : option Session :=
  match l with [] => Some st | a :: l => st' ← step st a; srun st' l end.
End session.

(** ** What a run keeps *)

Section sound.
Context `{TaskDispatcher D} (cfg : ControlPlaneConfig) (event_ids : nat -> string).
Abbreviation step := (step cfg event_ids).
Abbreviation srun := (srun cfg event_ids).
Implicit Types st : @Session D.

(** The status updates among messages, and those of payloads. *)
Definition event_of (m : EventStreamMessage) : option StatusUpdateEvent :=
  match esm_payload m with Some (PStatusUpdate e) => Some e | _ => None end.

Definition update_of (p : OutgoingPayload) : option StatusUpdateEvent :=
  match p with
  | StatusUpdate d e s m => Some (mkStatusUpdateEvent d e (load_status_to_proto s) (default EmptyString m))
  | Heartbeat => None
  end.

Definition loaded_event (k : EpochKey) : StatusUpdateEvent :=
  mkStatusUpdateEvent k.1 k.2 (load_status_to_proto Completed) EmptyString.

Definition in_write (st : @Session D) : list EventStreamMessage := match s_send st with SendWrite m => [m] | _ => [] end.

Definition events (l : list EventStreamMessage) : list StatusUpdateEvent := omap event_of l.
Definition updates (l : list OutgoingPayload) : list StatusUpdateEvent := omap update_of l.

#[local] Arguments events : simpl never.
#[local] Arguments updates : simpl never.

(** The reconciled epochs come first, then the updates that were accepted, in
    order: all of them while the task runs, the rest of them in the queue. *)
Definition forwards (st : @Session D) : Prop :=
  exists reconciled sent, events (s_grpc st) = map loaded_event reconciled ++ sent /\
    (s_pc st <> SStarted -> sent = [] /\ s_accepted st = [] /\ s_send st = SendEnded /\ s_recv st = RecvEnded /\ s_cancel st = false) /\
    match s_send st with
    | SendEnded => sublist sent (updates (s_accepted st))
    | _ => updates (s_accepted st) = sent ++ events (in_write st) ++ updates (s_queue st)
    end.

Definition status_tracks (st : @Session D) : Prop :=
  match s_pc st with
  | SConnect | SOpen | SPanicked => s_status st = Connecting
  | SRegister | SAwaitAck | SReconcile _ => s_status st = Registering
  | SFailed _ => s_status st = Connecting \/ s_status st = Registering
  | SStarted =>
      s_status st = Active /\ s_cancel st = false /\ s_send st <> SendEnded /\ s_recv st = RecvSelect \/
      (exists e, s_status st = Disconnected e) /\ s_cancel st = true /\ (s_send st = SendEnded \/ s_recv st = RecvEnded)
  end.

Record session_inv (st : @Session D) : Prop := {
  sv_forwards : forwards st;
  sv_status : status_tracks st;
  sv_queue : (length (s_queue st) <= outgoing_channel_capacity cfg)%nat;
  sv_dispatched : s_dispatched st = omap inbound_command (s_received st);
}.

Lemma events_app l l' : events (l ++ l') = events l ++ events l'.
Proof. apply omap_app. Qed.

Lemma updates_app l l' : updates (l ++ l') = updates l ++ updates l'.
Proof. apply omap_app. Qed.

Lemma events_cons m l : events (m :: l) = events [m] ++ events l.
Proof. apply (events_app [m]). Qed.

Lemma updates_cons p l : updates (p :: l) = updates [p] ++ updates l.
Proof. apply (updates_app [p]). Qed.

Lemma event_wrapped st p : event_of (wrapped cfg event_ids st p) = update_of p.
Proof. by destruct p. Qed.

Lemma events_wrapped st p : events [wrapped cfg event_ids st p] = updates [p].
Proof. unfold events, updates. simpl. by rewrite event_wrapped. Qed.

(** Draining forwards a part of the queue and changes nothing else. *)
Lemma drain_spec queue : forall st, exists sent,
  drain cfg event_ids st queue =
    mkSession (s_pc st) (s_status st) (s_grpc st ++ sent) (s_taken st) (s_open st) [] (s_senders st) (s_cancel st) SendEnded (s_recv st)
      (s_dispatcher st) (s_accepted st) (s_received st) (s_dispatched st) /\
  sublist (events sent) (updates queue).
Proof.
  induction queue as [|p queue IH]; intros st; simpl.
  - exists []. by rewrite app_nil_r.
  - destruct (s_open st && grpc_room cfg st) eqn:Ho.
    + destruct (IH (write st (wrapped cfg event_ids st p))) as (sent & -> & Hs). exists (wrapped cfg event_ids st p :: sent). simpl.
      rewrite <- app_assoc. split; [done|].
      rewrite events_cons, events_wrapped, (updates_cons p queue). by apply sublist_app.
    + destruct (IH st) as (sent & -> & Hs). exists sent. split; [done|]. rewrite (updates_cons p queue). by apply sublist_inserts_l.
Qed.

(** Until it is started, the session writes reconciliations only. *)
Lemma before_started st pc status grpc ks :
  session_inv st -> s_pc st <> SStarted -> pc <> SStarted -> events grpc = events (s_grpc st) ++ map loaded_event ks ->
  let st' := mkSession pc status grpc (s_taken st) (s_open st) (s_queue st) (s_senders st) (s_cancel st) (s_send st) (s_recv st)
    (s_dispatcher st) (s_accepted st) (s_received st) (s_dispatched st) in
  status_tracks st' -> session_inv st'.
Proof.
  intros [(recon & sent & He & Hn & Hw) _ Hq Hd] Hpc Hpc' Hg st' Hs. destruct (Hn Hpc) as (-> & Ha & Hsend & Hrecv & Hc).
  split; [|done..]. exists (recon ++ ks), []. simpl. rewrite Hg, He, map_app, !app_nil_r, Hsend, Ha. by split_and!.
Qed.

Lemma same_started st pc status :
  session_inv st -> s_pc st <> SStarted -> pc <> SStarted -> status_tracks (at_start st pc status) -> session_inv (at_start st pc status).
Proof. intros. apply (before_started st pc status (s_grpc st) []); [done..| |done]. by rewrite app_nil_r. Qed.

Lemma write_started st msg pc status ks :
  session_inv st -> s_pc st <> SStarted -> pc <> SStarted -> events [msg] = map loaded_event ks ->
  status_tracks (at_start (write st msg) pc status) -> session_inv (at_start (write st msg) pc status).
Proof. intros ??? Hm ?. apply (before_started st pc status (s_grpc st ++ [msg]) ks); [done..| |done]. by rewrite events_app, Hm. Qed.

Lemma start_step_inv st st' a : session_inv st -> start_step cfg event_ids st a = Some st' -> session_inv st'.
Proof.
  intros Hinv. pose proof (sv_status _ Hinv) as Hs. unfold start_step, status_tracks in *.
  destruct (s_pc st) as [| | | |[|k todo]| |e|] eqn:Hpc; destruct a as [[u|e']|[u|e']|f|]; try done.
  - intros [= <-]. apply same_started; [done|by rewrite Hpc|by destruct (mpsc_panics _)|]. unfold status_tracks. simpl. by destruct (mpsc_panics _).
  - intros [= <-]. apply same_started; [done|by rewrite Hpc|done|by left].
  - intros [= <-]. by apply same_started; [|rewrite Hpc| |].
  - intros [= <-]. apply same_started; [done|by rewrite Hpc|done|by left].
  - destruct (s_open st); [destruct (grpc_room cfg st); [|done]|]; intros [= <-].
    + by apply (write_started _ _ _ _ []); [|rewrite Hpc| | |].
    + apply same_started; [done|by rewrite Hpc|done|by right].
  - destruct (classify_first cfg f); intros [= <-]; apply same_started; try done; [by rewrite Hpc..|by right].
  - intros [= <-]. destruct Hinv as [(recon & sent & He & Hn & Hw) _ Hq Hd]. destruct (Hn ltac:(by rewrite Hpc)) as (-> & Ha & Hsend & Hrecv & Hc).
    split; [|by left|simpl; lia|done]. exists recon, []. simpl. by split_and!.
  - destruct (s_open st); [destruct (grpc_room cfg st); [|done]|]; intros [= <-].
    + by apply (write_started _ _ _ _ [k]); [|rewrite Hpc| | |].
    + by apply same_started; [|rewrite Hpc| |].
Qed.
Lemma started_when st : session_inv st -> s_send st <> SendEnded \/ s_recv st <> RecvEnded \/ s_cancel st = true -> s_pc st = SStarted.
Proof.
  intros [(recon & sent & _ & Hn & _) _ _ _] Hor. destruct (s_pc st); try done;
    destruct (Hn ltac:(done)) as (_ & _ & Hs & Hr & Hc); destruct Hor as [?|[?|?]]; congruence.
Qed.

Lemma try_send_inv st p : session_inv st -> session_inv (try_send cfg st p).2.
Proof.
  intros Hinv. unfold try_send. destruct (s_send st) as [|msg|] eqn:Hsend; [| |done].
  all: destruct (Nat.ltb_spec (length (s_queue st)) (outgoing_channel_capacity cfg)) as [Hlt|]; [|done].
  all: pose proof (started_when st Hinv ltac:(left; by rewrite Hsend)) as Hpc; destruct Hinv as [(recon & sent & He & Hn & Hw) Hs Hq Hd].
  all: simpl; split; [|exact Hs|simpl; rewrite length_app; simpl; lia|exact Hd].
  all: exists recon, sent; split; [done|]; split; [by intros []|]; unfold in_write in *; simpl; rewrite Hsend in *.
  all: by rewrite !updates_app, Hw, !app_assoc.
Qed.

Lemma send_step_inv st st' tick : session_inv st -> send_step cfg event_ids st tick = Some st' -> session_inv st'.
Proof.
  intros Hinv. unfold send_step. destruct (s_send st) as [|msg|] eqn:Hsend; [| |done].
  all: pose proof (started_when st Hinv ltac:(left; by rewrite Hsend)) as Hpc; destruct Hinv as [(recon & sent & He & Hn & Hw) Hs Hq Hd].
  all: unfold in_write, status_tracks in *; rewrite Hsend, Hpc in *.
  - destruct (s_cancel st) eqn:Hc; [|destruct (s_queue st) as [|p queue] eqn:Hqu; [destruct (s_senders st); [destruct tick; [|done]|]|]]; intros [= <-].
    + destruct (drain_spec (s_queue st) st) as (more & -> & Hsub). split; [|unfold status_tracks; simpl; rewrite Hpc|simpl; rewrite ?Hqu; simpl; lia|done].
      * exists recon, (sent ++ events more). simpl. rewrite events_app, He, app_assoc. split; [done|]. split; [by intros []|].
        rewrite Hw. by apply sublist_app.
      * destruct Hs as [(_ & ? & _)|(? & _ & _)]; [congruence|]. right. split_and!; [done..|by left].
    + split; [|unfold status_tracks; simpl; rewrite Hpc|simpl; rewrite ?Hqu; simpl; lia|done].
      * exists recon, sent. split; [done|]. split; [by intros []|]. exact Hw.
      * left. destruct Hs as [(? & _ & _ & ?)|(_ & ? & _)]; [done|congruence].
    + split; [|unfold status_tracks; simpl; rewrite Hpc|simpl; rewrite ?Hqu; simpl; lia|done].
      * exists recon, sent. split; [done|]. split; [by intros []|]. simpl. rewrite Hw, app_nil_r. reflexivity.
      * right. split_and!; [by eexists|done|by left].
    + split; [|unfold status_tracks; simpl; rewrite Hpc|simpl in *; lia|done].
      * exists recon, sent. split; [done|]. split; [by intros []|]. unfold in_write. simpl. by rewrite events_wrapped, <- updates_cons.
      * left. destruct Hs as [(? & _ & _ & ?)|(_ & ? & _)]; [done|congruence].
  - destruct (s_open st) eqn:Ho; [destruct (grpc_room cfg st); [|done]|]; intros [= <-].
    + split; [|unfold status_tracks; simpl; rewrite Hpc|simpl; rewrite ?Hqu; simpl; lia|done].
      * exists recon, (sent ++ events [msg]). simpl. rewrite events_app, He, app_assoc. split; [done|]. split; [by intros []|].
        unfold in_write. simpl. by rewrite Hw, <- app_assoc.
      * destruct Hs as [(? & ? & _ & ?)|(? & ? & [?|?])]; [by left|done|]. right. split_and!; [done..|by right].
    + split; [|unfold status_tracks; simpl; rewrite Hpc|simpl; rewrite ?Hqu; simpl; lia|done].
      * exists recon, sent. split; [done|]. split; [by intros []|]. simpl. rewrite Hw. by apply sublist_inserts_r.
      * right. split_and!; [by eexists|done|by left].
Qed.

Lemma recv_step_inv st st' i : session_inv st -> recv_step st i = Some st' -> session_inv st'.
Proof.
  intros Hinv. unfold recv_step. destruct (s_recv st) eqn:Hrecv; [|done].
  pose proof (started_when st Hinv ltac:(right; left; by rewrite Hrecv)) as Hpc. destruct Hinv as [(recon & sent & He & Hn & Hw) Hs Hq Hd].
  unfold status_tracks in Hs. rewrite Hpc in Hs. destruct (td_handling _); [done|]. destruct (s_cancel st) eqn:Hc; [|destruct i as [s| |msg]]; intros [= <-].
  - split; [exists recon, sent; split; [done|]; split; [by intros []|exact Hw]|unfold status_tracks; simpl; rewrite Hpc|done|done].
    destruct Hs as [(_ & ? & _)|(? & _ & _)]; [congruence|]. right. split_and!; [done..|by right].
  - split; [exists recon, sent; split; [done|]; split; [by intros []|exact Hw]|unfold status_tracks; simpl; rewrite Hpc|done|done]. right. split_and!; [by eexists|done|by right].
  - split; [exists recon, sent; split; [done|]; split; [by intros []|exact Hw]|unfold status_tracks; simpl; rewrite Hpc|done|done]. right. split_and!; [by eexists|done|by right].
  - split; [exists recon, sent; split; [done|]; split; [by intros []|exact Hw]|unfold status_tracks; simpl; by rewrite Hpc, Hc|done|]. simpl.
    rewrite Hd, omap_app. simpl. by destruct (inbound_command msg).
Qed.

Lemma step_inv st st' a : session_inv st -> step st a = Some st' -> session_inv st'.
Proof.
  intros Hinv. destruct a as [a|p| |tick|i| | |d]; simpl.
  - by apply start_step_inv.
  - destruct (s_senders st); [|done]. intros [= <-]. by apply try_send_inv.
  - intros [= <-]. destruct Hinv as [Hf Hs Hq Hd]. by split.
  - by apply send_step_inv.
  - by apply recv_step_inv.
  - destruct (_ <? _)%nat; [|done]. intros [= <-]. destruct Hinv as [Hf Hs Hq Hd]. by split.
  - intros [= <-]. destruct Hinv as [Hf Hs Hq Hd]. by split.
  - intros [= <-]. destruct Hinv as [Hf Hs Hq Hd]. by split.
Qed.

Lemma srun_inv l : forall st st', session_inv st -> srun st l = Some st' -> session_inv st'.
Proof.
  induction l as [|a l IH]; simpl; intros st st' Hinv; [by intros [= <-]|].
  destruct (Session.step cfg event_ids st a) as [st1|] eqn:Ha; [|done]. intros Hr. eapply IH; [|exact Hr]. by eapply step_inv.
Qed.

Lemma session_start_inv d : session_inv (session_start d).
Proof. split; [|done|simpl; lia|done]. exists [], []. split; [done|]. split; [done|constructor]. Qed.
Lemma reached d l st : srun (session_start d) l = Some st -> session_inv st.
Proof. apply srun_inv, session_start_inv. Qed.


(** The published status follows the session: connecting and
    registering while it starts, active exactly while both tasks run and nothing
    was cancelled, disconnected with a reason from then on. *)
Theorem session_status_tracks d l st : srun (session_start d) l = Some st -> status_tracks st.
Proof. intros Hr. apply (reached d l st Hr). Qed.

Lemma step_cancelled st st' a : session_inv st -> s_cancel st = true -> step st a = Some st' ->
  s_cancel st' = true /\ s_dispatched st' = s_dispatched st.
Proof.
  intros Hinv Hc. pose proof (started_when st Hinv ltac:(by right; right)) as Hpc. destruct a as [a|p| |tick|i| | |d]; simpl.
  - unfold start_step. by rewrite Hpc.
  - destruct (s_senders st); [|done]. intros [= <-]. unfold try_send. repeat case_match; by simplify_eq.
  - by intros [= <-].
  - unfold send_step. rewrite Hc. destruct (drain_spec (s_queue st) st) as (more & -> & _). repeat case_match; intros; by simplify_eq.
  - unfold recv_step. rewrite Hc. repeat case_match; intros; by simplify_eq.
  - destruct (_ <? _)%nat; [|done]. by intros [= <-].
  - by intros [= <-].
  - by intros [= <-].
Qed.

(** C29: A disconnected session dispatches nothing more and stays
    disconnected, and both tasks can end, once the transport has closed the
    stream and the dispatcher has finished its command. *)
Theorem disconnected_session_stops d l st idle :
  srun (session_start d) l = Some st -> s_cancel st = true -> td_handling idle = false ->
  (forall more st', srun st more = Some st' ->
     s_dispatched st' = s_dispatched st /\ exists e, s_status st' = Disconnected e) /\
  exists more st', srun st more = Some st' /\ s_send st' = SendEnded /\ s_recv st' = RecvEnded.
Proof.
  intros Hr Hc Hidle. pose proof (reached d l st Hr) as Hinv. split.
  - intros more. assert (Hgen : forall st0 st', session_inv st0 -> s_cancel st0 = true -> srun st0 more = Some st' ->
      s_dispatched st' = s_dispatched st0 /\ exists e, s_status st' = Disconnected e).
    { induction more as [|a more IH]; simpl; intros st0 st' Hinv0 Hc0.
      - intros [= <-]. split; [done|]. pose proof (sv_status _ Hinv0) as Hs. unfold status_tracks in Hs.
        rewrite (started_when st0 Hinv0) in Hs by (by right; right). destruct Hs as [(_ & ? & _)|[? _]]; [congruence|done].
      - destruct (Session.step cfg event_ids st0 a) as [st1|] eqn:Ha; [|done]. intros Hr1.
        destruct (step_cancelled st0 st1 a Hinv0 Hc0 Ha) as [Hc1 <-]. apply (IH st1); [by eapply step_inv|done|done]. }
    intros st'. by apply Hgen.
  - assert (Hsend : exists more st', srun st more = Some st' /\ s_send st' = SendEnded /\ s_cancel st' = true /\ s_recv st' = s_recv st).
    { destruct (s_send st) as [|msg|] eqn:Hs.
      - exists [SendStep false]. simpl. unfold send_step. rewrite Hs, Hc. simpl.
        destruct (drain_spec (s_queue st) st) as (more & -> & _). by eexists.
      - exists [TransportCloses; SendStep false]. simpl. unfold send_step. simpl. rewrite Hs. simpl. by eexists.
      - by exists [], st. }
    destruct Hsend as (more & st1 & Hr1 & Hs1 & Hc1 & Hrecv). destruct (s_recv st) eqn:Hrv; [|by exists more, st1].
    exists (more ++ [DispatcherMoves idle; RecvStep InboundEnd]). eexists.
    assert (Happ : forall l1 l2 s, srun s (l1 ++ l2) = srun s l1 ≫= fun s => srun s l2).
    { induction l1 as [|a l1 IH]; intros l2 s; simpl; [done|]. destruct (Session.step _ _ s a); simpl; [apply IH|done]. }
    rewrite Happ, Hr1. simpl. unfold recv_step. simpl. rewrite Hrecv, Hidle, Hc1. simpl. by split_and!.
Qed.
End sound.

(** ** Concrete sessions *)

(** A dispatcher that records its commands and has one epoch. *)
#[local] Instance recording : TaskDispatcher (list ControlCommand) := {|
  td_handle_command d c := d ++ [c];
  td_handling _ := false;
  td_list_loaded_epochs _ := [("sales", "e1")];
|}.

Definition demo_config : ControlPlaneConfig := ControlPlaneConfig_new "cp:50051" "w1" "acme".

Definition demo_ack (event_type : string) : EventStreamMessage :=
  mkEventStreamMessage "m" "acme" "w1" (Some (PCommonAck (mkCommonAckEvent EmptyString event_type None))).

Definition demo_starts : list (SessionAction (D := list ControlCommand)) :=
  [Start (AChannel (Ok tt)); Start (AOpened (Ok tt)); Start ASend; Start (AFirst (First (demo_ack "registration_ack")));
   Start ASend; Start ASend].

Definition demo_update (e : string) : OutgoingPayload := StatusUpdate "sales" e Completed None.

Definition demo_ids (n : nat) : string := pretty n.

#[local] Notation demo_session l := (srun demo_config demo_ids (session_start ([] : list ControlCommand)) (demo_starts ++ l)).

(** Two updates are accepted and one is sent when a command comes in. *)
Definition demo_traffic : list (SessionAction (D := list ControlCommand)) :=
  [TrySendOne (demo_update "e2"); TrySendOne (demo_update "e3"); SendStep false; SendStep false;
   RecvStep (InboundMessage (demo_ack "drain_command"))].


Lemma session_status_tracks_witness :
  exists st, demo_session demo_traffic = Some st /\ status_tracks st.
Proof.
  assert (Hf : is_Some (demo_session demo_traffic)) by (vm_compute; by eexists). destruct Hf as [st Hr].
  exists st. split; [exact Hr|]. exact (session_status_tracks demo_config demo_ids [] _ st Hr).
Defined.

Lemma disconnected_session_stops_witness :
  exists st, demo_session (demo_traffic ++ [RecvStep InboundEnd]) = Some st /\
    exists more st', srun demo_config demo_ids st more = Some st' /\ s_send st' = SendEnded /\ s_recv st' = RecvEnded.
Proof.
  assert (Hf : s_cancel <$> demo_session (demo_traffic ++ [RecvStep InboundEnd]) = Some true) by (vm_compute; reflexivity).
  destruct (demo_session (demo_traffic ++ [RecvStep InboundEnd])) as [st|] eqn:Hr; [|discriminate Hf]. injection Hf as Hc.
  exists st. split; [reflexivity|].
  exact (proj2 (disconnected_session_stops demo_config demo_ids [] _ st [] Hr Hc eq_refl)).
Defined.

(** An assignment that is the first message passes for the acknowledgement and
    is lost. *)
Theorem first_assignment_lost :
  let run := srun demo_config demo_ids (session_start ([] : list ControlCommand))
    [Start (AChannel (Ok tt)); Start (AOpened (Ok tt)); Start ASend; Start (AFirst (First (demo_ack "drain_command")));
     Start ASend; Start ASend] in
  inbound_command (demo_ack "drain_command") = Some Drain /\
  (fun st => (s_status st, s_dispatcher st)) <$> run = Some (Active, []).
Proof. split; vm_compute; reflexivity. Qed.

(** TLS does not switch the scheme of an address that has one. *)
Theorem scheme_not_switched : endpoint_addr
  (mkControlPlaneConfig "http://cp:50051" "w1" "acme" None 10000 10000 64 5000 15000 5000 true 500 30000 300000 (Some "ca")) =
  "http://cp:50051".
Proof. reflexivity. Qed.

(** The reason of the disconnection is replaced when a write is under way. *)
Theorem disconnect_reason_replaced :
  s_status <$> demo_session [TrySendOne (demo_update "e2"); SendStep false; RecvStep (InboundError "goaway"); TransportCloses; SendStep false] =
    Some (Disconnected (StreamClosed "gRPC request channel closed")).
Proof. vm_compute. reflexivity. Qed.
