(* ===== verification/ConnPool.v ===== *)
(** * Connections to the workers (ldp/executor/flight.rs)

    The pool keeps one connection per worker in a slot with a lock of its own;
    the slots are in a concurrent map.  The calls interleave at their [await]s,
    so a call is a task with a program counter and a run is a list of steps.
    The answers of the network are part of a step, and so is which slots a
    [try_lock] finds taken for a moment by another thread.  The clock is in
    seconds.

    [DashMap::entry] blocks its thread while a guard of the same shard is held
    (a documented hazard of the crate), and [remove_connection] holds one
    across an [await]; the number of threads is a parameter. *)

From stdpp Require Import pretty.
From S2P Require Import Prelude LogicalPlan LdpTypes Arrow HashPartition ExchangeRuntime ProtoConvert Distributed.

#[local] Open Scope Z_scope.

(** ** Requests over a connection *)

(** How a request over a connection goes. *)
Inductive RpcAnswer :=
| SerializeFailed (e : string)
| CallFailed (e : string)
| StreamFailed (e : string)
| StreamEmpty
| Response (body : list Z).

Section rpc.
Context (decode_response : list Z -> result Proto.SubmitStageResponse string).

(** What [submit_stage] of a worker answered, and whether the connection is
    thrown away. *)
Definition read_submit_response (body : list Z) : result (list Z) StageExecutionError :=
  match deserialize_submit_stage_response decode_response body with
  | Err e => Err (ExecutionFailed ("Failed to deserialize response: " +:+ ConversionError_display e))
  | Ok r =>
      if Proto.success r then Ok (Proto.result_ticket r)
      else Err (ExecutionFailed ("Stage execution failed: " +:+ Proto.error_message r))
  end.

Definition submit_exchange (w : WorkerId) (a : RpcAnswer) : result (list Z) StageExecutionError * bool :=
  match a with
  | SerializeFailed e => (Err (ExecutionFailed ("Failed to serialize request: " +:+ e)), false)
  | CallFailed e => (Err (WorkerUnavailable w ("DoAction failed: " +:+ e)), true)
  | StreamEmpty => (Err (ExecutionFailed "Empty response from submit_stage"), true)
  | StreamFailed e => (Err (ExecutionFailed ("Failed to read response: " +:+ e)), true)
  | Response body => (read_submit_response body, false)
  end.

(** [do_get]; a stream of batches that cannot be decoded is an error. *)
Definition fetch_exchange {Batches} (decode_batches : list Z -> result Batches string) (a : RpcAnswer)
    : result Batches StageExecutionError :=
  match a with
  | SerializeFailed e | CallFailed e => Err (ExecutionFailed ("DoGet failed: " +:+ e))
  | StreamFailed e => Err (ExecutionFailed ("Failed to decode batches: " +:+ e))
  | StreamEmpty => match decode_batches [] with Ok bs => Ok bs | Err e => Err (ExecutionFailed ("Failed to decode batches: " +:+ e)) end
  | Response body => match decode_batches body with Ok bs => Ok bs | Err e => Err (ExecutionFailed ("Failed to decode batches: " +:+ e)) end
  end.
End rpc.

(** ** The client of one worker *)

Module Client.
(** [client] counts the connections made; [None] before the first. *)
Record LdpFlightClient := mkClient { cl_endpoint : string; cl_tenant_id : string; cl_client : option nat }.

Definition LdpFlightClient_new (endpoint tenant_id : string) : LdpFlightClient := mkClient endpoint tenant_id None.

(** How an attempt to connect goes. *)
Inductive Connect := BadEndpoint (e : string) | Refused (e : string) | Established.

Definition connect (c : LdpFlightClient) (a : Connect) : result unit StageExecutionError * LdpFlightClient :=
  match a with
  | BadEndpoint e => (Err (ExecutionFailed ("Invalid endpoint '" +:+ cl_endpoint c +:+ "': " +:+ e)), c)
  | Refused e => (Err (ExecutionFailed ("Failed to connect to '" +:+ cl_endpoint c +:+ "': " +:+ e)), c)
  | Established => (Ok tt, mkClient (cl_endpoint c) (cl_tenant_id c) (Some (S (default 0%nat (cl_client c)))))
  end.

Definition is_connected (c : LdpFlightClient) : bool := match cl_client c with Some _ => true | None => false end.

Definition get_client (c : LdpFlightClient) (a : Connect) : result nat StageExecutionError * LdpFlightClient :=
  match cl_client c with
  | Some n => (Ok n, c)
  | None =>
      match connect c a with
      | (Err e, c) => (Err e, c)
      | (Ok _, c) => (match cl_client c with Some n => Ok n | None => Err (ExecutionFailed "Not connected") end, c)
      end
  end.

(** A request after [get_client]. *)
Definition with_client {A} (c : LdpFlightClient) (a : Connect) (request : result A StageExecutionError)
    : result A StageExecutionError * LdpFlightClient :=
  match get_client c a with (Ok _, c) => (request, c) | (Err e, c) => (Err e, c) end.

Definition health_check (c : LdpFlightClient) (a : Connect) (r : RpcAnswer) : result bool StageExecutionError * LdpFlightClient :=
  with_client c a
    match r with
    | SerializeFailed e | CallFailed e => Err (ExecutionFailed ("Health check failed: " +:+ e))
    | StreamFailed e => Err (ExecutionFailed ("Health check response failed: " +:+ e))
    | StreamEmpty => Ok false
    | Response body => Ok (bool_decide (body = str_bytes "OK"))
    end.

Definition client_submit_stage decode_response (c : LdpFlightClient) (a : Connect) (r : RpcAnswer)
    : result (list Z) StageExecutionError * LdpFlightClient :=
  with_client c a
    match r with
    | CallFailed e => Err (ExecutionFailed ("DoAction failed: " +:+ e))
    | r => (submit_exchange decode_response "" r).1
    end.

Definition client_fetch_results {Batches} (decode_batches : list Z -> result Batches string) (c : LdpFlightClient) (a : Connect)
    (r : RpcAnswer) : result Batches StageExecutionError * LdpFlightClient :=
  with_client c a (fetch_exchange decode_batches r).
End Client.

(** ** The pool *)

Record WorkerConnectionPoolConfig := mkPoolConfig { connection_ttl : Z; max_connections : nat }.

Definition CONNECTION_TTL_DEFAULT : Z := 300.
Definition MAX_CONNECTIONS_CAP : nat := 100.

Definition WorkerConnectionPoolConfig_default : WorkerConnectionPoolConfig := mkPoolConfig CONNECTION_TTL_DEFAULT 0.

(** A client is where it is connected to and which connection it is. *)
Record WorkerConnection := mkConnection { wc_worker_id : WorkerId; wc_endpoint : string; wc_client : nat }.

Record CachedEntry := mkCached { ce_conn : WorkerConnection; created_at : Z }.

(** A call uses its connection for a submission, which throws it away when the
    transport fails, or to fetch a result. *)
Inductive Use := UseSubmit | UseFetch.

(** Where a call stands: [get_connection], the request and
    [remove_connection]. *)
Inductive CallPc :=
| GEntry
| GBlocked
| GLock
| GHealth (e : CachedEntry) (since : Z)
| GConnect (endpoint : string)
| GUse (c : WorkerConnection)
| RGet (e : StageExecutionError)
| RLock (e : StageExecutionError)
| GDone (r : option StageExecutionError).

Record Call := mkCall { call_worker : WorkerId; call_use : Use; call_pc : CallPc }.

Inductive PoolAnswer :=
| NoAnswer
| Healthy (b : bool)
| Connected (r : Client.Connect)
| Answered (r : RpcAnswer).

(** [connections] are the slots, [locks] who holds the lock of a slot;
    [registrations] records every endpoint that was ever registered. *)
Record Pool := mkPool {
  pool_config : WorkerConnectionPoolConfig;
  connections : gmap WorkerId (option CachedEntry);
  endpoints : gmap WorkerId string;
  locks : gmap WorkerId nat;
  calls : gmap nat Call;
  next_call : nat;
  next_client : nat;
  clock : Z;
  registrations : list (WorkerId * string);
}.

Definition with_config (c : WorkerConnectionPoolConfig) : Pool := mkPool c ∅ ∅ ∅ ∅ 0 0 0 [].

Definition set_calls (st : Pool) (m : gmap nat Call) : Pool :=
  mkPool (pool_config st) (connections st) (endpoints st) (locks st) m (next_call st) (next_client st) (clock st) (registrations st).
Definition set_slots (st : Pool) (m : gmap WorkerId (option CachedEntry)) : Pool :=
  mkPool (pool_config st) m (endpoints st) (locks st) (calls st) (next_call st) (next_client st) (clock st) (registrations st).
Definition set_locks (st : Pool) (m : gmap WorkerId nat) : Pool :=
  mkPool (pool_config st) (connections st) (endpoints st) m (calls st) (next_call st) (next_client st) (clock st) (registrations st).

Definition goto (st : Pool) (i : nat) (t : Call) (pc : CallPc) : Pool :=
  set_calls st (<[i := mkCall (call_worker t) (call_use t) pc]> (calls st)).
Definition set_slot (st : Pool) (w : WorkerId) (e : option CachedEntry) : Pool := set_slots st (<[w := e]> (connections st)).
Definition unlock (st : Pool) (w : WorkerId) : Pool := set_locks st (delete w (locks st)).

Definition register_worker (st : Pool) (w : WorkerId) (endpoint : string) : Pool :=
  mkPool (pool_config st) (connections st) (<[w := endpoint]> (endpoints st)) (locks st) (calls st) (next_call st)
    (next_client st) (clock st) ((w, endpoint) :: registrations st).

Definition get_endpoint (st : Pool) (w : WorkerId) : option string := endpoints st !! w.
Definition worker_ids `{HashOrder} (st : Pool) (call : list nat) : list WorkerId :=
  (map_order call (map_to_list (endpoints st))).*1.

Definition entry_age (st : Pool) (e : CachedEntry) : Z := Z.max 0 (clock st - created_at e).
Definition entry_expired (st : Pool) (e : CachedEntry) : bool := connection_ttl (pool_config st) <=? entry_age st e.

(** [try_lock] on a slot; [busy] are those another thread has for a moment. *)
Definition try_lock (st : Pool) (busy : gset WorkerId) (w : WorkerId) : bool :=
  match locks st !! w with Some _ => false | None => negb (bool_decide (w ∈ busy)) end.

Definition evict_stale_connections (st : Pool) (busy : gset WorkerId) : Pool :=
  set_slots st (map_imap (fun w s =>
    Some (match s with Some e => if try_lock st busy w && entry_expired st e then None else Some e | None => None end)) (connections st)).

Definition effective_max_connections (st : Pool) : nat :=
  if (max_connections (pool_config st) =? 0)%nat then Nat.min (size (endpoints st)) MAX_CONNECTIONS_CAP
  else Nat.min (max_connections (pool_config st)) MAX_CONNECTIONS_CAP.

Definition active_connection_count (st : Pool) (busy : gset WorkerId) : nat :=
  length (List.filter (fun kv => try_lock st busy kv.1 && bool_decide (is_Some kv.2)) (map_to_list (connections st))).

(** The scan for the oldest connection. *)
Definition older (st : Pool) (busy : gset WorkerId) (skip : WorkerId) (acc : Z * option WorkerId)
    (kv : WorkerId * option CachedEntry) : Z * option WorkerId :=
  if decide (kv.1 = skip) then acc
  else if try_lock st busy kv.1 then
    match kv.2 with Some e => if acc.1 <? entry_age st e then (entry_age st e, Some kv.1) else acc | None => acc end
  else acc.

Section pool.
Context `{HashOrder} (shard : WorkerId -> nat) (threads : nat).

Definition try_evict_oldest (st : Pool) (call : list nat) (busy busy' : gset WorkerId) (skip : WorkerId) : Pool :=
  match (foldl (older st busy skip) (0, None) (map_order call (map_to_list (connections st)))).2 with
  | Some w =>
      match connections st !! w with
      | Some _ => if try_lock st busy' w then set_slot st w None else st
      | None => st
      end
  | None => st
  end.

(** A guard of the shard is held by a removal that waits. *)
Definition guards (s : nat) (t : Call) : bool :=
  match call_pc t with RLock _ => (shard (call_worker t) =? s)%nat | _ => false end.
Definition guarded (st : Pool) (w : WorkerId) : bool := existsb (fun it => guards (shard w) it.2) (map_to_list (calls st)).

Definition blocks_thread (t : Call) : bool := match call_pc t with GBlocked => true | _ => false end.
Definition free_threads (st : Pool) : nat :=
  threads - length (List.filter (fun it => blocks_thread it.2) (map_to_list (calls st))).

(** What other threads do in between. *)
Record Oracle := mkOracle { hash_call : list nat; busy_count : gset WorkerId; busy_scan : gset WorkerId; busy_evict : gset WorkerId }.

(** Steps 4 and 5, with the slot empty and its lock held. *)
Definition prepare (st : Pool) (o : Oracle) (i : nat) (t : Call) : Pool :=
  let w := call_worker t in
  let limit := effective_max_connections st in
  let st :=
    if (0 <? limit)%nat && (limit <=? active_connection_count st (busy_count o))%nat
    then try_evict_oldest st (hash_call o) (busy_scan o) (busy_evict o) w else st in
  match endpoints st !! w with
  | Some endpoint => goto st i t (GConnect endpoint)
  | None => goto (unlock st w) i t (GDone (Some (WorkerUnavailable w ("No endpoint registered for worker '" +:+ w +:+ "'"))))
  end.

(** Step 3. *)
Definition acquired (st : Pool) (o : Oracle) (i : nat) (t : Call) : Pool :=
  let w := call_worker t in
  let st := set_locks st (<[w := i]> (locks st)) in
  match connections st !! w with
  | Some (Some e) => if entry_expired st e then prepare (set_slot st w None) o i t else goto st i t (GHealth e (clock st))
  | _ => prepare st o i t
  end.

(** Steps 6 and 7. *)
Definition connected (st : Pool) (i : nat) (t : Call) (endpoint : string) (r : Client.Connect) : Pool :=
  let w := call_worker t in
  match r with
  | Client.BadEndpoint e =>
      goto (unlock st w) i t (GDone (Some (WorkerUnavailable w ("Invalid endpoint '" +:+ endpoint +:+ "': " +:+ e))))
  | Client.Refused e =>
      goto (unlock st w) i t (GDone (Some (WorkerUnavailable w ("Failed to connect to '" +:+ endpoint +:+ "': " +:+ e))))
  | Client.Established =>
      let conn := mkConnection w endpoint (next_client st) in
      let st := set_slot st w (Some (mkCached conn (clock st))) in
      let st := mkPool (pool_config st) (connections st) (endpoints st) (locks st) (calls st) (next_call st) (S (next_client st))
                  (clock st) (registrations st) in
      goto (unlock st w) i t (GUse conn)
  end.

Context (decode_response : list Z -> result Proto.SubmitStageResponse string)
        {Batches : Type} (decode_batches : list Z -> result Batches string).

Definition error_of {A} (r : result A StageExecutionError) : option StageExecutionError :=
  match r with Ok _ => None | Err e => Some e end.

Definition used (st : Pool) (i : nat) (t : Call) (a : RpcAnswer) : Pool :=
  match call_use t with
  | UseSubmit =>
      match submit_exchange decode_response (call_worker t) a with
      | (Err e, true) => goto st i t (RGet e)
      | (r, _) => goto st i t (GDone (error_of r))
      end
  | UseFetch => goto st i t (GDone (error_of (fetch_exchange decode_batches a)))
  end.

Definition call_step (st : Pool) (o : Oracle) (i : nat) (t : Call) (a : PoolAnswer) : option Pool :=
  let w := call_worker t in
  let slot := match connections st !! w with Some _ => st | None => set_slot st w None end in
  match call_pc t, a with
  | GEntry, NoAnswer => Some (if guarded st w then goto st i t GBlocked else goto slot i t GLock)
  | GBlocked, NoAnswer => if guarded st w then None else Some (goto slot i t GLock)
  | GLock, NoAnswer => match locks st !! w with Some _ => None | None => Some (acquired st o i t) end
  | GHealth e _, Healthy true => Some (goto (unlock st w) i t (GUse (ce_conn e)))
  | GHealth _ _, Healthy false => Some (prepare (set_slot st w None) o i t)
  | GConnect endpoint, Connected r => Some (connected st i t endpoint r)
  | GUse _, Answered r => Some (used st i t r)
  | RGet e, NoAnswer =>
      Some (match connections st !! w with Some _ => goto st i t (RLock e) | None => goto st i t (GDone (Some e)) end)
  | RLock e, NoAnswer =>
      match locks st !! w with Some _ => None | None => Some (goto (set_slot st w None) i t (GDone (Some e))) end
  | _, _ => None
  end.

Inductive PoolAction :=
| Register (w : WorkerId) (endpoint : string)
| Spawn (w : WorkerId) (u : Use)
| Tick (d : nat)
| EvictStale (busy : gset WorkerId)
| CallStep (i : nat) (o : Oracle) (a : PoolAnswer).

(** A call that waits for a shard has a thread of its own; every other step
    needs a free one. *)
Definition pool_step (st : Pool) (a : PoolAction) : option Pool :=
  match a with
  | Register w endpoint => Some (register_worker st w endpoint)
  | Spawn w u =>
      Some (mkPool (pool_config st) (connections st) (endpoints st) (locks st)
              (<[next_call st := mkCall w u GEntry]> (calls st)) (S (next_call st)) (next_client st) (clock st) (registrations st))
  | Tick d =>
      Some (mkPool (pool_config st) (connections st) (endpoints st) (locks st) (calls st) (next_call st) (next_client st)
              (clock st + Z.of_nat d) (registrations st))
  | EvictStale busy => Some (evict_stale_connections st busy)
  | CallStep i o a =>
      match calls st !! i with
      | Some t => if blocks_thread t || (0 <? free_threads st)%nat then call_step st o i t a else None
      | None => None
      end
  end.

Fixpoint pool_run (st : Pool) (l : list PoolAction) : option Pool :=
  match l with
  | [] => Some st
  | a :: l => match pool_step st a with Some st => pool_run st l | None => None end
  end.
End pool.

(** ** The invariant of the pool *)

Definition holds (pc : CallPc) : bool := match pc with GHealth _ _ | GConnect _ => true | _ => false end.
Definition is_done (pc : CallPc) : bool := match pc with GDone _ => true | _ => false end.

(** A connection to an endpoint that was registered for the worker. *)
Definition conn_ok (st : Pool) (w : WorkerId) (c : WorkerConnection) : Prop :=
  wc_worker_id c = w /\ (w, wc_endpoint c) ∈ registrations st /\ (wc_client c < next_client st)%nat.

Definition call_ok (st : Pool) (t : Call) : Prop :=
  let w := call_worker t in
  match call_pc t with
  | GLock | RLock _ => is_Some (connections st !! w)
  | GHealth e since =>
      connections st !! w = Some (Some e) /\ since <= clock st /\ since - created_at e < connection_ttl (pool_config st)
  | GConnect endpoint => connections st !! w = Some None /\ (w, endpoint) ∈ registrations st
  | GUse c => conn_ok st w c
  | _ => True
  end.

Record pool_inv (st : Pool) : Prop := {
  pi_locks : forall w i, locks st !! w = Some i <->
    exists t, calls st !! i = Some t /\ call_worker t = w /\ holds (call_pc t) = true;
  pi_slots : forall w e, connections st !! w = Some (Some e) -> conn_ok st w (ce_conn e) /\ created_at e <= clock st;
  pi_endpoints : forall w ep, endpoints st !! w = Some ep -> (w, ep) ∈ registrations st;
  pi_registered : forall w ep, (w, ep) ∈ registrations st -> is_Some (endpoints st !! w);
  pi_calls : forall i t, calls st !! i = Some t -> call_ok st t;
  pi_next : forall i, is_Some (calls st !! i) -> (i < next_call st)%nat;
}.

(** What the steps leave alone. *)
Record grows (st st' : Pool) : Prop := {
  gr_config : pool_config st' = pool_config st;
  gr_registrations : forall x, x ∈ registrations st -> x ∈ registrations st';
  gr_clients : (next_client st <= next_client st')%nat;
  gr_clock : clock st <= clock st';
  gr_slots : forall w, is_Some (connections st !! w) -> is_Some (connections st' !! w);
}.

Lemma conn_ok_grows st st' w c : grows st st' -> conn_ok st w c -> conn_ok st' w c.
Proof. intros [_ Hr Hc _ _] (? & ? & ?). split_and!; [done|by apply Hr|lia]. Qed.

Lemma call_ok_grows st st' t : grows st st' ->
  (holds (call_pc t) = true -> connections st' !! call_worker t = connections st !! call_worker t) ->
  call_ok st t -> call_ok st' t.
Proof.
  intros Hg Hs. pose proof Hg as [Hcf Hr _ Hck Hsl]. unfold call_ok. destruct (call_pc t); simpl in Hs; rewrite ?Hcf; try done.
  - by apply Hsl.
  - intros (? & ? & ?). rewrite Hs by done. split_and!; [done|lia|done].
  - intros [? ?]. rewrite Hs by done. split; [done|by apply Hr].
  - by apply conn_ok_grows.
  - by apply Hsl.
Qed.

(** A step of one call: it may take or release the lock of its worker's slot,
    and changes that slot and slots nobody has locked. *)
Lemma pool_inv_call st st' i t pc :
  pool_inv st -> calls st !! i = Some t -> grows st st' ->
  calls st' = <[i := mkCall (call_worker t) (call_use t) pc]> (calls st) ->
  endpoints st' = endpoints st -> registrations st' = registrations st -> next_call st' = next_call st ->
  (forall w, w <> call_worker t -> locks st' !! w = locks st !! w) ->
  locks st' !! call_worker t = (if holds pc then Some i else if holds (call_pc t) then None else locks st !! call_worker t) ->
  (holds pc = true -> holds (call_pc t) = true \/ locks st !! call_worker t = None) ->
  (forall w, connections st' !! w = connections st !! w \/ (locks st !! w = None \/ locks st !! w = Some i) /\
     forall e, connections st' !! w = Some (Some e) -> conn_ok st' w (ce_conn e) /\ created_at e <= clock st') ->
  call_ok st' (mkCall (call_worker t) (call_use t) pc) ->
  pool_inv st'.
Proof.
  intros [Hl Hs He Hre Hc Hn] Ht Hg Ecalls Eep Ereg Enext Hlo Hlw Hhold Hslots Hok.
  assert (Hlt : locks st !! call_worker t = Some i <-> holds (call_pc t) = true).
  { rewrite Hl. split; [intros (t0 & Ht0 & _ & ?); by simplify_eq|intros ?; by exists t]. }
  split.
  - intros w j. rewrite Ecalls. destruct (decide (j = i)) as [->|Hj].
    + setoid_rewrite lookup_insert_eq. destruct (decide (w = call_worker t)) as [->|Hw].
      * rewrite Hlw. split.
        -- destruct (holds pc) eqn:Hp; [intros _; by eexists|]. destruct (holds (call_pc t)) eqn:Ht0; [done|].
           intros ?%Hlt. done.
        -- intros (t0 & [= <-] & _ & Hp). simpl in Hp. by rewrite Hp.
      * rewrite Hlo by done. split.
        -- intros (t0 & Ht0 & ? & _)%Hl. by simplify_eq.
        -- intros (t0 & [= <-] & ? & _). done.
    + setoid_rewrite lookup_insert_ne; [|done]. destruct (decide (w = call_worker t)) as [->|Hw]; [|by rewrite Hlo by done].
      rewrite Hlw, <- Hl. destruct (holds pc) eqn:Hp.
      * destruct (Hhold eq_refl) as [Hh|Hh]; [apply Hlt in Hh; rewrite Hh; naive_solver|rewrite Hh; naive_solver].
      * destruct (holds (call_pc t)) eqn:Ht0; [|done]. pose proof (proj2 Hlt eq_refl) as ->. naive_solver.
  - intros w e Hw. destruct (Hslots w) as [E|[_ Hnew]]; [|by apply Hnew]. rewrite E in Hw.
    destruct (Hs w e Hw) as [? ?]. split; [by eapply conn_ok_grows|]. pose proof (gr_clock _ _ Hg). lia.
  - intros w ep. rewrite Eep, Ereg. apply He.
  - intros w ep. rewrite Ereg, Eep. apply Hre.
  - intros j t0. rewrite Ecalls. destruct (decide (j = i)) as [->|Hj].
    + rewrite lookup_insert_eq. by intros [= <-].
    + rewrite lookup_insert_ne by done. intros Hj0. eapply call_ok_grows; [exact Hg| |by eapply Hc].
      intros Hh. destruct (Hslots (call_worker t0)) as [?|[Hfree _]]; [done|].
      assert (locks st !! call_worker t0 = Some j) by (apply Hl; by exists t0). destruct Hfree; simplify_eq; congruence.
  - intros j. rewrite Ecalls, Enext, lookup_insert_is_Some'. intros [<-|Hj]; apply Hn; [by eexists|done].
Qed.

(** A frame condition field by field. *)
Ltac solve_grows := split; simpl; try lia; try done.

Section sound.
Context `{HashOrder} (shard : WorkerId -> nat) (threads : nat).
Context (decode_response : list Z -> result Proto.SubmitStageResponse string)
        {Batches : Type} (decode_batches : list Z -> result Batches string).
#[local] Notation pool_step := (pool_step shard threads decode_response decode_batches).
#[local] Notation pool_run := (pool_run shard threads decode_response decode_batches).

(** What the scan finds: a cached connection in a slot nobody has locked, not
    that of the caller. *)
Definition scan_ok (st : Pool) (skip : WorkerId) (acc : Z * option WorkerId) : Prop :=
  match acc.2 with
  | Some w => w <> skip /\ locks st !! w = None /\ exists e, connections st !! w = Some (Some e)
  | None => acc.1 = 0
  end.

Lemma scan_sound st busy skip l acc : Forall (fun kv => connections st !! kv.1 = Some kv.2) l ->
  scan_ok st skip acc -> scan_ok st skip (foldl (older st busy skip) acc l).
Proof.
  intros Hl. revert acc. induction Hl as [|[w s] l Hw _ IH]; intros acc Hacc; [done|]. apply IH. unfold older. simpl in *.
  destruct (decide (w = skip)); [done|]. unfold try_lock. destruct (locks st !! w) eqn:Hlw; [done|].
  destruct (negb _); [|done]. destruct s as [e|]; [|done]. destruct (Z.ltb_spec acc.1 (entry_age st e)); [|done].
  split_and!; [done|done|by eexists].
Qed.

Lemma slots_of_map (m : gmap WorkerId (option CachedEntry)) call :
  Forall (fun kv => m !! kv.1 = Some kv.2) (map_order call (map_to_list m)).
Proof. rewrite map_order_perm. apply Forall_forall. intros [k v] Hin. by apply elem_of_map_to_list. Qed.

Lemma evict_oldest_spec st call busy busy' skip :
  try_evict_oldest st call busy busy' skip = st \/
  exists w e, w <> skip /\ locks st !! w = None /\ connections st !! w = Some (Some e) /\
    try_evict_oldest st call busy busy' skip = set_slot st w None.
Proof.
  unfold try_evict_oldest.
  pose proof (scan_sound st busy skip _ (0, None) (slots_of_map (connections st) call) eq_refl) as Hs.
  unfold scan_ok in Hs. destruct (foldl _ _ _) as [z [w|]]; simpl in *; [|by left]. destruct Hs as (Hw & Hl & e & He).
  rewrite He. destruct (try_lock st busy' w); [|by left]. right. exists w, e. by split_and!.
Qed.

#[local] Lemma slot_some (m : gmap WorkerId (option CachedEntry)) w s w' : is_Some (m !! w') -> is_Some (<[w := s]> m !! w').
Proof. intros ?. apply lookup_insert_is_Some'. by right. Qed.

Lemma prepare_inv st st1 o i t :
  pool_inv st -> calls st !! i = Some t -> holds (call_pc t) = true \/ locks st !! call_worker t = None ->
  is_Some (connections st !! call_worker t) ->
  st1 = mkPool (pool_config st) (<[call_worker t := None]> (connections st)) (endpoints st) (<[call_worker t := i]> (locks st))
          (calls st) (next_call st) (next_client st) (clock st) (registrations st) ->
  pool_inv (prepare st1 o i t).
Proof.
  intros Hinv Ht Hh Hw E.
  assert (Hfree : locks st !! call_worker t = None \/ locks st !! call_worker t = Some i).
  { destruct Hh as [Hh|]; [|by left]. right. apply (pi_locks _ Hinv). by exists t. }
  assert (Hst2 : exists m, (if (0 <? effective_max_connections st1)%nat && (effective_max_connections st1 <=? active_connection_count st1 (busy_count o))%nat
      then try_evict_oldest st1 (hash_call o) (busy_scan o) (busy_evict o) (call_worker t) else st1) = set_slots st1 m /\
      m !! call_worker t = Some None /\ (forall w, is_Some (connections st !! w) -> is_Some (m !! w)) /\
      forall w, m !! w = connections st !! w \/ (locks st !! w = None \/ locks st !! w = Some i) /\ m !! w = Some None).
  { assert (Hid : exists m, st1 = set_slots st1 m /\ m !! call_worker t = Some None /\ (forall w, is_Some (connections st !! w) -> is_Some (m !! w)) /\
      forall w, m !! w = connections st !! w \/ (locks st !! w = None \/ locks st !! w = Some i) /\ m !! w = Some None).
    { exists (<[call_worker t := None]> (connections st)). rewrite E. split; [done|]. rewrite lookup_insert_eq. split; [done|].
      split; [intros w; apply slot_some|]. intros w. destruct (decide (w = call_worker t)) as [->|?];
        [right; by rewrite lookup_insert_eq|left; by rewrite lookup_insert_ne]. }
    destruct (_ && _); [|done].
    destruct (evict_oldest_spec st1 (hash_call o) (busy_scan o) (busy_evict o) (call_worker t)) as [->|(w' & e' & Hne & Hl' & _ & ->)]; [done|].
    destruct Hid as (m & Em & Hm & Hsome & Hch). exists (<[w' := None]> m). split.
    { unfold set_slot. rewrite Em. done. }
    split; [by rewrite lookup_insert_ne|]. split; [intros w ?; apply slot_some; by apply Hsome|].
    intros w. destruct (decide (w = w')) as [->|?]; [right; rewrite lookup_insert_eq|rewrite lookup_insert_ne by done; apply Hch].
    split; [left|done]. rewrite E in Hl'. simpl in Hl'. by rewrite lookup_insert_ne in Hl'. }
  unfold prepare. destruct Hst2 as (m & -> & Hm & Hsome & Hch). simpl. rewrite E. simpl.
  destruct (endpoints st !! call_worker t) as [ep|] eqn:Hep.
  - eapply (pool_inv_call st _ i t (GConnect ep)); try done; simpl.
    + intros w Hne. by rewrite lookup_insert_ne.
    + by rewrite lookup_insert_eq.
    + intros w. destruct (Hch w) as [?|[? ->]]; [by left|by right].
    + split; [done|]. by apply (pi_endpoints _ Hinv).
  - eapply (pool_inv_call st _ i t); try done; simpl.
    + intros w Hne. by rewrite lookup_delete_ne, lookup_insert_ne.
    + rewrite lookup_delete_eq. destruct (holds (call_pc t)); [done|]. destruct Hh; done.
    + intros w. destruct (Hch w) as [?|[? ->]]; [by left|by right].
Qed.

(** A call that only moves on. *)
Lemma goto_inv st i t pc :
  pool_inv st -> calls st !! i = Some t -> holds (call_pc t) = false -> holds pc = false ->
  call_ok st (mkCall (call_worker t) (call_use t) pc) -> pool_inv (goto st i t pc).
Proof.
  intros Hinv Ht Hh Hp Hok. eapply (pool_inv_call st _ i t pc); try done; simpl; rewrite ?Hp, ?Hh; auto.
Qed.

(** Releasing the lock of a slot that holds a connection or nothing. *)
Lemma release_inv st i t c pc :
  pool_inv st -> calls st !! i = Some t -> holds (call_pc t) = true -> holds pc = false ->
  (next_client st <= c)%nat ->
  let st1 := mkPool (pool_config st) (connections st) (endpoints st) (locks st) (calls st) (next_call st) c (clock st) (registrations st) in
  call_ok st1 (mkCall (call_worker t) (call_use t) pc) -> pool_inv (goto (unlock st1 (call_worker t)) i t pc).
Proof.
  intros Hinv Ht Hh Hp Hc st1 Hok. eapply (pool_inv_call st _ i t pc); try done; simpl; rewrite ?Hp, ?Hh; auto; try solve [solve_grows].
  - intros w Hne. by rewrite lookup_delete_ne.
  - by rewrite lookup_delete_eq.
Qed.

Lemma enter_inv st i t :
  pool_inv st -> calls st !! i = Some t -> holds (call_pc t) = false ->
  pool_inv (goto (match connections st !! call_worker t with Some _ => st | None => set_slot st (call_worker t) None end) i t GLock).
Proof.
  intros Hinv Ht Hh. destruct (connections st !! call_worker t) as [s|] eqn:Hs.
  { apply goto_inv; try done. unfold call_ok. simpl. by rewrite Hs. }
  eapply (pool_inv_call st _ i t GLock); try done; simpl; rewrite ?Hh; auto; try solve [solve_grows; intros w; apply slot_some].
  - intros w. destruct (decide (w = call_worker t)) as [->|?]; [|left; by rewrite lookup_insert_ne].
    right. rewrite lookup_insert_eq. split; [|done]. left. apply eq_None_not_Some. intros [j (t0 & Ht0 & Ew & Hh0)%(pi_locks _ Hinv)].
    pose proof (pi_calls _ Hinv j t0 Ht0) as Hk. unfold call_ok in Hk. rewrite Ew in Hk.
    destruct (call_pc t0); try done; by destruct Hk; simplify_eq.
  - unfold call_ok. simpl. by rewrite lookup_insert_eq.
Qed.

Lemma acquired_inv st o i t :
  pool_inv st -> calls st !! i = Some t -> is_Some (connections st !! call_worker t) -> locks st !! call_worker t = None ->
  pool_inv (acquired st o i t).
Proof.
  intros Hinv Ht [s Hs] Hl. unfold acquired. simpl. rewrite Hs. destruct s as [e|].
  - unfold entry_expired, entry_age. simpl. destruct (Z.leb_spec (connection_ttl (pool_config st)) (Z.max 0 (clock st - created_at e))).
    + eapply prepare_inv; [exact Hinv|done|by right|by rewrite Hs|done].
    + eapply (pool_inv_call st _ i t (GHealth e (clock st))); try done; simpl; auto.
      * intros w Hne. by rewrite lookup_insert_ne.
      * by rewrite lookup_insert_eq.
      * unfold call_ok. simpl. split_and!; [done|lia|lia].
  - eapply prepare_inv; [exact Hinv|done|by right|by rewrite Hs|]. unfold set_locks. f_equal. symmetry. by apply insert_id.
Qed.

Lemma connected_inv st i t ep r :
  pool_inv st -> calls st !! i = Some t -> call_pc t = GConnect ep -> pool_inv (connected st i t ep r).
Proof.
  intros Hinv Ht Hpc. pose proof (pi_calls _ Hinv i t Ht) as Hok. unfold call_ok in Hok. rewrite Hpc in Hok. destruct Hok as [Hs Hr].
  assert (Hl : locks st !! call_worker t = Some i) by (apply (pi_locks _ Hinv); exists t; by rewrite Hpc).
  destruct r as [e|e|]; simpl.
  1,2: by apply (release_inv st i t (next_client st)); rewrite ?Hpc.
  eapply (pool_inv_call st _ i t _); try done; simpl; rewrite ?Hpc; auto; try solve [solve_grows; intros w; apply slot_some].
  - intros w Hne. by rewrite lookup_delete_ne.
  - by rewrite lookup_delete_eq.
  - intros w. destruct (decide (w = call_worker t)) as [->|?]; [right|left; by rewrite lookup_insert_ne].
    rewrite lookup_insert_eq. split; [by right|]. intros e [= <-]. split; [|simpl; lia]. split_and!; simpl; [done|done|lia].
  - split_and!; simpl; [done|done|lia].
Qed.

Lemma call_step_inv st o i t a st' :
  pool_inv st -> calls st !! i = Some t -> call_step shard decode_response decode_batches st o i t a = Some st' -> pool_inv st'.
Proof.
  intros Hinv Ht. pose proof (pi_calls _ Hinv i t Ht) as Hok. unfold call_step, call_ok in *.
  destruct (call_pc t) as [| | |e since|ep|c|e|e|r] eqn:Hpc; destruct a as [|b|r'|r']; try done.
  - intros [= <-]. destruct (guarded _ st _); [apply goto_inv|apply enter_inv]; rewrite ?Hpc; done.
  - destruct (guarded _ st _); [done|]. intros [= <-]. apply enter_inv; rewrite ?Hpc; done.
  - destruct (locks st !! call_worker t) eqn:Hl; [done|]. intros [= <-]. by apply acquired_inv.
  - destruct Hok as (Hs & _ & _). destruct b; intros [= <-].
    + apply (release_inv st i t (next_client st)); rewrite ?Hpc; try done. apply (proj1 (pi_slots _ Hinv _ _ Hs)).
    + eapply prepare_inv; [exact Hinv|done|by left; rewrite Hpc|by rewrite Hs|]. unfold set_slot, set_slots. f_equal.
      symmetry. apply insert_id. apply (pi_locks _ Hinv). exists t. by rewrite Hpc.
  - intros [= <-]. by apply connected_inv.
  - intros [= <-]. unfold used. destruct (call_use t); [|by apply goto_inv; rewrite ?Hpc].
    destruct (submit_exchange _ _ _) as [[?|?] []]; apply goto_inv; rewrite ?Hpc; done.
  - intros [= <-]. destruct (connections st !! call_worker t) as [s|] eqn:Hs; apply goto_inv; rewrite ?Hpc; try done.
    unfold call_ok. simpl. by rewrite Hs.
  - destruct (locks st !! call_worker t) eqn:Hl; [done|]. intros [= <-].
    eapply (pool_inv_call st _ i t (GDone _)); try done; simpl; rewrite ?Hpc; auto; try solve [solve_grows; intros w; apply slot_some].
    + intros w. destruct (decide (w = call_worker t)) as [->|?]; [right|left; by rewrite lookup_insert_ne].
      rewrite lookup_insert_eq. split; [by left|done].
Qed.

Lemma evict_stale_lookup st busy w : connections (evict_stale_connections st busy) !! w =
  (fun s => match s with Some e => if try_lock st busy w && entry_expired st e then None else Some e | None => None end) <$> connections st !! w.
Proof. simpl. rewrite map_lookup_imap. by destruct (connections st !! w). Qed.

Lemma evict_stale_inv st busy : pool_inv st -> pool_inv (evict_stale_connections st busy).
Proof.
  intros Hinv. pose proof Hinv as [Hl Hs He Hr Hc Hn]. pose proof (evict_stale_lookup st busy) as Hlk.
  assert (Hg : grows st (evict_stale_connections st busy)).
  { split; try done. intros w. rewrite Hlk. by rewrite fmap_is_Some. }
  split; try done.
  - intros w e. rewrite Hlk. destruct (connections st !! w) as [[e'|]|] eqn:Hw; simpl; try done.
    destruct (_ && _); [done|]. intros [= <-]. by apply Hs.
  - intros i t Ht. eapply call_ok_grows; [exact Hg| |by eapply Hc]. intros Hh. rewrite Hlk.
    unfold try_lock. rewrite (proj2 (Hl (call_worker t) i)) by by exists t. simpl. by destruct (connections st !! _) as [[]|].
Qed.

Lemma pool_step_inv st a st' : pool_inv st -> pool_step st a = Some st' -> pool_inv st'.
Proof.
  intros Hinv. pose proof Hinv as [Hl Hs He Hr Hc Hn]. destruct a as [w ep|w u|d|busy|i o a]; simpl.
  - intros [= <-].
    assert (Hg : grows st (register_worker st w ep)) by (solve_grows; intros x; by right).
    split; simpl; try done.
    + intros w' e Hw'. destruct (Hs w' e Hw'). split; [by eapply conn_ok_grows|done].
    + intros w' ep'. destruct (decide (w' = w)) as [->|?]; [rewrite lookup_insert_eq; intros [= <-]; by left|].
      rewrite lookup_insert_ne by done. intros ?%He. by right.
    + intros w' ep' [[= -> ->]|Hin]%elem_of_cons; apply lookup_insert_is_Some'; [by left|right; by eapply Hr].
    + intros i t Ht. eapply call_ok_grows; [exact Hg|done|by eapply Hc].
  - intros [= <-]. assert (Hnew : calls st !! next_call st = None).
    { apply eq_None_not_Some. intros ?%Hn. lia. }
    split; simpl; try done.
    + intros w' i. rewrite Hl. split; intros (t & Ht & ? & Hh); exists t.
      * split; [|done]. rewrite lookup_insert_ne; [done|]. intros <-. by rewrite Hnew in Ht.
      * split; [|done]. apply lookup_insert_Some in Ht as [[<- <-]|[? ?]]; done.
    + intros i t [[<- <-]|[_ Ht]]%lookup_insert_Some; [done|]. by eapply Hc.
    + intros i [<-|Hi]%lookup_insert_is_Some'; [lia|]. apply Hn in Hi. lia.
  - intros [= <-].
    assert (Hg : forall st', st' = mkPool (pool_config st) (connections st) (endpoints st) (locks st) (calls st) (next_call st)
      (next_client st) (clock st + Z.of_nat d) (registrations st) -> grows st st') by (intros ? ->; solve_grows).
    split; simpl; try done.
    + intros w e Hw. destruct (Hs w e Hw). split; [by eapply conn_ok_grows; [apply Hg|]|lia].
    + intros i t Ht. eapply call_ok_grows; [by apply Hg|done|by eapply Hc].
  - intros [= <-]. by apply evict_stale_inv.
  - destruct (calls st !! i) as [t|] eqn:Ht; [|done]. destruct (_ || _); [|done]. by apply call_step_inv.
Qed.

Lemma with_config_inv c : pool_inv (with_config c).
Proof.
  split; simpl; try (intros *; rewrite lookup_empty; done).
  - intros w i. rewrite lookup_empty. split; [done|]. by intros (t & Ht & _).
  - by intros w ep ?%not_elem_of_nil.
Qed.

Lemma pool_run_inv l : forall st st', pool_inv st -> pool_run st l = Some st' -> pool_inv st'.
Proof.
  induction l as [|a l IH]; simpl; intros st st' Hinv; [by intros [= <-]|].
  destruct (pool_step st a) as [st1|] eqn:Ha; [|done]. apply IH. by eapply pool_step_inv.
Qed.

Lemma pool_reached c l st : pool_run (with_config c) l = Some st -> pool_inv st.
Proof. apply pool_run_inv, with_config_inv. Qed.

Lemma one_holder st i j t u : pool_inv st -> calls st !! i = Some t -> calls st !! j = Some u ->
  call_worker t = call_worker u -> holds (call_pc t) = true -> holds (call_pc u) = true -> i = j.
Proof.
  intros Hinv Ht Hu E Hht Hhu. assert (locks st !! call_worker t = Some i) by (apply (pi_locks _ Hinv); by exists t).
  assert (locks st !! call_worker t = Some j) by (apply (pi_locks _ Hinv); by exists u). congruence.
Qed.

(** What a call is at after a step of its own. *)
Definition at_pc (st : Pool) (i : nat) (pc : CallPc) : Prop := exists t, calls st !! i = Some t /\ call_pc t = pc.

Lemma at_goto st i t pc pc' : at_pc (goto st i t pc) i pc' -> pc = pc'.
Proof. intros (t' & Ht' & <-). simpl in Ht'. rewrite lookup_insert_eq in Ht'. by injection Ht' as <-. Qed.

(** C22: Whatever the interleaving, a call uses a connection of its own
    worker to an endpoint that was registered for it; the connection is the
    cached one, made just now, or younger than the time to live when the slot was
    locked and healthy since; and no other call was checking or connecting to the
    same worker. *)
Theorem pool_connection_checked c l st i t o a st' conn :
  pool_run (with_config c) l = Some st -> calls st !! i = Some t ->
  pool_step st (CallStep i o a) = Some st' -> at_pc st' i (GUse conn) ->
  let w := call_worker t in
  wc_worker_id conn = w /\ (w, wc_endpoint conn) ∈ registrations st /\
  (forall j u, calls st !! j = Some u -> call_worker u = w -> holds (call_pc u) = true -> j = i) /\
  exists at_time, connections st' !! w = Some (Some (mkCached conn at_time)) /\
    (a = Connected Client.Established /\ at_time = clock st' /\ wc_client conn = next_client st \/
     a = Healthy true /\ exists since, call_pc t = GHealth (mkCached conn at_time) since /\
       since - at_time < connection_ttl (pool_config st)).
Proof.
  intros Hr Ht Hstep Hat w. pose proof (pool_reached c l st Hr) as Hinv. simpl in Hstep. rewrite Ht in Hstep.
  destruct (_ || _); [|done]. pose proof (pi_calls _ Hinv i t Ht) as Hok. unfold call_step, call_ok in *.
  assert (Hone : holds (call_pc t) = true -> forall j u, calls st !! j = Some u -> call_worker u = w -> holds (call_pc u) = true -> j = i).
  { intros Hh j u Hu Ew Hhu. symmetry. eapply one_holder; [exact Hinv|exact Ht|exact Hu|by rewrite Ew|done|done]. }
  assert (Hprep : forall st1, at_pc (prepare st1 o i t) i (GUse conn) -> False).
  { intros st1. unfold prepare. destruct (endpoints _ !! _); intros Hp%at_goto; done. }
  destruct (call_pc t) as [| | |e since|ep|c'|e|e|r] eqn:Hpc; destruct a as [|b|r'|r']; try done.
  - injection Hstep as <-. destruct (guarded _ _ _); by apply at_goto in Hat.
  - destruct (guarded _ _ _); [done|]. injection Hstep as <-. by apply at_goto in Hat.
  - destruct (locks st !! _); [done|]. injection Hstep as <-. unfold acquired in Hat. simpl in Hat.
    destruct (connections st !! _) as [[e|]|]; [|by eapply Hprep in Hat..].
    destruct (entry_expired _ e); [by eapply Hprep in Hat|by apply at_goto in Hat].
  - destruct Hok as (Hs & Hle & Httl). destruct b; injection Hstep as <-; [|by eapply Hprep in Hat].
    apply at_goto in Hat as [= <-]. destruct (pi_slots _ Hinv _ _ Hs) as [(? & ? & _) _].
    split_and!; [done|done|by apply Hone|]. destruct e as [conn at_time]. exists at_time. split; [done|]. right. split; [done|].
    by exists since.
  - injection Hstep as <-. destruct r'; simpl in Hat; apply at_goto in Hat; [done..|]. injection Hat as <-.
    split_and!; [done|apply Hok|by apply Hone|]. exists (clock st). simpl. rewrite lookup_insert_eq. split; [done|]. by left.
  - injection Hstep as <-. unfold used in Hat. destruct (call_use t); [|by apply at_goto in Hat].
    destruct (submit_exchange _ _ _) as [[?|?] []]; by apply at_goto in Hat.
  - injection Hstep as <-. destruct (connections st !! _); by apply at_goto in Hat.
  - destruct (locks st !! _); [done|]. injection Hstep as <-. by apply at_goto in Hat.
Qed.

(** ** The cap, for calls that do not overlap *)

Lemma list_filter_perm {A} (f : A -> bool) (l1 l2 : list A) : l1 ≡ₚ l2 -> List.filter f l1 ≡ₚ List.filter f l2.
Proof.
  induction 1 as [|a l1 l2 _ IH|a b l|l1 l2 l3 _ IH1 _ IH2]; simpl; [done|..|by rewrite IH1].
  - destruct (f a); [by rewrite IH|done].
  - destruct (f a), (f b); try done. constructor.
Qed.

Definition cached (st : Pool) : nat := size (omap id (connections st)).

Definition all_done (st : Pool) : Prop := forall i t, calls st !! i = Some t -> is_done (call_pc t) = true.

(** Calls start when the one before has ended, nothing else has a slot, and the
    clock has moved since the last connection. *)
Definition one_at_a_time (st : Pool) (a : PoolAction) : Prop :=
  match a with
  | Spawn _ _ => all_done st
  | CallStep _ o _ => busy_count o = ∅ /\ busy_scan o = ∅ /\ busy_evict o = ∅ /\
      forall w e, connections st !! w = Some (Some e) -> created_at e < clock st
  | _ => True
  end.

Inductive serial (c : WorkerConnectionPoolConfig) : Pool -> Prop :=
| serial_new : serial c (with_config c)
| serial_step st a st' : serial c st -> one_at_a_time st a -> pool_step st a = Some st' -> serial c st'.

Lemma cached_insert (m : gmap WorkerId (option CachedEntry)) w s :
  size (omap id (<[w := s]> m)) =
    (size (delete w (omap id m)) + match s with Some _ => 1 | None => 0 end)%nat.
Proof.
  destruct s as [e|].
  - rewrite (omap_insert_Some _ _ _ _ e), <- insert_delete_eq, map_size_insert_None; [lia|apply lookup_delete_eq|done].
  - rewrite omap_insert_None by done. lia.
Qed.

Lemma active_count_cached st : (forall w e, connections st !! w = Some (Some e) -> locks st !! w = None) ->
  active_connection_count st ∅ = cached st.
Proof.
  unfold active_connection_count, cached. generalize (connections st) as m. intros m.
  induction m as [|k s m Hk IH] using map_ind; intros Hfree; [by rewrite map_to_list_empty|].
  rewrite cached_insert, delete_id by (by rewrite lookup_omap, Hk).
  assert (Hp : List.filter (fun kv => try_lock st ∅ kv.1 && bool_decide (is_Some kv.2)) (map_to_list (<[k := s]> m)) ≡ₚ
               List.filter (fun kv => try_lock st ∅ kv.1 && bool_decide (is_Some kv.2)) ((k, s) :: map_to_list m)).
  { apply list_filter_perm. by apply map_to_list_insert. }
  rewrite Hp. simpl. rewrite <- IH.
  - destruct s as [e|]; simpl; [|by rewrite andb_false_r]. unfold try_lock at 1. rewrite (Hfree k e) by by rewrite lookup_insert_eq.
    rewrite bool_decide_eq_false_2 by set_solver. simpl. lia.
  - intros w e Hw. apply (Hfree w e). rewrite lookup_insert_ne; [done|]. intros ->. by rewrite Hk in Hw.
Qed.

(** A scan over slots that are all free finds a connection if there is one. *)
Lemma scan_finds st skip l acc w e :
  (forall w', w' <> skip -> locks st !! w' = None) -> w <> skip -> 0 < entry_age st e ->
  (acc.2 = None -> acc.1 = 0) -> (w, Some e) ∈ l \/ is_Some acc.2 -> is_Some (foldl (older st ∅ skip) acc l).2.
Proof.
  intros Hfree Hw He. revert acc. induction l as [|[w1 s1] l IH]; intros acc Hacc Hin.
  { destruct Hin as [?%not_elem_of_nil|?]; done. }
  assert (Htry : w1 <> skip -> try_lock st ∅ w1 = true) by (intros ?; unfold try_lock; by rewrite Hfree, bool_decide_eq_false_2 by set_solver).
  simpl. apply IH; unfold older; simpl; destruct (decide (w1 = skip)) as [->|Hne]; try done.
  - rewrite Htry by done. destruct s1 as [e1|]; [|done]. by destruct (acc.1 <? entry_age st e1).
  - destruct Hin as [[[= -> _]|?]%elem_of_cons|?]; [done|by left|by right].
  - rewrite Htry by done. destruct Hin as [[[= -> <-]|?]%elem_of_cons|?].
    + right. destruct (Z.ltb_spec acc.1 (entry_age st e)); simpl; [by eexists|]. destruct acc.2 eqn:E; [by eexists|].
      rewrite Hacc in *; [lia|done].
    + by left.
    + right. destruct s1 as [e1|]; [|done]. destruct (acc.1 <? entry_age st e1); simpl; [by eexists|done].
Qed.

Lemma evict_makes_room st call skip :
  (forall w', w' <> skip -> locks st !! w' = None) -> connections st !! skip = Some None ->
  (forall w e, connections st !! w = Some (Some e) -> created_at e < clock st) ->
  (0 < cached st)%nat -> (cached (try_evict_oldest st call ∅ ∅ skip) < cached st)%nat.
Proof.
  intros Hfree Hskip Htick Hpos.
  assert (Hsome : exists w e, omap id (connections st) !! w = Some e).
  { destruct (decide (omap id (connections st) = ∅)) as [E|Hne].
    - unfold cached in Hpos. rewrite E, map_size_empty in Hpos. lia.
    - by apply map_choose. }
  destruct Hsome as (w & e & Hw). rewrite lookup_omap in Hw. destruct (connections st !! w) as [[e'|]|] eqn:Hs; try done.
  injection Hw as ->. assert (w <> skip) by (intros ->; congruence).
  pose proof (scan_finds st skip (map_order call (map_to_list (connections st))) (0, None) w e Hfree ltac:(done)
    ltac:(unfold entry_age; specialize (Htick w e Hs); lia) ltac:(done)
    ltac:(left; rewrite map_order_perm; by apply elem_of_map_to_list)) as [w' Hw'].
  pose proof (scan_sound st ∅ skip _ (0, None) (slots_of_map (connections st) call) eq_refl) as Hsound.
  unfold try_evict_oldest, scan_ok in *. rewrite Hw' in *. destruct Hsound as (Hne & Hl & e1 & He1). rewrite He1.
  unfold try_lock. rewrite Hl, bool_decide_eq_false_2 by set_solver. simpl. unfold cached. simpl. rewrite cached_insert, map_size_delete, lookup_omap, He1. simpl.
  assert (size (omap id (connections st)) <> 0)%nat; [|lia]. intros E%map_size_empty_iff.
  apply (f_equal (fun m => m !! w')) in E. by rewrite lookup_omap, He1, lookup_empty in E.
Qed.

Record serial_inv (st : Pool) : Prop := {
  si_inv : pool_inv st;
  si_alone : exists i, forall j t, calls st !! j = Some t -> j <> i -> is_done (call_pc t) = true;
  si_cap : (cached st <= effective_max_connections st)%nat;
  si_room : forall i t ep, calls st !! i = Some t -> call_pc t = GConnect ep -> (cached st < effective_max_connections st)%nat;
}.

Lemma cached_set_slot_none st w : (cached (set_slot st w None) <= cached st)%nat.
Proof. unfold cached. simpl. rewrite cached_insert, map_size_delete. destruct (omap id _ !! w); simpl; lia. Qed.

Lemma cached_evict_stale st busy : (cached (evict_stale_connections st busy) <= cached st)%nat.
Proof.
  apply map_subseteq_size, map_subseteq_spec. intros w e. rewrite !lookup_omap, evict_stale_lookup.
  destruct (connections st !! w) as [[e'|]|]; simpl; [|done..]. by destruct (_ && _).
Qed.

Lemma prepare_room st o i t :
  busy_count o = ∅ -> busy_scan o = ∅ -> busy_evict o = ∅ ->
  (forall w, w <> call_worker t -> locks st !! w = None) -> connections st !! call_worker t = Some None ->
  (forall w e, connections st !! w = Some (Some e) -> created_at e < clock st) ->
  (cached st <= effective_max_connections st)%nat ->
  let st' := prepare st o i t in
  effective_max_connections st' = effective_max_connections st /\
  (cached st' <= effective_max_connections st)%nat /\
  (forall ep, at_pc st' i (GConnect ep) -> (cached st' < effective_max_connections st)%nat).
Proof.
  intros Hb1 Hb2 Hb3 Hfree Hw Htick Hcap. unfold prepare. rewrite Hb1, Hb2, Hb3.
  rewrite active_count_cached by (intros w e He; apply Hfree; intros ->; congruence).
  set (limit := effective_max_connections st) in *.
  set (st2 := if (0 <? limit)%nat && (limit <=? cached st)%nat then _ else _).
  assert (Hst2 : (cached st2 <= limit)%nat /\ ((0 < limit)%nat -> (cached st2 < limit)%nat) /\
    effective_max_connections st2 = limit /\ endpoints st2 = endpoints st).
  { subst st2. destruct (Nat.ltb_spec 0 limit), (Nat.leb_spec limit (cached st)); simpl; try (split_and!; [lia..|done|done]).
    pose proof (evict_makes_room st (hash_call o) (call_worker t) Hfree Hw Htick ltac:(lia)). split; [lia|]. split; [lia|].
    by destruct (evict_oldest_spec st (hash_call o) ∅ ∅ (call_worker t)) as [->|(w & e & _ & _ & _ & ->)]. }
  destruct Hst2 as (H1 & H2 & H3 & H4). rewrite H4. destruct (endpoints st !! call_worker t) as [ep|] eqn:Hep.
  - split; [exact H3|]. split; [exact H1|]. intros _ _. apply H2. subst limit. unfold effective_max_connections, MAX_CONNECTIONS_CAP.
    assert (size (endpoints st) <> 0)%nat. { intros E%map_size_empty_iff. by rewrite E, lookup_empty in Hep. }
    destruct (Nat.eqb_spec (max_connections (pool_config st)) 0); lia.
  - split; [exact H3|]. split; [exact H1|]. by intros ep ?%at_goto.
Qed.

(** A step of the call that is running. *)
Lemma serial_call st st' i t :
  serial_inv st -> calls st !! i = Some t -> is_done (call_pc t) = false -> pool_inv st' ->
  (exists u, calls st' = <[i := u]> (calls st)) -> effective_max_connections st' = effective_max_connections st ->
  (cached st' <= effective_max_connections st)%nat ->
  (forall ep, at_pc st' i (GConnect ep) -> (cached st' < effective_max_connections st)%nat) -> serial_inv st'.
Proof.
  intros [Hinv [i0 Hi0] _ _] Ht Hnd Hinv' [u Hu] El Hcap Hroom.
  assert (Hothers : forall j t0, calls st !! j = Some t0 -> j <> i -> is_done (call_pc t0) = true).
  { intros j t0 Hj Hne. destruct (decide (j = i0)) as [->|?]; [|by eapply Hi0].
    assert (is_done (call_pc t) = true) by (eapply Hi0; [exact Ht|congruence]). congruence. }
  split; [done| |by rewrite El|].
  - exists i. intros j t0. rewrite Hu. intros Hj Hne. rewrite lookup_insert_ne in Hj by congruence. by eapply Hothers.
  - intros j t0 ep Hj Hpc. rewrite El. destruct (decide (j = i)) as [->|Hne]; [apply (Hroom ep); by exists t0|].
    rewrite Hu, lookup_insert_ne in Hj by congruence. specialize (Hothers j t0 Hj Hne). by rewrite Hpc in Hothers.
Qed.

Lemma calls_prepare st o i t : exists u, calls (prepare st o i t) = <[i := u]> (calls st).
Proof.
  unfold prepare. destruct (_ && _);
    [destruct (evict_oldest_spec st (hash_call o) (busy_scan o) (busy_evict o) (call_worker t)) as [->|(w & e & _ & _ & _ & ->)]|];
    simpl; destruct (endpoints st !! _); by eexists.
Qed.

#[local] Ltac stays Hsame := eapply Hsame; [| |reflexivity]; [first [exact (le_n _)|simpl; unfold cached; lia]|done].

Lemma serial_call_step st o i t a st' :
  serial_inv st -> one_at_a_time st (CallStep i o a) -> calls st !! i = Some t ->
  call_step shard decode_response decode_batches st o i t a = Some st' -> serial_inv st'.
Proof.
  intros Hsi (Hb1 & Hb2 & Hb3 & Htick) Ht Hstep. pose proof (si_inv _ Hsi) as Hinv. pose proof (si_cap _ Hsi) as Hcap.
  pose proof (call_step_inv _ _ _ _ _ _ Hinv Ht Hstep) as Hinv'. pose proof (pi_calls _ Hinv i t Ht) as Hok.
  assert (Hnd : is_done (call_pc t) = false) by (unfold call_step in Hstep; by destruct (call_pc t), a).
  assert (Hsame : forall c sl l pc, (size (omap id sl) <= cached st)%nat -> (forall ep, pc <> GConnect ep) ->
    st' = goto (mkPool (pool_config st) sl (endpoints st) l (calls st) (next_call st) c (clock st) (registrations st)) i t pc -> serial_inv st').
  { intros c sl l pc Hc Hpc ->. eapply serial_call; [done|done|done|done|by eexists|done|unfold cached at 1; simpl; lia|].
    intros ep Hat%at_goto. by destruct (Hpc ep). }
  assert (Hfree : forall w, w <> call_worker t -> locks st !! w = None).
  { intros w Hw. apply eq_None_not_Some. intros [j (u & Hu & Ew & Hh)%(pi_locks _ Hinv)]. destruct (si_alone _ Hsi) as [i0 Hi0].
    assert (j = i0) by (destruct (decide (j = i0)); [done|]; specialize (Hi0 j u Hu ltac:(done)); by destruct (call_pc u)).
    assert (i = i0) by (destruct (decide (i = i0)); [done|]; specialize (Hi0 i t Ht ltac:(done)); congruence). naive_solver. }
  assert (Hprep : forall st1 sl l, (size (omap id sl) <= cached st)%nat -> sl !! call_worker t = Some None ->
    (forall w e, sl !! w = Some (Some e) -> connections st !! w = Some (Some e)) -> (forall w, w <> call_worker t -> l !! w = locks st !! w) ->
    st1 = mkPool (pool_config st) sl (endpoints st) l (calls st) (next_call st) (next_client st) (clock st) (registrations st) ->
    st' = prepare st1 o i t -> serial_inv st').
  { intros st1 sl l Hc Hw Hsl Hl Est1 Est'.
    destruct (prepare_room st1 o i t) as (H1 & H2 & H3); rewrite ?Est1; simpl; try done.
    - intros w Hne. rewrite Hl by done. by apply Hfree.
    - intros w e He. by eapply Htick, Hsl.
    - change (size (omap id sl) <= effective_max_connections st)%nat. lia.
    - assert (El : effective_max_connections st1 = effective_max_connections st) by by rewrite Est1.
      destruct (calls_prepare st1 o i t) as [u Hu]. rewrite El in *.
      eapply serial_call; [exact Hsi|exact Ht|exact Hnd|exact Hinv'| |rewrite Est'; exact H1|rewrite Est'; exact H2|rewrite Est'; exact H3].
      exists u. by rewrite Est', Hu, Est1. }
  unfold call_step in Hstep. unfold call_ok in Hok.
  destruct (call_pc t) as [| | |e since|ep|c|e|e|r] eqn:Hpc; destruct a as [|b|r'|r']; try done.
  - destruct (guarded _ st _); injection Hstep as <-; [stays Hsame|].
    destruct (connections st !! call_worker t) as [s|] eqn:Hs; [stays Hsame|].
    eapply Hsame; [| |reflexivity]; [exact (cached_set_slot_none st (call_worker t))|done].
  - destruct (guarded _ st _); [done|]. injection Hstep as <-.
    destruct (connections st !! call_worker t) as [s|] eqn:Hs; [stays Hsame|].
    eapply Hsame; [| |reflexivity]; [exact (cached_set_slot_none st (call_worker t))|done].
  - destruct (locks st !! _) eqn:Hl; [done|]. injection Hstep as <-. unfold acquired in *. simpl in *.
    destruct Hok as [s Hs]. rewrite Hs in *. destruct s as [e|].
    + destruct (entry_expired _ e); [|stays Hsame].
      eapply Hprep; [| | | | |reflexivity].
      5: reflexivity.
    all: simpl.
      { exact (cached_set_slot_none st (call_worker t)). }
      { by rewrite lookup_insert_eq. }
      2: { intros w Hne. by rewrite lookup_insert_ne. }
      intros w e'. destruct (decide (w = call_worker t)) as [->|?]; [by rewrite lookup_insert_eq|by rewrite lookup_insert_ne].
    + eapply Hprep; [| | | | |reflexivity].
      5: reflexivity.
    all: simpl.
      { exact (le_n _). }
      { done. }
      { done. }
      intros w Hne. by rewrite lookup_insert_ne.
  - destruct b; injection Hstep as <-; [stays Hsame|].
    eapply Hprep; [| | | | |reflexivity].
    5: reflexivity.
    all: simpl.
    { exact (cached_set_slot_none st (call_worker t)). }
    { by rewrite lookup_insert_eq. }
    2: done.
    intros w e'. destruct (decide (w = call_worker t)) as [->|?]; [by rewrite lookup_insert_eq|by rewrite lookup_insert_ne].
  - injection Hstep as <-. pose proof (si_room _ Hsi i t ep Ht Hpc) as Hroom.
    destruct r'; simpl in *; try stays Hsame.
    eapply serial_call; [exact Hsi|exact Ht|by rewrite Hpc|exact Hinv'|by eexists|done| |].
    + change (size (omap id (<[call_worker t := Some (mkCached (mkConnection (call_worker t) ep (next_client st)) (clock st))]> (connections st))) <= effective_max_connections st)%nat.
      rewrite cached_insert, map_size_delete. unfold cached in Hroom. destruct (omap id _ !! _); simpl; lia.
    + by intros ep' ?%at_goto.
  - injection Hstep as <-. unfold used in *. destruct (call_use t); [|stays Hsame].
    destruct (submit_exchange _ _ _) as [[?|?] []]; stays Hsame.
  - injection Hstep as <-. destruct (connections st !! _); stays Hsame.
  - destruct (locks st !! _); [done|]. injection Hstep as <-. eapply Hsame; [| |reflexivity]; [exact (cached_set_slot_none st (call_worker t))|done].
Qed.

Lemma serial_sound c st : serial c st -> serial_inv st.
Proof.
  induction 1 as [|st a st' _ IH Hone Hstep].
  { split; [apply with_config_inv|by exists 0%nat|unfold cached; simpl; rewrite omap_empty, map_size_empty; lia|done]. }
  pose proof (si_inv _ IH) as Hinv. pose proof (pool_step_inv _ _ _ Hinv Hstep) as Hinv'.
  destruct a as [w ep|w u|d|busy|i o a]; simpl in Hstep.
  - injection Hstep as <-. destruct IH as [_ Ha Hc Hr]. unfold effective_max_connections, cached in *. simpl in *.
    assert (size (endpoints st) <= size (<[w := ep]> (endpoints st)))%nat.
    { rewrite map_size_insert. destruct (endpoints st !! w); simpl; lia. }
    split; simpl; [done|done|unfold effective_max_connections, cached; simpl|intros i t ep' Hi Hp; specialize (Hr i t ep' Hi Hp);
      unfold effective_max_connections, cached; simpl]; destruct (max_connections (pool_config st) =? 0)%nat; lia.
  - injection Hstep as <-. destruct IH as [_ _ Hc Hr]. split; simpl; [done| |exact Hc|].
    + exists (next_call st). intros j t Hj Hne. rewrite lookup_insert_ne in Hj by congruence. by eapply Hone.
    + intros i t ep [[<- <-]|[_ Hi]]%lookup_insert_Some; [done|]. by eapply Hr.
  - injection Hstep as <-. by destruct IH as [_ Ha Hc Hr]; split.
  - injection Hstep as <-. destruct IH as [_ Ha Hc Hr]. pose proof (cached_evict_stale st busy). split; [done|exact Ha|..].
    + change (effective_max_connections (evict_stale_connections st busy)) with (effective_max_connections st). lia.
    + intros i t ep Hi Hp. change (effective_max_connections (evict_stale_connections st busy)) with (effective_max_connections st).
      specialize (Hr i t ep Hi Hp). lia.
  - destruct (calls st !! i) as [t|] eqn:Ht; [|done]. destruct (_ || _); [|done]. by eapply serial_call_step.
Qed.

(** Whatever the interleaving, there are at most as many cached
    connections as registered workers; when calls do not overlap and the clock
    moves between them, there are at most as many as the pool may have. *)
Theorem pool_capped c l st :
  pool_run (with_config c) l = Some st ->
  (cached st <= size (endpoints st))%nat /\ (serial c st -> (cached st <= effective_max_connections st)%nat).
Proof.
  intros Hr. pose proof (pool_reached c l st Hr) as Hinv. split; [|intros Hs; apply (si_cap _ (serial_sound _ _ Hs))].
  unfold cached. rewrite <- !size_dom. apply subseteq_size. intros w [e He]%elem_of_dom. rewrite lookup_omap in He.
  destruct (connections st !! w) as [[e'|]|] eqn:Hw; try done. destruct (pi_slots _ Hinv w e' Hw) as [(_ & Hreg & _) _].
  apply elem_of_dom. by eapply (pi_registered _ Hinv).
Qed.

(** ** Calls end *)

Definition rank (pc : CallPc) : nat :=
  match pc with
  | GEntry => 8 | GBlocked => 7 | GLock => 6 | GHealth _ _ => 5 | GConnect _ => 4 | GUse _ => 3 | RGet _ => 2 | RLock _ => 1
  | GDone _ => 0
  end.

Definition calls_rank (m : gmap nat Call) : nat := sum_list (map (fun it => rank (call_pc it.2)) (map_to_list m)).

(** The steps the calls have left at most. *)
Definition work (st : Pool) : nat := calls_rank (calls st).

Lemma calls_rank_delete m i t : m !! i = Some t -> calls_rank m = (rank (call_pc t) + calls_rank (delete i m))%nat.
Proof.
  intros Hi. unfold calls_rank. pose proof (map_to_list_delete m i t Hi) as Hp.
  assert (E : forall l1 l2 : list (nat * Call), l1 ≡ₚ l2 -> sum_list (map (fun it => rank (call_pc it.2)) l1) = sum_list (map (fun it => rank (call_pc it.2)) l2)).
  { induction 1; simpl; lia. }
  rewrite <- (E _ _ Hp). done.
Qed.

Lemma calls_rank_insert m i t u : m !! i = Some t -> (rank (call_pc u) < rank (call_pc t))%nat ->
  (calls_rank (<[i := u]> m) < calls_rank m)%nat.
Proof.
  intros Hi Hr. rewrite (calls_rank_delete m i t Hi), (calls_rank_delete _ i u (lookup_insert_eq _ _ _)), delete_insert_eq. lia.
Qed.

Lemma call_step_rank st o i t a st' : call_step shard decode_response decode_batches st o i t a = Some st' ->
  exists u, calls st' = <[i := u]> (calls st) /\ (rank (call_pc u) < rank (call_pc t))%nat.
Proof.
  assert (Hprep : forall st1, exists u, calls (prepare st1 o i t) = <[i := u]> (calls st1) /\ (rank (call_pc u) <= 4)%nat).
  { intros st1. unfold prepare. destruct (_ && _);
      [destruct (evict_oldest_spec st1 (hash_call o) (busy_scan o) (busy_evict o) (call_worker t)) as [->|(w & e & _ & _ & _ & ->)]|];
      simpl; destruct (endpoints st1 !! _); eexists; (split; [done|simpl; lia]). }
  unfold call_step. destruct (call_pc t) as [| | |e since|ep|c|e|e|r] eqn:Hpc; destruct a as [|b|r'|r']; try done.
  - intros [= <-]. destruct (guarded _ _ _); [|destruct (connections st !! _)]; eexists; (split; [done|simpl; lia]).
  - destruct (guarded _ _ _); [done|]. intros [= <-]. destruct (connections st !! _); eexists; (split; [done|simpl; lia]).
  - destruct (locks st !! _); [done|]. intros [= <-]. unfold acquired. simpl.
    destruct (connections st !! _) as [[e|]|]; [destruct (entry_expired _ e); [|eexists; split; [done|simpl; lia]]|..].
    all: match goal with |- context [prepare ?s _ _ _] => destruct (Hprep s) as (u & -> & Hu) end; exists u; split; [done|simpl; lia].
  - destruct b; intros [= <-]; [eexists; split; [done|simpl; lia]|].
    destruct (Hprep (set_slot st (call_worker t) None)) as (u & -> & Hu). exists u. split; [done|simpl; lia].
  - intros [= <-]. destruct r'; eexists; (split; [done|simpl; lia]).
  - intros [= <-]. unfold used. destruct (call_use t); [destruct (submit_exchange _ _ _) as [[?|?] []]|]; eexists; (split; [done|simpl; lia]).
  - intros [= <-]. destruct (connections st !! _); eexists; (split; [done|simpl; lia]).
  - destruct (locks st !! _); [done|]. intros [= <-]. eexists; split; [done|simpl; lia].
Qed.

Lemma call_steps_work st l st' :
  Forall (fun a => match a with CallStep _ _ _ => True | _ => False end) l -> pool_run st l = Some st' ->
  (length l + work st' <= work st)%nat.
Proof.
  intros Hl. revert st. induction Hl as [|a l Ha _ IH]; intros st; simpl; [intros [= <-]; lia|].
  destruct a as [| | | |i o a]; try done. simpl. destruct (calls st !! i) as [t|] eqn:Ht; [|done].
  destruct (_ || _); [|done]. destruct (call_step _ _ _ _ _ _ _ _) as [st1|] eqn:Hs; [|done].
  intros Hr. specialize (IH st1 Hr). destruct (call_step_rank _ _ _ _ _ _ Hs) as (u & Hu & Hlt).
  pose proof (calls_rank_insert _ _ _ u Ht Hlt). unfold work in *. rewrite Hu in IH. lia.
Qed.

(** A call that has a lock or has nothing to wait for can go on. *)
Lemma ready_steps st i t : calls st !! i = Some t -> (0 < free_threads threads st)%nat ->
  match call_pc t with
  | GEntry | GHealth _ _ | GConnect _ | GUse _ | RGet _ => True
  | GBlocked => guarded shard st (call_worker t) = false
  | GLock | RLock _ => locks st !! call_worker t = None
  | GDone _ => False
  end -> exists o a st', pool_step st (CallStep i o a) = Some st'.
Proof.
  intros Ht Hfree Hpc. set (o := mkOracle [] ∅ ∅ ∅).
  assert (Hdo : forall a st', call_step shard decode_response decode_batches st o i t a = Some st' ->
    exists o a st', pool_step st (CallStep i o a) = Some st').
  { intros a st' Hs. exists o, a, st'. simpl. rewrite Ht. destruct (Nat.ltb_spec 0 (free_threads threads st)); [|lia].
    by rewrite orb_true_r. }
  unfold call_step in Hdo. destruct (call_pc t) as [| | |e since|ep|c|e|e|r].
  - by eapply (Hdo NoAnswer).
  - eapply (Hdo NoAnswer). by rewrite Hpc.
  - eapply (Hdo NoAnswer). by rewrite Hpc.
  - by eapply (Hdo (Healthy true)).
  - by eapply (Hdo (Connected Client.Established)).
  - by eapply (Hdo (Answered StreamEmpty)).
  - by eapply (Hdo NoAnswer).
  - eapply (Hdo NoAnswer). by rewrite Hpc.
  - done.
Qed.

(** C23: Calls on the pool end: the steps of the calls are bounded by a
    number that depends on where they stand, and while a call has not ended some
    call can go on, unless every thread is blocked by a removal that waits for a
    slot with its guard of the map. *)
Theorem pool_calls_end c l st :
  pool_run (with_config c) l = Some st ->
  (forall more st', Forall (fun a => match a with CallStep _ _ _ => True | _ => False end) more ->
     pool_run st more = Some st' -> (length more <= work st)%nat) /\
  (~ all_done st -> (0 < free_threads threads st)%nat -> exists i o a st', pool_step st (CallStep i o a) = Some st').
Proof.
  intros Hr. pose proof (pool_reached c l st Hr) as Hinv. split.
  { intros more st' Hm Hrun. pose proof (call_steps_work st more st' Hm Hrun). lia. }
  intros Hnd Hfree.
  assert (Hlocked : forall w, (exists i o a st', pool_step st (CallStep i o a) = Some st') \/ locks st !! w = None).
  { intros w. destruct (locks st !! w) as [j|] eqn:Hl; [left|by right]. apply (pi_locks _ Hinv) in Hl as (u & Hu & _ & Hh).
    exists j. apply (ready_steps st j u); [done|done|]. by destruct (call_pc u). }
  assert (Hex : exists i t, calls st !! i = Some t /\ is_done (call_pc t) = false).
  { destruct (decide (map_Forall (fun _ t => is_done (call_pc t) = true) (calls st))) as [Hall|Hne]; [by destruct Hnd|].
    apply map_not_Forall in Hne as (i & t & Ht & Hd); [|apply _]. exists i, t. split; [done|]. by destruct (is_done _). }
  destruct Hex as (i & t & Ht & Hd).
  assert (Hready : forall j u, calls st !! j = Some u -> call_pc u <> GBlocked -> is_done (call_pc u) = false ->
    exists i o a st', pool_step st (CallStep i o a) = Some st').
  { intros j u Hu Hb Hdu. destruct (Hlocked (call_worker u)) as [?|Hl]; [done|]. exists j. apply (ready_steps st j u); [done|done|].
    by destruct (call_pc u). }
  destruct (decide (is_Some (List.find (fun it => guards shard (shard (call_worker t)) it.2) (map_to_list (calls st))))) as [[[j u] Hf]|Hf].
  - apply find_some in Hf as [Hin Hg]. apply list_elem_of_In, elem_of_map_to_list in Hin. simpl in Hg. unfold guards in Hg.
    apply (Hready j u Hin); by destruct (call_pc u).
  - assert (Hb : {call_pc t = GBlocked} + {call_pc t <> GBlocked}) by (destruct (call_pc t); (by left) || by right).
    destruct Hb as [Hb|Hb]; [|by eapply Hready]. exists i. apply (ready_steps st i t); [done|done|].
    rewrite Hb. unfold guarded. apply not_true_iff_false. intros (x & Hx & Hg)%existsb_exists. apply Hf.
    destruct (List.find _ _) eqn:E; [by eexists|]. pose proof (find_none _ _ E x Hx) as Hn. simpl in Hn. congruence.
Qed.
End sound.

(** ** Concrete runs *)

#[local] Existing Instance demo_order.

Definition demo_oracle : Oracle := mkOracle [] ∅ ∅ ∅.
Definition demo_decode (bytes : list Z) : result Proto.SubmitStageResponse string := Ok (Proto.mkResponse true EmptyString bytes None).
Definition demo_batches (bytes : list Z) : result (list Z) string := Ok bytes.
Definition demo_shard (w : WorkerId) : nat := 0.
Definition demo_pool_config : WorkerConnectionPoolConfig := mkPoolConfig 300 1.

(** One thread, and all workers in one shard. *)
#[local] Notation demo_run l := (pool_run demo_shard 1 demo_decode demo_batches (with_config demo_pool_config) l).
#[local] Notation demo_step := (pool_step demo_shard 1 demo_decode demo_batches).
#[local] Notation demo_pool l := (default (with_config demo_pool_config) (demo_run l)).

Definition do_call (i : nat) (a : PoolAnswer) : PoolAction := CallStep i demo_oracle a.

Definition demo_workers : list PoolAction := [Register "w1" "http://a:1"; Register "w2" "http://b:1"; Tick 1].

(** A call that connects, and the answer to its request. *)
Definition demo_locks (i : nat) (w : WorkerId) (u : Use) : list PoolAction := [Spawn w u; do_call i NoAnswer; do_call i NoAnswer].
Definition demo_established (i : nat) : PoolAction := do_call i (Connected Client.Established).
Definition demo_answered (i : nat) : PoolAction := do_call i (Answered (Response [1])).
Definition demo_gets (i : nat) (w : WorkerId) (u : Use) : list PoolAction := demo_locks i w u ++ [demo_established i].

Definition demo_conn (w endpoint : string) (n : nat) : WorkerConnection := mkConnection w endpoint n.

Lemma pool_connection_checked_witness :
  let st := demo_pool (demo_workers ++ demo_locks 0 "w1" UseFetch) in
  let st' := default st (demo_step st (demo_established 0)) in
  (demo_conn "w1" "http://a:1" 0).(wc_worker_id) = "w1" /\ ("w1", "http://a:1") ∈ registrations st /\
  at_pc st' 0 (GUse (demo_conn "w1" "http://a:1" 0)).
Proof.
  intros st st'.
  assert (Hat : at_pc st' 0 (GUse (demo_conn "w1" "http://a:1" 0))) by (eexists; split; vm_compute; reflexivity).
  destruct (pool_connection_checked demo_shard 1 demo_decode demo_batches demo_pool_config (demo_workers ++ demo_locks 0 "w1" UseFetch)
    st 0 (mkCall "w1" UseFetch (GConnect "http://a:1")) demo_oracle (Connected Client.Established) st' (demo_conn "w1" "http://a:1" 0)) as (Hw & Hr & _).
  - vm_compute. reflexivity.
  - vm_compute. reflexivity.
  - vm_compute. reflexivity.
  - exact Hat.
  - split; [exact Hw|]. split; [exact Hr|exact Hat].
Defined.

Lemma pool_capped_witness :
  let st := demo_pool (demo_workers ++ demo_gets 0 "w1" UseFetch) in
  demo_run (demo_workers ++ demo_gets 0 "w1" UseFetch) = Some st /\ cached st = 1%nat /\ (cached st <= size (endpoints st))%nat.
Proof.
  intros st. assert (Hr : demo_run (demo_workers ++ demo_gets 0 "w1" UseFetch) = Some st) by (vm_compute; reflexivity).
  split; [exact Hr|]. split; [vm_compute; reflexivity|]. exact (proj1 (pool_capped demo_shard 1 demo_decode demo_batches _ _ _ Hr)).
Defined.

Lemma pool_calls_end_witness :
  let st := demo_pool (demo_workers ++ demo_gets 0 "w1" UseFetch) in
  demo_run (demo_workers ++ demo_gets 0 "w1" UseFetch) = Some st /\
  exists i o a st', demo_step st (CallStep i o a) = Some st'.
Proof.
  intros st. assert (Hr : demo_run (demo_workers ++ demo_gets 0 "w1" UseFetch) = Some st) by (vm_compute; reflexivity).
  split; [exact Hr|]. apply (proj2 (pool_calls_end demo_shard 1 demo_decode demo_batches _ _ _ Hr)).
  - intros Hd. specialize (Hd 0%nat (mkCall "w1" UseFetch (GUse (demo_conn "w1" "http://a:1" 0)))).
    assert (false = true) by (apply Hd; vm_compute; reflexivity). discriminate.
  - vm_compute. lia.
Defined.

(** Two calls that overlap put two connections into a pool of one. *)
Theorem cap_exceeded_by_overlap :
  let st := demo_pool (demo_workers ++ demo_locks 0 "w1" UseFetch ++ demo_locks 1 "w2" UseFetch ++ [demo_established 0; demo_established 1]) in
  effective_max_connections st = 1%nat /\ cached st = 2%nat.
Proof. split; vm_compute; reflexivity. Qed.

(** A call for a worker without an endpoint throws a good connection away. *)
Theorem unknown_worker_evicts :
  let st := demo_pool (demo_workers ++ demo_gets 0 "w1" UseFetch ++ [demo_answered 0; Tick 1]) in
  let st' := demo_pool (demo_workers ++ demo_gets 0 "w1" UseFetch ++ [demo_answered 0; Tick 1] ++ demo_locks 1 "w9" UseFetch) in
  cached st = 1%nat /\ cached st' = 0%nat /\ all_done st'.
Proof.
  split; [vm_compute; reflexivity|]. split; [vm_compute; reflexivity|].
  assert (Hall : forallb (fun it => is_done (call_pc it.2)) (map_to_list (calls (demo_pool (demo_workers ++ demo_gets 0 "w1" UseFetch ++
    [demo_answered 0; Tick 1] ++ demo_locks 1 "w9" UseFetch)))) = true) by (vm_compute; reflexivity).
  intros i t Ht. rewrite forallb_forall in Hall. apply (Hall (i, t)). by apply list_elem_of_In, elem_of_map_to_list.
Qed.

(** The failed request over an old connection removes the new one of another
    call. *)
Theorem removal_drops_new_connection :
  let l := demo_workers ++ demo_gets 0 "w1" UseSubmit ++ [Tick 300] ++ demo_gets 1 "w1" UseSubmit ++ [demo_answered 1] in
  let removal := [do_call 0 (Answered (CallFailed "reset")); do_call 0 NoAnswer; do_call 0 NoAnswer] in
  connections (demo_pool l) !! "w1" = Some (Some (mkCached (demo_conn "w1" "http://a:1" 1) 301)) /\
  connections (demo_pool (l ++ removal)) !! "w1" = Some None.
Proof. split; vm_compute; reflexivity. Qed.

(** A removal waits for a slot that is being checked and holds its guard; a call
    for another worker of the shard blocks the thread, and nothing moves any
    more. *)
Definition demo_deadlock : list PoolAction :=
  demo_workers ++ demo_gets 0 "w1" UseSubmit ++ demo_locks 1 "w1" UseFetch ++
  [do_call 0 (Answered (CallFailed "reset")); do_call 0 NoAnswer; Spawn "w2" UseFetch; do_call 2 NoAnswer].

Theorem removal_blocks_threads :
  let st := demo_pool demo_deadlock in
  demo_run demo_deadlock = Some st /\ free_threads 1 st = 0%nat /\ forall i o a, demo_step st (CallStep i o a) = None.
Proof.
  intros st. split; [vm_compute; reflexivity|]. split; [vm_compute; reflexivity|]. intros i o a.
  assert (Hall : forallb (fun it => negb (blocks_thread it.2) || guarded demo_shard st (call_worker it.2)) (map_to_list (calls st)) = true)
    by (vm_compute; reflexivity).
  assert (Hfree : (0 <? free_threads 1 st)%nat = false) by (vm_compute; reflexivity).
  clearbody st. unfold pool_step. destruct (calls st !! i) as [t|] eqn:Ht; [|done]. rewrite Hfree, orb_false_r. destruct (blocks_thread t) eqn:Hb; [|done].
  rewrite forallb_forall in Hall. specialize (Hall (i, t) ltac:(by apply list_elem_of_In, elem_of_map_to_list)). simpl in Hall.
  rewrite Hb in Hall. simpl in Hall. unfold call_step, blocks_thread in *. destruct (call_pc t); try done. destruct a; try done. by rewrite Hall.
Qed.
