(* ===== verification/Decimal.v ===== *)
(** * Decimals of the JDBC source (loader/starrocks/jdbc_client.rs)

    [parse_decimal_to_i128] reads the text of a MySQL DECIMAL as an integer
    scaled by a power of ten, in 128 bits. *)

From stdpp Require Import pretty.
From S2P Require Import Prelude Arrow DuckDb.

#[local] Open Scope Z_scope.

(** ** 128-bit integers *)

Definition i128_max : Z := 2 ^ 127 - 1.
Definition i128_min : Z := - 2 ^ 127.

(** The release build wraps [*], [pow] and unary minus. *)
Definition wrap_i128 (z : Z) : Z := (z + 2 ^ 127) mod 2 ^ 128 - 2 ^ 127.

Definition in_i128 (z : Z) : bool := (i128_min <=? z) && (z <=? i128_max).

Lemma wrap_i128_small z : i128_min <= z <= i128_max -> wrap_i128 z = z.
Proof. unfold wrap_i128, i128_min, i128_max. intros Hz. rewrite Z.mod_small; lia. Qed.

(** ** Parsing integers *)

Definition digit_of (c : Ascii.ascii) : option Z :=
  let n := Z.of_nat (Ascii.nat_of_ascii c) in if (48 <=? n) && (n <=? 57) then Some (n - 48) else None.

Definition all_digits (s : string) : bool :=
  forallb (fun c => bool_decide (is_Some (digit_of c))) (String.list_ascii_of_string s).

(** The digits one after the other, as [from_str_radix] reads them. *)
Fixpoint parse_loop (neg : bool) (acc : Z) (s : string) : result Z string :=
  match s with
  | EmptyString => Ok acc
  | String c s =>
      match digit_of c with
      | None => Err "invalid digit found in string"
      | Some d =>
          let acc := if neg then acc * 10 - d else acc * 10 + d in
          if in_i128 acc then parse_loop neg acc s
          else Err (if neg then "number too small to fit in target type" else "number too large to fit in target type")
      end
  end.

(** [str::parse::<i128>]. *)
Definition parse_i128 (s : string) : result Z string :=
  match s with
  | EmptyString => Err "cannot parse integer from empty string"
  | _ =>
      match strip_prefix "-" s, strip_prefix "+" s with
      | Some EmptyString, _ | _, Some EmptyString => Err "invalid digit found in string"
      | Some rest, _ => parse_loop true 0 rest
      | _, Some rest => parse_loop false 0 rest
      | None, None => parse_loop false 0 s
      end
  end.

Definition dot : Ascii.ascii := Ascii.ascii_of_nat 46.
Definition minus : Ascii.ascii := Ascii.ascii_of_nat 45.
Definition plus : Ascii.ascii := Ascii.ascii_of_nat 43.

(** [s.splitn(2, '.')]: the text before the first dot, and after it. *)
Fixpoint split_dot (s : string) : string * option string :=
  match s with
  | EmptyString => (EmptyString, None)
  | String c s' =>
      if decide (c = dot) then (EmptyString, Some s') else let '(a, b) := split_dot s' in (String c a, b)
  end.

(** ** The parser *)

Definition parse_decimal_to_i128 (input : string) (scale : Z) : result Z string :=
  if scale <? 0 then Err ("negative scale is not supported: " +:+ pretty scale)
  else
    match trim input with
    | EmptyString => Err "empty decimal string"
    | s =>
        let '(neg, s) :=
          match strip_prefix "-" s with
          | Some rest => (true, rest)
          | None => match strip_prefix "+" s with Some rest => (false, rest) | None => (false, s) end
          end in
        let '(int_part, frac_part) := split_dot s in
        let frac_part := default EmptyString frac_part in
        let int_part := match int_part with EmptyString => "0" | _ => int_part end in
        match parse_i128 int_part with
        | Err e => Err ("invalid integer part '" +:+ int_part +:+ "': " +:+ e)
        | Ok int_val =>
            let pow10 := wrap_i128 (10 ^ scale) in
            if negb (all_digits frac_part) then Err ("invalid fractional part '" +:+ frac_part +:+ "'")
            else if scale <? Z.of_nat (String.length frac_part) then
              Err ("fractional precision " +:+ pretty (String.length frac_part) +:+ " exceeds declared scale " +:+ pretty scale)
            else
              match (match frac_part with EmptyString => Ok 0 | _ => parse_i128 frac_part end) with
              | Err e => Err ("invalid fractional digits '" +:+ frac_part +:+ "': " +:+ e)
              | Ok frac_raw =>
                  let frac_pow := wrap_i128 (10 ^ (scale - Z.of_nat (String.length frac_part))) in
                  let frac_scaled := wrap_i128 (frac_raw * frac_pow) in
                  if negb (in_i128 (int_val * pow10)) then Err "overflow scaling integer part"
                  else if negb (in_i128 (int_val * pow10 + frac_scaled)) then Err "overflow adding fractional part"
                  else
                    let out := int_val * pow10 + frac_scaled in
                    Ok (if neg then wrap_i128 (- out) else out)
              end
        end
    end.

(** ** Digits *)

(** The number a text of digits denotes. *)
Fixpoint digits_of (acc : Z) (s : string) : Z :=
  match s with EmptyString => acc | String c s => digits_of (acc * 10 + default 0 (digit_of c)) s end.

Lemma digit_range c d : digit_of c = Some d -> 0 <= d <= 9.
Proof.
  unfold digit_of. set (n := Z.of_nat _). destruct (Z.leb_spec 48 n), (Z.leb_spec n 57); simpl; try done. intros [= <-]. lia.
Qed.

Lemma all_digits_cons c s : all_digits (String c s) = true -> (exists d, digit_of c = Some d /\ 0 <= d <= 9) /\ all_digits s = true.
Proof.
  unfold all_digits. simpl. rewrite andb_true_iff, bool_decide_eq_true. intros [[d Hd] ?]. split; [|done].
  exists d. split; [done|]. by eapply digit_range.
Qed.

Lemma digits_of_acc acc s : digits_of acc s = acc * 10 ^ Z.of_nat (String.length s) + digits_of 0 s.
Proof.
  revert acc. induction s as [|c s IH]; intros acc; simpl String.length; cbn [digits_of]; [simpl; lia|].
  rewrite (IH (acc * 10 + _)), (IH (0 * 10 + _)), Nat2Z.inj_succ, Z.pow_succ_r by lia. lia.
Qed.

Lemma digits_of_range s : all_digits s = true -> 0 <= digits_of 0 s < 10 ^ Z.of_nat (String.length s).
Proof.
  induction s as [|c s IH]; [simpl; lia|]. intros ((d & Hd & Hr) & Hs)%all_digits_cons. specialize (IH Hs).
  cbn [digits_of String.length]. rewrite digits_of_acc, Hd. rewrite Nat2Z.inj_succ, Z.pow_succ_r by lia. simpl. nia.
Qed.

(** Reading digits gives their number, or an error when it does not fit. *)
Lemma parse_loop_digits acc s : 0 <= acc <= i128_max -> all_digits s = true ->
  parse_loop false acc s =
    if digits_of acc s <=? i128_max then Ok (digits_of acc s) else Err "number too large to fit in target type".
Proof.
  revert acc. induction s as [|c s IH]; intros acc Hacc Hs; simpl.
  { destruct (Z.leb_spec acc i128_max); [done|lia]. }
  apply all_digits_cons in Hs as [(d & Hd & Hr) Hs]. rewrite Hd. simpl. unfold in_i128.
  assert (i128_min <= acc * 10 + d) by (unfold i128_min; lia).
  destruct (Z.leb_spec i128_min (acc * 10 + d)); [|lia]. simpl. destruct (Z.leb_spec (acc * 10 + d) i128_max) as [Hle|Hgt].
  - apply IH; [lia|done].
  - destruct (Z.leb_spec (digits_of (acc * 10 + d) s) i128_max) as [Hle|]; [|done].
    rewrite digits_of_acc in Hle. pose proof (digits_of_range s Hs). nia.
Qed.

Lemma digit_not_sign c d : digit_of c = Some d -> c <> minus /\ c <> plus /\ c <> dot /\ is_space c = false.
Proof.
  unfold digit_of, is_space. set (n := Ascii.nat_of_ascii c). intros Hd. assert (Hn : (48 <= n <= 57)%nat).
  { destruct (Z.leb_spec 48 (Z.of_nat n)), (Z.leb_spec (Z.of_nat n) 57); simpl in Hd; try done. lia. }
  split_and!; [intros ->; subst n; cbv in Hn; lia..|].
  destruct (Nat.eqb_spec n 32), (Nat.leb_spec 9 n), (Nat.leb_spec n 13); try lia; done.
Qed.

Lemma parse_i128_digits s : s <> EmptyString -> all_digits s = true ->
  parse_i128 s = if digits_of 0 s <=? i128_max then Ok (digits_of 0 s) else Err "number too large to fit in target type".
Proof.
  intros Hne Hs. destruct s as [|c s]; [done|]. pose proof (all_digits_cons _ _ Hs) as [(d & Hd & _) _].
  destruct (digit_not_sign c d Hd) as (H1 & H2 & _ & _). unfold parse_i128. simpl strip_prefix.
  rewrite !decide_False by done. by apply parse_loop_digits.
Qed.

Lemma split_dot_digits s t : all_digits s = true ->
  split_dot (s +:+ t) = (s +:+ (split_dot t).1, (split_dot t).2).
Proof.
  induction s as [|c s IH]; intros Hs; [change (EmptyString +:+ t) with t; by destruct (split_dot t)|].
  apply all_digits_cons in Hs as [(d & Hd & _) Hs]. destruct (digit_not_sign c d Hd) as (_ & _ & H3 & _).
  change (String c s +:+ t) with (String c (s +:+ t)). simpl. rewrite decide_False by done. by rewrite IH.
Qed.

(** ** What the parser accepts *)

Lemma trim_no_space s : (forall c, c ∈ String.list_ascii_of_string s -> is_space c = false) -> trim s = s.
Proof.
  intros Hs. unfold trim.
  assert (E : trim_start s = s).
  { destruct s as [|c s]; [done|]. simpl. rewrite (Hs c); [done|left]. }
  rewrite E. clear E. induction s as [|c s IH]; [done|]. cbn [trim_end]. rewrite IH.
  - destruct s; [|done]. by rewrite (Hs c ltac:(simpl; left)).
  - intros c' Hc'. apply Hs. by right.
Qed.

Definition sign_text (neg : bool) : string := if neg then "-" else EmptyString.
Definition signed (neg : bool) (z : Z) : Z := if neg then - z else z.

(** The fraction with its dot, or nothing. *)
Definition frac_text (frac : option string) : string := match frac with Some f => "." +:+ f | None => EmptyString end.

Lemma chars_app s t : String.list_ascii_of_string (s +:+ t) = String.list_ascii_of_string s ++ String.list_ascii_of_string t.
Proof. induction s as [|c s IH]; [done|]. change (String c s +:+ t) with (String c (s +:+ t)). simpl. by rewrite IH. Qed.

Lemma all_digits_no_space s c : all_digits s = true -> c ∈ String.list_ascii_of_string s -> is_space c = false.
Proof.
  unfold all_digits. rewrite forallb_forall. intros Hs Hc%list_elem_of_In. specialize (Hs c Hc). apply bool_decide_eq_true in Hs as [d Hd].
  by destruct (digit_not_sign c d Hd) as (_ & _ & _ & ?).
Qed.

Lemma text_trimmed neg i frac : all_digits i = true -> all_digits (default EmptyString frac) = true ->
  trim (sign_text neg +:+ i +:+ frac_text frac) = sign_text neg +:+ i +:+ frac_text frac.
Proof.
  intros Hi Hf. apply trim_no_space. intros c. rewrite !chars_app, !elem_of_app. intros [Hc|[Hc|Hc]].
  - destruct neg; [|by apply not_elem_of_nil in Hc]. simpl in Hc. by apply list_elem_of_singleton in Hc as ->.
  - by apply (all_digits_no_space i).
  - destruct frac as [f|]; [|by apply not_elem_of_nil in Hc]. simpl in Hc. apply elem_of_cons in Hc as [->|Hc]; [done|].
    by apply (all_digits_no_space f).
Qed.

(** The sign is stripped and the text split at its dot. *)
Lemma split_text neg i frac : i <> EmptyString -> all_digits i = true ->
  match strip_prefix "-" (sign_text neg +:+ i +:+ frac_text frac) with
  | Some rest => (true, rest)
  | None => match strip_prefix "+" (sign_text neg +:+ i +:+ frac_text frac) with
            | Some rest => (false, rest) | None => (false, sign_text neg +:+ i +:+ frac_text frac) end
  end = (neg, i +:+ frac_text frac) /\
  split_dot (i +:+ frac_text frac) = (i, frac).
Proof.
  intros Hne Hi. split.
  - destruct neg; [by change (sign_text true +:+ i +:+ frac_text frac) with (String minus (i +:+ frac_text frac))|].
    destruct i as [|c i]; [done|]. apply all_digits_cons in Hi as [(d & Hd & _) _].
    destruct (digit_not_sign c d Hd) as (H1 & H2 & _ & _).
    change (sign_text false +:+ String c i +:+ frac_text frac) with (String c (i +:+ frac_text frac)).
    simpl. by rewrite !decide_False.
  - rewrite split_dot_digits by done. destruct frac as [f|]; simpl; by rewrite string_app_nil_r.
Qed.

Lemma pow10_range k : 0 <= k <= 38 -> 0 < 10 ^ k <= i128_max.
Proof.
  intros Hk. split; [apply Z.pow_pos_nonneg; lia|]. transitivity (10 ^ 38); [apply Z.pow_le_mono_r; lia|]. by vm_compute.
Qed.

Lemma parse_decimal_text neg i frac scale :
  let f := default EmptyString frac in
  i <> EmptyString -> all_digits i = true -> all_digits f = true -> 0 <= scale <= 38 ->
  Z.of_nat (String.length f) <= scale ->
  let value := digits_of 0 i * 10 ^ scale + digits_of 0 f * 10 ^ (scale - Z.of_nat (String.length f)) in
  if value <=? i128_max then parse_decimal_to_i128 (sign_text neg +:+ i +:+ frac_text frac) scale = Ok (signed neg value)
  else exists e, parse_decimal_to_i128 (sign_text neg +:+ i +:+ frac_text frac) scale = Err e.
Proof.
  intros f Hne Hi Hf Hscale Hlen value.
  pose proof (digits_of_range i Hi) as Hri. pose proof (digits_of_range f Hf) as Hrf.
  pose proof (pow10_range scale Hscale) as Hp. set (k := scale - Z.of_nat (String.length f)) in *.
  assert (Hk : 0 <= k <= 38) by lia. pose proof (pow10_range k Hk) as Hpk.
  assert (Hfs : 0 <= digits_of 0 f * 10 ^ k < 10 ^ scale).
  { replace (10 ^ scale) with (10 ^ Z.of_nat (String.length f) * 10 ^ k) by (rewrite <- Z.pow_add_r by lia; f_equal; lia). nia. }
  unfold parse_decimal_to_i128. destruct (Z.ltb_spec scale 0); [lia|]. rewrite text_trimmed by done.
  destruct (split_text neg i frac Hne Hi) as [Es Ed].
  destruct (sign_text neg +:+ i +:+ frac_text frac) as [|c0 s0] eqn:Et.
  { destruct neg, i; done. }
  rewrite <- Et in *. rewrite Es, Ed. fold f.
  assert (Ei : (match i with EmptyString => "0" | String _ _ => i end) = i) by (by destruct i). rewrite Ei.
  rewrite parse_i128_digits by done. rewrite (wrap_i128_small (10 ^ scale)) by (unfold i128_min in *; lia).
  destruct (Z.leb_spec (digits_of 0 i) i128_max) as [Hfit|Hbig].
  2:{ destruct (Z.leb_spec value i128_max); [nia|]. by eexists. }
  rewrite Hf. simpl negb. cbv iota. destruct (Z.ltb_spec scale (Z.of_nat (String.length f))); [lia|].
  assert (Eraw : (match f with EmptyString => Ok 0 | String _ _ => parse_i128 f end) = Ok (digits_of 0 f)).
  { destruct f as [|c1 f1]; [done|]. rewrite parse_i128_digits by done.
    destruct (Z.leb_spec (digits_of 0 (String c1 f1)) i128_max); [done|]. nia. }
  rewrite Eraw. fold k. rewrite (wrap_i128_small (10 ^ k)) by (unfold i128_min in *; lia).
  rewrite (wrap_i128_small (_ * 10 ^ k)) by (unfold i128_min in *; lia). fold value. unfold in_i128.
  assert (Hmin : i128_min < 0) by by vm_compute.
  destruct (Z.leb_spec i128_min (digits_of 0 i * 10 ^ scale)); [|nia].
  destruct (Z.leb_spec value i128_max) as [Hv|Hv].
  - destruct (Z.leb_spec (digits_of 0 i * 10 ^ scale) i128_max); [|nia]. simpl.
    destruct (Z.leb_spec i128_min value); [|nia]. simpl. f_equal. destruct neg; [|done]. simpl.
    apply wrap_i128_small. unfold i128_min, i128_max in *. nia.
  - destruct (Z.leb_spec (digits_of 0 i * 10 ^ scale) i128_max); simpl; [|by eexists].
    destruct (Z.leb_spec i128_min value); simpl; by eexists.
Qed.

(** C35: The text of a decimal, digits with an optional fraction of at
    most as many digits as the scale, is read as its number times the power of
    the scale, with its sign; exactly the numbers that do not fit 128 bits are
    errors. *)
Theorem parse_decimal_exact neg i frac scale :
  let f := default EmptyString frac in
  i <> EmptyString -> all_digits i = true -> all_digits f = true -> 0 <= scale <= 38 ->
  Z.of_nat (String.length f) <= scale ->
  let value := digits_of 0 i * 10 ^ scale + digits_of 0 f * 10 ^ (scale - Z.of_nat (String.length f)) in
  if value <=? i128_max then parse_decimal_to_i128 (sign_text neg +:+ i +:+ frac_text frac) scale = Ok (signed neg value)
  else exists e, parse_decimal_to_i128 (sign_text neg +:+ i +:+ frac_text frac) scale = Err e.
Proof. apply parse_decimal_text. Qed.

(** ** Printing and parsing *)

Definition digit_char (d : Z) : Ascii.ascii := Ascii.ascii_of_nat (48 + Z.to_nat d).

(** The last [n] digits of a number. *)
Fixpoint last_digits (n : nat) (z : Z) : string :=
  match n with O => EmptyString | S n => last_digits n (z / 10) +:+ String (digit_char (z mod 10)) EmptyString end.

(** How MySQL writes a DECIMAL: its sign, its integer part and as many digits
    after the dot as its scale. *)
Definition decimal_text (v scale : Z) : string :=
  let m := Z.abs v in
  sign_text (v <? 0) +:+ pretty (Z.to_N (m / 10 ^ scale)) +:+
    frac_text (if scale =? 0 then None else Some (last_digits (Z.to_nat scale) (m mod 10 ^ scale))).

Lemma digit_of_char d : 0 <= d <= 9 -> digit_of (digit_char d) = Some d.
Proof.
  intros Hd. unfold digit_of, digit_char. rewrite Ascii.nat_ascii_embedding by lia.
  destruct (Z.leb_spec 48 (Z.of_nat (48 + Z.to_nat d))), (Z.leb_spec (Z.of_nat (48 + Z.to_nat d)) 57); simpl; try lia. f_equal. lia.
Qed.

Lemma all_digits_app s t : all_digits (s +:+ t) = all_digits s && all_digits t.
Proof. unfold all_digits. by rewrite chars_app, forallb_app. Qed.

Lemma length_string_app s t : String.length (s +:+ t) = (String.length s + String.length t)%nat.
Proof. induction s as [|c s IH]; [done|]. change (String c s +:+ t) with (String c (s +:+ t)). simpl. by rewrite IH. Qed.

Lemma digits_of_app acc s t : digits_of acc (s +:+ t) = digits_of (digits_of acc s) t.
Proof. revert acc. induction s as [|c s IH]; intros acc; [done|]. change (String c s +:+ t) with (String c (s +:+ t)). simpl. apply IH. Qed.

Lemma last_digits_spec n z : 0 <= z ->
  all_digits (last_digits n z) = true /\ String.length (last_digits n z) = n /\ digits_of 0 (last_digits n z) = z mod 10 ^ Z.of_nat n.
Proof.
  revert z. induction n as [|n IH]; intros z Hz; simpl last_digits.
  { split_and!; [done|done|]. simpl. by rewrite Z.mod_1_r. }
  destruct (IH (z / 10) ltac:(apply Z.div_pos; lia)) as (H1 & H2 & H3). pose proof (Z.mod_pos_bound z 10 ltac:(lia)).
  pose proof (digit_of_char (z mod 10) ltac:(lia)) as Hd.
  split_and!.
  - rewrite all_digits_app, H1. unfold all_digits. cbn [String.list_ascii_of_string forallb]. by rewrite Hd.
  - rewrite length_string_app, H2. cbn [String.length]. lia.
  - rewrite digits_of_app, H3. cbn [digits_of]. rewrite Hd. cbn [default]. rewrite Nat2Z.inj_succ, Z.pow_succ_r by lia.
    rewrite (Z.rem_mul_r z 10 (10 ^ Z.of_nat n)) by lia. unfold id. lia.
Qed.

Lemma pretty_go_digits x s : all_digits s = true ->
  all_digits (pretty_N_go x s) = true /\ digits_of 0 (pretty_N_go x s) = digits_of (Z.of_N x) s.
Proof.
  revert s. induction (N.lt_wf_0 x) as [x _ IH]; intros s Hs. destruct (decide (x = 0)%N) as [->|Hx].
  { by rewrite pretty_N_go_0. }
  rewrite pretty_N_go_step by lia. assert (Hlt : (x / 10 < x)%N) by (apply N.div_lt; lia).
  pose proof (N.mod_lt x 10 ltac:(lia)) as Hm.
  assert (Hd : digit_of (pretty_N_char (x mod 10)) = Some (Z.of_N (x mod 10))).
  { set (m := (x mod 10)%N) in *. assert (Hc : m = 0%N \/ m = 1%N \/ m = 2%N \/ m = 3%N \/ m = 4%N \/ m = 5%N \/ m = 6%N \/ m = 7%N \/ m = 8%N \/ m = 9%N) by lia.
    clearbody m. by repeat (destruct Hc as [->|Hc]; [done|]); subst. }
  destruct (IH (x / 10)%N Hlt (String (pretty_N_char (x mod 10)) s)) as [H1 H2].
  { unfold all_digits in *. cbn [String.list_ascii_of_string forallb]. by rewrite Hd. }
  split; [done|]. rewrite H2. cbn [digits_of]. rewrite Hd. cbn [default]. unfold id. f_equal. pose proof (N.div_mod x 10 ltac:(lia)). lia.
Qed.

Lemma pretty_digits x : pretty x <> EmptyString /\ all_digits (pretty (x : N)) = true /\ digits_of 0 (pretty x) = Z.of_N x.
Proof.
  unfold pretty, pretty_N. destruct (decide (x = 0)%N) as [->|Hx]; [done|].
  destruct (pretty_go_digits x EmptyString eq_refl) as [H1 H2]. split_and!; [|done|done].
  intros E. rewrite E in H2. simpl in H2. lia.
Qed.

(** A decimal that fits 128 bits is read back from the text the
    source writes for it. *)
Theorem decimal_roundtrip v scale : 0 <= scale <= 38 -> - i128_max <= v <= i128_max ->
  parse_decimal_to_i128 (decimal_text v scale) scale = Ok v.
Proof.
  intros Hs Hv. unfold decimal_text. set (m := Z.abs v). pose proof (pow10_range scale Hs) as Hp.
  destruct (pretty_digits (Z.to_N (m / 10 ^ scale))) as (Hne & Hd & Hval).
  assert (Hm : 0 <= m <= i128_max) by lia. rewrite Z2N.id in Hval by (apply Z.div_pos; lia).
  set (frac := if scale =? 0 then None else _).
  assert (Hf : all_digits (default EmptyString frac) = true /\ Z.of_nat (String.length (default EmptyString frac)) = scale /\
    digits_of 0 (default EmptyString frac) = m mod 10 ^ scale).
  { subst frac. destruct (Z.eqb_spec scale 0) as [->|]; simpl; [split_and!; [done|done|]; by rewrite Z.mod_1_r|].
    destruct (last_digits_spec (Z.to_nat scale) (m mod 10 ^ scale) ltac:(apply Z.mod_pos_bound; lia)) as (H1 & H2 & H3).
    rewrite Z2Nat.id in H3 by lia. split_and!; [done|lia|]. rewrite H3. apply Z.mod_small, Z.mod_pos_bound. lia. }
  destruct Hf as (Hfd & Hfl & Hfv).
  pose proof (parse_decimal_text (v <? 0) (pretty (Z.to_N (m / 10 ^ scale))) frac scale Hne Hd Hfd Hs ltac:(lia)) as He.
  simpl in He. rewrite Hfl, Hfv, Hval, Z.sub_diag, Z.pow_0_r, Z.mul_1_r in He.
  replace (m / 10 ^ scale * 10 ^ scale + m mod 10 ^ scale) with m in He by (pose proof (Z.div_mod m (10 ^ scale) ltac:(lia)); lia).
  destruct (Z.leb_spec m i128_max); [|lia]. rewrite He. f_equal. unfold signed. destruct (Z.ltb_spec v 0); lia.
Qed.

Lemma parse_decimal_exact_witness :
  "123" <> EmptyString /\ parse_decimal_to_i128 "-123.45" 4 = Ok (-1234500).
Proof.
  split; [discriminate|].
  exact (parse_decimal_exact true "123" (Some "45") 4 ltac:(discriminate) eq_refl eq_refl ltac:(lia) ltac:(vm_compute; discriminate)).
Defined.

Lemma decimal_roundtrip_witness :
  decimal_text (-1234505) 4 = "-123.4505" /\ parse_decimal_to_i128 (decimal_text (-1234505) 4) 4 = Ok (-1234505).
Proof. split; [vm_compute; reflexivity|]. apply decimal_roundtrip; [lia|]. split; vm_compute; discriminate. Defined.

(** A second sign is taken for that of the integer part, so the fraction counts
    the other way. *)
Theorem double_sign_accepted :
  parse_decimal_to_i128 "--5.25" 2 = Ok 475 /\ parse_decimal_to_i128 "." 2 = Ok 0.
Proof. split; vm_compute; reflexivity. Qed.
