(* ===== verification/Loader.v ===== *)
(** * Loading from the sources (loader/mod.rs, loader/types.rs, loader/starrocks)

    A load selects an adapter by its catalog, runs a SELECT on the source and
    hands the stream of batches to the storage engine.  The JDBC adapter builds
    the batches from rows, the ADBC adapter passes on those of the Flight
    endpoints; both run the query in a task of its own that feeds the stream
    through a channel.  The answers of the source are arguments; the rows of
    the MySQL driver and the array builders are interfaces. *)

From stdpp Require Import pretty.
From S2P Require Import Prelude Arrow DuckDb Decimal EpochEngine ControlPlane.

#[local] Open Scope Z_scope.

(** ** Errors *)

Inductive SourceError :=
| UnsupportedCatalog (catalog : string)
| InvalidRequest (catalog reason : string)
| SrcConfig (catalog reason : string)
| SrcNetwork (catalog source : string)
| SrcTimeout (catalog : string) (duration : Z)
| EngineUnavailable (catalog reason : string)
| SrcQuery (catalog message : string)
| SrcProtocol (catalog message : string)
| SrcInternal (catalog source : string).

Definition SourceError_display (duration_debug : Z -> string) (e : SourceError) : string :=
  match e with
  | UnsupportedCatalog catalog => "unsupported catalog `" +:+ catalog +:+ "`"
  | InvalidRequest catalog reason => "invalid request for `" +:+ catalog +:+ "`: " +:+ reason
  | SrcConfig catalog reason => "configuration error for `" +:+ catalog +:+ "`: " +:+ reason
  | SrcNetwork catalog source => "network error for `" +:+ catalog +:+ "`: " +:+ source
  | SrcTimeout catalog duration => "timeout talking to `" +:+ catalog +:+ "` after " +:+ duration_debug duration
  | EngineUnavailable catalog reason => "engine `" +:+ catalog +:+ "` unavailable: " +:+ reason
  | SrcQuery catalog message => "query error on `" +:+ catalog +:+ "`: " +:+ message
  | SrcProtocol catalog message => "protocol error on `" +:+ catalog +:+ "`: " +:+ message
  | SrcInternal catalog source => "internal adapter error on `" +:+ catalog +:+ "`: " +:+ source
  end.

Definition is_transient (e : SourceError) : bool :=
  match e with SrcNetwork _ _ | SrcTimeout _ _ | EngineUnavailable _ _ => true | _ => false end.

(** ** The query *)

Definition backquoted (s : string) : string := "`" +:+ s +:+ "`".

Definition full_table_name (source : DataSource) : string :=
  match ds_catalog source with
  | CatStarRocks catalog _ _ _ _ _ _ _ => catalog +:+ "." +:+ backquoted (ds_database source) +:+ "." +:+ backquoted (ds_table source)
  | _ => backquoted (ds_database source) +:+ "." +:+ backquoted (ds_table source)
  end.

Definition select_text (source : DataSource) (columns : list Field) : string :=
  "SELECT " +:+ String.concat ", " (map (fun f => backquoted (f_name f)) columns) +:+ " FROM " +:+ full_table_name source +:+
    match ds_filter source with Some filter => " WHERE " +:+ filter | None => EmptyString end.

(** ** The options of the JDBC pool *)

Definition DEFAULT_MAX_CONNECTIONS : Z := 16.
Definition DEFAULT_MIN_CONNECTIONS : Z := 4.
Definition DEFAULT_BATCH_SIZE : Z := 8192.

(** Durations in milliseconds. *)
Record StarRocksJdbcOptions := mkJdbcOptions {
  jo_max_connections : Z; jo_min_connections : Z; jo_acquire_timeout : Z; jo_connect_timeout : Z;
  jo_idle_timeout : Z; jo_max_lifetime : Z; jo_batch_size : Z;
}.

Definition clamp (lo hi z : Z) : Z := Z.max lo (Z.min hi z).

Definition options_from_catalog (catalog : Catalog) : StarRocksJdbcOptions :=
  let pool_opts := match catalog with
                   | CatStarRocks _ _ _ _ _ _ _ pool_options => pool_options
                   | CatJdbc _ _ pool_options => pool_options
                   | CatIceberg _ => None
                   end in
  let option_of (f : ConnectionPoolOptions -> option Z) := pool_opts ≫= f in
  let max_conn := clamp 1 100 (default DEFAULT_MAX_CONNECTIONS (option_of cp_max_connections)) in
  mkJdbcOptions max_conn
    (Z.min (default DEFAULT_MIN_CONNECTIONS (option_of cp_min_connections)) max_conn)
    (default 30000 (option_of cp_acquire_timeout_ms)) (default 10000 (option_of cp_connect_timeout_ms))
    (default 300000 (option_of cp_idle_timeout_ms)) (default 3600000 (option_of cp_max_lifetime_ms))
    (clamp 1 100000 (default DEFAULT_BATCH_SIZE (option_of cp_batch_size))).

(** ** Rows and batches *)

(** [MySqlRow::try_get]: a column of a row at a type; a date as days and a time
    as microseconds since 1970, a float as its bits. *)
Class SqlRow (R : Type) := {
  get_bool : R -> nat -> result (option bool) string;
  get_i32 : R -> nat -> result (option Z) string;
  get_i64 : R -> nat -> result (option Z) string;
  get_f64 : R -> nat -> result (option Z) string;
  get_string : R -> nat -> result (option string) string;
  get_date : R -> nat -> result (option Z) string;
  get_timestamp : R -> nat -> result (option Z) string;
}.

(** An array under construction: the type of the finished array. *)
Record Builder := mkBuilder { b_type : DataType; b_cells : list (option Value) }.

(** [Decimal128Builder::with_precision_and_scale] and [RecordBatch::try_new]. *)
Class BatchBuilders (RecordBatch Schema : Type) := {
  decimal_ok : Z -> Z -> bool;
  try_new : Schema -> list (DataType * list (option Value)) -> result RecordBatch string;
}.

(** The row with a cell per column. *)
Definition row_of (columns : list (list (option Value))) (i : nat) : Row := map (fun c => default None (c !! i)) columns.

(** A cell of a column: of its type, and no null where the column has none. *)
Definition cell_fits (f : Field) (c : option Value) : Prop :=
  cell_typed (f_type f) c = true /\ (f_nullable f = true \/ c <> None).

(** What the crate documents of [try_new]: the arrays must have the types of the
    schema, one length, and no nulls where the schema has none. *)
Class BatchBuildersLaws (RecordBatch Schema : Type) `{Arrow RecordBatch Schema} `{!SchemaFields Schema}
    `{!BatchBuilders RecordBatch Schema} := {
  try_new_ok : forall s columns n, columns <> [] ->
    map fst columns = map f_type (schema_fields s) -> Forall (fun c => length c.2 = n) columns ->
    Forall2 (fun f c => Forall (cell_fits f) c.2) (schema_fields s) columns ->
    exists b, try_new s columns = Ok b /\ schema b = s /\ rows b = map (row_of (map snd columns)) (seq 0 n);
  try_new_types : forall s columns, map fst columns <> map f_type (schema_fields s) -> exists e, try_new s columns = Err e;
}.

Section jdbc.
Context `{Std} `{Arrow RecordBatch Schema} `{!SchemaFields Schema} `{!BatchBuilders RecordBatch Schema} `{SqlRow R}.

Definition create_builder (f : Field) : option Builder :=
  match f_type f with
  | Boolean => Some (mkBuilder Boolean [])
  | Int32 => Some (mkBuilder Int32 [])
  | Int64 => Some (mkBuilder Int64 [])
  | Float64 => Some (mkBuilder Float64 [])
  | Utf8 => Some (mkBuilder Utf8 [])
  | Date32 => Some (mkBuilder Date32 [])
  | Timestamp _ _ => Some (mkBuilder (Timestamp Microsecond None) [])
  | Decimal128 precision scale => if decimal_ok precision scale then Some (mkBuilder (Decimal128 precision scale) []) else None
  | _ => None
  end.

Definition create_batch_builders (s : Schema) : outcome (list Builder) := of_option (mapM create_builder (schema_fields s)).

(** [days as i32]. *)
Definition wrap_i32 (z : Z) : Z := (z + 2 ^ 31) mod 2 ^ 32 - 2 ^ 31.

(** The cell of a column. *)
Definition read_cell (row : R) (idx : nat) (f : Field) (catalog : string) : result (option Value) SourceError :=
  let get {A} (what : string) (r : result (option A) string) (cell : A -> Value) :=
    match r with
    | Ok v => Ok (cell <$> v)
    | Err e => Err (SrcProtocol catalog ("failed to get " +:+ what +:+ " at index " +:+ pretty idx +:+ ": " +:+ e))
    end in
  match f_type f with
  | Boolean => get "bool" (get_bool row idx) VBool
  | Int32 => get "i32" (get_i32 row idx) VInt
  | Int64 => get "i64" (get_i64 row idx) VInt
  | Float64 => get "f64" (get_f64 row idx) VFloat
  | Utf8 => get "string" (get_string row idx) VStr
  | Date32 => get "date" (get_date row idx) (fun days => VInt (wrap_i32 days))
  | Timestamp _ _ => get "timestamp" (get_timestamp row idx) VInt
  | Decimal128 _ scale =>
      match get_string row idx with
      | Err e => Err (SrcProtocol catalog ("failed to get decimal at index " +:+ pretty idx +:+ ": " +:+ e))
      | Ok None => Ok None
      | Ok (Some v) =>
          match parse_decimal_to_i128 v scale with
          | Ok z => Ok (Some (VInt z))
          | Err e => Err (SrcProtocol catalog ("failed to parse decimal '" +:+ v +:+ "': " +:+ e))
          end
      end
  | dt => Err (SrcProtocol catalog ("unsupported data type: " +:+ DataType_debug dt))
  end.

Definition add_row_to_builder (b : Builder) (row : R) (idx : nat) (f : Field) (catalog : string) : result Builder SourceError :=
  let? c := read_cell row idx f catalog in Ok (mkBuilder (b_type b) (b_cells b ++ [c])).

(** The row goes to the builders one column after the other. *)
Fixpoint add_row (builders : list Builder) (row : R) (idx : nat) (fs : list Field) (catalog : string)
    : result (list Builder) SourceError :=
  match fs, builders with
  | f :: fs, b :: builders =>
      let? b := add_row_to_builder b row idx f catalog in
      let? builders := add_row builders row (S idx) fs catalog in
      Ok (b :: builders)
  | _, _ => Ok builders
  end.

Definition finalize_batch (builders : list Builder) (s : Schema) (catalog : string) : result RecordBatch SourceError :=
  match try_new s (map (fun b => (b_type b, b_cells b)) builders) with
  | Ok b => Ok b
  | Err e => Err (SrcInternal catalog e)
  end.

(** ** Running a query *)

(** The reader of the channel may be gone from some message on. *)
Definition reader_gone (closes : option nat) (sent : list RecordBatch) : bool :=
  match closes with Some n => (n <=? length sent)%nat | None => false end.

Section run.
Context (s : Schema) (catalog : string) (batch_size : Z) (closes : option nat).

(** The loop over the rows, with what was sent before. *)
Fixpoint run_rows (source : list (result R string)) (builders : list Builder) (row_count : Z) (sent : list RecordBatch)
    : outcome (list RecordBatch * result unit SourceError) :=
  match source with
  | [] =>
      if 0 <? row_count then
        match finalize_batch builders s catalog with
        | Err e => Ret (sent, Err e)
        | Ok batch => Ret (if reader_gone closes sent then sent else sent ++ [batch], Ok tt)
        end
      else Ret (sent, Ok tt)
  | Err e :: _ => Ret (sent, Err (SrcQuery catalog ("failed to fetch row: " +:+ e)))
  | Ok row :: source =>
      match add_row builders row 0 (schema_fields s) catalog with
      | Err e => Ret (sent, Err e)
      | Ok builders =>
          if batch_size <=? row_count + 1 then
            match finalize_batch builders s catalog with
            | Err e => Ret (sent, Err e)
            | Ok batch =>
                if reader_gone closes sent then Ret (sent, Ok tt)
                else let! builders := create_batch_builders s in run_rows source builders 0 (sent ++ [batch])
            end
          else run_rows source builders (row_count + 1) sent
      end
  end.

Definition run_query_async (source : list (result R string)) : outcome (list RecordBatch * result unit SourceError) :=
  let! builders := create_batch_builders s in run_rows source builders 0 [].
End run.

(** [query]: the error of the task, and its panic, are logged; the stream is
    what was sent. *)
Definition jdbc_query (s : Schema) (catalog : string) (batch_size : Z) (is_closing : bool) (closes : option nat)
    (source : list (result R string)) : result (list (result RecordBatch string)) StorageError :=
  if is_closing then Err (Backend "starrocks-jdbc" "client is shutting down")
  else Ok match run_query_async s catalog batch_size closes source with
          | Ret (sent, _) => map Ok sent
          | _ => []
          end.

(** ** The ADBC source *)

(** The endpoints of the answer, each with the batches of its ticket, if it has
    one, or an earlier failure. *)
Inductive AdbcAnswer :=
| AdbcBadUri (e : string)
| AdbcConnectFailed (e : string)
| AdbcExecuteFailed (e : string)
| AdbcEndpoints (l : list (option (result (list (result RecordBatch string)) string))).

(** The batches of an endpoint, sent as they come. *)
Fixpoint send_endpoint (catalog : string) (closes : option nat) (stream : list (result RecordBatch string)) (sent : list RecordBatch)
    : list RecordBatch * result unit SourceError :=
  match stream with
  | [] => (sent, Ok tt)
  | Err e :: _ => (sent, Err (SrcProtocol catalog ("error reading result stream: " +:+ e)))
  | Ok b :: stream =>
      if reader_gone closes sent then (sent, Err (SrcInternal catalog "result channel closed unexpectedly"))
      else send_endpoint catalog closes stream (sent ++ [b])
  end.

Fixpoint send_endpoints (catalog : string) (closes : option nat) (l : list (option (result (list (result RecordBatch string)) string)))
    (sent : list RecordBatch) : list RecordBatch * result unit SourceError :=
  match l with
  | [] => (sent, Ok tt)
  | None :: l => send_endpoints catalog closes l sent
  | Some (Err e) :: _ => (sent, Err (SrcProtocol catalog ("failed to fetch results: " +:+ e)))
  | Some (Ok stream) :: l =>
      match send_endpoint catalog closes stream sent with
      | (sent, Err e) => (sent, Err e)
      | (sent, Ok _) => send_endpoints catalog closes l sent
      end
  end.

Definition run_query_blocking (catalog host : string) (port : Z) (closes : option nat) (a : AdbcAnswer)
    : list RecordBatch * result unit SourceError :=
  match a with
  | AdbcBadUri e => ([], Err (SrcConfig catalog ("invalid URI 'http://" +:+ host +:+ ":" +:+ pretty port +:+ "': " +:+ e)))
  | AdbcConnectFailed e => ([], Err (SrcNetwork catalog e))
  | AdbcExecuteFailed e => ([], Err (SrcQuery catalog ("failed to execute query: " +:+ e)))
  | AdbcEndpoints l => send_endpoints catalog closes l []
  end.

Definition DEFAULT_MAX_CONCURRENCY : Z := 16.

Record StarRocksAdbcClient := mkAdbcClient {
  ac_catalog_name : string; ac_host : string; ac_port : Z; ac_database : string; ac_user : string; ac_password : string;
  ac_max_concurrency : Z; ac_permits : Z }.

(** [runtime]: a Tokio runtime is there. *)
Definition adbc_from_catalog (runtime : bool) (catalog : Catalog) : result StarRocksAdbcClient SourceError :=
  match catalog with
  | CatStarRocks name host port database user password max_concurrency _ =>
      let concurrency := default DEFAULT_MAX_CONCURRENCY max_concurrency in
      if runtime then Ok (mkAdbcClient name host port database user password concurrency concurrency)
      else Err (SrcConfig name "no Tokio runtime available and none provided")
  | _ => Err (UnsupportedCatalog "adbc client only supports StarRocks catalog")
  end.

(** [query]: [None] waits for a permit; the error of the task is logged. *)
Definition adbc_query (c : StarRocksAdbcClient) (closes : option nat) (a : AdbcAnswer)
    : option (result (list (result RecordBatch string)) StorageError) :=
  if ac_permits c <=? 0 then None
  else Some (Ok (map Ok (run_query_blocking (ac_catalog_name c) (ac_host c) (ac_port c) closes a).1)).

(** ** The loader *)

(** How the pool of a JDBC client is built. *)
Inductive JdbcConnect := JdbcBadUri (e : string) | JdbcPoolFailed (e : string) | JdbcAcquireFailed (e : string) | JdbcReady.

Definition jdbc_from_catalog (catalog : Catalog) (connect : JdbcConnect) : result StarRocksJdbcOptions SourceError :=
  match catalog with
  | CatJdbc uri _ _ =>
      match connect with
      | JdbcBadUri e => Err (SrcConfig "jdbc" ("invalid MySQL URI '" +:+ uri +:+ "': " +:+ e))
      | JdbcPoolFailed e => Err (SrcConfig "jdbc" ("failed to create connection pool: " +:+ e))
      | JdbcAcquireFailed e => Err (SrcNetwork "jdbc" e)
      | JdbcReady => Ok (options_from_catalog catalog)
      end
  | _ => Err (UnsupportedCatalog "jdbc client only supports JDBC catalog")
  end.

Section loader.
Context (duration_debug : Z -> string) (debug_catalog : Catalog -> string).

Inductive StarRocksBackend := Adbc (c : StarRocksAdbcClient) | Jdbc (options : StarRocksJdbcOptions).

Definition backend_from_catalog (catalog : Catalog) (connect : JdbcConnect) : result StarRocksBackend string :=
  let shown {A} (r : result A SourceError) := match r with Ok a => Ok a | Err e => Err (SourceError_display duration_debug e) end in
  match catalog with
  | CatStarRocks _ _ _ _ _ _ _ _ => let? c := shown (adbc_from_catalog true catalog) in Ok (Adbc c)
  | CatJdbc _ _ _ => let? o := shown (jdbc_from_catalog catalog connect) in Ok (Jdbc o)
  | _ => Err (SourceError_display duration_debug (UnsupportedCatalog ("Unsupported catalog type: " +:+ debug_catalog catalog)))
  end.

Definition get_adapter (catalog : Catalog) (connect : JdbcConnect) : result StarRocksBackend string :=
  match catalog with
  | CatIceberg uri => Err ("Iceberg catalog '" +:+ uri +:+ "' is not yet supported; planned for a future release")
  | CatStarRocks _ _ _ _ _ _ _ _ | CatJdbc _ _ _ => backend_from_catalog catalog connect
  end.

(** What the source answers to a query; the reader of the stream is the load
    itself, which reads to the end. *)
Context (connect : JdbcConnect) (jdbc_rows : string -> list (result R string)) (adbc_answer : string -> AdbcAnswer).

Definition stream_data (backend : StarRocksBackend) (source : DataSource) (s : Schema)
    : option (result (list (result RecordBatch string)) string) :=
  let sql := select_text source (schema_fields s) in
  match backend with
  | Adbc c =>
      r ← adbc_query c None (adbc_answer sql);
      Some match r with
           | Ok stream => Ok stream
           | Err e => Err (StorageError_display (Backend "starrocks-adbc" (StorageError_display e)))
           end
  | Jdbc options =>
      Some match jdbc_query s "starrocks" (jo_batch_size options) false None (jdbc_rows sql) with
           | Ok stream => Ok stream
           | Err e => Err (StorageError_display (Backend "starrocks-jdbc" (StorageError_display e)))
           end
  end.

(** The commands a load sends to the engine, and its error; [None] when the
    query never starts. *)
Definition load_epoch (request : LoadRequest Schema) (done : Z) : option (list (EngineCom Schema RecordBatch) * option string) :=
  match get_adapter (ds_catalog (lr_source request)) connect with
  | Err e => Some ([], Some e)
  | Ok adapter =>
      r ← stream_data adapter (lr_source request) (lr_schema request);
      Some match r with
           | Err e => ([], Some e)
           | Ok stream => create_epoch_table (lr_dataset_id request) (lr_epoch_view request) stream done
           end
  end.
End loader.
End jdbc.

(** ** What a query streams *)

Section stream.
Context `{Std} `{Arrow RecordBatch Schema} `{!SchemaFields Schema} `{!BatchBuilders RecordBatch Schema}
  `{!BatchBuildersLaws RecordBatch Schema} `{SqlRow R}.

(** The cells of a row, or the error of the first one that cannot be read. *)
Fixpoint read_cells (row : R) (idx : nat) (fs : list Field) (catalog : string) : result Row SourceError :=
  match fs with
  | [] => Ok []
  | f :: fs => let? c := read_cell row idx f catalog in let? cs := read_cells row (S idx) fs catalog in Ok (c :: cs)
  end.

(** A schema whose columns get builders of their own types. *)
Definition loadable (s : Schema) : Prop :=
  schema_fields s <> [] /\ Forall (fun f => create_builder f = Some (mkBuilder (f_type f) [])) (schema_fields s).

(** A row that can be read, with cells that fit the columns. *)
Definition good_row (s : Schema) (catalog : string) (row : R) (cells : Row) : Prop :=
  read_cells row 0 (schema_fields s) catalog = Ok cells /\
  Forall2 cell_fits (schema_fields s) cells.

(** The builders with the cells of some rows. *)
Definition column (j : nat) (acc : list Row) : list (option Value) := map (fun r => default None (r !! j)) acc.
Definition filled (fs : list Field) (acc : list Row) : list Builder := imap (fun j f => mkBuilder (f_type f) (column j acc)) fs.

Lemma create_filled s : loadable s -> create_batch_builders s = Ret (filled (schema_fields s) []).
Proof.
  intros [_ Hs]. unfold create_batch_builders, filled.
  assert (E : mapM create_builder (schema_fields s) = Some (imap (fun j f => mkBuilder (f_type f) (column j [])) (schema_fields s))); [|by rewrite E].
  apply mapM_Some. apply Forall2_same_length_lookup. split; [by rewrite length_imap|].
  intros i f b Hf Hb. rewrite list_lookup_imap, Hf in Hb. injection Hb as <-. by apply (Forall_lookup_1 _ _ i f Hs).
Qed.

Lemma add_row_read row : forall fs idx builders catalog, length builders = length fs ->
  add_row builders row idx fs catalog =
    match read_cells row idx fs catalog with
    | Ok cs => Ok (zip_with (fun b c => mkBuilder (b_type b) (b_cells b ++ [c])) builders cs)
    | Err e => Err e
    end.
Proof.
  induction fs as [|f fs IH]; intros idx [|b builders] catalog Hl; simpl in *; try lia; [done|].
  unfold add_row_to_builder. destruct (read_cell row idx f catalog) as [c|e]; simpl; [|done].
  rewrite IH by lia. by destruct (read_cells row (S idx) fs catalog).
Qed.

Lemma fill_row fs acc cs : length cs = length fs ->
  zip_with (fun b c => mkBuilder (b_type b) (b_cells b ++ [c])) (filled fs acc) cs = filled fs (acc ++ [cs]).
Proof.
  intros Hl. apply list_eq. intros i. unfold filled. rewrite lookup_zip_with, !list_lookup_imap.
  destruct (fs !! i) as [f|] eqn:Hf; simpl; [|done].
  assert (Hi : is_Some (cs !! i)) by (apply lookup_lt_is_Some; apply lookup_lt_Some in Hf; lia).
  destruct Hi as [c Hc]. rewrite Hc. simpl. unfold column. rewrite map_app. simpl. by rewrite Hc.
Qed.

(** Finished builders give a batch of the rows. *)
Lemma finalize_filled s catalog acc : loadable s -> Forall (fun cs => Forall2 cell_fits (schema_fields s) cs) acc ->
  exists b, finalize_batch (filled (schema_fields s) acc) s catalog = Ok b /\ schema b = s /\ rows b = acc.
Proof.
  intros [Hne _] Hacc. unfold finalize_batch. set (fs := schema_fields s) in *.
  set (columns := map (fun b => (b_type b, b_cells b)) (filled fs acc)).
  assert (Hcol : forall i, columns !! i = (fun f => (f_type f, column i acc)) <$> fs !! i).
  { intros i. subst columns. unfold filled. rewrite list_lookup_fmap, list_lookup_imap. by destruct (fs !! i). }
  assert (Hlen : length columns = length fs) by (subst columns; unfold filled; by rewrite length_map, length_imap).
  destruct (try_new_ok s columns (length acc)) as (b & -> & Hsb & Hrows).
  - intros E. destruct columns; [|done]. by destruct fs.
  - fold fs. apply list_eq. intros i. rewrite !list_lookup_fmap, Hcol. by destruct (fs !! i).
  - apply Forall_lookup. intros i c Hc. rewrite Hcol in Hc. destruct (fs !! i); [|done]. injection Hc as <-. simpl. unfold column. by rewrite length_map.
  - apply Forall2_same_length_lookup. split; [done|]. intros i f c Hf Hc. fold fs in Hf. rewrite Hcol, Hf in Hc. injection Hc as <-. simpl.
    apply Forall_forall. unfold column. intros v (cs & -> & Hcs)%list_elem_of_fmap.
    pose proof (proj1 (Forall_forall _ _) Hacc cs Hcs) as Hrow.
    destruct (Forall2_lookup_l _ _ _ i f Hrow Hf) as (c & -> & Hfit). done.
  - exists b. split; [done|]. split; [done|]. rewrite Hrows. apply list_eq. intros k.
    rewrite list_lookup_fmap. destruct (decide (k < length acc)%nat) as [Hk|Hk].
    + rewrite lookup_seq_lt by done. simpl. destruct (lookup_lt_is_Some_2 acc k Hk) as [cs Hcs]. rewrite Hcs. f_equal.
      pose proof (Forall_lookup_1 _ _ _ _ Hacc Hcs) as Hrow. pose proof (Forall2_length _ _ _ Hrow) as Hl.
      apply list_eq. intros i. unfold row_of. rewrite !list_lookup_fmap, Hcol. destruct (fs !! i) as [f|] eqn:Hf; simpl.
      * unfold column. rewrite list_lookup_fmap, Hcs. simpl.
        destruct (cs !! i) as [c|] eqn:Hc; [done|]. apply lookup_ge_None in Hc. apply lookup_lt_Some in Hf. fold fs in Hl. lia.
      * symmetry. apply lookup_ge_None. apply lookup_ge_None in Hf. fold fs in Hl. lia.
    + rewrite lookup_seq_ge by lia. simpl. symmetry. apply lookup_ge_None. lia.
Qed.

(** Rows that can be read become full batches and a rest that waits. *)
Lemma run_good_rows s catalog n rs cells : loadable s -> (0 < n)%nat -> Forall2 (good_row s catalog) rs cells ->
  forall acc sent, (length acc < n)%nat ->
  Forall (fun cs => Forall2 cell_fits (schema_fields s) cs) acc ->
  exists more acc',
    (forall rest, run_rows s catalog (Z.of_nat n) None (map Ok rs ++ rest) (filled (schema_fields s) acc) (Z.of_nat (length acc)) sent =
       run_rows s catalog (Z.of_nat n) None rest (filled (schema_fields s) acc') (Z.of_nat (length acc')) (sent ++ more)) /\
    acc ++ cells = concat (map rows more) ++ acc' /\ (length acc' < n)%nat /\
    Forall (fun b => schema b = s /\ num_rows b = n) more /\
    Forall (fun cs => Forall2 cell_fits (schema_fields s) cs) acc'.
Proof.
  intros Hs Hn. induction 1 as [|r cs rs cells [Hread Hnn] _ IH]; intros acc sent Hlen Hacc.
  { exists [], acc. rewrite !app_nil_r. by split_and!. }
  pose proof (Forall2_length _ _ _ Hnn) as Hl.
  assert (Hstep : forall rest, run_rows s catalog (Z.of_nat n) None (Ok r :: map Ok rs ++ rest) (filled (schema_fields s) acc) (Z.of_nat (length acc)) sent =
    if Z.of_nat n <=? Z.of_nat (length acc) + 1 then
      match finalize_batch (filled (schema_fields s) (acc ++ [cs])) s catalog with
      | Err e => Ret (sent, Err e)
      | Ok batch => let! builders := create_batch_builders s in
                    run_rows s catalog (Z.of_nat n) None (map Ok rs ++ rest) builders 0 (sent ++ [batch])
      end
    else run_rows s catalog (Z.of_nat n) None (map Ok rs ++ rest) (filled (schema_fields s) (acc ++ [cs])) (Z.of_nat (length acc) + 1) sent).
  { intros rest. simpl. rewrite add_row_read by (unfold filled; by rewrite length_imap). by rewrite Hread, fill_row. }
  assert (Hacc' : Forall (fun cs => Forall2 cell_fits (schema_fields s) cs) (acc ++ [cs])).
  { apply Forall_app. split; [done|]. by constructor. }
  destruct (Z.leb_spec (Z.of_nat n) (Z.of_nat (length acc) + 1)) as [Hfull|Hroom].
  - destruct (finalize_filled s catalog (acc ++ [cs]) Hs Hacc') as (b & Eb & Hb & Hrows).
    destruct (IH [] (sent ++ [b]) Hn (List.Forall_nil _)) as (more & acc' & Hrun & Hcells & Hl' & Hmore & Ha').
    exists (b :: more), acc'. split.
    + intros rest. simpl map. simpl app. rewrite Hstep, Eb, create_filled by done. simpl.
      specialize (Hrun rest). change (Z.of_nat (length [])) with 0 in Hrun. rewrite Hrun. by rewrite <- app_assoc.
    + split; [|split; [done|split; [|done]]].
      * simpl. rewrite Hrows, <- app_assoc. simpl in Hcells. rewrite <- app_assoc. simpl. by rewrite Hcells.
      * constructor; [|done]. split; [done|]. unfold num_rows. rewrite Hrows, length_app. simpl. lia.
  - destruct (IH (acc ++ [cs]) sent) as (more & acc' & Hrun & Hcells & Hl' & Hmore & Ha'); [rewrite length_app; simpl; lia|done|].
    exists more, acc'. split; [|split; [by rewrite <- app_assoc in Hcells|done]].
    intros rest. simpl map. simpl app. rewrite Hstep. specialize (Hrun rest). rewrite length_app in Hrun. simpl in Hrun.
    rewrite Nat2Z.inj_add in Hrun. exact Hrun.
Qed.

Lemma run_query_good s catalog n rs cells : loadable s -> (0 < n)%nat -> Forall2 (good_row s catalog) rs cells ->
  exists more acc,
    (forall rest, run_query_async s catalog (Z.of_nat n) None (map Ok rs ++ rest) =
       run_rows s catalog (Z.of_nat n) None rest (filled (schema_fields s) acc) (Z.of_nat (length acc)) more) /\
    cells = concat (map rows more) ++ acc /\ (length acc < n)%nat /\
    Forall (fun b => schema b = s /\ num_rows b = n) more /\
    Forall (fun cs => Forall2 cell_fits (schema_fields s) cs) acc.
Proof.
  intros Hs Hn Hg. destruct (run_good_rows s catalog n rs cells Hs Hn Hg [] [] Hn (List.Forall_nil _)) as (more & acc & Hrun & Hrest).
  exists more, acc. split; [|done]. intros rest. unfold run_query_async. rewrite create_filled by done. simpl. apply Hrun.
Qed.

(** A JDBC query whose rows can all be read streams batches of the
    schema with exactly these rows in their order, every batch but the last one
    full, and no error. *)
Lemma jdbc_stream_exact s catalog n rs cells : loadable s -> (0 < n)%nat -> Forall2 (good_row s catalog) rs cells ->
  exists full last, jdbc_query s catalog (Z.of_nat n) false None (map Ok rs) = Ok (map Ok (full ++ option_list last)) /\
    concat (map rows (full ++ option_list last)) = cells /\
    Forall (fun b => schema b = s) (full ++ option_list last) /\ Forall (fun b => num_rows b = n) full /\
    (forall b, last = Some b -> (0 < num_rows b < n)%nat).
Proof.
  intros Hs Hn Hg. destruct (run_query_good s catalog n rs cells Hs Hn Hg) as (full & acc & Hrun & Hcells & Hlen & Hfull & Hacc).
  specialize (Hrun []). rewrite app_nil_r in Hrun. unfold jdbc_query. rewrite Hrun. simpl. exists full.
  assert (Hsch : Forall (fun b => schema b = s) full) by (eapply Forall_impl; [exact Hfull|by intros b []]).
  assert (Hnum : Forall (fun b => num_rows b = n) full) by (eapply Forall_impl; [exact Hfull|by intros b []]).
  destruct (Z.ltb_spec 0 (Z.of_nat (length acc))) as [Hpos|Hz].
  - destruct (finalize_filled s catalog acc Hs Hacc) as (b & -> & Hb & Hrows). exists (Some b). simpl. split; [done|].
    split; [by rewrite map_app, concat_app, Hcells; simpl; rewrite Hrows, app_nil_r|].
    split; [by apply Forall_app; split; [|constructor]|]. split; [done|]. intros b' [= <-]. unfold num_rows. rewrite Hrows. lia.
  - exists None. simpl. rewrite app_nil_r. split; [done|]. destruct acc; [|simpl in Hz; lia].
    split; [by rewrite Hcells, app_nil_r|]. by split_and!.
Qed.

(** A row that cannot be fetched or read. *)
Definition failing_row (s : Schema) (catalog : string) (r : result R string) : Prop :=
  match r with Err _ => True | Ok row => exists e, read_cells row 0 (schema_fields s) catalog = Err e end.

Lemma run_rows_failing s catalog n acc r rest sent : failing_row s catalog r ->
  exists e, run_rows s catalog n None (r :: rest) (filled (schema_fields s) acc) (Z.of_nat (length acc)) sent = Ret (sent, Err e).
Proof.
  destruct r as [row|e]; simpl; [|by eexists]. intros [e He]. rewrite add_row_read by (unfold filled; by rewrite length_imap).
  rewrite He. by eexists.
Qed.

(** When a row in the middle cannot be fetched or read, the stream
    ends without an error, as if the source had ended at the last full batch
    before that row. *)
Lemma jdbc_failure_truncates s catalog n rs cells r rest :
  loadable s -> (0 < n)%nat -> Forall2 (good_row s catalog) rs cells -> failing_row s catalog r ->
  jdbc_query s catalog (Z.of_nat n) false None (map Ok rs ++ r :: rest) =
  jdbc_query s catalog (Z.of_nat n) false None (map Ok (take (length rs / n * n) rs)).
Proof.
  intros Hs Hn Hg Hr. set (m := (length rs / n * n)%nat).
  pose proof (Nat.div_mod (length rs) n ltac:(lia)) as Hdiv. pose proof (Nat.mod_upper_bound (length rs) n ltac:(lia)) as Hmod.
  assert (Hm : (m <= length rs)%nat) by (unfold m; lia).
  assert (Hg' : Forall2 (good_row s catalog) (take m rs) (take m cells)) by by apply Forall2_take.
  destruct (run_query_good s catalog n _ _ Hs Hn Hg) as (more & acc & Hrun & Hcells & Hlen & Hmore & _).
  destruct (run_query_good s catalog n _ _ Hs Hn Hg') as (more' & acc' & Hrun' & Hcells' & Hlen' & Hmore' & Hacc').
  assert (Hcount : forall bs : list RecordBatch, Forall (fun b => schema b = s /\ num_rows b = n) bs -> length (concat (map rows bs)) = (length bs * n)%nat).
  { induction 1 as [|b bs [_ Hb] _ IH]; simpl; [done|]. rewrite length_app, IH. unfold num_rows in Hb. lia. }
  assert (Eacc' : acc' = []).
  { apply (f_equal length) in Hcells'. rewrite length_app, Hcount, length_take in Hcells' by done.
    rewrite <- (Forall2_length _ _ _ Hg), Nat.min_l in Hcells' by done.
    assert (length acc' = 0)%nat; [|by destruct acc']. unfold m in Hcells'. apply (f_equal (fun x => x mod n)%nat) in Hcells'.
    rewrite Nat.Div0.mod_mul, Nat.add_comm, Nat.Div0.mod_add, Nat.mod_small in Hcells' by done. done. }
  subst acc'.
  assert (Hsplit : map Ok rs ++ r :: rest = map Ok (take m rs) ++ map Ok (drop m rs) ++ r :: rest).
  { by rewrite app_assoc, <- map_app, take_drop. }
  assert (Hgd : Forall2 (good_row s catalog) (drop m rs) (drop m cells)) by by apply Forall2_drop.
  destruct (run_good_rows s catalog n _ _ Hs Hn Hgd [] more' Hn (List.Forall_nil _)) as (more2 & acc2 & Hrun2 & Hcells2 & _ & Hmore2 & _).
  assert (E2 : more2 = []).
  { apply (f_equal length) in Hcells2. rewrite !length_app, Hcount, length_drop in Hcells2 by done.
    rewrite <- (Forall2_length _ _ _ Hg) in Hcells2. assert (length more2 = 0)%nat; [|by destruct more2]. unfold m in Hcells2. simpl in Hcells2.
    destruct (length more2) as [|k]; [done|]. simpl in Hcells2. lia. }
  subst more2. unfold jdbc_query. f_equal. rewrite Hsplit, Hrun'. rewrite app_nil_r in Hrun2. simpl in Hrun2. simpl length. rewrite Hrun2.
  destruct (run_rows_failing s catalog (Z.of_nat n) acc2 r rest more' Hr) as [e He]. rewrite He.
  rewrite <- (app_nil_r (map Ok (take m rs))), Hrun'. done.
Qed.
End stream.

(** ** The options *)

Lemma batch_size_positive catalog : 1 <= jo_batch_size (options_from_catalog catalog).
Proof. simpl. unfold clamp. lia. Qed.

(** Whatever a catalog asks for, the pool has between one and a hundred
    connections, keeps at most as many open as it may have, and a batch has
    between one and a hundred thousand rows. *)
Theorem options_clamped catalog :
  let o := options_from_catalog catalog in
  1 <= jo_max_connections o <= 100 /\ jo_min_connections o <= jo_max_connections o /\ 1 <= jo_batch_size o <= 100000.
Proof. simpl. unfold clamp. lia. Qed.

(** ** A load *)

Section loads.
Context `{Std} `{Arrow RecordBatch Schema} `{!SchemaFields Schema} `{!BatchBuilders RecordBatch Schema}
  `{!BatchBuildersLaws RecordBatch Schema} `{SqlRow R}.
Context (duration_debug : Z -> string) (debug_catalog : Catalog -> string) (adbc_answer : string -> AdbcAnswer (RecordBatch := RecordBatch)).
Context (request : LoadRequest Schema) (uri driver : string) (pool_options : option ConnectionPoolOptions).
Context (Hcat : ds_catalog (lr_source request) = CatJdbc uri driver pool_options) (Hschema : loadable (lr_schema request)).

Abbreviation batch_size := (Z.to_nat (jo_batch_size (options_from_catalog (CatJdbc uri driver pool_options)))).
Abbreviation load_from source done :=
  (load_epoch duration_debug debug_catalog JdbcReady (fun _ => source) adbc_answer request done).

Lemma batch_size_pos : (0 < batch_size)%nat.
Proof using Type. pose proof (batch_size_positive (CatJdbc uri driver pool_options)). lia. Qed.

Lemma load_jdbc source done : load_from source done =
  match jdbc_query (lr_schema request) "starrocks" (Z.of_nat batch_size) false None source with
  | Ok stream => Some (create_epoch_table (lr_dataset_id request) (lr_epoch_view request) stream done)
  | Err e => Some ([], Some (StorageError_display (Backend "starrocks-jdbc" (StorageError_display e))))
  end.
Proof using Hcat.
  unfold load_epoch. rewrite Hcat. simpl get_adapter. cbv iota beta.
  unfold stream_data. rewrite Z2Nat.id by (pose proof (batch_size_positive (CatJdbc uri driver pool_options)); lia).
  destruct (jdbc_query _ _ _ _ _ _); reflexivity.
Qed.

(** Rows that can all be read are sent as a load that ends well. *)
Lemma load_good rs cells done : Forall2 (good_row (lr_schema request) "starrocks") rs cells -> rs <> [] ->
  exists b bs, load_from (map Ok rs) done =
      Some (create_epoch_table (lr_dataset_id request) (lr_epoch_view request) (map Ok (b :: bs)) done) /\
    rows_of (b :: bs) = cells /\ Forall (fun b => schema b = lr_schema request) (b :: bs).
Proof using All.
  intros Hg Hne. destruct (jdbc_stream_exact _ _ _ _ _ Hschema batch_size_pos Hg) as (full & last & Hq & Hrows & Hs & _).
  destruct (full ++ option_list last) as [|b bs] eqn:E.
  - simpl in Hrows. subst cells. destruct rs; [done|]. by apply Forall2_length in Hg.
  - exists b, bs. by rewrite load_jdbc, Hq.
Qed.


(** C16: A load whose query fails midway looks like a load that ends well: when
    a row cannot be fetched or read, the load sends what it would send if the
    source had ended at the last full batch before it, finish command included,
    and reports no error of its own unless no batch was full. *)
Theorem failed_load_looks_complete rs cells r rest done :
  Forall2 (good_row (lr_schema request) "starrocks") rs cells -> failing_row (lr_schema request) "starrocks" r ->
  let read := take (length rs / batch_size * batch_size) rs in
  load_from (map Ok rs ++ r :: rest) done = load_from (map Ok read) done /\
  ((batch_size <= length rs)%nat -> exists coms, load_from (map Ok rs ++ r :: rest) done = Some (coms, None)).
Proof using All.
  intros Hg Hr read. pose proof batch_size_pos as Hpos.
  assert (E : load_from (map Ok rs ++ r :: rest) done = load_from (map Ok read) done).
  { rewrite !load_jdbc. by rewrite (jdbc_failure_truncates _ _ _ rs cells r rest Hschema Hpos Hg Hr). }
  split; [done|]. intros Hle. rewrite E.
  destruct (load_good read (take (length rs / batch_size * batch_size) cells) done) as (b & bs & -> & _).
  - by apply Forall2_take.
  - subst read. assert (1 <= length rs / batch_size)%nat by (apply Nat.div_le_lower_bound; lia).
    assert (Hk : (0 < length rs / batch_size * batch_size)%nat) by (apply Nat.mul_pos_pos; lia).
    destruct (length rs / batch_size * batch_size)%nat; [lia|]. destruct rs; [change (batch_size <= 0)%nat in Hle; lia|done].
  - unfold create_epoch_table. simpl. rewrite take_batches_ok. by eexists.
Qed.
End loads.

(** ** Columns that cannot be loaded *)

Section columns.
Context `{Std} `{Arrow RecordBatch Schema} `{!SchemaFields Schema} `{!BatchBuilders RecordBatch Schema}
  `{!BatchBuildersLaws RecordBatch Schema} `{SqlRow R}.

Lemma add_row_types row : forall fs idx builders builders' catalog,
  add_row builders row idx fs catalog = Ok builders' -> map b_type builders' = map b_type builders.
Proof.
  induction fs as [|f fs IH]; intros idx [|b builders] builders' catalog E; simpl in E; try (by injection E as <-).
  unfold add_row_to_builder in E. destruct (read_cell row idx f catalog) as [c|e]; simpl in E; [|done].
  destruct (add_row builders row (S idx) fs catalog) as [bs|e] eqn:Ea; [|done]. injection E as <-. simpl. f_equal. by eapply IH.
Qed.

(** Builders of other types than the columns never give a batch. *)
Lemma run_rows_mistyped s catalog n closes source : forall builders count sent,
  map b_type builders <> map f_type (schema_fields s) ->
  exists r, run_rows s catalog n closes source builders count sent = Ret (sent, r).
Proof.
  assert (Hfin : forall builders, map b_type builders <> map f_type (schema_fields s) ->
    exists e, finalize_batch builders s catalog = Err e).
  { intros builders Hb. unfold finalize_batch.
    destruct (try_new_types s (map (fun b => (b_type b, b_cells b)) builders)) as [e ->]; [by rewrite map_map|by eexists]. }
  induction source as [|[row|e] source IH]; intros builders count sent Hb; simpl; [| |by eexists].
  - destruct (0 <? count); [|by eexists]. destruct (Hfin builders Hb) as [e ->]. by eexists.
  - destruct (add_row _ _ _ _ _) as [builders'|e] eqn:Ea; [|by eexists].
    assert (Hb' : map b_type builders' <> map f_type (schema_fields s)) by (by rewrite (add_row_types _ _ _ _ _ _ Ea)).
    destruct (n <=? count + 1); [|by apply IH]. destruct (Hfin builders' Hb') as [e ->]. by eexists.
Qed.

Lemma create_builders_types s builders : create_batch_builders s = Ret builders ->
  Forall2 (fun f b => create_builder f = Some b) (schema_fields s) builders.
Proof.
  unfold create_batch_builders. destruct (mapM create_builder (schema_fields s)) as [bs|] eqn:E; simpl; [|done].
  intros [= <-]. by apply mapM_Some.
Qed.

(** A column the builder of which has another type. *)
Definition misbuilt (f : Field) : Prop := forall b, create_builder f = Some b -> b_type b <> f_type f.

Lemma timestamp_misbuilt f unit tz : f_type f = Timestamp unit tz -> (unit, tz) <> (Microsecond, None) -> misbuilt f.
Proof. intros E Hn b. unfold create_builder. rewrite E. intros [= <-] [= <- <-]. done. Qed.

(** A table with a column the client has no builder of the right type for,
    a type outside its list or a timestamp that is not in microseconds without
    a time zone, cannot be loaded through JDBC: whatever the source holds, the
    query starts without an error and streams nothing. *)
Theorem misbuilt_column_streams_nothing s catalog batch_size closes source :
  Exists misbuilt (schema_fields s) -> jdbc_query s catalog batch_size false closes source = Ok [].
Proof.
  intros Hex. unfold jdbc_query, run_query_async.
  destruct (create_batch_builders s) as [builders| |] eqn:E; [|done..].
  apply create_builders_types in E. simpl.
  destruct (run_rows_mistyped s catalog batch_size closes source builders 0 []) as [r ->]; [|done].
  intros Et. apply Exists_exists in Hex as (f & [i Hi]%list_elem_of_lookup & Hf).
  destruct (Forall2_lookup_l _ _ _ _ _ E Hi) as (b & Hb & Hc). apply (Hf b Hc).
  apply (f_equal (fun l => l !! i)) in Et. rewrite !list_lookup_fmap, Hi, Hb in Et. by injection Et.
Qed.

(** The events of a Flight answer in their order. *)
Definition answer_events (l : list (option (result (list (result RecordBatch string)) string))) : list (result RecordBatch string) :=
  concat (map (fun e => match e with None => [] | Some (Err e) => [Err e] | Some (Ok stream) => stream end) l).

Lemma send_endpoint_take catalog stream : forall sent : list RecordBatch,
  (send_endpoint catalog None stream sent).1 = sent ++ (take_batches stream).1 /\
  ((take_batches stream).2 = None <-> (send_endpoint catalog None stream sent).2 = Ok tt).
Proof.
  induction stream as [|[b|e] stream IH]; intros sent; simpl; [by rewrite app_nil_r| |by rewrite app_nil_r].
  destruct (IH (sent ++ [b])) as [-> Hr]. destruct (take_batches stream). simpl in *. by rewrite <- app_assoc.
Qed.

Lemma take_batches_app (l1 l2 : list (result RecordBatch string)) :
  (take_batches (l1 ++ l2)).1 = (take_batches l1).1 ++ match (take_batches l1).2 with None => (take_batches l2).1 | Some _ => [] end.
Proof.
  induction l1 as [|[b|e] l1 IH]; simpl; [done| |done]. destruct (take_batches (l1 ++ l2)), (take_batches l1). simpl in *. by rewrite IH.
Qed.

Lemma send_endpoints_take catalog l : forall sent : list RecordBatch,
  (send_endpoints catalog None l sent).1 = sent ++ (take_batches (answer_events l)).1.
Proof.
  induction l as [|[[stream|e]|] l IH]; intros sent; simpl; [by rewrite app_nil_r| | |by apply IH].
  - unfold answer_events. simpl. rewrite take_batches_app.
    destruct (send_endpoint_take catalog stream sent) as [E1 E2].
    destruct (send_endpoint catalog None stream sent) as [sent' [[]|e]]; simpl in *; subst sent'.
    + destruct E2 as [_ ->]; [|done]. by rewrite IH, app_assoc.
    + destruct (take_batches stream).2; [by rewrite app_nil_r|]. destruct E2 as [E2 _]. discriminate (E2 eq_refl).
  - by rewrite app_nil_r.
Qed.

(** A query through Flight SQL streams the batches of the endpoints in the
    order of the answer up to the first failure, which the stream does not
    show; without a free permit it waits. *)
Theorem adbc_streams_prefix c (l : list (option (result (list (result RecordBatch string)) string))) :
  adbc_query c None (AdbcEndpoints l) =
    if ac_permits c <=? 0 then None else Some (Ok (map Ok (take_batches (answer_events l)).1)).
Proof. unfold adbc_query. simpl. by rewrite send_endpoints_take. Qed.

(** A catalog that asks for no concurrency at all makes a client on which every
    query waits for ever. *)
Theorem no_permits_never_start name host port database user password pool closes (a : AdbcAnswer (RecordBatch := RecordBatch)) :
  exists c, adbc_from_catalog true (CatStarRocks name host port database user password (Some 0) pool) = Ok c /\
    adbc_query c closes a = None.
Proof. eexists. split; reflexivity. Qed.
End columns.

(** ** Concrete loads *)

#[local] Existing Instance Table.arrow.
#[local] Existing Instance MemDb.duckdb.
#[local] Existing Instance MemDb.duckdb_laws.
#[local] Existing Instance MemDb.fields_of.
#[local] Existing Instance demo_std.

(** Rows of the driver whose cells are already values. *)
Module DemoRows.
Definition get {A} (f : Value -> option A) (row : Row) (i : nat) : result (option A) string :=
  match row !! i with
  | Some None => Ok None
  | Some (Some v) => match f v with Some a => Ok (Some a) | None => Err "mismatched types" end
  | None => Err "column index out of bounds"
  end.

Definition int (v : Value) : option Z := match v with VInt z => Some z | _ => None end.

#[export] Instance sql_row : SqlRow Row := {|
  get_bool := get (fun v => match v with VBool b => Some b | _ => None end);
  get_i32 := get int;
  get_i64 := get int;
  get_f64 := get (fun v => match v with VFloat z => Some z | _ => None end);
  get_string := get (fun v => match v with VStr s => Some s | _ => None end);
  get_date := get int;
  get_timestamp := get int;
|}.

(** The rows of some columns of one length. *)
Definition transpose (columns : list (DataType * list (option Value))) : list Row :=
  map (row_of (map snd columns)) (seq 0 (match columns with c :: _ => length c.2 | [] => 0%nat end)).

#[export] Instance builders : BatchBuilders Table.t (list (string * DataType)) := {|
  decimal_ok p s := (1 <=? p) && (p <=? 38) && (s <=? p);
  try_new s columns :=
    if bool_decide (map fst columns = map snd s) then Ok (Table.mk s (transpose columns))
    else Err "column types must match schema types";
|}.

Lemma Forall2_well_typed s r : Forall2 (fun f c => cell_typed f.2 c = true) s r -> Table.well_typed s r = true.
Proof.
  induction 1 as [|[x dt] c s r Hc _ IH]; [done|]. unfold Table.well_typed in *. rewrite andb_true_iff, bool_decide_eq_true in *.
  simpl in *. rewrite Hc. destruct IH as [-> ->]. done.
Qed.

#[export] Instance builders_laws : BatchBuildersLaws Table.t (list (string * DataType)).
Proof.
  split; simpl.
  - intros s columns n Hne Ht Hlen Hfit. rewrite map_map in Ht. simpl in Ht.
    rewrite bool_decide_eq_true_2 by (by rewrite Ht). eexists. split; [done|]. split; [done|].
    unfold Table.view, transpose. simpl.
    assert (En : match columns with c :: _ => length c.2 | [] => 0%nat end = n) by (destruct Hlen; [done|by subst]).
    rewrite En. apply Table.filter_all. apply Forall_forall. intros r (k & -> & Hk)%list_elem_of_fmap. apply list_elem_of_In, in_seq in Hk.
    apply Forall2_well_typed, Forall2_same_length_lookup.
    split; [unfold row_of; apply (f_equal length) in Ht; by rewrite !length_map in *|].
    intros i [x dt] v Hs Hv. unfold row_of in Hv. rewrite !list_lookup_fmap in Hv.
    destruct (columns !! i) as [[dt' c]|] eqn:Ec; [|done]. injection Hv as <-.
    assert (Hf : map (fun f => mkField f.1 f.2 true) s !! i = Some (mkField x dt true)) by (by rewrite list_lookup_fmap, Hs).
    destruct (Forall2_lookup_l _ _ _ _ _ Hfit Hf) as (c' & Hc' & Hall). rewrite Ec in Hc'. injection Hc' as <-. simpl in *.
    destruct (c !! k) as [v|] eqn:Ev; [|done]. simpl. by destruct (Forall_lookup_1 _ _ _ _ Hall Ev).
  - intros s columns Ht. rewrite bool_decide_eq_false_2; [by eexists|]. intros E. apply Ht. by rewrite E, map_map.
Qed.
End DemoRows.

#[local] Existing Instance DemoRows.sql_row.
#[local] Existing Instance DemoRows.builders.
#[local] Existing Instance DemoRows.builders_laws.

(** Batches of two rows. *)
Definition demo_pool : ConnectionPoolOptions := mkConnectionPoolOptions None None None None None None (Some 2).
Definition demo_request : LoadRequest (list (string * DataType)) :=
  mkLoadRequest "sales" (demo_view "e1" "sales_e1") (mkDataSource (CatJdbc "mysql://db" "" (Some demo_pool)) "shop" "orders" (Some "dt = 1") None)
    [("id", Int64)].
Definition demo_load (source : string -> list (result Row string)) : option (list DemoCom * option string) :=
  load_epoch (fun _ => EmptyString) (fun _ => EmptyString) JdbcReady source (fun _ => AdbcEndpoints []) demo_request 1.
Definition id_row (z : Z) : Row := [Some (VInt z)].

Example demo_sql : select_text (lr_source demo_request) [mkField "id" Int64 true; mkField "a`b" Utf8 true] =
  "SELECT `id`, `a`b` FROM `shop`.`orders` WHERE dt = 1".
Proof. reflexivity. Qed.

Lemma demo_loadable : loadable (lr_schema demo_request).
Proof. split; [done|]. by repeat constructor. Qed.

Lemma demo_good l : Forall2 (good_row (lr_schema demo_request) "starrocks") (map id_row l) (map id_row l).
Proof.
  induction l as [|z l IH]; simpl; constructor; [|done]. split; [done|]. constructor; [|done]. split; [done|by left].
Qed.


Lemma failed_load_looks_complete_witness :
  demo_load (fun _ => map Ok (map id_row [1; 2; 3]) ++ Err "connection reset" :: []) =
  demo_load (fun _ => map Ok (map id_row [1; 2])) /\
  exists coms, demo_load (fun _ => map Ok (map id_row [1; 2; 3]) ++ Err "connection reset" :: []) = Some (coms, None).
Proof.
  destruct (failed_load_looks_complete (fun _ => EmptyString) (fun _ => EmptyString) (fun _ => AdbcEndpoints []) demo_request
    "mysql://db" "" (Some demo_pool) eq_refl demo_loadable (map id_row [1; 2; 3]) (map id_row [1; 2; 3]) (Err "connection reset") [] 1)
    as [E Hn].
  - apply demo_good.
  - exact I.
  - split; [exact E|]. apply Hn. vm_compute. lia.
Defined.

(** The connection is lost after three of the rows: the load is answered with
    success and the epoch is committed with two. *)
Theorem lost_connection_commits_epoch :
  let coms := load "sales" "e1" "sales_e1" [Ok (id_batch [1; 2])] 1 in
  demo_load (fun _ => map Ok (map id_row [1; 2; 3]) ++ Err "connection reset" :: map Ok (map id_row [4; 5])) = Some (coms, None) /\
  conn (run_demo demo_engine coms) !! (false, "sales_e1") = Some (map id_row [1; 2]) /\
  exists m, answers (run_demo demo_engine coms) 1 = [Ok m] /\ tm_total_rows m = 2.
Proof.
  split; [vm_compute; reflexivity|]. split; [vm_compute; reflexivity|].
  eexists. split; [vm_compute; reflexivity|]. vm_compute. reflexivity.
Qed.

Lemma misbuilt_column_streams_nothing_witness :
  jdbc_query [("ts", Timestamp Millisecond None)] "starrocks" 8192 false None [Ok (id_row 1)] = Ok [].
Proof.
  apply misbuilt_column_streams_nothing. apply Exists_cons_hd.
  by apply (timestamp_misbuilt _ Millisecond None).
Defined.
