(* ===== verification/JdbcShutdown.v ===== *)
(** * Closing a JDBC client (loader/starrocks/jdbc_client.rs)

    Queries check the closing flag under the lock of the client, are counted
    after they released it, and are discounted when their task ends; a shutdown
    sets the flag, polls the count until it is zero or the deadline has passed,
    and reports the counts.  The queries and the shutdown are threads, and an
    event is the next atomic step of one of them. *)

From S2P Require Import Prelude.

#[local] Open Scope Z_scope.

(** ** The client *)

(** How far a query is: before the check, past it, counted, its task over, or
    refused. *)
Inductive QueryStage := QNew | QPassed | QCounted | QDone | QRefused.

Record ClientState := mkClientState { is_closing : bool; active_query_count : Z; queries : list QueryStage }.

Record PoolStats := mkPoolStats { ps_size : Z; ps_idle_connections : Z; ps_is_closing : bool }.

(** The pool reports its sizes itself. *)
Definition pool_stats (c : ClientState) (size num_idle : Z) : PoolStats := mkPoolStats size num_idle (is_closing c).

Definition usize_modulus : Z := 2 ^ 64.

(** The next step of query [i]. *)
Definition query_step (i : nat) (c : ClientState) : ClientState :=
  let move count stage := mkClientState (is_closing c) count (<[i := stage]> (queries c)) in
  match queries c !! i with
  | Some QNew => move (active_query_count c) (if is_closing c then QRefused else QPassed)
  | Some QPassed => move ((active_query_count c + 1) mod usize_modulus) QCounted
  | Some QCounted => move ((active_query_count c - 1) mod usize_modulus) QDone
  | _ => c
  end.

(** Times in milliseconds. *)
Record ShutdownStats := mkShutdownStats {
  completed_queries : Z; aborted_queries : Z; total_duration : Z; final_pool_size : Z; final_idle_connections : Z }.

Inductive ShutdownStage :=
| ShStart
| ShClosing
| ShPolling (initial_count : Z)
| ShLast (initial_count : Z)
| ShFinished (stats : ShutdownStats).

(** The time of the call and its timeout. *)
Section shutdown.
Context (shutdown_start timeout : Z).

Definition poll_interval : Z := 500.

(** The next step of the shutdown, at a time and with the sizes of the pool then. *)
Definition shutdown_step (now size num_idle : Z) (stage : ShutdownStage) (c : ClientState) : ShutdownStage * ClientState :=
  match stage with
  | ShStart => (ShClosing, mkClientState true (active_query_count c) (queries c))
  | ShClosing => (ShPolling (active_query_count c), c)
  | ShPolling initial_count =>
      if active_query_count c =? 0 then (ShLast initial_count, c)
      else if shutdown_start + timeout <=? now then (ShLast initial_count, c)
      else (ShPolling initial_count, c)
  | ShLast initial_count =>
      let final_active := active_query_count c in
      (ShFinished (mkShutdownStats (Z.max 0 (initial_count - final_active)) final_active (now - shutdown_start) size num_idle), c)
  | ShFinished stats => (ShFinished stats, c)
  end.

Inductive Event := EvQuery (i : nat) | EvShutdown (now size num_idle : Z).

Definition client_step (st : ShutdownStage * ClientState) (e : Event) : ShutdownStage * ClientState :=
  match e with
  | EvQuery i => (st.1, query_step i st.2)
  | EvShutdown now size num_idle => shutdown_step now size num_idle st.1 st.2
  end.

Definition run_events (st : ShutdownStage * ClientState) (es : list Event) : ShutdownStage * ClientState := foldl client_step st es.

(** ** The count *)

Definition is_counted (s : QueryStage) : bool := match s with QCounted => true | _ => false end.
Definition is_passed (s : QueryStage) : bool := match s with QPassed => true | _ => false end.

(** The queries of some stage. *)
Definition number (p : QueryStage -> bool) (l : list QueryStage) : nat := length (List.filter p l).

Lemma number_insert p : forall l i old s, l !! i = Some old ->
  (number p (<[i := s]> l) + Nat.b2n (p old) = number p l + Nat.b2n (p s))%nat.
Proof.
  unfold number. induction l as [|x l IH]; intros [|i] old s E; simpl in *; try done.
  - injection E as ->. destruct (p old), (p s); simpl; lia.
  - specialize (IH i old s E). destruct (p x); simpl; lia.
Qed.

Lemma number_le p l : (number p l <= length l)%nat.
Proof. unfold number. induction l as [|x l IH]; simpl; [done|]. destruct (p x); simpl; lia. Qed.

(** The count is that of the queries between their two updates. *)
Definition counted (c : ClientState) : Prop :=
  Z.of_nat (length (queries c)) < usize_modulus /\ active_query_count c = Z.of_nat (number is_counted (queries c)).

(** Closing, and no query between its check and its count. *)
Definition settled (c : ClientState) : Prop := is_closing c = true /\ number is_passed (queries c) = 0%nat.

Lemma query_step_counted i c : counted c ->
  counted (query_step i c) /\ is_closing (query_step i c) = is_closing c /\
  (settled c -> settled (query_step i c) /\ active_query_count (query_step i c) <= active_query_count c).
Proof.
  intros [Hl Hc]. unfold query_step. destruct (queries c !! i) as [s|] eqn:E; [|by split_and!].
  assert (Hmod : forall s', 0 <= Z.of_nat (number is_counted (<[i := s']> (queries c))) < usize_modulus).
  { intros s'. pose proof (number_le is_counted (<[i := s']> (queries c))). rewrite length_insert in *. lia. }
  assert (Hn : forall s', Z.of_nat (number is_counted (<[i := s']> (queries c))) = active_query_count c - Z.b2z (is_counted s) + Z.b2z (is_counted s')).
  { intros s'. pose proof (number_insert is_counted _ i s s' E). rewrite Hc. destruct (is_counted s), (is_counted s'); simpl in *; lia. }
  assert (Hp : forall s', (number is_passed (<[i := s']> (queries c)) + Nat.b2n (is_passed s) = number is_passed (queries c) + Nat.b2n (is_passed s'))%nat).
  { intros s'. by apply number_insert. }
  assert (Hstep : forall s' d, d = Z.b2z (is_counted s') - Z.b2z (is_counted s) -> (is_closing c = true -> is_passed s' = false) ->
    (is_passed s = false -> d <= 0) ->
    let c' := mkClientState (is_closing c) ((active_query_count c + d) mod usize_modulus) (<[i := s']> (queries c)) in
    counted c' /\ is_closing c' = is_closing c /\ (settled c -> settled c' /\ active_query_count c' <= active_query_count c)).
  { intros s' d -> Hs' Hd c'. specialize (Hn s'). specialize (Hp s'). specialize (Hmod s').
    assert (Ea : active_query_count c' = Z.of_nat (number is_counted (queries c'))) by (subst c'; simpl; rewrite Z.mod_small; lia).
    split; [split; [subst c'; simpl; by rewrite length_insert|done]|]. split; [done|].
    intros [Hcl Hps]. rewrite Hs' in Hp by done. unfold settled. subst c'. simpl in *.
    destruct (is_passed s); simpl in *; [lia|]. specialize (Hd eq_refl). split; [split; [done|lia]|lia]. }
  destruct s; try by split_and!.
  - specialize (Hstep (if is_closing c then QRefused else QPassed) 0). rewrite Z.add_0_r, Z.mod_small in Hstep.
    + apply Hstep; by destruct (is_closing c).
    + rewrite Hc. pose proof (number_le is_counted (queries c)). lia.
  - by apply Hstep.
  - by apply Hstep.
Qed.

(** ** Shutdowns *)

(** A shutdown that read its first count below a bound, with what it has reported. *)
Definition sound (bound : Z) (st : ShutdownStage * ClientState) : Prop :=
  counted st.2 /\ settled st.2 /\ active_query_count st.2 <= bound /\
  match st.1 with
  | ShStart => False
  | ShClosing => True
  | ShPolling n | ShLast n => active_query_count st.2 <= n <= bound
  | ShFinished stats => active_query_count st.2 <= aborted_queries stats /\ 0 <= completed_queries stats /\
                        completed_queries stats + aborted_queries stats <= bound
  end.

Lemma sound_step bound st e : sound bound st -> sound bound (client_step st e).
Proof.
  destruct st as [sh c]. intros (Hc & Hs & Hb & Hsh). simpl in *. unfold sound. destruct e as [i|now size idle]; simpl.
  - destruct (query_step_counted i c Hc) as (Hc' & _ & Hs'). destruct (Hs' Hs) as [Hs2 Hle].
    split; [done|]. split; [done|]. split; [lia|]. destruct sh; try done; lia.
  - assert (0 <= active_query_count c) by (destruct Hc as [_ ->]; lia).
    destruct sh; simpl in *; [done| | | |done].
    + split_and!; try done; lia.
    + destruct (_ =? 0); [|destruct (_ <=? _)]; simpl; split_and!; try done; lia.
    + split_and!; try done; lia.
Qed.

Lemma sound_run bound es : forall st, sound bound st -> sound bound (run_events st es).
Proof. induction es as [|e es IH]; intros st Hst; simpl; [done|]. apply IH. by apply sound_step. Qed.

(** C31: A shutdown that reports no aborted query is clean, whatever the
    interleaving: when no query stood between its check of the closing flag and
    its count as the flag was set, no task of a query runs after the report, or
    ever again; and the report never counts more queries than ran when the
    flag was set. *)
Theorem clean_shutdown c es later :
  counted c -> settled c ->
  let st := run_events (ShClosing, c) es in
  match st.1 with
  | ShFinished stats =>
      completed_queries stats + aborted_queries stats <= Z.of_nat (number is_counted (queries c)) /\
      (aborted_queries stats = 0 ->
       let c' := (run_events st later).2 in
       number is_counted (queries c') = 0%nat /\ number is_passed (queries c') = 0%nat)
  | _ => True
  end.
Proof.
  intros Hc Hs. cbv zeta.
  assert (H0 : sound (active_query_count c) (ShClosing, c)) by (split_and!; try done; simpl; lia).
  pose proof (sound_run _ es _ H0) as Hst. pose proof (sound_run _ later _ Hst) as Hlater.
  destruct (run_events (ShClosing, c) es) as [sh c1] eqn:E1. simpl in *. destruct sh as [| | | |stats]; try done.
  destruct Hst as (_ & _ & _ & _ & _ & Hsum). simpl in Hsum. destruct Hc as [_ Hc]. split; [lia|]. intros Ha.
  assert (Hfin : (run_events (ShFinished stats, c1) later).1 = ShFinished stats).
  { clear. revert c1. induction later as [|e l IH]; intros c1; simpl; [done|]. destruct e; simpl; apply IH. }
  destruct Hlater as ([_ Hcount] & [_ Hpass] & _ & Hsh). rewrite Hfin in Hsh. destruct Hsh as [Hle _]. split; [|done]. lia.
Qed.

(** ** The number of polls *)

(** The polls that did not end the wait, each at least an interval after the
    one before. *)
Fixpoint spaced (now : Z) (polls : list Z) : Prop :=
  match polls with [] => True | t :: polls => now <= t /\ spaced (t + poll_interval) polls end.

Fixpoint keeps_polling (polls : list Z) (initial_count : Z) (c : ClientState) : Prop :=
  match polls with
  | [] => True
  | t :: polls => (shutdown_step t 0 0 (ShPolling initial_count) c).1 = ShPolling initial_count /\
                  exists c', keeps_polling polls initial_count c'
  end.

Lemma polls_before_deadline : forall polls now n c, spaced now polls -> keeps_polling polls n c ->
  polls = [] \/ now + poll_interval * (Z.of_nat (length polls) - 1) < shutdown_start + timeout.
Proof.
  induction polls as [|t polls IH]; intros now n c Hs Hk; [by left|]. right.
  destruct Hs as [Ht Hs]. destruct Hk as [Hp [c' Hk]]. simpl in Hp.
  assert (Hd : t < shutdown_start + timeout).
  { destruct (_ =? 0); [done|]. destruct (Z.leb_spec (shutdown_start + timeout) t); [done|lia]. }
  destruct (IH _ n c' Hs Hk) as [->|Hl]; simpl length in *; unfold poll_interval in *; [simpl|]; lia.
Qed.

(** A shutdown waits for a bounded number of polls, whatever the queries do
    between them: at most one per half second of the timeout, and one more. *)
Theorem shutdown_polls_bounded polls n c :
  0 <= timeout -> spaced shutdown_start polls -> keeps_polling polls n c ->
  Z.of_nat (length polls) <= timeout / poll_interval + 1.
Proof.
  intros Ht Hs Hk. pose proof (Z.div_pos timeout poll_interval Ht ltac:(done)).
  destruct (polls_before_deadline polls shutdown_start n c Hs Hk) as [->|Hl]; [simpl; lia|].
  assert (Z.of_nat (length polls) - 1 <= timeout / poll_interval); [|lia].
  apply Z.div_le_lower_bound; unfold poll_interval in *; lia.
Qed.
End shutdown.

(** ** Concrete runs *)

Definition two_queries : ClientState := mkClientState true 2 [QCounted; QCounted; QNew].
Definition finishing : list Event :=
  [EvShutdown 0 0 0; EvQuery 0; EvQuery 2; EvShutdown 1 0 0; EvQuery 1; EvShutdown 501 0 0; EvShutdown 501 4 4].

Lemma clean_shutdown_witness :
  (run_events 0 1000 (ShClosing, two_queries) finishing).1 = ShFinished (mkShutdownStats 2 0 501 4 4) /\
  number is_counted (queries (run_events 0 1000 (run_events 0 1000 (ShClosing, two_queries) finishing) [EvQuery 2]).2) = 0%nat.
Proof.
  split; [vm_compute; reflexivity|].
  pose proof (clean_shutdown 0 1000 two_queries finishing [EvQuery 2]) as Hc.
  assert (counted two_queries) as H1 by (split; vm_compute; reflexivity).
  assert (settled two_queries) as H2 by (split; vm_compute; reflexivity).
  specialize (Hc H1 H2). cbv zeta in Hc.
  replace (run_events 0 1000 (ShClosing, two_queries) finishing).1 with (ShFinished (mkShutdownStats 2 0 501 4 4)) in Hc by (vm_compute; reflexivity).
  destruct Hc as [_ Hc]. destruct (Hc eq_refl) as [Hn _]. exact Hn.
Defined.

Lemma shutdown_polls_bounded_witness : Z.of_nat (length [0; 500; 1000]) <= 1200 / poll_interval + 1.
Proof.
  apply (shutdown_polls_bounded 0 1200 [0; 500; 1000] 1 (mkClientState true 1 [QCounted])); [done| |].
  - vm_compute. repeat split; discriminate.
  - simpl. split_and!; try done. exists (mkClientState true 1 [QCounted]). split_and!; try done.
    exists (mkClientState true 1 [QCounted]). split_and!; try done. by exists (mkClientState true 1 [QCounted]).
Defined.

(** A query is counted only after it released the lock: a shutdown that comes
    between sees no query, reports a clean end at once, and the query then
    starts its task. *)
Theorem shutdown_misses_query :
  let st := run_events 0 30000 (ShStart, mkClientState false 0 [QNew])
    [EvQuery 0; EvShutdown 0 8 8; EvShutdown 0 8 8; EvShutdown 0 8 8; EvShutdown 0 8 8; EvQuery 0] in
  st.1 = ShFinished (mkShutdownStats 0 0 0 8 8) /\ queries st.2 = [QCounted].
Proof. split; vm_compute; reflexivity. Qed.

(** The queries that are still active at the deadline are reported as aborted
    but nothing stops them: they go on, and end by themselves. *)
Theorem aborted_queries_go_on :
  let st := run_events 0 400 (ShStart, mkClientState false 1 [QCounted])
    [EvShutdown 0 8 7; EvShutdown 0 8 7; EvShutdown 0 8 7; EvShutdown 500 8 7; EvShutdown 500 8 7] in
  st.1 = ShFinished (mkShutdownStats 0 1 500 8 7) /\ queries st.2 = [QCounted] /\
  queries (run_events 0 400 st [EvQuery 0]).2 = [QDone].
Proof. split_and!; vm_compute; reflexivity. Qed.
