(* ===== verification/Cli.v ===== *)
(** * The worker process (worker-cli, worker-flight/src/server.rs and config.rs)

    The arguments of the command line as clap hands them over, the
    configuration made of them, the configurations of the control plane
    session and of the Flight server made of that, the start of the process
    and its loop.  Files, the storage engine, the transport and clap are
    arguments; an error is the chain of its contexts, the outermost first. *)

From stdpp Require Import pretty.
From S2P Require Import Prelude SqlAst Arrow DuckDb EpochEngine QueryEngine ControlPlane Dispatcher Session.

#[local] Open Scope Z_scope.

(** ** Configuration *)

Abbreviation Chain := (list string).

Record TlsConfig := mkTlsConfig {
  ca_path : option string; tls_cert_path : option string; tls_key_path : option string; server_name : option string }.

Record FlightServerTlsConfig := mkFlightTls { cert_path : option string; key_path : option string }.

(** Paths and socket addresses are texts. *)
Record RunArgs := mkRunArgs {
  arg_tenant_id : string; arg_worker_id : string; arg_master_endpoint : string; arg_query_listen_addr : option string;
  arg_duckdb_no_memory_limit : bool; arg_duckdb_memory_limit_mb : Z; arg_duckdb_flush_rows_threshold : Z;
  arg_duckdb_channel_capacity : Z; arg_duckdb_tmp_dir : option string; arg_duckdb_max_identifiers : Z;
  arg_tls_ca : option string; arg_tls_cert : option string; arg_tls_key : option string; arg_tls_server_name : option string;
  arg_flight_tls_cert : option string; arg_flight_tls_key : option string;
  arg_cp_outgoing_capacity : nat; arg_cp_max_concurrent_loads : nat; arg_advertise_addr : option string }.

Record LeibrixWorkerConfig := mkWorkerConfig {
  wc_tenant_id : string; wc_worker_id : string; wc_master_endpoint : string; wc_query_listen_addr : option string;
  wc_advertise_addr : option string; wc_tls : TlsConfig; wc_flight_server_tls : FlightServerTlsConfig;
  wc_duckdb : DuckDBConfig; wc_cp_outgoing_capacity : nat; wc_cp_max_concurrent_loads : nat }.

Definition validate_non_empty (field value : string) : result unit Chain :=
  match trim value with EmptyString => Err [field +:+ " must be non-empty"] | _ => Ok tt end.

Definition is_some {A} (o : option A) : bool := match o with Some _ => true | None => false end.
Definition is_none {A} (o : option A) : bool := negb (is_some o).

Definition guard_that (holds : bool) (message : string) : result unit Chain := if holds then Ok tt else Err [message].

(** [usize_max] is that of the platform. *)
Definition usize_try_from (usize_max z : Z) (context : string) : result Z Chain :=
  if z <=? usize_max then Ok z else Err [context; "out of range integral type conversion attempted"].

Definition from_run_args (usize_max : Z) (args : RunArgs) : result LeibrixWorkerConfig Chain :=
  let? _ := validate_non_empty "tenant-id" (arg_tenant_id args) in
  let? _ := validate_non_empty "worker-id" (arg_worker_id args) in
  let? _ := validate_non_empty "master-endpoint" (arg_master_endpoint args) in
  let? _ := guard_that (negb (arg_cp_outgoing_capacity args =? 0)%nat) "cp-outgoing-capacity must be at least 1" in
  let? _ := guard_that (negb (arg_cp_max_concurrent_loads args =? 0)%nat) "cp-max-concurrent-loads must be at least 1" in
  let tls_any := is_some (arg_tls_ca args) || is_some (arg_tls_cert args) || is_some (arg_tls_key args) in
  let? _ := guard_that (negb (tls_any && (is_none (arg_tls_ca args) || is_none (arg_tls_cert args) || is_none (arg_tls_key args))))
              "TLS is partially configured; provide --tls-ca, --tls-cert, and --tls-key together" in
  let flight_tls_any := is_some (arg_flight_tls_cert args) || is_some (arg_flight_tls_key args) in
  let? _ := guard_that (negb (flight_tls_any && (is_none (arg_flight_tls_cert args) || is_none (arg_flight_tls_key args))))
              "Flight server TLS is partially configured; provide --flight-tls-cert and --flight-tls-key together" in
  let? channel_capacity := usize_try_from usize_max (arg_duckdb_channel_capacity args)
                             "duckdb-channel-capacity is too large for this platform" in
  let? max_identifiers := usize_try_from usize_max (arg_duckdb_max_identifiers args)
                            "duckdb-max-identifiers is too large for this platform" in
  let duckdb := mkDuckDBConfig
    (if arg_duckdb_no_memory_limit args then None else Some (arg_duckdb_memory_limit_mb args))
    (arg_duckdb_flush_rows_threshold args) channel_capacity (arg_duckdb_tmp_dir args) max_identifiers
    (cfg_pool_size DuckDBConfig_default) (cfg_max_pool_size DuckDBConfig_default) in
  Ok (mkWorkerConfig (arg_tenant_id args) (arg_worker_id args) (arg_master_endpoint args) (arg_query_listen_addr args)
        (arg_advertise_addr args)
        (mkTlsConfig (arg_tls_ca args) (arg_tls_cert args) (arg_tls_key args) (arg_tls_server_name args))
        (mkFlightTls (arg_flight_tls_cert args) (arg_flight_tls_key args))
        duckdb (arg_cp_outgoing_capacity args) (arg_cp_max_concurrent_loads args)).

(** ** The configurations of the parts *)

(** [FlightServerConfig]; a TLS configuration is opaque. *)
Record FlightServerConfig := mkFlightServerConfig {
  bind_addr : string; tls_config : option string; max_message_size : Z; concurrency_limit : Z }.

Definition FlightServerConfig_default : FlightServerConfig := mkFlightServerConfig "0.0.0.0:8815" None (16 * 1024 * 1024) 1000.

(** [(max_message_size as u32).min(16_777_215)]. *)
Definition h2_frame_size (c : FlightServerConfig) : Z := Z.min (max_message_size c mod 2 ^ 32) 16777215.

(** The sizes HTTP/2 allows. *)
Definition h2_allowed (size : Z) : bool := (16384 <=? size) && (size <=? 16777215).

Section config.
(** The files, and what the transport makes of their contents. *)
Context (read : string -> result string string)
  (client_tls : string -> string -> string -> option string -> string) (server_tls : string -> string -> string).

Definition read_file (what path : string) : result string Chain :=
  match read path with Ok pem => Ok pem | Err e => Err ["failed to read " +:+ what +:+ ": " +:+ path; e] end.

(** [unwrap]. *)
Definition unwrap {A} (o : option A) : outcome A := of_option o.

Definition cp_config (c : LeibrixWorkerConfig) : outcome (result ControlPlaneConfig Chain) :=
  let built (t : option string) :=
    mkControlPlaneConfig (wc_master_endpoint c) (wc_worker_id c) (wc_tenant_id c)
      (match wc_advertise_addr c with Some a => Some a | None => wc_query_listen_addr c end)
      (heartbeat_interval ControlPlaneConfig_default) (registration_timeout ControlPlaneConfig_default)
      (wc_cp_outgoing_capacity c)
      (connect_timeout ControlPlaneConfig_default) (http2_keep_alive_interval ControlPlaneConfig_default)
      (keep_alive_timeout ControlPlaneConfig_default) (keep_alive_while_idle ControlPlaneConfig_default)
      (retry_initial_interval ControlPlaneConfig_default) (retry_max_interval ControlPlaneConfig_default)
      (retry_max_elapsed_time ControlPlaneConfig_default) t in
  match ca_path (wc_tls c) with
  | None => Ret (Ok (built None))
  | Some ca_path =>
      match read_file "TLS CA certificate" ca_path with
      | Err e => Ret (Err e)
      | Ok ca_pem =>
          let! cert_path := unwrap (tls_cert_path (wc_tls c)) in
          match read_file "TLS client certificate" cert_path with
          | Err e => Ret (Err e)
          | Ok cert_pem =>
              let! key_path := unwrap (tls_key_path (wc_tls c)) in
              match read_file "TLS client key" key_path with
              | Err e => Ret (Err e)
              | Ok key_pem => Ret (Ok (built (Some (client_tls ca_pem cert_pem key_pem (server_name (wc_tls c))))))
              end
          end
      end
  end.

Definition flight_server_tls_config (c : LeibrixWorkerConfig) : outcome (result (option string) Chain) :=
  match cert_path (wc_flight_server_tls c) with
  | None => Ret (Ok None)
  | Some cert_path =>
      let! key_path := unwrap (key_path (wc_flight_server_tls c)) in
      match read_file "Flight server TLS certificate" cert_path with
      | Err e => Ret (Err e)
      | Ok cert_pem =>
          match read_file "Flight server TLS key" key_path with
          | Err e => Ret (Err e)
          | Ok key_pem => Ret (Ok (Some (server_tls cert_pem key_pem)))
          end
      end
  end.

(** ** The start *)

Definition with_context {A} (context : string) (r : result A Chain) : result A Chain :=
  match r with Ok a => Ok a | Err e => Err (context :: e) end.

(** What runs after the start. *)
Record Worker := mkWorker {
  w_duckdb : DuckDBConfig; w_load_permits : nat; w_session : ControlPlaneConfig; w_flight : option FlightServerConfig }.

(** [engine] and [session] are how the storage engine and the session start;
    the dispatcher makes a semaphore for the loads. *)
Definition start_worker (usize_max : Z) (engine : DuckDBConfig -> result unit Chain)
    (session : ControlPlaneConfig -> result unit Chain) (args : RunArgs) : outcome (result Worker Chain) :=
  match with_context "invalid configuration" (from_run_args usize_max args) with
  | Err e => Ret (Err e)
  | Ok cfg =>
      match with_context "failed to initialise DuckDB storage engine" (engine (wc_duckdb cfg)) with
      | Err e => Ret (Err e)
      | Ok _ =>
          let! _ := if MAX_PERMITS <? Z.of_nat (wc_cp_max_concurrent_loads cfg) then Panic else Ret tt in
          let! cp := cp_config cfg in
          match with_context "failed to build control-plane configuration" cp with
          | Err e => Ret (Err e)
          | Ok cp_cfg =>
              match with_context "failed to start control plane session" (session cp_cfg) with
              | Err e => Ret (Err e)
              | Ok _ =>
                  let worker flight := mkWorker (wc_duckdb cfg) (wc_cp_max_concurrent_loads cfg) cp_cfg flight in
                  match wc_query_listen_addr cfg with
                  | None => Ret (Ok (worker None))
                  | Some addr =>
                      let! t := flight_server_tls_config cfg in
                      match with_context "failed to load Flight server TLS config" t with
                      | Err e => Ret (Err e)
                      | Ok flight_tls =>
                          Ret (Ok (worker (Some (mkFlightServerConfig addr flight_tls (16 * 1024 * 1024) 1000))))
                      end
                  end
              end
          end
      end
  end.
End config.

(** ** The loop *)

Inductive MainEvent := CtrlC | StatusClosed | StatusChanged (s : SessionStatus).

(** How the process ends; the Flight server has been told to stop, and awaited
    or not. *)
Record MainExit := mkMainExit { exit_result : result unit string; flight_awaited : bool }.

(** The events in the order the biased [select!] takes them; [None] while the
    process runs. *)
Fixpoint main_loop (duration_debug : Z -> string) (events : list MainEvent) : option MainExit :=
  match events with
  | [] => None
  | (CtrlC | StatusClosed) :: _ => Some (mkMainExit (Ok tt) true)
  | StatusChanged (Disconnected e) :: _ =>
      Some (mkMainExit (Err ("session disconnected: " +:+ SessionError_display duration_debug e)) false)
  | StatusChanged _ :: events => main_loop duration_debug events
  end.

(** ** Accepted arguments *)

(** All of some optional arguments or none. *)
Definition all_or_none {A} (l : list (option A)) : Prop := Forall is_Some l \/ Forall (fun o => o = None) l.

(** The arguments the configuration is made of. *)
Record acceptable (usize_max : Z) (args : RunArgs) : Prop := {
  ok_names : Forall (fun s => trim s <> EmptyString) [arg_tenant_id args; arg_worker_id args; arg_master_endpoint args];
  ok_outgoing : arg_cp_outgoing_capacity args <> 0%nat;
  ok_loads : arg_cp_max_concurrent_loads args <> 0%nat;
  ok_tls : all_or_none [arg_tls_ca args; arg_tls_cert args; arg_tls_key args];
  ok_flight_tls : all_or_none [arg_flight_tls_cert args; arg_flight_tls_key args];
  ok_sizes : arg_duckdb_channel_capacity args <= usize_max /\ arg_duckdb_max_identifiers args <= usize_max;
}.

Lemma validate_ok field value : validate_non_empty field value = Ok tt <-> trim value <> EmptyString.
Proof. unfold validate_non_empty. by destruct (trim value). Qed.

Lemma guard_ok holds message : guard_that holds message = Ok tt <-> holds = true.
Proof. unfold guard_that. by destruct holds. Qed.

Lemma bind_ok {A B E} (r : result A E) (k : A -> result B E) b : result_bind r k = Ok b <-> exists a, r = Ok a /\ k a = Ok b.
Proof. destruct r; simpl; split; [eauto|by intros (? & [= <-] & ?)|done|by intros (? & ? & ?)]. Qed.

Lemma usize_ok m z context n : usize_try_from m z context = Ok n <-> z <= m /\ n = z.
Proof. unfold usize_try_from. destruct (Z.leb_spec z m); split; [by intros [= <-]|by intros [_ ->]|done|intros [? _]; lia]. Qed.

Lemma tls_halves {A} (a b c : option A) :
  negb ((is_some a || is_some b || is_some c) && (is_none a || is_none b || is_none c)) = true <-> all_or_none [a; b; c].
Proof.
  unfold all_or_none. destruct a, b, c; simpl; split; try done; try (intros _; (by left; repeat constructor) || (by right; repeat constructor)).
  all: intros [H|H]; rewrite !Forall_cons in H; unfold is_Some in H; naive_solver.
Qed.

Lemma flight_halves {A} (a b : option A) :
  negb ((is_some a || is_some b) && (is_none a || is_none b)) = true <-> all_or_none [a; b].
Proof.
  unfold all_or_none. destruct a, b; simpl; split; try done; try (intros _; (by left; repeat constructor) || (by right; repeat constructor)).
  all: intros [H|H]; rewrite !Forall_cons in H; unfold is_Some in H; naive_solver.
Qed.

(** The arguments are accepted exactly when the names have more than white
    space, the capacities are not zero, the certificates of a kind are given
    all or not at all, and the sizes fit the platform. *)
Theorem run_args_accepted usize_max args :
  (exists cfg, from_run_args usize_max args = Ok cfg) <-> acceptable usize_max args.
Proof.
  unfold from_run_args. split.
  - intros [cfg E].
    repeat (apply bind_ok in E as (? & ?H & E)). repeat match goal with u : unit |- _ => destruct u end.
    repeat match goal with
    | H : validate_non_empty _ _ = _ |- _ => apply validate_ok in H
    | H : guard_that _ _ = _ |- _ => apply guard_ok in H
    | H : usize_try_from _ _ _ = _ |- _ => apply usize_ok in H as [? ->]
    end.
    split; [by repeat constructor| | |by apply tls_halves|by apply flight_halves|done].
    + intros E0. by rewrite E0 in *.
    + intros E0. by rewrite E0 in *.
  - intros [Hn Ho Hl Ht Hf [Hs1 Hs2]]. rewrite !Forall_cons in Hn. destruct Hn as (Hn1 & Hn2 & Hn3 & _).
    apply (validate_ok "tenant-id") in Hn1 as ->. apply (validate_ok "worker-id") in Hn2 as ->. apply (validate_ok "master-endpoint") in Hn3 as ->.
    apply Nat.eqb_neq in Ho as ->. apply Nat.eqb_neq in Hl as ->. apply tls_halves in Ht as ->. apply flight_halves in Hf as ->.
    unfold usize_try_from. apply Z.leb_le in Hs1 as ->. apply Z.leb_le in Hs2 as ->. simpl. by eexists.
Qed.

(** What an accepted configuration took over. *)
Lemma accepted_fields usize_max args cfg : from_run_args usize_max args = Ok cfg ->
  wc_cp_outgoing_capacity cfg = arg_cp_outgoing_capacity args /\ wc_cp_max_concurrent_loads cfg = arg_cp_max_concurrent_loads args /\
  wc_tls cfg = mkTlsConfig (arg_tls_ca args) (arg_tls_cert args) (arg_tls_key args) (arg_tls_server_name args) /\
  wc_flight_server_tls cfg = mkFlightTls (arg_flight_tls_cert args) (arg_flight_tls_key args).
Proof.
  unfold from_run_args. intros E. repeat (apply bind_ok in E as (? & _ & E)). by injection E as <-.
Qed.

Section start.
Context (read : string -> result string string)
  (client_tls : string -> string -> string -> option string -> string) (server_tls : string -> string -> string).

Lemma cp_config_total c : all_or_none [ca_path (wc_tls c); tls_cert_path (wc_tls c); tls_key_path (wc_tls c)] ->
  exists r, cp_config read client_tls c = Ret r /\
    forall cp, r = Ok cp -> outgoing_channel_capacity cp = wc_cp_outgoing_capacity c /\ (is_Some (tls cp) <-> is_Some (ca_path (wc_tls c))).
Proof.
  unfold cp_config, all_or_none. rewrite !Forall_cons. intros [(Ha & [cert Hb] & [key Hc] & _)|(Ha & _ & _)].
  - rewrite Hb, Hc. destruct Ha as [ca Ha]. rewrite Ha. simpl.
    destruct (read_file read _ ca); [|by eexists]. destruct (read_file read _ cert); [|by eexists].
    destruct (read_file read _ key); eexists; (split; [done|]); [intros cp [= <-]; simpl; split; [done|by split; eexists]|done].
  - rewrite Ha. eexists. split; [done|]. intros cp [= <-]. simpl. split; [done|]. by split; intros [].
Qed.

Lemma flight_config_total c : all_or_none [cert_path (wc_flight_server_tls c); key_path (wc_flight_server_tls c)] ->
  exists r, flight_server_tls_config read server_tls c = Ret r.
Proof.
  unfold flight_server_tls_config, all_or_none. rewrite !Forall_cons. intros [([cert ->] & [key Hk] & _)|(-> & _)]; [|by eexists].
  rewrite Hk. simpl. destruct (read_file read _ cert); [|by eexists]. destruct (read_file read _ key); by eexists.
Qed.

(** A session with a channel that can be made never panics. *)
Lemma step_keeps_running `{TaskDispatcher D} (cfg : ControlPlaneConfig) event_ids (st st' : @Session D) a :
  mpsc_panics (outgoing_channel_capacity cfg) = false -> s_pc st <> SPanicked ->
  step cfg event_ids st a = Some st' -> s_pc st' <> SPanicked.
Proof.
  intros Hcap Hpc. destruct a as [a|p| |tick|i| | |d]; simpl.
  - unfold start_step. rewrite Hcap. intros. repeat case_match; by simplify_eq/=.
  - destruct (s_senders st); [|done]. intros [= <-]. unfold try_send. repeat case_match; done.
  - by intros [= <-].
  - unfold send_step. destruct (drain_spec cfg event_ids (s_queue st) st) as (sent & -> & _). intros. repeat case_match; by simplify_eq/=.
  - unfold recv_step. intros. repeat case_match; by simplify_eq/=.
  - destruct (_ <? _)%nat; [|done]. by intros [= <-].
  - by intros [= <-].
  - by intros [= <-].
Qed.

Lemma session_keeps_running `{TaskDispatcher D} (cfg : ControlPlaneConfig) event_ids l : forall st st' : @Session D,
  mpsc_panics (outgoing_channel_capacity cfg) = false -> s_pc st <> SPanicked ->
  srun cfg event_ids st l = Some st' -> s_pc st' <> SPanicked.
Proof.
  induction l as [|a l IH]; intros st st' Hcap Hpc E; simpl in E; [by injection E as <-|].
  destruct (step cfg event_ids st a) as [st1|] eqn:Es; simpl in E; [|done].
  apply (IH st1 st' Hcap); [|done]. by eapply step_keeps_running.
Qed.

End start.

(** A disconnection ends the process with an error, unless it was ended before. *)
Theorem disconnection_ends_process duration_debug before e :
  Forall (fun ev => match ev with StatusChanged (Disconnected _) | CtrlC | StatusClosed => False | _ => True end) before ->
  main_loop duration_debug (before ++ [StatusChanged (Disconnected e)]) =
    Some (mkMainExit (Err ("session disconnected: " +:+ SessionError_display duration_debug e)) false).
Proof. induction 1 as [|ev before Hev _ IH]; [done|]. destruct ev as [| |[]]; try done. Qed.

(** ** Concrete arguments *)

Definition demo_args (outgoing : nat) (ca cert key listen : option string) : RunArgs :=
  mkRunArgs "acme" "w1" "cp:9090" listen false 1024 10000 100 None 1000 ca cert key (Some "cp.local") None None outgoing 4 None.

Definition demo_files (path : string) : result string string :=
  if decide (path = "missing") then Err "No such file" else Ok ("pem of " +:+ path).

Definition demo_client_tls (ca cert key : string) (name : option string) : string := ca +:+ "," +:+ default EmptyString name.
Definition demo_start (args : RunArgs) : outcome (result Worker Chain) :=
  start_worker demo_files demo_client_tls (fun cert key => cert) (2 ^ 64 - 1) (fun _ => Ok tt) (fun _ => Ok tt) args.


Example partial_tls : demo_start (demo_args 64 (Some "ca") None None None) =
  Ret (Err ["invalid configuration"; "TLS is partially configured; provide --tls-ca, --tls-cert, and --tls-key together"]).
Proof. reflexivity. Qed.

Example unreadable_ca : demo_start (demo_args 64 (Some "missing") (Some "crt") (Some "key") None) =
  Ret (Err ["failed to build control-plane configuration"; "failed to read TLS CA certificate: missing"; "No such file"]).
Proof. reflexivity. Qed.

(** A capacity that passes the check may still be one the runtime panics at. *)
Theorem huge_capacity_accepted n : MAX_PERMITS < Z.of_nat n ->
  (exists cfg, from_run_args (2 ^ 64 - 1) (demo_args n None None None None) = Ok cfg) /\ mpsc_panics n = true.
Proof.
  intros Hn. split; [apply run_args_accepted|unfold mpsc_panics; apply Z.ltb_lt in Hn as ->; by rewrite orb_true_r].
  split; simpl; try lia; try done; [by repeat constructor| |by right; repeat constructor..].
  intros ->. unfold MAX_PERMITS in Hn. simpl in Hn. lia.
Qed.

(** The server name for the verification is dropped without a word when no
    certificates are given. *)
Theorem server_name_without_tls : exists w, demo_start (demo_args 64 None None None None) = Ret (Ok w) /\ tls (w_session w) = None.
Proof. eexists. split; reflexivity. Qed.

(** A size that does not fit 32 bits, or is small, is not clamped to what
    HTTP/2 allows. *)
Theorem frame_size_not_clamped :
  h2_allowed (h2_frame_size FlightServerConfig_default) = true /\
  h2_frame_size (mkFlightServerConfig "" None (2 ^ 32) 1000) = 0 /\
  h2_allowed (h2_frame_size (mkFlightServerConfig "" None 8192 1000)) = false.
Proof. by vm_compute. Qed.
