(* ===== verification/Metrics.v ===== *)
(** * Metrics of distributed queries (ldp/executor/metrics.rs)

    The measurements of exchanges, stages, queries and workers, and the
    registries that keep them.  A duration is a number of nanoseconds, a time a
    number of nanoseconds of the monotonic clock; the counters are 64 bits wide
    and wrap, the arithmetic of durations panics.  The registries are hash maps
    whose iteration order is an argument. *)

From Stdlib Require Import SpecFloat.
From stdpp Require Import pretty.
From S2P Require Import Prelude Float64 LdpTypes Decimal.

#[local] Open Scope Z_scope.

(** ** Numbers *)

Definition f64_lt (x y : f64) : bool := SFltb x y.
Definition f64_le (x y : f64) : bool := SFleb x y.
Definition f64_zero : f64 := S754_zero false.
Definition f64_0_9 : f64 := f64_div (f64_of_u64 9) (f64_of_u64 10).

Definition duration_max : Z := 2 ^ 64 * 1000000000 - 1.

(** [Duration]'s [+] and [-]. *)
Definition duration_add (a b : Z) : outcome Z := if a + b <=? duration_max then Ret (a + b) else Panic.
Definition duration_sub (a b : Z) : outcome Z := if b <=? a then Ret (a - b) else Panic.

(** [as_secs_f64] and [as_millis]. *)
Definition as_secs_f64 (d : Z) : f64 :=
  f64_add (f64_of_u64 (d / 1000000000)) (f64_div (f64_of_u64 (d mod 1000000000)) (f64_of_u64 1000000000)).
Definition as_millis (d : Z) : Z := d / 1000000.

(** [Instant::elapsed]. *)
Definition instant_elapsed (start_time now : Z) : Z := Z.max 0 (now - start_time).

(** ** Exchanges *)

Record BroadcastExchangeMetrics := mkBroadcastMetrics {
  bm_exchange_id : ExchangeId; bm_query_id : string; bm_source_worker : WorkerId; bm_target_workers : list WorkerId;
  rows_broadcasted : Z; bytes_broadcasted : Z; replication_factor : Z; bm_start_time : Z; bm_duration : Z;
  bm_throughput_bps : f64; is_optimal : bool; broadcast_threshold_bytes : Z; size_ratio_to_threshold : f64 }.

Definition BroadcastExchangeMetrics_new (now : Z) (exchange_id : ExchangeId) (query_id : string) (source_worker : WorkerId)
    (target_workers : list WorkerId) (threshold : Z) : BroadcastExchangeMetrics :=
  mkBroadcastMetrics exchange_id query_id source_worker target_workers 0 0 0 now 0 f64_zero false threshold f64_zero.

Definition update_data (m : BroadcastExchangeMetrics) (rows bytes : Z) : BroadcastExchangeMetrics :=
  mkBroadcastMetrics (bm_exchange_id m) (bm_query_id m) (bm_source_worker m) (bm_target_workers m) rows bytes
    (Z.of_nat (length (bm_target_workers m))) (bm_start_time m) (bm_duration m) (bm_throughput_bps m)
    (bytes <=? broadcast_threshold_bytes m) (broadcast_threshold_bytes m)
    (if 0 <? broadcast_threshold_bytes m then f64_div (f64_of_u64 bytes) (f64_of_u64 (broadcast_threshold_bytes m))
     else size_ratio_to_threshold m).

(** The bytes per second of a duration. *)
Definition throughput (bytes duration : Z) : f64 :=
  let duration_secs := as_secs_f64 duration in
  if f64_lt f64_zero duration_secs then f64_div (f64_of_u64 bytes) duration_secs else S754_infinity false.

Definition broadcast_finalize (now : Z) (m : BroadcastExchangeMetrics) : BroadcastExchangeMetrics :=
  let duration := instant_elapsed (bm_start_time m) now in
  mkBroadcastMetrics (bm_exchange_id m) (bm_query_id m) (bm_source_worker m) (bm_target_workers m) (rows_broadcasted m)
    (bytes_broadcasted m) (replication_factor m) (bm_start_time m) duration (throughput (bytes_broadcasted m) duration)
    (is_optimal m) (broadcast_threshold_bytes m) (size_ratio_to_threshold m).

(** [log_metrics] warns. *)
Definition broadcast_warns (m : BroadcastExchangeMetrics) : bool := f64_le f64_0_9 (size_ratio_to_threshold m).

Record ExchangeMetrics := mkExchangeMetrics {
  em_exchange_id : ExchangeId; em_query_id : string; em_exchange_type : string; em_source_workers : list WorkerId;
  em_target_workers : list WorkerId; bytes_transferred : Z; rows_transferred : Z; em_start_time : Z; em_duration : Z;
  em_throughput_bps : f64 }.

Definition ExchangeMetrics_new (now : Z) (exchange_id : ExchangeId) (query_id exchange_type : string)
    (source_workers target_workers : list WorkerId) : ExchangeMetrics :=
  mkExchangeMetrics exchange_id query_id exchange_type source_workers target_workers 0 0 now 0 f64_zero.

Definition update_transfer (m : ExchangeMetrics) (rows bytes : Z) : ExchangeMetrics :=
  mkExchangeMetrics (em_exchange_id m) (em_query_id m) (em_exchange_type m) (em_source_workers m) (em_target_workers m)
    bytes rows (em_start_time m) (em_duration m) (em_throughput_bps m).

Definition exchange_finalize (now : Z) (m : ExchangeMetrics) : ExchangeMetrics :=
  let duration := instant_elapsed (em_start_time m) now in
  mkExchangeMetrics (em_exchange_id m) (em_query_id m) (em_exchange_type m) (em_source_workers m) (em_target_workers m)
    (bytes_transferred m) (rows_transferred m) (em_start_time m) duration (throughput (bytes_transferred m) duration).

(** ** Stages *)

Record StageExecutionMetrics := mkStageMetrics {
  sm_stage_id : StageId; sm_query_id : string; sm_worker_id : WorkerId; sm_input_rows : Z; sm_output_rows : Z;
  sm_input_bytes : Z; sm_output_bytes : Z; sm_start_time : Z; execution_duration : Z; submission_duration : Z;
  sm_peak_memory_bytes : Z; sm_input_partitions : Z; sm_output_partitions : Z; sm_output_schema : option (list string);
  sm_success : bool; sm_error_message : option string }.

Definition StageExecutionMetrics_new (now : Z) (stage_id : StageId) (query_id : string) (worker_id : WorkerId) : StageExecutionMetrics :=
  mkStageMetrics stage_id query_id worker_id 0 0 0 0 now 0 0 0 0 0 None false None.

Definition update_input_stats (m : StageExecutionMetrics) (rows bytes partitions : Z) : StageExecutionMetrics :=
  mkStageMetrics (sm_stage_id m) (sm_query_id m) (sm_worker_id m) rows (sm_output_rows m) bytes (sm_output_bytes m)
    (sm_start_time m) (execution_duration m) (submission_duration m) (sm_peak_memory_bytes m) partitions
    (sm_output_partitions m) (sm_output_schema m) (sm_success m) (sm_error_message m).

(** The schema by the names of its columns. *)
Definition update_output_stats (m : StageExecutionMetrics) (rows bytes partitions : Z) (schema : list string) : StageExecutionMetrics :=
  mkStageMetrics (sm_stage_id m) (sm_query_id m) (sm_worker_id m) (sm_input_rows m) rows (sm_input_bytes m) bytes
    (sm_start_time m) (execution_duration m) (submission_duration m) (sm_peak_memory_bytes m) (sm_input_partitions m)
    partitions (Some schema) (sm_success m) (sm_error_message m).

Definition set_durations (m : StageExecutionMetrics) (execution submission : Z) : StageExecutionMetrics :=
  mkStageMetrics (sm_stage_id m) (sm_query_id m) (sm_worker_id m) (sm_input_rows m) (sm_output_rows m) (sm_input_bytes m)
    (sm_output_bytes m) (sm_start_time m) execution submission (sm_peak_memory_bytes m) (sm_input_partitions m)
    (sm_output_partitions m) (sm_output_schema m) (sm_success m) (sm_error_message m).

Definition set_execution_duration (m : StageExecutionMetrics) (d : Z) := set_durations m d (submission_duration m).
Definition set_submission_duration (m : StageExecutionMetrics) (d : Z) := set_durations m (execution_duration m) d.

Definition set_peak_memory (m : StageExecutionMetrics) (bytes : Z) : StageExecutionMetrics :=
  mkStageMetrics (sm_stage_id m) (sm_query_id m) (sm_worker_id m) (sm_input_rows m) (sm_output_rows m) (sm_input_bytes m)
    (sm_output_bytes m) (sm_start_time m) (execution_duration m) (submission_duration m) bytes (sm_input_partitions m)
    (sm_output_partitions m) (sm_output_schema m) (sm_success m) (sm_error_message m).

Definition stage_mark (m : StageExecutionMetrics) (success : bool) (error : option string) : StageExecutionMetrics :=
  mkStageMetrics (sm_stage_id m) (sm_query_id m) (sm_worker_id m) (sm_input_rows m) (sm_output_rows m) (sm_input_bytes m)
    (sm_output_bytes m) (sm_start_time m) (execution_duration m) (submission_duration m) (sm_peak_memory_bytes m)
    (sm_input_partitions m) (sm_output_partitions m) (sm_output_schema m) success error.

(** [mark_success] keeps an earlier error. *)
Definition stage_mark_success (m : StageExecutionMetrics) := stage_mark m true (sm_error_message m).
Definition stage_mark_failure (m : StageExecutionMetrics) (error : string) := stage_mark m false (Some error).

Definition stage_finalize (now : Z) (m : StageExecutionMetrics) : outcome StageExecutionMetrics :=
  if execution_duration m =? 0 then
    let! d := duration_sub (instant_elapsed (sm_start_time m) now) (submission_duration m) in Ret (set_execution_duration m d)
  else Ret m.

(** ** Queries *)

Record QueryExecutionMetrics := mkQueryMetrics {
  qm_query_id : string; qm_start_time : Z; total_duration : Z; stage_count : Z; successful_stages : Z; failed_stages : Z;
  total_rows_processed : Z; total_bytes_processed : Z; qm_peak_memory_bytes : Z; avg_stage_duration : Z;
  exchange_time : Z; exchange_bytes : Z; qm_success : bool; qm_error_message : option string }.

Definition QueryExecutionMetrics_new (now : Z) (query_id : string) : QueryExecutionMetrics :=
  mkQueryMetrics query_id now 0 0 0 0 0 0 0 0 0 0 false None.

(** [update_stage_stats]; the counts are not zero after the update. *)
Definition update_stage_stats (m : QueryExecutionMetrics) (success : bool) (rows bytes memory duration : Z) : QueryExecutionMetrics :=
  let successful := if success then wrap64 (successful_stages m + 1) else successful_stages m in
  let failed := if success then failed_stages m else wrap64 (failed_stages m + 1) in
  mkQueryMetrics (qm_query_id m) (qm_start_time m) (total_duration m) (wrap64 (stage_count m + 1)) successful failed
    (wrap64 (total_rows_processed m + rows)) (wrap64 (total_bytes_processed m + bytes))
    (if qm_peak_memory_bytes m <? memory then memory else qm_peak_memory_bytes m)
    (if 0 <? wrap64 (successful + failed) then duration else avg_stage_duration m)
    (exchange_time m) (exchange_bytes m) (qm_success m) (qm_error_message m).

Definition update_exchange_stats (m : QueryExecutionMetrics) (time bytes : Z) : outcome QueryExecutionMetrics :=
  let! t := duration_add (exchange_time m) time in
  Ret (mkQueryMetrics (qm_query_id m) (qm_start_time m) (total_duration m) (stage_count m) (successful_stages m)
         (failed_stages m) (total_rows_processed m) (total_bytes_processed m) (qm_peak_memory_bytes m)
         (avg_stage_duration m) t (wrap64 (exchange_bytes m + bytes)) (qm_success m) (qm_error_message m)).

Definition query_mark (m : QueryExecutionMetrics) (success : bool) (error : option string) : QueryExecutionMetrics :=
  mkQueryMetrics (qm_query_id m) (qm_start_time m) (total_duration m) (stage_count m) (successful_stages m)
    (failed_stages m) (total_rows_processed m) (total_bytes_processed m) (qm_peak_memory_bytes m)
    (avg_stage_duration m) (exchange_time m) (exchange_bytes m) success error.

Definition query_mark_success (m : QueryExecutionMetrics) := query_mark m true (qm_error_message m).
Definition query_mark_failure (m : QueryExecutionMetrics) (error : string) := query_mark m false (Some error).

Definition query_finalize (now : Z) (m : QueryExecutionMetrics) : QueryExecutionMetrics :=
  mkQueryMetrics (qm_query_id m) (qm_start_time m) (instant_elapsed (qm_start_time m) now) (stage_count m) (successful_stages m)
    (failed_stages m) (total_rows_processed m) (total_bytes_processed m) (qm_peak_memory_bytes m)
    (avg_stage_duration m) (exchange_time m) (exchange_bytes m) (qm_success m) (qm_error_message m).

(** ** Workers *)

Record SystemHealthMetrics := mkHealthMetrics {
  hm_worker_id : WorkerId; hm_timestamp : Z; memory_used_bytes : Z; memory_capacity_bytes : Z; cpu_usage_percent : f64;
  active_queries : Z; active_stages : Z; disk_used_bytes : Z; disk_capacity_bytes : Z; network_io_bytes : Z;
  active_connections : Z }.

Definition SystemHealthMetrics_new (now : Z) (worker_id : WorkerId) : SystemHealthMetrics :=
  mkHealthMetrics worker_id now 0 0 f64_zero 0 0 0 0 0 0.

Inductive HealthUpdate :=
| UpdateMemory (used capacity : Z)
| UpdateCpu (usage : f64)
| UpdateActiveCounts (queries stages : Z)
| UpdateDisk (used capacity : Z)
| UpdateNetwork (io_bytes : Z)
| UpdateConnections (count : Z).

Definition health_update (m : SystemHealthMetrics) (u : HealthUpdate) : SystemHealthMetrics :=
  let '(mkHealthMetrics w t mu mc cpu q s du dc n c) := m in
  match u with
  | UpdateMemory used capacity => mkHealthMetrics w t used capacity cpu q s du dc n c
  | UpdateCpu usage => mkHealthMetrics w t mu mc usage q s du dc n c
  | UpdateActiveCounts queries stages => mkHealthMetrics w t mu mc cpu queries stages du dc n c
  | UpdateDisk used capacity => mkHealthMetrics w t mu mc cpu q s used capacity n c
  | UpdateNetwork io_bytes => mkHealthMetrics w t mu mc cpu q s du dc io_bytes c
  | UpdateConnections count => mkHealthMetrics w t mu mc cpu q s du dc n count
  end.

Definition utilization_percent (used capacity : Z) : f64 :=
  if 0 <? capacity then f64_mul (f64_div (f64_of_u64 used) (f64_of_u64 capacity)) (f64_of_u64 100) else f64_zero.

Definition memory_utilization_percent (m : SystemHealthMetrics) := utilization_percent (memory_used_bytes m) (memory_capacity_bytes m).
Definition disk_utilization_percent (m : SystemHealthMetrics) := utilization_percent (disk_used_bytes m) (disk_capacity_bytes m).

(** ** Registries *)

(** [format!] of a query and an exchange or a stage. *)
Definition metric_key (query_id : string) (id : Z) : string := query_id +:+ "_" +:+ pretty id.

(** [starts_with]. *)
Definition key_of_query (query_id key : string) : bool := match strip_prefix query_id key with Some _ => true | None => false end.

(** [retain(|key, _| !key.starts_with(query_id))]. *)
Definition retain_other {A} (query_id : string) (m : gmap string A) : gmap string A :=
  filter (fun e => key_of_query query_id e.1 = false) m.

Record LdpMetricsRegistry := mkRegistry {
  broadcast_metrics : gmap string BroadcastExchangeMetrics;
  exchange_metrics : gmap string ExchangeMetrics;
  stage_metrics : gmap string StageExecutionMetrics;
  query_metrics : gmap string QueryExecutionMetrics;
  health_metrics : gmap WorkerId SystemHealthMetrics }.

Definition LdpMetricsRegistry_new : LdpMetricsRegistry := mkRegistry ∅ ∅ ∅ ∅ ∅.

(** [ExchangeMetricsRegistry]: the two maps of the exchanges. *)
Record ExchangeMetricsRegistry := mkExchangeRegistry {
  er_broadcast : gmap string BroadcastExchangeMetrics; er_exchange : gmap string ExchangeMetrics }.

Definition ExchangeMetricsRegistry_new : ExchangeMetricsRegistry := mkExchangeRegistry ∅ ∅.

Definition register_broadcast_metrics (r : ExchangeMetricsRegistry) (m : BroadcastExchangeMetrics) : ExchangeMetricsRegistry :=
  mkExchangeRegistry (<[metric_key (bm_query_id m) (bm_exchange_id m) := m]> (er_broadcast r)) (er_exchange r).
Definition register_exchange_metrics (r : ExchangeMetricsRegistry) (m : ExchangeMetrics) : ExchangeMetricsRegistry :=
  mkExchangeRegistry (er_broadcast r) (<[metric_key (em_query_id m) (em_exchange_id m) := m]> (er_exchange r)).
Definition get_broadcast_metrics (r : ExchangeMetricsRegistry) (query_id : string) (e : ExchangeId) := er_broadcast r !! metric_key query_id e.
Definition get_exchange_metrics (r : ExchangeMetricsRegistry) (query_id : string) (e : ExchangeId) := er_exchange r !! metric_key query_id e.

Section iteration.
Context (iter : forall A, gmap string A -> list (string * A)).

Definition of_query {A} (query_of : A -> string) (query_id : string) (m : gmap string A) : list A :=
  List.filter (fun a => bool_decide (query_of a = query_id)) (map snd (iter _ m)).

Definition get_query_broadcast_metrics (r : ExchangeMetricsRegistry) (query_id : string) := of_query bm_query_id query_id (er_broadcast r).
Definition get_query_exchange_metrics (r : ExchangeMetricsRegistry) (query_id : string) := of_query em_query_id query_id (er_exchange r).
Definition get_query_stage_metrics (r : LdpMetricsRegistry) (query_id : string) := of_query sm_query_id query_id (stage_metrics r).
End iteration.

Definition clear_query_metrics (r : ExchangeMetricsRegistry) (query_id : string) : ExchangeMetricsRegistry :=
  mkExchangeRegistry (retain_other query_id (er_broadcast r)) (retain_other query_id (er_exchange r)).

Definition register_stage_metrics (r : LdpMetricsRegistry) (m : StageExecutionMetrics) : LdpMetricsRegistry :=
  mkRegistry (broadcast_metrics r) (exchange_metrics r) (<[metric_key (sm_query_id m) (sm_stage_id m) := m]> (stage_metrics r))
    (query_metrics r) (health_metrics r).
Definition register_query_metrics (r : LdpMetricsRegistry) (m : QueryExecutionMetrics) : LdpMetricsRegistry :=
  mkRegistry (broadcast_metrics r) (exchange_metrics r) (stage_metrics r) (<[qm_query_id m := m]> (query_metrics r)) (health_metrics r).
Definition register_health_metrics (r : LdpMetricsRegistry) (m : SystemHealthMetrics) : LdpMetricsRegistry :=
  mkRegistry (broadcast_metrics r) (exchange_metrics r) (stage_metrics r) (query_metrics r) (<[hm_worker_id m := m]> (health_metrics r)).
Definition get_stage_metrics (r : LdpMetricsRegistry) (query_id : string) (s : StageId) := stage_metrics r !! metric_key query_id s.
Definition get_query_metrics (r : LdpMetricsRegistry) (query_id : string) := query_metrics r !! query_id.
Definition get_health_metrics (r : LdpMetricsRegistry) (worker_id : WorkerId) := health_metrics r !! worker_id.

Definition ldp_clear_query_metrics (r : LdpMetricsRegistry) (query_id : string) : LdpMetricsRegistry :=
  mkRegistry (retain_other query_id (broadcast_metrics r)) (retain_other query_id (exchange_metrics r))
    (retain_other query_id (stage_metrics r)) (delete query_id (query_metrics r)) (health_metrics r).

(** ** Keys *)

Lemma all_digits_string c s : all_digits (String c s) = bool_decide (is_Some (digit_of c)) && all_digits s.
Proof. reflexivity. Qed.

Lemma split_key a b c d : all_digits b = true -> all_digits d = true -> a +:+ "_" +:+ b = c +:+ "_" +:+ d -> a = c /\ b = d.
Proof.
  assert (Hno : forall x y, all_digits (x +:+ "_" +:+ y) = true -> False).
  { induction x as [|h x IH]; intros y Hd; [by vm_compute in Hd|]. change (all_digits (String h (x +:+ "_" +:+ y)) = true) in Hd. rewrite all_digits_string, andb_true_iff in Hd. by eapply IH, Hd. }
  revert c. induction a as [|h a IH]; intros [|h' c] Hb Hd E; simpl in E.
  - injection E as E. change (b = d) in E. by subst.
  - exfalso. injection E as _ E. change (b = c +:+ "_" +:+ d) in E. subst b. by apply (Hno c d).
  - exfalso. injection E as _ E. change (a +:+ "_" +:+ b = d) in E. subst d. by apply (Hno a b).
  - injection E as -> E. by destruct (IH c Hb Hd E) as [-> ->].
Qed.

Lemma pretty_id z : 0 <= z -> pretty z = pretty (Z.to_N z).
Proof. intros Hz. unfold pretty at 1, pretty_Z. by destruct z; try lia. Qed.

(** The query and the number can be read off the key. *)
Lemma metric_key_inj q1 id1 q2 id2 : 0 <= id1 -> 0 <= id2 -> metric_key q1 id1 = metric_key q2 id2 -> q1 = q2 /\ id1 = id2.
Proof.
  intros H1 H2 E. unfold metric_key in E. rewrite !pretty_id in E by done.
  destruct (pretty_digits (Z.to_N id1)) as (_ & D1 & V1). destruct (pretty_digits (Z.to_N id2)) as (_ & D2 & V2).
  apply split_key in E as [-> E]; [|done..]. split; [done|].
  apply (f_equal (fun s => digits_of 0 s)) in E. rewrite V1, V2 in E. lia.
Qed.

Lemma key_of_query_spec query_id key : key_of_query query_id key = true <-> exists rest, key = query_id +:+ rest.
Proof.
  unfold key_of_query. revert key. induction query_id as [|c q IH]; intros [|d key]; simpl.
  - split; [by exists EmptyString|done].
  - split; [by exists (String d key)|done].
  - split; [done|by intros []].
  - destruct (decide (c = d)) as [->|Hne].
    + destruct (Ascii.ascii_dec d d); [|done]. rewrite IH. split; intros [rest E]; exists rest; [by rewrite E|by injection E].
    + destruct (Ascii.ascii_dec c d); [done|]. split; [done|]. intros [rest E]. by injection E.
Qed.

(** ** What the registries answer *)

(** The last of some measurements about a query and a stage. *)
Definition last_of (query_id : string) (s : StageId) (ms : list StageExecutionMetrics) : option StageExecutionMetrics :=
  last (List.filter (fun m => bool_decide (sm_query_id m = query_id) && bool_decide (sm_stage_id m = s)) ms).

(** The registry answers for a query and a stage with the last measurement
    that was registered for just these, and with none when there was none:
    the textual keys never mix up two queries or stages. *)
Theorem registry_answers_last ms query_id s :
  0 <= s -> Forall (fun m => 0 <= sm_stage_id m) ms ->
  get_stage_metrics (foldl register_stage_metrics LdpMetricsRegistry_new ms) query_id s = last_of query_id s ms.
Proof.
  intros Hs. induction ms as [|m ms IH] using rev_ind; intros Hms; [by unfold get_stage_metrics; simpl; rewrite lookup_empty|].
  apply Forall_app in Hms as [Hms Hm]. apply Forall_cons in Hm as [Hm _].
  rewrite foldl_app. simpl. unfold get_stage_metrics in *. simpl. unfold last_of. rewrite List.filter_app. simpl.
  destruct (bool_decide_reflect (sm_query_id m = query_id)) as [<-|Hq]; [destruct (bool_decide_reflect (sm_stage_id m = s)) as [<-|Hss]|]; simpl.
  - by rewrite lookup_insert_eq, last_snoc.
  - rewrite lookup_insert_ne, app_nil_r; [by apply IH|]. intros E. destruct (metric_key_inj _ _ _ _ Hm Hs E) as [_ Es]. done.
  - rewrite lookup_insert_ne, app_nil_r; [by apply IH|]. intros E. destruct (metric_key_inj _ _ _ _ Hm Hs E) as [Es _]. done.
Qed.

Lemma retain_other_lookup {A} query_id (m : gmap string A) key :
  retain_other query_id m !! key = if key_of_query query_id key then None else m !! key.
Proof.
  unfold retain_other. destruct (m !! key) as [a|] eqn:E.
  - destruct (key_of_query query_id key) eqn:Hk.
    + apply map_lookup_filter_None. right. intros x _. simpl. by rewrite Hk.
    + by apply map_lookup_filter_Some.
  - rewrite map_lookup_filter_None_2 by (by left). by destruct (key_of_query query_id key).
Qed.

(** After a query is cleared nothing is kept about it, and what is kept about
    the workers and the queries that do not start with its name is as before. *)
Theorem clear_forgets_query r query_id :
  let r' := ldp_clear_query_metrics r query_id in
  get_query_metrics r' query_id = None /\ (forall s, get_stage_metrics r' query_id s = None) /\
  (forall e, broadcast_metrics r' !! metric_key query_id e = None /\ exchange_metrics r' !! metric_key query_id e = None) /\
  health_metrics r' = health_metrics r /\
  (forall other s, key_of_query query_id (metric_key other s) = false -> get_stage_metrics r' other s = get_stage_metrics r other s) /\
  (forall other, other <> query_id -> get_query_metrics r' other = get_query_metrics r other).
Proof.
  assert (Hown : forall id, key_of_query query_id (metric_key query_id id) = true).
  { intros id. apply key_of_query_spec. by eexists. }
  simpl. unfold get_query_metrics, get_stage_metrics. simpl. split_and!; try done.
  - apply lookup_delete_eq.
  - intros s. by rewrite retain_other_lookup, Hown.
  - intros e. by rewrite !retain_other_lookup, Hown.
  - intros other s Hk. by rewrite retain_other_lookup, Hk.
  - intros other Hne. by apply lookup_delete_ne.
Qed.

(** The query [q1] also clears the stages of [q10], which is still running. *)
Theorem clear_takes_other_queries :
  let r := register_stage_metrics LdpMetricsRegistry_new (StageExecutionMetrics_new 0 3 "q10" "w1") in
  is_Some (get_stage_metrics r "q10" 3) /\ get_stage_metrics (ldp_clear_query_metrics r "q1") "q10" 3 = None.
Proof. split; [by eexists|by vm_compute]. Qed.

(** A stage runs on several workers, but its key does not have the worker: only
    the measurement that is registered last is kept. *)
Theorem workers_of_stage_overwritten :
  let m worker := set_peak_memory (StageExecutionMetrics_new 0 3 "q" worker) 1024 in
  let r := foldl register_stage_metrics LdpMetricsRegistry_new [m "w1"; m "w2"] in
  sm_worker_id <$> get_stage_metrics r "q" 3 = Some "w2" /\ size (stage_metrics r) = 1%nat.
Proof. by vm_compute. Qed.

(** ** The totals of a query *)

(** One stage as it is reported. *)
Record StageReport := mkReport { rep_success : bool; rep_rows : Z; rep_bytes : Z; rep_memory : Z; rep_duration : Z }.

Definition report (m : QueryExecutionMetrics) (r : StageReport) : QueryExecutionMetrics :=
  update_stage_stats m (rep_success r) (rep_rows r) (rep_bytes r) (rep_memory r) (rep_duration r).

Definition report_sum (f : StageReport -> Z) (l : list StageReport) : Z := foldr (fun r acc => f r + acc) 0 l.
Definition report_max (f : StageReport -> Z) (l : list StageReport) : Z := foldr (fun r acc => Z.max (f r) acc) 0 l.

Lemma report_sum_snoc f l r : report_sum f (l ++ [r]) = report_sum f l + f r.
Proof. unfold report_sum. induction l as [|a l IH]; simpl; [lia|]. rewrite IH. lia. Qed.

Lemma report_max_snoc f l r : report_max f (l ++ [r]) = Z.max (report_max f l) (Z.max (f r) 0).
Proof. unfold report_max. induction l as [|a l IH]; simpl; [lia|]. rewrite IH. lia. Qed.

(** The totals of a query are those of its stages: the counts of all, of
    the successful and of the failed ones, the rows and bytes as 64-bit sums,
    and the largest memory; but the average duration is the last one. *)
Theorem query_totals_exact now query_id l :
  Z.of_nat (length l) < u64_modulus -> Forall (fun r => 0 <= rep_memory r) l ->
  let m := foldl report (QueryExecutionMetrics_new now query_id) l in
  stage_count m = Z.of_nat (length l) /\
  successful_stages m = Z.of_nat (length (List.filter rep_success l)) /\
  failed_stages m = stage_count m - successful_stages m /\
  total_rows_processed m = wrap64 (report_sum rep_rows l) /\ total_bytes_processed m = wrap64 (report_sum rep_bytes l) /\
  qm_peak_memory_bytes m = report_max rep_memory l /\
  avg_stage_duration m = default 0 (rep_duration <$> last l).
Proof.
  induction l as [|r l IH] using rev_ind; intros Hlen Hmem; [by vm_compute|].
  rewrite length_app in Hlen. simpl in Hlen. apply Forall_app in Hmem as [Hmem Hr]. apply Forall_cons in Hr as [Hr _].
  specialize (IH ltac:(lia) Hmem). cbv zeta in IH. rewrite foldl_app. cbn [foldl].
  set (m := foldl report _ l) in *. destruct IH as (Hc & Hs & Hf & Hrows & Hbytes & Hpeak & _).
  assert (Hsl : (length (List.filter rep_success l) <= length l)%nat).
  { clear. induction l as [|a l IH]; simpl; [done|]. destruct (rep_success a); simpl; lia. }
  unfold report. cbv zeta. simpl. rewrite !report_sum_snoc, report_max_snoc, length_app, last_snoc, List.filter_app, length_app. simpl.
  rewrite Hc, Hs, Hrows, Hbytes, Hpeak in *. rewrite Hf.
  assert (Hw : forall z, 0 <= z < u64_modulus -> wrap64 z = z) by (intros z Hz; unfold wrap64; by apply Z.mod_small).
  assert (Hadd : forall x y, wrap64 (wrap64 x + y) = wrap64 (x + y)) by (intros x y; unfold wrap64; by rewrite Zplus_mod_idemp_l).
  rewrite (Hw (_ + 1)) by lia. rewrite !Hadd.
  set (k := Z.of_nat (length (List.filter rep_success l))) in *. assert (0 <= k <= Z.of_nat (length l)) by (subst k; lia).
  assert (Hmax : (if report_max rep_memory l <? rep_memory r then rep_memory r else report_max rep_memory l) = Z.max (report_max rep_memory l) (Z.max (rep_memory r) 0)).
  { destruct (Z.ltb_spec (report_max rep_memory l) (rep_memory r)); lia. }
  rewrite Hmax. destruct (rep_success r); simpl.
  - rewrite (Hw (k + 1)) by lia. rewrite (Hw (k + 1 + _)) by lia.
    rewrite (proj2 (Z.ltb_lt 0 _)) by lia. subst k. split_and!; try done; lia.
  - rewrite (Hw (Z.of_nat (length l) - k + 1)) by lia. rewrite (Hw (k + _)) by lia.
    rewrite (proj2 (Z.ltb_lt 0 _)) by lia. subst k. split_and!; try done; lia.
Qed.

Lemma query_totals_exact_witness :
  let l := [mkReport true 10 100 7 5; mkReport false 3 30 9 1] in
  let m := foldl report (QueryExecutionMetrics_new 0 "q") l in
  total_rows_processed m = 13 /\ qm_peak_memory_bytes m = 9.
Proof.
  cbv zeta. destruct (query_totals_exact 0 "q" [mkReport true 10 100 7 5; mkReport false 3 30 9 1]) as (_ & _ & _ & Hr & _ & Hp & _).
  - reflexivity.
  - repeat constructor; vm_compute; discriminate.
  - split; [exact Hr|exact Hp].
Defined.

Lemma registry_answers_last_witness :
  get_stage_metrics (foldl register_stage_metrics LdpMetricsRegistry_new [StageExecutionMetrics_new 0 3 "q_1" "w"]) "q" 3 = None.
Proof. rewrite registry_answers_last; [reflexivity|lia|by repeat constructor]. Defined.

(** ** Odd measurements *)

(** Two stages of one and nine seconds are said to take one second on the average. *)
Theorem average_is_last :
  avg_stage_duration (foldl report (QueryExecutionMetrics_new 0 "q") [mkReport true 0 0 0 9000; mkReport true 0 0 0 1000]) = 1000.
Proof. reflexivity. Qed.

(** A submission that took longer than the clock has run since the measurement
    was made panics. *)
Theorem finalize_panics :
  stage_finalize 1000 (set_submission_duration (StageExecutionMetrics_new 0 3 "q" "w") 2000) = Panic.
Proof. reflexivity. Qed.

(** A success does not take an earlier error back. *)
Theorem success_keeps_error :
  let m := stage_mark_success (stage_mark_failure (StageExecutionMetrics_new 0 3 "q" "w") "timeout") in
  sm_success m = true /\ sm_error_message m = Some "timeout".
Proof. done. Qed.

(** A threshold of zero is never exceeded for the log, whatever was broadcast. *)
Theorem zero_threshold_never_warns bytes :
  let m := update_data (BroadcastExchangeMetrics_new 0 1 "q" "w" [] 0) 1 bytes in
  broadcast_warns m = false /\ is_optimal m = (bytes <=? 0).
Proof. split; reflexivity. Qed.

Example warns_at_nine_tenths :
  let m bytes := update_data (BroadcastExchangeMetrics_new 0 1 "q" "w" [] 1000) 1 bytes in
  broadcast_warns (m 899) = false /\ broadcast_warns (m 900) = true /\ is_optimal (m 1000) = true.
Proof. by vm_compute. Qed.
