(* ===== verification/Performance.v ===== *)
(** * Performance advice (ldp/executor/performance.rs)

    The optimizer reads the measurements of a finished query from the registry,
    stores what it finds slow or large as recommendations, and turns them into
    optimizations.  The order in which the hash maps are iterated, the clock and
    the printing of floats are arguments. *)

From stdpp Require Import pretty.
From S2P Require Import Prelude Float64 LdpTypes Metrics.

#[local] Open Scope Z_scope.

(** ** Data *)

Record PerformanceConfig := mkPerformanceConfig {
  slow_stage_threshold_ms : Z; high_memory_threshold_pct : f64; large_transfer_threshold_bytes : Z;
  min_sample_count : Z; history_cache_size : Z }.

Definition PerformanceConfig_default : PerformanceConfig :=
  mkPerformanceConfig 5000 (f64_of_u64 80) (100 * 1024 * 1024) 5 100.

Definition with_slow_stage_threshold (c : PerformanceConfig) (ms : Z) : PerformanceConfig :=
  mkPerformanceConfig ms (high_memory_threshold_pct c) (large_transfer_threshold_bytes c) (min_sample_count c) (history_cache_size c).
Definition with_high_memory_threshold (c : PerformanceConfig) (pct : f64) : PerformanceConfig :=
  mkPerformanceConfig (slow_stage_threshold_ms c) pct (large_transfer_threshold_bytes c) (min_sample_count c) (history_cache_size c).

Inductive OptimizationSuggestion :=
| SlowStageExecution (stage_id : StageId) (duration_ms threshold_ms : Z)
| HighStageMemoryUsage (stage_id : StageId) (memory_mb threshold_pct : f64)
| LowProcessingRate (stage_id : StageId) (rows_per_second suggested_rate : f64)
| QueryTooSlow (duration_ms threshold_ms : Z)
| HighMemoryUsage (memory_mb threshold_pct : f64).

Inductive AppliedOptimization :=
| IncreasedParallelism (stage_id : StageId) (reason : string)
| MemoryOptimization (stage_id : StageId) (memory_saved_mb : f64) (reason : string)
| ProcessingOptimization (stage_id : StageId) (improvement_factor : f64) (reason : string).

Record OptimizationRecommendation := mkRecommendation {
  or_query_id : string; suggestions : list OptimizationSuggestion; or_timestamp : Z }.

Record PerformanceHistory := mkHistory {
  ph_query_id : string; ph_stage_id : StageId; ph_execution_duration : Z; ph_memory_usage_bytes : Z;
  ph_input_size_bytes : Z; ph_output_size_bytes : Z; ph_timestamp : Z }.

(** The registry is shared; it is an argument of the operations that read it. *)
Record PerformanceOptimizer := mkOptimizer {
  po_config : PerformanceConfig;
  history_cache : gmap string PerformanceHistory;
  recommendations : gmap string OptimizationRecommendation }.

Definition optimizer_with_config (c : PerformanceConfig) : PerformanceOptimizer := mkOptimizer c ∅ ∅.
Definition PerformanceOptimizer_new : PerformanceOptimizer := optimizer_with_config PerformanceConfig_default.

Record PerformanceSummary := mkSummary {
  ps_query_id : string; total_stages : Z; slow_stages : Z; avg_execution_time_ms : Z; peak_memory_mb : f64;
  recommendations_count : Z }.

(** ** Analysis *)

Definition f64_0_2 : f64 := f64_div (f64_of_u64 1) (f64_of_u64 5).

(** [bytes as f64 / (1024.0 * 1024.0)]. *)
Definition megabytes (bytes : Z) : f64 := f64_div (f64_of_u64 bytes) (f64_mul (f64_of_u64 1024) (f64_of_u64 1024)).

Definition optional {A} (b : bool) (a : A) : list A := if b then [a] else [].

Definition query_suggestions (c : PerformanceConfig) (m : QueryExecutionMetrics) : list OptimizationSuggestion :=
  let ms := as_millis (total_duration m) in
  let mb := megabytes (qm_peak_memory_bytes m) in
  optional (slow_stage_threshold_ms c <? ms) (QueryTooSlow ms (slow_stage_threshold_ms c)) ++
  optional (f64_lt (high_memory_threshold_pct c) mb) (HighMemoryUsage mb (high_memory_threshold_pct c)).

Definition rows_per_second (m : StageExecutionMetrics) : f64 :=
  f64_div (f64_of_u64 (sm_output_rows m)) (f64_div (f64_of_u64 (as_millis (execution_duration m))) (f64_of_u64 1000)).

Definition stage_suggestions (c : PerformanceConfig) (m : StageExecutionMetrics) : list OptimizationSuggestion :=
  let ms := as_millis (execution_duration m) in
  let mb := megabytes (sm_peak_memory_bytes m) in
  optional (slow_stage_threshold_ms c <? ms) (SlowStageExecution (sm_stage_id m) ms (slow_stage_threshold_ms c)) ++
  optional (f64_lt (high_memory_threshold_pct c) mb) (HighStageMemoryUsage (sm_stage_id m) mb (high_memory_threshold_pct c)) ++
  optional ((0 <? ms) && f64_lt (rows_per_second m) (f64_of_u64 1000))
    (LowProcessingRate (sm_stage_id m) (rows_per_second m) (f64_of_u64 10000)).

(** The recommendation is stored only when there is something to say. *)
Definition store_suggestions (now : Z) (o : PerformanceOptimizer) (key query_id : string) (l : list OptimizationSuggestion) : PerformanceOptimizer :=
  match l with
  | [] => o
  | _ => mkOptimizer (po_config o) (history_cache o) (<[key := mkRecommendation query_id l now]> (recommendations o))
  end.

Definition analyze_query_level_performance (now : Z) (o : PerformanceOptimizer) (m : QueryExecutionMetrics) : PerformanceOptimizer :=
  store_suggestions now o (qm_query_id m) (qm_query_id m) (query_suggestions (po_config o) m).

Definition analyze_stage_performance (now : Z) (o : PerformanceOptimizer) (m : StageExecutionMetrics) : PerformanceOptimizer :=
  store_suggestions now o (metric_key (sm_query_id m) (sm_stage_id m)) (sm_query_id m) (stage_suggestions (po_config o) m).

Section optimizer.
Context (iter : forall A, gmap string A -> list (string * A)) (show_f64 : f64 -> string).

Definition analyze_query_performance (now : Z) (r : LdpMetricsRegistry) (o : PerformanceOptimizer) (query_id : string) : PerformanceOptimizer :=
  let o := match get_query_metrics r query_id with Some m => analyze_query_level_performance now o m | None => o end in
  foldl (analyze_stage_performance now) o (get_query_stage_metrics iter r query_id).

Definition apply_suggestion (s : OptimizationSuggestion) : option AppliedOptimization :=
  match s with
  | SlowStageExecution stage_id duration_ms _ =>
      Some (IncreasedParallelism stage_id ("Stage took " +:+ pretty duration_ms +:+ "ms, applying parallelism optimization"))
  | HighStageMemoryUsage stage_id memory_mb _ =>
      Some (MemoryOptimization stage_id (f64_mul memory_mb f64_0_2) ("High memory usage of " +:+ show_f64 memory_mb +:+ "MB detected"))
  | LowProcessingRate stage_id rows_per_second _ =>
      Some (ProcessingOptimization stage_id (f64_of_u64 2) ("Low processing rate of " +:+ show_f64 rows_per_second +:+ " rows/sec"))
  | QueryTooSlow _ _ | HighMemoryUsage _ _ => None
  end.

Definition query_recommendations (o : PerformanceOptimizer) (query_id : string) : list OptimizationRecommendation :=
  of_query iter or_query_id query_id (recommendations o).

Definition apply_optimizations (o : PerformanceOptimizer) (query_id : string) : list AppliedOptimization :=
  concat (map (fun r => omap apply_suggestion (suggestions r)) (query_recommendations o query_id)).

Definition get_recommendation_count (o : PerformanceOptimizer) (query_id : string) : Z :=
  Z.of_nat (length (query_recommendations o query_id)).

Definition get_performance_summary (r : LdpMetricsRegistry) (o : PerformanceOptimizer) (query_id : string) : PerformanceSummary :=
  let stages := get_query_stage_metrics iter r query_id in
  let millis := map (fun m => as_millis (execution_duration m)) stages in
  mkSummary query_id (Z.of_nat (length stages))
    (Z.of_nat (length (List.filter (fun ms => slow_stage_threshold_ms (po_config o) <? ms) millis)))
    (match stages with [] => 0 | _ => foldr Z.add 0 millis / Z.of_nat (length stages) end)
    (megabytes (foldr Z.max 0 (map sm_peak_memory_bytes stages)))
    (get_recommendation_count o query_id).
End optimizer.

Definition clear_query_performance_data (o : PerformanceOptimizer) (query_id : string) : PerformanceOptimizer :=
  mkOptimizer (po_config o) (retain_other query_id (history_cache o)) (retain_other query_id (recommendations o)).

(** ** What is recommended *)

(** The stages of a query the optimizer would say something about. *)
Definition worth_saying (c : PerformanceConfig) (m : StageExecutionMetrics) : bool :=
  match stage_suggestions c m with [] => false | _ => true end.

Lemma store_config now o key q l : po_config (store_suggestions now o key q l) = po_config o.
Proof. by destruct l. Qed.

Lemma analyze_stages_lookup now ms : forall o key,
  recommendations (foldl (analyze_stage_performance now) o ms) !! key =
    match last (List.filter (fun m => worth_saying (po_config o) m && bool_decide (metric_key (sm_query_id m) (sm_stage_id m) = key)) ms) with
    | Some m => Some (mkRecommendation (sm_query_id m) (stage_suggestions (po_config o) m) now)
    | None => recommendations o !! key
    end.
Proof.
  induction ms as [|m ms IH] using rev_ind; intros o key; [done|].
  rewrite foldl_app, List.filter_app. simpl. set (o' := foldl _ o ms) in *.
  assert (Ec : po_config o' = po_config o).
  { subst o'. clear. revert o. induction ms as [|m ms IH]; intros o; simpl; [done|]. rewrite IH. apply store_config. }
  unfold analyze_stage_performance, worth_saying. rewrite Ec.
  destruct (stage_suggestions (po_config o) m) as [|s l] eqn:Es; simpl; [rewrite app_nil_r; by apply IH|].
  destruct (bool_decide_reflect (metric_key (sm_query_id m) (sm_stage_id m) = key)) as [<-|Hne].
  - by rewrite lookup_insert_eq, last_snoc, Es.
  - rewrite lookup_insert_ne by done. rewrite app_nil_r. by apply IH.
Qed.

(** After an analysis a stage of the query has exactly the suggestions its
    measurement gives under the thresholds, whatever was analysed before; a
    stage with nothing to say keeps an older recommendation. *)
Theorem analysis_exact iter now r o m :
  (forall A (g : gmap string A), Permutation (iter A g) (map_to_list g)) ->
  (forall key x, stage_metrics r !! key = Some x -> key = metric_key (sm_query_id x) (sm_stage_id x)) ->
  stage_metrics r !! metric_key (sm_query_id m) (sm_stage_id m) = Some m ->
  stage_suggestions (po_config o) m <> [] ->
  recommendations (analyze_query_performance iter now r o (sm_query_id m)) !! metric_key (sm_query_id m) (sm_stage_id m) =
    Some (mkRecommendation (sm_query_id m) (stage_suggestions (po_config o) m) now).
Proof.
  intros Hiter Hkeys Hm Hs. unfold analyze_query_performance.
  set (o1 := match get_query_metrics r (sm_query_id m) with Some _ => _ | None => _ end).
  assert (Ec : po_config o1 = po_config o) by (subst o1; destruct (get_query_metrics _ _); [apply store_config|done]).
  set (l := get_query_stage_metrics iter r (sm_query_id m)).
  assert (Hl : forall x, x ∈ l -> exists key, stage_metrics r !! key = Some x).
  { intros x Hx. subst l. unfold get_query_stage_metrics, of_query in Hx. apply list_elem_of_In, filter_In in Hx as [Hx _].
    apply list_elem_of_In, list_elem_of_fmap in Hx as ([key y] & -> & Hx). exists key. rewrite Hiter in Hx. by apply elem_of_map_to_list in Hx. }
  assert (Hin : m ∈ l).
  { subst l. unfold get_query_stage_metrics, of_query. apply list_elem_of_In, filter_In. split; [|by rewrite bool_decide_eq_true].
    apply list_elem_of_In, list_elem_of_fmap. exists (metric_key (sm_query_id m) (sm_stage_id m), m). split; [done|].
    rewrite Hiter. by apply elem_of_map_to_list. }
  rewrite analyze_stages_lookup, Ec.
  set (f := List.filter _ l).
  assert (Hf : forall x, x ∈ f -> x = m).
  { intros x Hx. subst f. apply list_elem_of_In, filter_In in Hx as [Hx Hp]. rewrite andb_true_iff, bool_decide_eq_true in Hp. destruct Hp as [_ Hk].
    apply list_elem_of_In in Hx. destruct (Hl x Hx) as [key Hkey]. pose proof (Hkeys key x Hkey) as ->. rewrite Hk in Hkey. congruence. }
  assert (Hmf : m ∈ f).
  { subst f. apply list_elem_of_In, filter_In. split; [by apply list_elem_of_In|]. rewrite bool_decide_eq_true_2 by done.
    unfold worth_saying. by destruct (stage_suggestions (po_config o) m). }
  destruct (last f) as [x|] eqn:El.
  - apply last_Some_elem_of in El. by rewrite (Hf x El).
  - apply last_None in El. rewrite El in Hmf. by apply not_elem_of_nil in Hmf.
Qed.

(** ** Concrete analyses *)

Definition perf_iter (A : Type) (m : gmap string A) : list (string * A) := map_to_list m.

(** A stage of six seconds that produced ten thousand rows. *)
Definition slow_stage (query_id : string) : StageExecutionMetrics :=
  update_output_stats (set_execution_duration (StageExecutionMetrics_new 0 1 query_id "w") 6000000000) 10000 0 1 [].

Definition demo_registry : LdpMetricsRegistry := register_stage_metrics LdpMetricsRegistry_new (slow_stage "q").

Lemma analysis_exact_witness :
  suggestions <$> recommendations (analyze_query_performance perf_iter 7 demo_registry PerformanceOptimizer_new "q") !! "q_1" =
    Some [SlowStageExecution 1 6000 5000].
Proof.
  assert (E : recommendations (analyze_query_performance perf_iter 7 demo_registry PerformanceOptimizer_new "q") !! "q_1" =
    Some (mkRecommendation "q" (stage_suggestions PerformanceConfig_default (slow_stage "q")) 7)).
  { apply (analysis_exact perf_iter 7 demo_registry PerformanceOptimizer_new (slow_stage "q")).
    - intros A g. apply Permutation_refl.
    - intros key x. unfold demo_registry, register_stage_metrics, LdpMetricsRegistry_new. simpl.
      intros [[<- <-]|[_ Hx]]%lookup_insert_Some; [reflexivity|by rewrite lookup_empty in Hx].
    - vm_compute. reflexivity.
    - vm_compute. discriminate. }
  rewrite E. vm_compute. reflexivity.
Defined.

(** Megabytes are compared with a percentage: 81 MB of memory are too much by
    the default of eighty percent, whatever the limit of the worker is. *)
Theorem megabytes_against_percent :
  let stage mb := set_peak_memory (StageExecutionMetrics_new 0 1 "q" "w") (mb * 1024 * 1024) in
  worth_saying PerformanceConfig_default (stage 80) = false /\ worth_saying PerformanceConfig_default (stage 81) = true.
Proof. by vm_compute. Qed.

(** The recommendation of a query and that of a stage share a key when the
    query is named like the stage. *)
Theorem recommendation_overwritten :
  let slow_query := query_finalize 6000000000 (QueryExecutionMetrics_new 0 "q_1") in
  let r := register_query_metrics demo_registry slow_query in
  let o := analyze_query_performance perf_iter 7 r PerformanceOptimizer_new "q" in
  get_recommendation_count perf_iter o "q" = 1 /\
  get_recommendation_count perf_iter (analyze_query_performance perf_iter 8 r o "q_1") "q" = 0.
Proof. by vm_compute. Qed.

(** A query that is analysed again when nothing is wrong any more keeps the
    recommendations of before. *)
Theorem stale_recommendation :
  let o := analyze_query_performance perf_iter 7 demo_registry PerformanceOptimizer_new "q" in
  let fixed := register_stage_metrics demo_registry (set_execution_duration (slow_stage "q") 1000000000) in
  let o' := analyze_query_performance perf_iter 8 fixed o "q" in
  slow_stages (get_performance_summary perf_iter fixed o' "q") = 0 /\
  apply_optimizations perf_iter (fun _ => EmptyString) o' "q" =
    [IncreasedParallelism 1 "Stage took 6000ms, applying parallelism optimization"].
Proof. by vm_compute. Qed.

(** What the executor analyses is a registry of its own that nothing is ever
    registered in. *)
Theorem executor_analysis_is_empty now o query_id :
  let r := LdpMetricsRegistry_new in
  analyze_query_performance perf_iter now r o query_id = o /\
  total_stages (get_performance_summary perf_iter r o query_id) = 0.
Proof. done. Qed.
