(* ===== verification/Adaptive.v ===== *)
(** * Adaptive partitioning (ldp/executor/adaptive.rs)

    The distribution of the first key column of a batch decides how many
    partitions the batch is split into; every strategy ends in the hash
    partitioning of the exchange.  The iteration order of the count map is that
    of the hash partitioning. *)

From Stdlib Require Import SpecFloat.
From stdpp Require Import pretty.
From S2P Require Import Prelude LdpTypes Float64 Arrow HashPartition.

#[local] Open Scope Z_scope.

(** ** Data *)

Record DataDistributionStats := mkDistribution {
  dd_distinct_values : Z; dd_total_rows : Z; distinct_ratio : f64; skew_factor : f64; value_histogram : list Z;
  top_values : list (string * Z) }.

Definition DataDistributionStats_new : DataDistributionStats := mkDistribution 0 0 (S754_zero false) f64_1_0 [] [].

Record AdaptivePartitioner := mkAdaptive { distinct_threshold : Z; ap_skew_threshold : f64; max_partitions : Z }.

Definition AdaptivePartitioner_new : AdaptivePartitioner := mkAdaptive 1000 f64_3_0 128.

Inductive PartitionStrategy :=
| HashStrategy (n : Z)
| RangeStrategy (num_partitions : Z)
| SkewAwareStrategy (num_partitions : Z) (top : list (string * Z)).

Definition f64_0_8 : f64 := f64_div (f64_of_u64 4) (f64_of_u64 5).

(** ** Analysis *)

Definition calculate_skew_factor (counts : list Z) : f64 :=
  match counts with
  | [] => f64_1_0
  | _ =>
      let total := foldl (fun a c => wrap64 (a + c)) 0 counts in
      let len := f64_of_u64 (Z.of_nat (length counts)) in
      let mean := f64_div (f64_of_u64 total) len in
      if (total =? 0) || SFeqb mean (S754_zero false) then f64_1_0
      else
        let square count := let diff := f64_sub (f64_of_u64 count) mean in f64_mul diff diff in
        let variance := f64_div (foldl (fun acc c => f64_add acc (square c)) (S754_zero false) counts) len in
        let std_dev := f64_sqrt variance in
        if SFltb (S754_zero false) std_dev then f64_div std_dev mean else S754_zero false
  end.

Section adaptive.
Context `{Std} `{Arrow RecordBatch Schema} `{HashOrder}.

(** The text of a value under which it is counted. *)
Definition counted_text (dt : DataType) (v : Value) : string :=
  match dt, v with
  | (Int32 | Int64), VInt z => pretty z
  | Utf8, VStr s => s
  | Float64, VFloat bits => f64_to_string bits
  | (Int32 | Int64 | Utf8 | Float64), _ => "unsupported"
  | _, _ => "other"
  end.

Definition analyze_column_distribution (call : list nat) (dt : DataType) (column : list (option Value)) (total_rows : Z)
    : DataDistributionStats :=
  let value_counts := foldl count_key ∅ (map (counted_text dt) (omap id column)) in
  let entries := map_order call (map_to_list value_counts) in
  let distinct_values := Z.of_nat (size value_counts) in
  mkDistribution distinct_values total_rows
    (if 0 <? total_rows then f64_div (f64_of_u64 distinct_values) (f64_of_u64 total_rows) else S754_zero false)
    (calculate_skew_factor (map snd entries)) []
    (take 10 (sort_by_key (fun e : string * Z => - e.2) entries)).

(** [batch.column] panics on an index out of range. *)
Definition analyze_distribution (call : list nat) (b : RecordBatch) (field_indices : list Z) : outcome DataDistributionStats :=
  match field_indices with
  | [] => Ret DataDistributionStats_new
  | i :: _ =>
      if (num_rows b =? 0)%nat then Ret DataDistributionStats_new
      else
        match fields (schema b) !! Z.to_nat i with
        | None => Panic
        | Some f =>
            Ret (analyze_column_distribution call f.2 (map (fun r : Row => default None (r !! Z.to_nat i)) (rows b))
                   (Z.of_nat (num_rows b)))
        end
  end.

(** ** Strategies *)

Definition adjust_partition_count (p : AdaptivePartitioner) (stats : DataDistributionStats) (current_count : Z) : Z :=
  if SFltb f64_0_8 (distinct_ratio stats) then Z.min (wrap32 (current_count * 2)) (max_partitions p)
  else if SFltb (distinct_ratio stats) f64_0_1 then Z.max (current_count / 2) 1
  else Z.min current_count (max_partitions p).

Definition determine_partition_strategy (p : AdaptivePartitioner) (stats : DataDistributionStats) (current : Z) : PartitionStrategy :=
  if dd_distinct_values stats =? 0 then HashStrategy current
  else if dd_distinct_values stats <? distinct_threshold p then RangeStrategy (Z.min current (max_partitions p))
  else if SFltb (ap_skew_threshold p) (skew_factor stats) then
    SkewAwareStrategy (Z.min current (max_partitions p)) (top_values stats)
  else HashStrategy (adjust_partition_count p stats current).

(** The number of partitions of a strategy: all of them hash. *)
Definition strategy_partitions (s : PartitionStrategy) : Z :=
  match s with HashStrategy n => n | RangeStrategy n => n | SkewAwareStrategy n _ => n end.

Definition adaptive_partition (p : AdaptivePartitioner) (call : list nat) (b : RecordBatch) (field_refs : list Z) (n : Z)
    : exch (list RecordBatch) :=
  match analyze_distribution call b field_refs with
  | Ret stats => hash_partition_batch call b field_refs (strategy_partitions (determine_partition_strategy p stats n))
  | Panic => Panic
  | OutOfFuel => OutOfFuel
  end.
End adaptive.

(** ** What a split keeps *)

Lemma strategy_partitions_range stats n : 0 < n < 2 ^ 31 ->
  0 < strategy_partitions (determine_partition_strategy AdaptivePartitioner_new stats n) <= Z.max n 128.
Proof.
  intros Hn. unfold determine_partition_strategy, adjust_partition_count. simpl.
  assert (wrap32 (n * 2) = n * 2) by (unfold wrap32, u32_modulus; apply Z.mod_small; lia).
  pose proof (Z.div_pos n 2 ltac:(lia) ltac:(lia)). pose proof (Z.div_le_upper_bound n 2 n ltac:(lia) ltac:(lia)).
  repeat (destruct (_ =? _) || destruct (_ <? _) || destruct (SFltb _ _)); simpl; lia.
Qed.

Section exact.
Context `{Std} `{ArrowLaws RecordBatch Schema} `{HashOrder}.

Lemma analyze_distribution_total call (b : RecordBatch) field_refs : hashable (fields (schema b)) field_refs = true ->
  exists stats, analyze_distribution call b field_refs = Ret stats.
Proof.
  unfold hashable, analyze_distribution. destruct field_refs as [|i l]; simpl; [by eexists|].
  destruct (_ =? 0)%nat; [by eexists|]. destruct (fields (schema b) !! Z.to_nat i); [by eexists|done].
Qed.

(** An adaptive split of a batch without skew is a hash split: into at
    least one partition and at most as many as were asked for or a hundred and
    twenty-eight, with every row in the partition of its key, none lost and
    none made up. *)
Theorem adaptive_split_exact call (b : RecordBatch) field_refs n :
  unskewed call b field_refs = true -> hashable (fields (schema b)) field_refs = true -> 0 < n < 2 ^ 31 ->
  exists ps, adaptive_partition AdaptivePartitioner_new call b field_refs n = Ret (Ok ps) /\
    (0 < length ps <= Z.to_nat (Z.max n 128))%nat /\
    split_by_route b field_refs (Z.of_nat (length ps)) ps /\ concat (map rows ps) ≡ₚ rows b.
Proof.
  intros Hu Hh Hn. unfold adaptive_partition. destruct (analyze_distribution_total call b field_refs Hh) as [stats ->].
  pose proof (strategy_partitions_range stats n Hn) as Hk. set (k := strategy_partitions _) in *.
  assert (Hk2 : 0 < k < u32_modulus) by (unfold u32_modulus; lia).
  destruct (hash_partition_batch_ok call b field_refs k Hu Hh Hk2) as (ps & -> & Hps).
  exists ps. split; [done|]. assert (Hl : length ps = Z.to_nat k) by apply Hps.
  split; [lia|]. rewrite Hl, Z2Nat.id by lia. split; [done|]. by eapply split_rows_perm.
Qed.
End exact.

(** ** Concrete splits *)

#[local] Existing Instance demo_std.
#[local] Existing Instance demo_order.
#[local] Existing Instance Table.arrow.
#[local] Existing Instance Table.laws.

Lemma adaptive_split_exact_witness :
  exists ps, adaptive_partition AdaptivePartitioner_new [] demo_small [0] 3 = Ret (Ok ps) /\ concat (map rows ps) ≡ₚ rows demo_small.
Proof.
  destruct (adaptive_split_exact [] demo_small [0] 3) as (ps & E & _ & _ & Hp); [vm_compute; reflexivity..|split; reflexivity|].
  exists ps. split; [exact E|exact Hp].
Defined.

(** A thousand rows with keys of their own. *)
Definition demo_distinct : Table.t := Table.mk demo_schema (map (fun i => demo_row (Z.of_nat i) "y") (seq 0 1000)).

(** The partitions a batch is split into. *)
Definition partitions_of (b : Table.t) (n : Z) : outcome Z :=
  match analyze_distribution [] b [0] with
  | Ret stats => Ret (strategy_partitions (determine_partition_strategy AdaptivePartitioner_new stats n))
  | Panic => Panic
  | OutOfFuel => OutOfFuel
  end.

(** Every batch has its own number of partitions: rows with the same key in two
    batches, or on the two sides of a join, go to different partitions. *)
Theorem adaptive_separates_equal_keys :
  partitions_of demo_small 16 = Ret 16 /\ partitions_of demo_distinct 16 = Ret 32 /\
  exists r, r ∈ rows demo_small /\ route demo_schema [0] 16 r <> route demo_schema [0] 32 r.
Proof.
  split; [vm_compute; reflexivity|]. split; [vm_compute; reflexivity|].
  assert (E : exists r, r ∈ rows demo_small /\ bool_decide (route demo_schema [0] 16 r = route demo_schema [0] 32 r) = false).
  { apply Exists_exists. apply (bool_decide_eq_true_1 (Exists _ _)). vm_compute. reflexivity. }
  destruct E as (r & Hr & E). exists r. split; [done|]. by apply bool_decide_eq_false in E.
Qed.

(** More partitions than the maximum are cut to it without an error. *)
Theorem request_cut : partitions_of demo_small 200 = Ret 128.
Proof. vm_compute. reflexivity. Qed.

(** Twice 2^31 is zero in 32 bits, and a split into no partitions panics. *)
Theorem doubled_count_overflows :
  partitions_of demo_distinct (2 ^ 31) = Ret 0 /\ adaptive_partition AdaptivePartitioner_new [] demo_distinct [0] (2 ^ 31) = Panic.
Proof. split; vm_compute; reflexivity. Qed.

(** A uniform distribution has the factor zero when it is computed, and one when
    it is not. *)
Theorem uniform_factor_differs :
  calculate_skew_factor [10; 10; 10; 10] = S754_zero false /\ skew_factor DataDistributionStats_new = f64_1_0.
Proof. split; vm_compute; reflexivity. Qed.

(** A column where one value has all but a few rows is not handled as skewed
    when it has few values. *)
Theorem skew_needs_many_values :
  match analyze_distribution [] demo_skewed [0] with
  | Ret stats => determine_partition_strategy AdaptivePartitioner_new stats 16 = RangeStrategy 16 /\
                 SFltb f64_3_0 (skew_factor stats) = true
  | _ => False
  end.
Proof. vm_compute. split; reflexivity. Qed.
