(* ===== verification/StorageMetadata.v ===== *)
(** * Placements from the storage engine (ldp/planner/storage_metadata.rs)

    The planner's placements of a worker are refreshed from its storage engine:
    the epochs of the memory statistics, with the time ranges of the epoch
    views.  The answers of the engine are arguments; the hash sets and maps are
    gone through in the order of their keys, which does not matter because
    every step concerns one dataset. *)

From S2P Require Import Prelude LdpTypes Metadata Arrow DuckDb EpochEngine.

#[local] Open Scope Z_scope.

(** ** Registering the epochs of a worker *)

(** [register_from_epoch_view]. *)
Definition placement_of_view (dataset_id : string) (view : EpochView) (worker_id : WorkerId) (rows bytes : Z) : Cluster.EpochPlacement :=
  Cluster.mkPlacement (ev_epoch_id view) dataset_id worker_id (ev_time_range view) (EpochStats_exact rows bytes).

Definition register_from_epoch_view (m : Cluster.t) (dataset_id : string) (view : EpochView) (worker_id : WorkerId) (rows bytes : Z) : Cluster.t :=
  Cluster.register_epoch m (placement_of_view dataset_id view worker_id rows bytes).

(** Sorting every dataset. *)
Definition sort_datasets (m : Cluster.t) : Cluster.t :=
  foldl Cluster.sort_epochs_by_time m (elements (dom (Cluster.dataset_epochs m))).

Definition from_memory_stats (memory_stats : MemoryStats) (epoch_views : gmap string (EpochView * Z * Z)) (worker_id : WorkerId) : Cluster.t :=
  sort_datasets
    (foldl (fun m stat =>
       match epoch_views !! (ms_dataset_id stat +:+ "__" +:+ ms_epoch_id stat) with
       | Some (view, rows, bytes) => register_from_epoch_view m (ms_dataset_id stat) view worker_id rows bytes
       | None =>
           Cluster.register_epoch m (Cluster.mkPlacement (ms_epoch_id stat) (ms_dataset_id stat) worker_id (0, u64_max)
             (EpochStats_exact (ms_rows_count stat) (ms_approx_bytes stat)))
       end) (Cluster.with_local_worker worker_id) (ms_epochs memory_stats)).

(** ** The adapter *)

Record StorageEngineMetadata := mkStorageMetadata { cached_metadata : Cluster.t; sm_worker : WorkerId }.

Definition StorageEngineMetadata_new (worker_id : WorkerId) : StorageEngineMetadata :=
  mkStorageMetadata (Cluster.with_local_worker worker_id) worker_id.

(** The views of the epochs by dataset and epoch; a dataset that cannot be
    listed has none. *)
Definition views_of (list_epochs : string -> result (list EpochView) string) (datasets : list string) : gmap (string * string) EpochView :=
  foldl (fun views dataset_id =>
    match list_epochs dataset_id with
    | Ok l => foldl (fun views view => <[(dataset_id, ev_epoch_id view) := view]> views) views l
    | Err _ => views
    end) ∅ datasets.

Definition datasets_to_refresh (stats : MemoryStats) : list string :=
  elements (list_to_set (map ms_dataset_id (ms_epochs stats)) : gset string).

(** The placement of an epoch of the statistics. *)
Definition placement_of (worker_id : WorkerId) (views : gmap (string * string) EpochView)
    (get_epoch_stats : string -> string -> result (option EpochStats) string) (stat : EpochMemoryStats)
    : result Cluster.EpochPlacement string :=
  let? epoch_stats := get_epoch_stats (ms_dataset_id stat) (ms_epoch_id stat) in
  Ok (Cluster.mkPlacement (ms_epoch_id stat) (ms_dataset_id stat) worker_id
        (match views !! (ms_dataset_id stat, ms_epoch_id stat) with Some view => ev_time_range view | None => (0, u64_max) end)
        (default (EpochStats_exact (ms_rows_count stat) (ms_approx_bytes stat)) epoch_stats)).

(** [refresh]: an error leaves the cache as it was. *)
Definition refresh (memory_stats : result MemoryStats string) (list_epochs : string -> result (list EpochView) string)
    (get_epoch_stats : string -> string -> result (option EpochStats) string) (m : StorageEngineMetadata)
    : StorageEngineMetadata * result unit string :=
  match memory_stats with
  | Err e => (m, Err e)
  | Ok stats =>
      let views := views_of list_epochs (datasets_to_refresh stats) in
      match collect_results (placement_of (sm_worker m) views get_epoch_stats) (ms_epochs stats) with
      | Err e => (m, Err e)
      | Ok placements =>
          (mkStorageMetadata
             (sort_datasets (foldl Cluster.register_epoch (Cluster.with_local_worker (sm_worker m)) placements)) (sm_worker m),
           Ok tt)
      end
  end.

Definition sem_epochs_for (m : StorageEngineMetadata) := Cluster.epochs_for (cached_metadata m).
Definition sem_worker_for (m : StorageEngineMetadata) := Cluster.worker_for (cached_metadata m).
Definition sem_stats_for (m : StorageEngineMetadata) := Cluster.stats_for (cached_metadata m).
Definition sem_table_scan_stats (m : StorageEngineMetadata) := Cluster.get_table_scan_stats (cached_metadata m).

(** ** What is registered *)

Definition placement_key (p : Cluster.EpochPlacement) : string * string := (Cluster.dataset_id p, Cluster.epoch_id p).
Definition in_dataset (ds : string) (p : Cluster.EpochPlacement) : bool := bool_decide (Cluster.dataset_id p = ds).

Lemma register_placements (w : WorkerId) (ps : list Cluster.EpochPlacement) : NoDup (map placement_key ps) ->
  let m := foldl Cluster.register_epoch (Cluster.with_local_worker w) ps in
  (forall k p, Cluster.epochs m !! k = Some p <-> p ∈ ps /\ placement_key p = k) /\
  (forall ds, default [] (Cluster.dataset_epochs m !! ds) = map Cluster.epoch_id (List.filter (in_dataset ds) ps)).
Proof.
  induction ps as [|p ps IH] using rev_ind; intros Hnd.
  { split; [|done]. intros k p. simpl. rewrite lookup_empty. split; [done|]. intros [Hp _]. by apply not_elem_of_nil in Hp. }
  change (map placement_key (ps ++ [p])) with (placement_key <$> (ps ++ [p])) in Hnd. rewrite fmap_app in Hnd.
  apply NoDup_app in Hnd as (Hnd & Hnew & _). destruct (IH Hnd) as [He Hd]. clear IH.
  rewrite foldl_app. cbn [foldl]. set (m := foldl _ _ ps) in *. split.
  - intros k q. simpl. destruct (decide (placement_key p = k)) as [<-|Hne].
    + unfold placement_key at 1. rewrite lookup_insert_eq. rewrite elem_of_app, list_elem_of_singleton. split.
      * intros [= <-]. by split; [right|].
      * intros [[Hq| ->] Hk]; [|done]. exfalso. apply (Hnew (placement_key p)); [|set_solver].
        rewrite <- Hk. by apply list_elem_of_fmap_2.
    + rewrite lookup_insert_ne by done. rewrite He, elem_of_app, list_elem_of_singleton. split; [naive_solver|].
      intros [[Hq| ->] Hk]; done.
  - intros ds. simpl. rewrite List.filter_app, map_app. simpl. unfold in_dataset at 2. destruct (bool_decide_reflect (Cluster.dataset_id p = ds)) as [<-|Hne].
    + rewrite lookup_insert_eq. simpl. by rewrite Hd.
    + rewrite lookup_insert_ne by done. by rewrite Hd, app_nil_r.
Qed.

(** Sorting some datasets keeps the placements and what each dataset has. *)
Lemma sort_all (L : list string) : forall m : Cluster.t,
  let m' := foldl Cluster.sort_epochs_by_time m L in
  Cluster.epochs m' = Cluster.epochs m /\
  (forall ds, default [] (Cluster.dataset_epochs m' !! ds) ≡ₚ default [] (Cluster.dataset_epochs m !! ds)) /\
  (forall ds, ds ∈ L \/ StronglySorted (key_le (Cluster.start_time m ds)) (default [] (Cluster.dataset_epochs m !! ds)) ->
     StronglySorted (key_le (Cluster.start_time m ds)) (default [] (Cluster.dataset_epochs m' !! ds))).
Proof.
  induction L as [|d L IH]; intros m; cbn [foldl].
  { split_and!; try done. intros ds [Hds|?]; [by apply not_elem_of_nil in Hds|done]. }
  destruct (IH (Cluster.sort_epochs_by_time m d)) as (He & Hp & Hs).
  assert (E1 : Cluster.epochs (Cluster.sort_epochs_by_time m d) = Cluster.epochs m).
  { unfold Cluster.sort_epochs_by_time. by destruct (Cluster.dataset_epochs m !! d). }
  assert (Hst : forall ds, Cluster.start_time (Cluster.sort_epochs_by_time m d) ds = Cluster.start_time m ds).
  { intros ds. unfold Cluster.start_time. by rewrite E1. }
  assert (Hd : forall ds, default [] (Cluster.dataset_epochs (Cluster.sort_epochs_by_time m d) !! ds) =
    if decide (d = ds) then sort_by_key (Cluster.start_time m ds) (default [] (Cluster.dataset_epochs m !! ds))
    else default [] (Cluster.dataset_epochs m !! ds)).
  { intros ds. unfold Cluster.sort_epochs_by_time. destruct (Cluster.dataset_epochs m !! d) as [es|] eqn:Ed; simpl; destruct (decide (d = ds)) as [<-|Hne].
    - by rewrite lookup_insert_eq, Ed.
    - by rewrite lookup_insert_ne.
    - by rewrite Ed.
    - done. }
  split; [by rewrite He|]. split.
  - intros ds. rewrite Hp, Hd. destruct (decide (d = ds)); [apply sort_by_key_perm|done].
  - intros ds Hor. rewrite <- Hst. apply Hs. rewrite Hst, Hd. destruct (decide (d = ds)) as [->|Hne].
    + right. apply sort_by_key_sorted.
    + destruct Hor as [Hin|?]; [|by right]. left. by apply elem_of_cons in Hin as [->|?].
Qed.

(** ** Refreshing *)

Definition stat_key (stat : EpochMemoryStats) : string * string := (ms_dataset_id stat, ms_epoch_id stat).

Lemma placement_of_key w views get stat p : placement_of w views get stat = Ok p ->
  placement_key p = stat_key stat /\ Cluster.worker_id p = w.
Proof. unfold placement_of. destruct (get _ _) as [o|e]; simpl; [|done]. by intros [= <-]. Qed.

Lemma placements_of_stats w views get l ps : collect_results (placement_of w views get) l = Ok ps ->
  map placement_key ps = map stat_key l /\ Forall (fun p => Cluster.worker_id p = w) ps /\
  forall p, p ∈ ps <-> exists stat, stat ∈ l /\ placement_of w views get stat = Ok p.
Proof.
  intros E. apply collect_results_Forall2 in E. induction E as [|stat p l ps Hp _ (IH1 & IH2 & IH3)]; simpl.
  - split_and!; try done. intros p. split; [by intros ?%not_elem_of_nil|]. by intros (? & ?%not_elem_of_nil & _).
  - destruct (placement_of_key _ _ _ _ _ Hp) as [Hk Hw]. rewrite Hk, IH1. split; [done|]. split; [by constructor|].
    intros q. rewrite elem_of_cons, IH3. split.
    + intros [->|(s & Hs & Hq)]; [exists stat|exists s]; (split; [set_solver|done]).
    + intros (s & Hs & Hq). apply elem_of_cons in Hs as [->|Hs]; [left; congruence|right; by exists s].
Qed.


(** ** With the engine *)

#[local] Existing Instance Table.arrow.
#[local] Existing Instance MemDb.duckdb.
#[local] Existing Instance MemDb.fields_of.
#[local] Existing Instance demo_std.

(** The answers of an engine in a state. *)
Definition engine_stats (st : DemoState) : MemoryStats := on_memory_stats demo_iter st.
Definition engine_list (st : DemoState) (dataset_id : string) : result (list EpochView) string := on_list_epochs demo_iter st dataset_id.
Definition engine_epoch_stats (st : DemoState) (dataset_id epoch_id : string) : result (option EpochStats) string :=
  Ok ((fun rb => EpochStats_exact rb.1 rb.2) <$> find_epoch_stats (engine_stats st) dataset_id epoch_id).
Definition refresh_from (st : DemoState) : StorageEngineMetadata :=
  (refresh (Ok (engine_stats st)) (engine_list st) (engine_epoch_stats st) (StorageEngineMetadata_new "w1")).1.


(** A failed answer leaves the placements of the last refresh. *)
Theorem failed_refresh_keeps memory_stats list_epochs get_epoch_stats m m' e :
  refresh memory_stats list_epochs get_epoch_stats m = (m', Err e) -> m' = m.
Proof. unfold refresh. destruct memory_stats as [s|]; [destruct (collect_results _ _)|]; congruence. Qed.

(** A dataset with two underscores in its name is planned under the part before
    them: its epochs are scanned for the other dataset, and not for itself. *)
Theorem refresh_files_under_prefix :
  let m := refresh_from (run_demo demo_engine (load "a__b" "e" "a_b_e" [Ok (id_batch [1])] 1)) in
  sem_epochs_for m "a" None None = [("e", "w1")] /\ sem_epochs_for m "a__b" None None = [].
Proof. by vm_compute. Qed.
