(* ===== verification/DuckPool.v ===== *)
(** * The connection pools (engine/duckdb/pool.rs, mod.rs)

    The settings of the shared database, and a pool of DuckDB connections, each
    to an in-memory database of its own, behind a semaphore of as many permits
    as the pool may have connections.  The pool crates are interfaces; the calls
    interleave, and an action is the next step of one of them. *)

From stdpp Require Import pretty.
From S2P Require Import Prelude.

#[local] Open Scope Z_scope.

(** ** Configuration *)

(** Durations in seconds. *)
Record DuckDbPoolConfig := mkDuckDbPoolConfig {
  dp_max_size : nat; dp_initial_size : nat; dp_connection_timeout : Z; dp_statement_timeout : Z;
  dp_memory_limit_mb : option Z; dp_enable_logging : bool }.

Definition DuckDbPoolConfig_default : DuckDbPoolConfig := mkDuckDbPoolConfig 32 4 30 60 (Some 1024) false.

Definition with_max_size (c : DuckDbPoolConfig) (size : nat) : DuckDbPoolConfig :=
  mkDuckDbPoolConfig size (dp_initial_size c) (dp_connection_timeout c) (dp_statement_timeout c) (dp_memory_limit_mb c) (dp_enable_logging c).
Definition pool_with_memory_limit (c : DuckDbPoolConfig) (mb : Z) : DuckDbPoolConfig :=
  mkDuckDbPoolConfig (dp_max_size c) (dp_initial_size c) (dp_connection_timeout c) (dp_statement_timeout c) (Some mb) (dp_enable_logging c).
Definition with_statement_timeout (c : DuckDbPoolConfig) (secs : Z) : DuckDbPoolConfig :=
  mkDuckDbPoolConfig (dp_max_size c) (dp_initial_size c) (dp_connection_timeout c) secs (dp_memory_limit_mb c) (dp_enable_logging c).

(** ** Connections *)

Class Connections (Conn : Type) := {
  open_in_memory : result Conn string;
  conn_execute : Conn -> string -> Conn * result unit string;
}.

Section manager.
Context `{Connections Conn} (config : DuckDbPoolConfig).

(** [create]: the answers to the settings are ignored. *)
Definition create : result Conn string :=
  let? conn := open_in_memory in
  let conn := match dp_memory_limit_mb config with
              | Some mb => (conn_execute conn ("SET max_memory = '" +:+ pretty mb +:+ "MB'")).1
              | None => conn
              end in
  Ok (conn_execute conn ("SET statement_timeout = '" +:+ pretty (dp_statement_timeout config) +:+ "s'")).1.

Definition recycle (conn : Conn) : Conn * result unit string :=
  match conn_execute conn "RESET ALL" with
  | (conn, Ok _) => (conn, Ok tt)
  | (conn, Err _) => (conn, Err "Reset failed")
  end.
End manager.

(** [SharedDatabase::get] and [apply_global_settings]; [conn] is the answer of
    its pool, and the connection comes back with what was executed on it. *)
Definition shared_get {Conn} (conn : result Conn string) : result Conn string :=
  match conn with Ok c => Ok c | Err e => Err ("Failed to get connection from pool: " +:+ e) end.

Definition apply_global_settings `{Connections Conn} (memory_limit_mb : option Z) (conn : result Conn string)
    : option Conn * result unit string :=
  match shared_get conn with
  | Err e => (None, Err e)
  | Ok c =>
      match match memory_limit_mb with
            | Some limit_mb => conn_execute c ("SET memory_limit = '" +:+ pretty limit_mb +:+ "MB'")
            | None => (c, Ok tt)
            end with
      | (c, Err _) => (Some c, Err "Failed to set database memory_limit")
      | (c, Ok _) =>
          match conn_execute c "SET enable_progress_bar = false" with
          | (c, Ok _) => (Some c, Ok tt)
          | (c, Err _) => (Some c, Err "Failed to disable progress bar")
          end
      end
  end.

(** ** The pool *)

(** The pool of the deadpool crate: getting a connection and giving it back. *)
Class Deadpool (P Conn : Type) := {
  pool_get : P -> P * result Conn string;
  pool_put : P -> Conn -> P;
}.

Section pool.
Context `{Deadpool P Conn} (config : DuckDbPoolConfig).

(** The connections held while the pool is warmed up. *)
Fixpoint warm_up (n : nat) (p : P) (warm_conns : list Conn) : P * list Conn :=
  match n with
  | O => (p, warm_conns)
  | S n =>
      match pool_get p with
      | (p, Ok conn) => warm_up n p (warm_conns ++ [conn])
      | (p, Err _) => warm_up n p warm_conns
      end
  end.

(** A call of [acquire]: waiting for a permit, for a connection, or with one. *)
Inductive Acquirer := AcWaiting | AcPermitted | AcHolding (conn : Conn) | AcEnded (error : option string).

Record DuckDbConnectionPool := mkDuckPool { inner : P; query_permits : nat; acquirers : list Acquirer }.

Definition DuckDbConnectionPool_new (p : P) : DuckDbConnectionPool :=
  let warm_count := Nat.min (dp_initial_size config) (dp_max_size config) in
  let '(p, warm_conns) := warm_up warm_count p [] in
  mkDuckPool (foldl pool_put p warm_conns) (dp_max_size config) [].

Inductive DuckPoolAction := Call | Advance (i : nat) | Release (i : nat) | CancelCall (i : nat).

Definition set_acquirer (st : DuckDbConnectionPool) (p : P) (permits : nat) (i : nat) (a : Acquirer) : DuckDbConnectionPool :=
  mkDuckPool p permits (<[i := a]> (acquirers st)).

(** A step that is not possible changes nothing; a dropped call or connection
    gives its permit back. *)
Definition duck_step (st : DuckDbConnectionPool) (a : DuckPoolAction) : DuckDbConnectionPool :=
  match a with
  | Call => mkDuckPool (inner st) (query_permits st) (acquirers st ++ [AcWaiting])
  | Advance i =>
      match acquirers st !! i with
      | Some AcWaiting =>
          match query_permits st with O => st | S n => set_acquirer st (inner st) n i AcPermitted end
      | Some AcPermitted =>
          match pool_get (inner st) with
          | (p, Ok conn) => set_acquirer st p (query_permits st) i (AcHolding conn)
          | (p, Err e) =>
              set_acquirer st p (S (query_permits st)) i (AcEnded (Some ("Failed to get connection from pool: " +:+ e)))
          end
      | _ => st
      end
  | Release i =>
      match acquirers st !! i with
      | Some (AcHolding conn) => set_acquirer st (pool_put (inner st) conn) (S (query_permits st)) i (AcEnded None)
      | _ => st
      end
  | CancelCall i =>
      match acquirers st !! i with
      | Some AcWaiting => set_acquirer st (inner st) (query_permits st) i (AcEnded None)
      | Some AcPermitted => set_acquirer st (inner st) (S (query_permits st)) i (AcEnded None)
      | _ => st
      end
  end.

Definition duck_run (st : DuckDbConnectionPool) (l : list DuckPoolAction) : DuckDbConnectionPool := foldl duck_step st l.

Definition has_permit (a : Acquirer) : bool := match a with AcPermitted | AcHolding _ => true | _ => false end.
Definition has_connection (a : Acquirer) : bool := match a with AcHolding _ => true | _ => false end.

(** The calls of some kind. *)
Definition calls_with (p : Acquirer -> bool) (l : list Acquirer) : nat := length (List.filter p l).

Lemma calls_insert p : forall l i old a, l !! i = Some old ->
  (calls_with p (<[i := a]> l) + Nat.b2n (p old) = calls_with p l + Nat.b2n (p a))%nat.
Proof using Type.
  unfold calls_with. induction l as [|x l IH]; intros [|i] old a E; simpl in *; try done.
  - injection E as ->. destruct (p old), (p a); simpl; lia.
  - specialize (IH i old a E). destruct (p x); simpl; lia.
Qed.

Lemma duck_step_permits st a max : (query_permits st + calls_with has_permit (acquirers st) = max)%nat ->
  (query_permits (duck_step st a) + calls_with has_permit (acquirers (duck_step st a)) = max)%nat.
Proof using Type.
  intros Hm. destruct a as [|i|i|i]; simpl.
  - unfold calls_with in *. rewrite List.filter_app, length_app. simpl. lia.
  - destruct (acquirers st !! i) as [[| |conn|e]|] eqn:E; try done.
    + destruct (query_permits st) as [|n] eqn:En; [by rewrite En|]. simpl. pose proof (calls_insert has_permit _ _ _ AcPermitted E). simpl in *. lia.
    + destruct (pool_get (inner st)) as [p [conn|e]]; simpl.
      * pose proof (calls_insert has_permit _ _ _ (AcHolding conn) E). simpl in *. lia.
      * pose proof (calls_insert has_permit _ _ _ (AcEnded (Some ("Failed to get connection from pool: " +:+ e))) E). simpl in *. lia.
  - destruct (acquirers st !! i) as [[| |conn|e]|] eqn:E; try done. simpl.
    pose proof (calls_insert has_permit _ _ _ (AcEnded None) E). simpl in *. lia.
  - destruct (acquirers st !! i) as [[| |conn|e]|] eqn:E; try done; simpl;
      pose proof (calls_insert has_permit _ _ _ (AcEnded None) E); simpl in *; lia.
Qed.

(** No permit is lost, whatever the interleaving, errors and cancellations
    included: those that are free and those of the calls are always as many as
    the pool may have connections, so no more are held, and a call that has its
    permit finds the pool with fewer connections out. *)
Theorem permits_balanced p l :
  let st := duck_run (DuckDbConnectionPool_new p) l in
  (query_permits st + calls_with has_permit (acquirers st) = dp_max_size config)%nat /\
  (calls_with has_connection (acquirers st) <= dp_max_size config)%nat /\
  (forall i, acquirers st !! i = Some AcPermitted -> (calls_with has_connection (acquirers st) < dp_max_size config)%nat).
Proof using Type.
  intros st.
  assert (Hp : (query_permits st + calls_with has_permit (acquirers st) = dp_max_size config)%nat).
  { subst st. unfold duck_run. assert (H0 : (query_permits (DuckDbConnectionPool_new p) + calls_with has_permit (acquirers (DuckDbConnectionPool_new p)) = dp_max_size config)%nat).
    { unfold DuckDbConnectionPool_new. destruct (warm_up _ _ _). simpl. unfold calls_with. simpl. lia. }
    revert H0. generalize (DuckDbConnectionPool_new p). induction l as [|a l IH]; intros st0 H0; simpl; [done|]. apply IH. by apply duck_step_permits. }
  assert (Hc : forall l' : list Acquirer, (calls_with has_connection l' <= calls_with has_permit l')%nat).
  { unfold calls_with. induction l' as [|[| |c|e] l' IH]; simpl; lia. }
  split; [done|]. split; [specialize (Hc (acquirers st)); lia|]. intros i Hi.
  assert (Hlt : (calls_with has_connection (acquirers st) < calls_with has_permit (acquirers st))%nat); [|lia].
  pose proof (calls_insert has_permit _ _ _ AcWaiting Hi) as H1. pose proof (calls_insert has_connection _ _ _ AcWaiting Hi) as H2. simpl in *.
  specialize (Hc (<[i := AcWaiting]> (acquirers st))). lia.
Qed.
End pool.

(** ** Concrete connections *)

(** A database as the statements it was given. *)
#[local] Instance recorded : Connections (list string) := {|
  open_in_memory := Ok [];
  conn_execute c s := (c ++ [s], Ok tt);
|}.

(** A memory limit bounds each database on its own: with the defaults the 32
    databases of a full pool may take 32 times the limit. *)
Theorem limit_per_connection : create DuckDbPoolConfig_default = Ok ["SET max_memory = '1024MB'"; "SET statement_timeout = '60s'"] /\
  (dp_max_size DuckDbPoolConfig_default = 32)%nat.
Proof. split; reflexivity. Qed.

(** The settings made when a connection is created are reset before it is used
    again, and not made again. *)
Theorem recycle_drops_settings : forall c, create DuckDbPoolConfig_default = Ok c -> recycle c = (c ++ ["RESET ALL"], Ok tt).
Proof. by intros c [= <-]. Qed.

Example global_settings : apply_global_settings (Some 512) (Ok []) =
  (Some ["SET memory_limit = '512MB'"; "SET enable_progress_bar = false"], Ok tt).
Proof. reflexivity. Qed.
